(* ===== verification/_CoqProject ===== *)
-Q . S2P
Prelude.v
Text.v
VersionVector.v
Merge.v
MergeSpec.v
Platform.v
PathUtil.v
IgnoreRules.v
Crypto.v
KeySetup.v
LocalDb.v
ApiClient.v
WsClient.v
FolderWatcher.v
FileSystem.v
Logger.v
Settings.v
DialogLayout.v
EngineState.v
EngineKeys.v
EngineSync.v
EngineRun.v
EngineThreads.v
EngineFacts.v
EngineWire.v
EngineFrame.v
EngineSpec.v
EngineKeySpec.v
EngineFileSpec.v
EngineSyncSpec.v
EngineEventSpec.v
EngineQueueSpec.v
EngineScanSpec.v
EngineFindSpec.v
EngineThreadSpec.v
EngineQuiet.v
EngineContentSpec.v
EnginePairSpec.v
EngineResolveSpec.v
Plugin.v
PluginSpec.v
Window.v
Dialogs.v
Managers.v
SettingsDialog.v
DialogFacts.v
DialogSpec.v
DialogKeySpec.v
SettingsDialogSpec.v
DialogViewSpec.v
