(* ===== verification/Prelude.v ===== *)
(** * Notepad++ Sync plugin: verification development

    The C++ plugin under src/plugin/src keeps the notes of one account equal on
    several computers. Files are compared by version vectors, merged line by
    line, encrypted with a key the server never sees, and exchanged over HTTP.
    This library models that program and proves what makes it correct; where it
    does not do what it means to, the theorems state what it does.

    ** The program

    The core (core/*.cpp) is pure: version vectors, the three-way merge, path
    normalization, ignore rules, encryption, key setup. Around it stand the
    database (LocalDb.cpp), the HTTP client and the web socket (ApiClient.cpp),
    the folder watcher, the settings store and the logger. SyncEngine.cpp owns
    them all and runs three threads: the worker works through the queue of
    pending operations, the poller fetches the server's feed of changes, the
    scanner walks the synced folders. Saves in the editor, watcher events and
    push events reach it as calls. PluginDefinition.cpp connects it to
    Notepad++, Dialogs.cpp to the user.

    ** The files

    - Prelude: machine integers with their wrap-around, C++ exceptions as the sum
      [outcome], the state monad [M] in which an exception keeps the changes made
      before it, lemmas and tactics. Text: the C++ string operations. Platform:
      the services outside the repository, see below. FileSystem: Win32 files and
      streams over a map from paths to contents.
    - VersionVector, Merge (with MergeSpec), PathUtil, IgnoreRules, Crypto,
      KeySetup: the files of core/ with the same names.
    - LocalDb, ApiClient, WsClient (the second half of ApiClient.cpp),
      FolderWatcher, Settings, Logger, DialogLayout: the files of src with the
      same names.
    - EngineState: the engine's fields ([World], which holds the components it
      owns), init, start, stop, status and roots. EngineKeys: sessions, keys,
      pairing, devices. EngineSync: file operations, the mapping from paths to
      keys, uploads, conflicts. EngineRun: downloads, notifications, the queue, one
      pass of each thread and the pieces it is made of, and the operations: [op]
      and [run], any operation of any thread, and [steps], runs of them with an
      environment in between. EngineThreads: the three loops as small steps, and
      the system of the engine, its threads and the callers between them.
    - EngineFacts (what an operation keeps), EngineWire (what a call puts on the
      wire, and which request a response answers), EngineFrame (which files and
      tables the background operations may change), EngineQuiet (operations that
      only read): the program logics of the engine.
    - EngineSpec, EngineKeySpec, EngineFileSpec, EngineSyncSpec, EngineEventSpec,
      EngineQueueSpec, EngineScanSpec, EngineFindSpec, EngineThreadSpec,
      EngineContentSpec, EnginePairSpec, EngineResolveSpec: the theorems about the
      engine.
    - Plugin, PluginSpec: PluginDefinition.cpp and DllMain.cpp, and that they refine
      the engine.
    - Window: the host of Dialogs.cpp, that is the helpers that create and read
      controls, [run_modal], and the user as a script ([Ui]). Dialogs: the prompt,
      sign-in, pairing and the first-run wizard. Managers: status, devices, synced
      files, conflicts. SettingsDialog: the tabbed settings. A dialog procedure is
      a function of the message it is called with (promptProc, signInProc, ...).
    - DialogFacts (the program logic of dialogs: what is followed through the modal
      loop, and the states of an open dialog), DialogSpec, DialogKeySpec,
      SettingsDialogSpec, DialogViewSpec: the theorems about the dialogs.

    A definition has the name of the function it translates; a class is a module
    with its fields as a record. A C++ string is the list of its bytes, a wide
    string the list of its units. An out-parameter is part of the result.

    ** What the theorems show

    - No data is lost: background operations stay inside the user's folders and the
      data directory (background_confined), a conflict never destroys the local
      text: the file holds it or its merge, over the last version synchronized,
      with what the server sent for this file (conflict_loses_nothing). A download
      never overwrites unsynchronized edits (download_keeps_edits), files are replaced as a whole or not at all
      (writeFileAtomic_all_or_nothing), a queued operation stays queued until it
      succeeded or was given up (attempt_keeps_queue, enqueued_op_survives), which
      twenty-seven passes of the worker bring about (queue_drains), and
      content arrives byte for byte (uploaded_content_arrives,
      install_then_quiet). A conflict is resolved the way the user chose, with what
      the server sent for this very file or accepted as its content, and leaves the
      list only then (resolve_conflict_as_chosen).
    - The key: only four operations change it and none loses it
      (master_key_safety), it survives a restart (restart_keeps_key), it reaches
      another computer only through the right code (master_key_pairing) and then
      opens there what this one encrypts (pairing_hands_over_key), and
      nothing but what it encrypted is accepted (envelope_roundtrip_authentic). A
      dialog creates or replaces it only for a user who said so (wizard_key,
      get_my_notes_consent).
    - The pure parts meet their specifications: the merge refines a diff3 overlay
      (merge_is_diff3) over minimal edit scripts, version vectors are a partial
      order with least upper bounds, normalization accepts exactly the safe paths,
      the glob loop gives a pattern its documented meaning on names.
    - The database keeps its invariant under any statement faults, the client
      never leaks or splits a token pair, the settings round trip, the watcher
      reports what its buffers say.
    - The scan finds every new file and queues nothing else
      (scan_finds_new_files); the poller keeps the pace of the settings
      (poller_pace).
    - Termination: the scan ends (scan_terminates), the glob loop ends, the three
      threads return when the engine stops, and [stop] with them (stop_returns),
      the web socket's thread ends when asked to, no nap following the look that
      saw the request (ws_run_ends), every dialog ends (dialogs_end).
    - Composition: any interleaving of the threads with each other and with the
      calls from outside is a run of the engine (threads_refine_engine), so the
      theorems about its operations hold for threads that are interrupted. The
      plugin is a run of the engine, each call making exactly the operations it
      stands for, and the shutdown is final (plugin_refines_engine); so is a
      dialog with its nested dialogs, made of the operations that this dialog may
      ask for and those of the threads behind it, between which it only looks or
      saves the settings (dialogs_refine_engine); the menu's items run their
      commands (menu_runs_commands).
    - The dialogs show what they act on: rows and entries agree in every state of
      an open list, and a button acts on the entry that is highlighted
      (lists_show_entries), the settings pass unchanged through the
      controls (settings_save_untouched), the controls lie inside the frames and
      apart (dialog_controls_fit).
    - What the program gets wrong is stated as it is: metadata of files in folders
      is rejected by every receiver (uploaded_path_rejected), a pull moves its
      cursor past changes that failed (pull_moves_cursor), a rename leaves the old
      file on the server (fs_events_queue), recovery keys may contain a NUL
      (recovery_key_display), a merge cannot see an edit that only changes line
      ends (merge_drops_eol_edit), push messages in pieces are lost
      (ws_connection_events), the mark of "Pause Sync" goes stale (pause_mark), the
      reset of the local state resets nothing (reset_resets_nothing), the outcome
      of a list's button is overwritten unseen (failures_overwritten), ignore
      patterns with two stars or a question mark leave out files that they do not
      name, and miss some that they do (globMatch_spec).

    Theorems numbered C1 and so on are the claims; the others of the modules
    named ...Spec are further results, those of modules named ...Facts serve
    them.

    ** Fuel and bounds

    Loops over a list or a counter are structural. The walk through the LCS
    table gets the sum of the two lengths, each step of it advancing in one. The
    region sweep gets two rounds more than there are edits; the glob loop's fuel is
    bounded by pattern and text (glob_loop_total). The decoder of notification
    buffers gets one more than the length of the buffer. The scanner needs two
    rounds more than there are directories, and the socket's thread one more
    than it will see [running] true; both theorems say that more fuel changes
    nothing. The modal loop takes one message a round and gets two rounds more
    than the user sends; nested dialogs only take from the same messages. Integers
    have the width of the code: version counters and sequence numbers 64 bits,
    ports 16, Windows buffer lengths 32, dialog sizes [int].

    ** What is a parameter

    Code outside the repository is a type class of [Platform] with its documented
    behaviour as a second class, and a concrete instance for the witnesses:
    [Win32Text] (case mapping, UTF-8 conversion), [CNG] (AES-GCM, SHA-256, PBKDF2),
    [DPAPI], [LocalTime], and [Json] (nlohmann::json's parse and dump; its value
    type and its members are modelled, numbers that are not integers are not).
    Servers, disks and SQLite are not functions: the client is given a script of
    replies, every file operation and every SQL statement one of outcomes, and the
    theorems hold for all scripts. The random generator is a stream of bytes.
    So is the user of the dialogs: messages to the topmost window, with operations
    of the engine's threads between them, answers to message boxes, picked paths;
    a user who left closes the window.

    ** Modelling choices

    The loops of the threads are cut wherever they look at [running_], and around
    every queued operation, pull and directory; other threads may run at each cut.
    Such a piece, and an operation that is called from outside, is one atomic
    step: the mutexes of the code and races inside a step are outside the model.
    Time is not modelled: a nap is one look at [running_], and may take as long as
    other threads please. Integers that overflow, which C++ leaves undefined, wrap
    around. Paths are compared exactly on disk, not up to case. SQLite runs a
    statement wholly or not at all. Callbacks that only announce something are
    run after the call that makes them.

    ** Not modelled

    - Of the dialogs: fonts, focus, window styles, icons and titles of message
      boxes, columns of the lists, and what Windows does with a window besides
      its controls. A message reaches a procedure as a whole; keyboard shortcuts
      arrive as the clicks that they stand for.
    - Of the plugin: getName, isUnicode, messageProc and the accessors, which have
      no state.
    - The server (src/server, Go): another program in another language, which the
      client meets as replies. The installer, the site and the tests.

    ** Next

    A wizard run against a server that answers, from the first click to the
    installed key. *)
From stdpp Require Export prelude strings gmap sorting.
From Stdlib Require Export ZArith Lia.

#[global] Open Scope Z_scope.

(** ** Strings: [std::string] as the list of its byte values *)

Abbreviation str := (list Z).
Abbreviation Bytes := (list Z).
Abbreviation wstr := (list Z).

(** A C++ string literal. *)
Fixpoint lit (s : string) : str :=
  match s with
  | EmptyString => []
  | String c s' => Z.of_N (Ascii.N_of_ascii c) :: lit s'
  end.
Arguments lit _%_string.

(** Character codes used by the sources. *)
Abbreviation NUL := 0 (only parsing).
Abbreviation TAB := 9 (only parsing).
Abbreviation LF := 10 (only parsing).
Abbreviation CR := 13 (only parsing).
Abbreviation SPACE := 32 (only parsing).
Abbreviation BANG := 33 (only parsing).
Abbreviation QUOTE := 34 (only parsing).
Abbreviation HASH := 35 (only parsing).
Abbreviation STAR := 42 (only parsing).
Abbreviation COMMA := 44 (only parsing).
Abbreviation DASH := 45 (only parsing).
Abbreviation DOT := 46 (only parsing).
Abbreviation SLASH := 47 (only parsing).
Abbreviation ZERO := 48 (only parsing).
Abbreviation COLON := 58 (only parsing).
Abbreviation QMARK := 63 (only parsing).
Abbreviation BSLASH := 92 (only parsing).
Abbreviation LBRACE := 123 (only parsing).
Abbreviation RBRACE := 125 (only parsing).

(** ** Machine integers *)

Definition INT64_MAX : Z := 9223372036854775807.
Definition INT64_MIN : Z := -9223372036854775808.
Definition is_byte (z : Z) : Prop := 0 <= z < 256.
Definition is_int64 (z : Z) : Prop := INT64_MIN <= z <= INT64_MAX.

(** Two's complement wrap of a 64-bit signed value, unsigned wraps. *)
Definition wrap_i64 (z : Z) : Z := (z + 2 ^ 63) mod 2 ^ 64 - 2 ^ 63.
Definition wrap_i32 (z : Z) : Z := (z + 2 ^ 31) mod 2 ^ 32 - 2 ^ 31.
Definition wrap_i16 (z : Z) : Z := (z + 2 ^ 15) mod 2 ^ 16 - 2 ^ 15.
Definition wrap_u64 (z : Z) : Z := z mod 2 ^ 64.
Definition wrap_u32 (z : Z) : Z := z mod 2 ^ 32.
Definition wrap_u16 (z : Z) : Z := z mod 2 ^ 16.

Lemma wrap_i64_id z : is_int64 z -> wrap_i64 z = z.
Proof.
  unfold is_int64, wrap_i64, INT64_MIN, INT64_MAX. intros H.
  rewrite Z.mod_small; lia.
Qed.

Lemma wrap_i64_range z : is_int64 (wrap_i64 z).
Proof.
  unfold is_int64, wrap_i64, INT64_MIN, INT64_MAX.
  pose proof (Z.mod_pos_bound (z + 2 ^ 63) (2 ^ 64) ltac:(lia)). lia.
Qed.

Lemma wrap_i32_id z : - 2 ^ 31 <= z < 2 ^ 31 -> wrap_i32 z = z.
Proof. intros. unfold wrap_i32. rewrite Z.mod_small; lia. Qed.

Lemma wrap_u32_id z : 0 <= z < 2 ^ 32 -> wrap_u32 z = z.
Proof. intros. unfold wrap_u32. by rewrite Z.mod_small. Qed.

Lemma wrap_u64_id z : 0 <= z < 2 ^ 64 -> wrap_u64 z = z.
Proof. intros. unfold wrap_u64. by rewrite Z.mod_small. Qed.

(** ** C++ exceptions *)

Inductive exn :=
  | out_of_range          (* std::out_of_range *)
  | invalid_argument      (* std::invalid_argument *)
  | runtime_error         (* std::runtime_error *)
  | json_type_error (id : Z)  (* nlohmann::json::type_error, with its id *)
  | json_parse_error      (* nlohmann::json::parse_error *)
  | access_violation.     (* not an exception: a null pointer is dereferenced *)

#[export] Instance exn_eq_dec : EqDecision exn.
Proof. solve_decision. Defined.

Inductive outcome (A : Type) :=
  | Ok (a : A)
  | Throw (e : exn).
Arguments Ok {A} _.
Arguments Throw {A} _.

#[export] Instance outcome_eq_dec {A} `{EqDecision A} : EqDecision (outcome A).
Proof. solve_decision. Defined.

Definition obind {A B} (m : outcome A) (k : A -> outcome B) : outcome B :=
  match m with Ok a => k a | Throw e => Throw e end.

Declare Scope outcome_scope.
Delimit Scope outcome_scope with outcome.
Notation "'let!' x ':=' m 'in' k" := (obind m (fun x => k))
  (at level 10, x pattern, m at level 100, k at level 200) : outcome_scope.

Lemma obind_Ok {A B} (m : outcome A) (k : A -> outcome B) b :
  obind m k = Ok b <-> exists a, m = Ok a /\ k a = Ok b.
Proof. destruct m as [a|e]; simpl; [naive_solver|]. split; [done|]. by intros (a&?&?). Qed.

(** ** Effects: a state threaded through calls that may throw

    An exception keeps the changes made before it, as C++ does. *)

Definition M (S A : Type) : Type := S -> outcome A * S.

Section monad.
Context {S : Type}.

Definition ret {A} (a : A) : M S A := fun s => (Ok a, s).
Definition throw {A} (e : exn) : M S A := fun s => (Throw e, s).

Definition bind {A B} (m : M S A) (k : A -> M S B) : M S B := fun s =>
  match m s with
  | (Ok a, s') => k a s'
  | (Throw e, s') => (Throw e, s')
  end.

(** A pure call that may throw. *)
Definition lift {A} (o : outcome A) : M S A := fun s => (o, s).

Definition when (b : bool) (m : M S unit) : M S unit := if b then m else ret tt.

(** The program state, and a change of it. *)
Definition gets {A} (f : S -> A) : M S A := fun s => (Ok (f s), s).
Definition modify (f : S -> S) : M S unit := fun s => (Ok tt, f s).

(** [for (auto& x : l) body(x)] without early exit. *)
Fixpoint for_each {A} (l : list A) (body : A -> M S unit) : M S unit :=
  match l with
  | [] => ret tt
  | x :: l' => bind (body x) (fun _ => for_each l' body)
  end.

Lemma bind_Ok {A B} (m : M S A) (k : A -> M S B) s b s' :
  bind m k s = (Ok b, s') <-> exists a s1, m s = (Ok a, s1) /\ k a s1 = (Ok b, s').
Proof.
  unfold bind. destruct (m s) as [[a|e] s1]; [|split; [done|by intros (?&?&?&?)]].
  split; [eauto|]. by intros (?&?&[= <- <-]&?).
Qed.

Lemma ret_Ok {A} (a b : A) s s' : ret a s = (Ok b, s') <-> b = a /\ s' = s.
Proof. unfold ret. split; [by intros [= <- <-]|by intros [-> ->]]. Qed.

Lemma bind_run {A B} (m : M S A) (k : A -> M S B) s a s1 :
  m s = (Ok a, s1) -> bind m k s = k a s1.
Proof. unfold bind. by intros ->. Qed.
End monad.

(** A call that works on one part of the state. *)
Definition zoom {S W A} (get : W -> S) (put : S -> W -> W) (m : M S A) : M W A := fun w =>
  let (r, s) := m (get w) in (r, put s w).

Declare Scope monad_scope.
Delimit Scope monad_scope with monad.
Notation "'let*' x ':=' m 'in' k" := (bind m (fun x => k))
  (at level 10, x pattern, m at level 100, k at level 200) : monad_scope.
Notation "m ;; k" := (bind m (fun _ => k))
  (at level 100, right associativity, k at level 200) : monad_scope.

(** ** Automation *)

Create HintDb npsync discriminated.
Create Rewrite HintDb npsync.
#[export] Hint Constants Opaque : npsync.
#[export] Hint Resolve wrap_i64_id wrap_i64_range : npsync.

(** Split every boolean test and [match] of the goal or of a hypothesis. *)
Ltac split_ifs :=
  repeat match goal with
  | |- context [if ?b then _ else _] => let E := fresh "E" in destruct b eqn:E
  | H : context [if ?b then _ else _] |- _ => let E := fresh "E" in destruct b eqn:E
  end.

(** Turn boolean comparisons into propositions [lia] can use. *)
Ltac to_prop :=
  repeat match goal with
  | H : (_ && _) = true |- _ => apply andb_true_iff in H; destruct H
  | H : (_ || _) = false |- _ => apply orb_false_iff in H; destruct H
  | H : (_ || _) = true |- _ => apply orb_true_iff in H
  | H : (_ && _) = false |- _ => apply andb_false_iff in H
  | H : negb _ = true |- _ => apply negb_true_iff in H
  | H : negb _ = false |- _ => apply negb_false_iff in H
  | H : (_ =? _) = true |- _ => apply Z.eqb_eq in H
  | H : (_ =? _) = false |- _ => apply Z.eqb_neq in H
  | H : (_ <=? _) = true |- _ => apply Z.leb_le in H
  | H : (_ <=? _) = false |- _ => apply Z.leb_gt in H
  | H : (_ <? _) = true |- _ => apply Z.ltb_lt in H
  | H : (_ <? _) = false |- _ => apply Z.ltb_ge in H
  end.

(** Evaluate a closed goal. *)
Ltac compute_goal := vm_compute; reflexivity.

(** Decide a closed decidable proposition by evaluation. *)
Ltac decide_goal := apply (bool_decide_unpack _); vm_compute; exact I.

(** ** Generic list lemmas *)

Section lists.
Context {A : Type}.
Implicit Types l k : list A.

(** The half-open slice [l[a, b)], clipped to the list as the loops
    [for (k = a; k < b && k < n; ++k)] clip it. *)
Definition slice (a b : nat) l : list A := take (b - a) (drop a l).

Lemma slice_nil_ge a b l : (b <= a)%nat -> slice a b l = [].
Proof. intros. unfold slice. replace (b - a)%nat with 0%nat by lia. done. Qed.

Lemma slice_refl a l : slice a a l = [].
Proof. by apply slice_nil_ge. Qed.

Lemma slice_app a b c l :
    (a <= b)%nat -> (b <= c)%nat -> slice a b l ++ slice b c l = slice a c l.
Proof.
    intros. unfold slice.
    replace (c - a)%nat with ((b - a) + (c - b))%nat by lia.
    rewrite <- take_take_drop, drop_drop. by replace (a + (b - a))%nat with b by lia.
Qed.

Lemma slice_0 b l : slice 0 b l = take b l.
Proof. unfold slice. by rewrite Nat.sub_0_r. Qed.

Lemma slice_to_end a n l : (length l <= n)%nat -> slice a n l = drop a l.
Proof. intros. unfold slice. apply take_ge. rewrite length_drop. lia. Qed.

Lemma slice_S a b l x :
    (a <= b)%nat -> l !! b = Some x -> slice a (S b) l = slice a b l ++ [x].
Proof.
    intros Hab Hx. unfold slice.
    replace (S b - a)%nat with (S (b - a)) by lia.
    apply take_S_r. rewrite lookup_drop. by replace (a + (b - a))%nat with b by lia.
Qed.

Lemma slice_cons a b l x :
    (a < b)%nat -> l !! a = Some x -> slice a b l = x :: slice (S a) b l.
Proof.
    intros Hab Hx. unfold slice. rewrite (drop_S _ _ _ Hx).
    replace (b - a)%nat with (S (b - S a)) by lia. done.
Qed.

Lemma length_slice a b l :
    (b <= length l)%nat -> length (slice a b l) = (b - a)%nat.
Proof. intros. unfold slice. rewrite length_take, length_drop. lia. Qed.

Lemma Forall_slice (P : A -> Prop) a b l : Forall P l -> Forall P (slice a b l).
Proof. intros. unfold slice. by apply Forall_take, Forall_drop. Qed.
End lists.

Lemma Forall_filter_sub {A} (P Q : A -> Prop) `{forall x, Decision (Q x)} l :
  Forall P l -> Forall P (filter Q l).
Proof. rewrite !Forall_forall. intros HP x [_ Hx]%list_elem_of_filter. auto. Qed.

(** A property checked on every integer of a range. *)
Lemma Forall_seqZ (P : Z -> Prop) a n i : Forall P (seqZ a n) -> a <= i < a + n -> P i.
Proof. intros H Hi. rewrite Forall_forall in H. by apply H, elem_of_seqZ. Qed.

#[export] Hint Resolve Forall_slice : npsync.
