(* ===== verification/Text.v ===== *)
(** * Text: the C++ standard library's string operations the plugin uses

    [tolower]/[toupper]/[isspace]/[isdigit] in the "C" locale, [std::replace],
    [find]/[rfind]/[find_last_of]/[substr], the [while (std::getline(ss, seg,
    delim))] idiom, [std::to_string] and [std::stoll] on decimal text. *)
From S2P Require Import Prelude.

(** ** Character classes ("C" locale) *)

Definition is_upper (c : Z) : bool := (65 <=? c) && (c <=? 90).
Definition is_lower (c : Z) : bool := (97 <=? c) && (c <=? 122).
Definition tolower (c : Z) : Z := if is_upper c then c + 32 else c.
Definition toupper (c : Z) : Z := if is_lower c then c - 32 else c.
Definition isdigit (c : Z) : bool := (48 <=? c) && (c <=? 57).
Definition isspace (c : Z) : bool := (c =? 32) || ((9 <=? c) && (c <=? 13)).

Lemma tolower_idemp c : tolower (tolower c) = tolower c.
Proof. unfold tolower, is_upper. split_ifs; to_prop; lia. Qed.

Lemma toupper_idemp c : toupper (toupper c) = toupper c.
Proof. unfold toupper, is_lower. split_ifs; to_prop; lia. Qed.

(** ** Searching *)

(** [s.find(c)]: index of the first occurrence; [None] is [npos]. *)
Fixpoint find_char (c : Z) (s : str) : option nat :=
  match s with
  | [] => None
  | x :: s' => if x =? c then Some 0%nat else S <$> find_char c s'
  end.

(** [s.find_last_of(cs)] / [s.rfind(c)]: index of the last character that
    satisfies [p]. *)
Fixpoint find_last (p : Z -> bool) (s : str) : option nat :=
  match s with
  | [] => None
  | x :: s' =>
      match find_last p s' with
      | Some i => Some (S i)
      | None => if p x then Some 0%nat else None
      end
  end.

(** [s.rfind(p, 0) == 0]. *)
Fixpoint starts_with (p s : str) : bool :=
  match p, s with
  | [], _ => true
  | x :: p', y :: s' => (x =? y) && starts_with p' s'
  | _ :: _, [] => false
  end.

(** [s.find(needle, 0)]: index of the first occurrence of [needle]. *)
Fixpoint find_str (needle s : str) : option nat :=
  if starts_with needle s then Some 0%nat
  else match s with
       | [] => None
       | _ :: s' => S <$> find_str needle s'
       end.

(** [s.substr(pos, n)]: throws when [pos > size()]. *)
Definition substr (s : str) (pos n : nat) : outcome str :=
  if decide (length s < pos)%nat then Throw out_of_range
  else Ok (take n (drop pos s)).

(** [s.substr(pos)]. *)
Definition substr_from (s : str) (pos : nat) : outcome str := substr s pos (length s).

Definition replace_char (a b : Z) (s : str) : str := map (fun c => if c =? a then b else c) s.

(** ** [while (std::getline(ss, seg, delim))] *)

(** The fields of [s] separated by [d]; never empty. *)
Fixpoint fields (d : Z) (s : str) : list str :=
  match s with
  | [] => [[]]
  | c :: s' =>
      if c =? d then [] :: fields d s'
      else match fields d s' with
           | f :: fs => (c :: f) :: fs
           | [] => [[c]]
           end
  end.

(** The successive values [getline] yields: a last empty field (an empty
    stream, or a stream that ends with the delimiter) is not delivered. *)
Fixpoint drop_last_empty (l : list str) : list str :=
  match l with
  | [] => []
  | [f] => if decide (f = []) then [] else [f]
  | f :: fs => f :: drop_last_empty fs
  end.

Definition getlines (d : Z) (s : str) : list str := drop_last_empty (fields d s).

(** [segs[0] + sep + segs[1] + ...]. *)
Fixpoint join (sep : str) (l : list str) : str :=
  match l with
  | [] => []
  | [x] => x
  | x :: l' => x ++ sep ++ join sep l'
  end.

(** ** Trimming *)

Fixpoint trim_left (p : Z -> bool) (s : str) : str :=
  match s with
  | c :: s' => if p c then trim_left p s' else s
  | [] => []
  end.

Definition trim_right (p : Z -> bool) (s : str) : str := reverse (trim_left p (reverse s)).

(** ** Decimal text *)

Fixpoint dec_digits (fuel : nat) (n : Z) (acc : str) : str :=
  match fuel with
  | O => acc
  | S fuel' =>
      let acc' := (48 + n mod 10) :: acc in
      if n <? 10 then acc' else dec_digits fuel' (n / 10) acc'
  end.

Definition dec_fuel (n : Z) : nat := S (Z.to_nat (Z.log2 n)).

(** [std::to_string] on an integer, and [ostream << int64_t]. *)
Definition to_string (n : Z) : str :=
  if n <? 0 then DASH :: dec_digits (dec_fuel (- n)) (- n) []
  else dec_digits (dec_fuel n) n [].

(** [%0<n>d] of a number that is not negative. *)
Definition pad_int (n : nat) (z : Z) : str :=
  let s := to_string z in replicate (n - length s) ZERO ++ s.

(** [v.c_str()] as a C string: the text up to its first NUL. *)
Fixpoint c_str (v : str) : str :=
  match v with
  | [] => []
  | c :: v' => if c =? NUL then [] else c :: c_str v'
  end.

(** The value of a run of digits. *)
Fixpoint dec_value (s : str) (acc : Z) : Z :=
  match s with
  | [] => acc
  | c :: s' => dec_value s' (acc * 10 + (c - 48))
  end.

Fixpoint take_digits (s : str) : str :=
  match s with
  | c :: s' => if isdigit c then c :: take_digits s' else []
  | [] => []
  end.

(** [strtoll] as [std::stoll] and [std::stoi] use it: leading white space, a
    sign, digits; [invalid_argument] without a digit, [out_of_range] outside
    [lo, hi]. *)
Definition parse_int (lo hi : Z) (s : str) : outcome Z :=
  let s := trim_left isspace s in
  let neg := bool_decide (head s = Some DASH) in
  let s := if neg || bool_decide (head s = Some 43) then drop 1 s else s in
  let ds := take_digits s in
  if bool_decide (ds = []) then Throw invalid_argument
  else
    let v := if neg then - dec_value ds 0 else dec_value ds 0 in
    if (v <? lo) || (hi <? v) then Throw out_of_range else Ok v.

Definition stoll (s : str) : outcome Z := parse_int INT64_MIN INT64_MAX s.
Definition stoi (s : str) : outcome Z := parse_int (- 2 ^ 31) (2 ^ 31 - 1) s.

(** *** Lemmas on fields, getline and join *)

Lemma fields_nonempty d s : fields d s <> [].
Proof. destruct s; simpl; [done|]. split_ifs; [done|]. by destruct (fields d s). Qed.

Lemma fields_no_delim d s f : f ∈ fields d s -> d ∉ f.
Proof.
  revert f. induction s as [|c s IH]; simpl; intros f Hf.
  - apply list_elem_of_singleton in Hf as ->. apply not_elem_of_nil.
  - destruct (c =? d) eqn:E.
    + apply elem_of_cons in Hf as [->|Hf]; [apply not_elem_of_nil|eauto].
    + destruct (fields d s) as [|g gs] eqn:Eg; to_prop.
      * apply list_elem_of_singleton in Hf as ->. set_solver.
      * apply elem_of_cons in Hf as [->|Hf]; [|set_solver].
        specialize (IH g ltac:(left)). set_solver.
Qed.

Lemma drop_last_empty_sub l f : f ∈ drop_last_empty l -> f ∈ l.
Proof.
  induction l as [|x l IH]; simpl; [done|].
  destruct l as [|y l]; [case_decide; set_solver|].
  intros [->|H]%elem_of_cons; set_solver.
Qed.

Lemma getlines_no_delim d s f : f ∈ getlines d s -> d ∉ f.
Proof. intros ?%drop_last_empty_sub. by eapply fields_no_delim. Qed.

(** The fields hold characters of the text only. *)
Lemma fields_sub d s f c : f ∈ fields d s -> c ∈ f -> c ∈ s.
Proof.
  revert f. induction s as [|x s IH]; intros f; simpl.
  { intros ->%list_elem_of_singleton. done. }
  destruct (x =? d).
  - intros [->|Hf]%elem_of_cons Hc; [by apply not_elem_of_nil in Hc|].
    apply elem_of_cons. right. by eapply IH.
  - pose proof (fields_nonempty d s). destruct (fields d s) as [|g gs]; [done|].
    intros [->|Hf]%elem_of_cons Hc; apply elem_of_cons.
    + apply elem_of_cons in Hc as [->|Hc]; [by left|right]. eapply IH; [by left|done].
    + right. eapply IH; [by right|done].
Qed.

Lemma fields_app_delim d f s : d ∉ f -> fields d (f ++ d :: s) = f :: fields d s.
Proof.
  induction f as [|c f IH]; intros Hd; simpl.
  - by rewrite Z.eqb_refl.
  - apply not_elem_of_cons in Hd as [Hc Hf]. rewrite IH by done.
    destruct (Z.eqb_spec c d); [congruence|done].
Qed.

Lemma fields_no_delim_id d f : d ∉ f -> fields d f = [f].
Proof.
  induction f as [|c f IH]; intros Hd; simpl; [done|].
  apply not_elem_of_cons in Hd as [Hc Hf]. rewrite IH by done.
  destruct (Z.eqb_spec c d); [congruence|done].
Qed.

(** Splitting a joined list of delimiter-free fields gives the list back. *)
Lemma fields_join d l :
  l <> [] -> Forall (fun f => d ∉ f) l -> fields d (join [d] l) = l.
Proof.
  intros Hne Hl. induction l as [|f l IH]; [done|].
  apply Forall_cons in Hl as [Hf Hl]. destruct l as [|g l].
  - simpl. by apply fields_no_delim_id.
  - change (join [d] (f :: g :: l)) with (f ++ [d] ++ join [d] (g :: l)).
    simpl app. rewrite fields_app_delim by done. f_equal. by apply IH.
Qed.

Lemma drop_last_empty_id l : Forall (fun f => f <> []) l -> drop_last_empty l = l.
Proof.
  induction l as [|f l IH]; [done|]. intros [Hf Hl]%Forall_cons.
  simpl. destruct l; [by rewrite decide_False|]. by rewrite IH.
Qed.

Lemma getlines_join d l :
  Forall (fun f => d ∉ f /\ f <> []) l -> l <> [] -> getlines d (join [d] l) = l.
Proof.
  intros Hl Hne. unfold getlines. rewrite fields_join; [|done|].
  - apply drop_last_empty_id. eapply Forall_impl; [exact Hl|]. naive_solver.
  - eapply Forall_impl; [exact Hl|]. naive_solver.
Qed.

Lemma elem_of_join c sep l : c ∈ join sep l -> c ∈ sep \/ exists f, f ∈ l /\ c ∈ f.
Proof.
  induction l as [|f l IH]; simpl; [set_solver|].
  destruct l as [|g l]; [set_solver|].
  rewrite !elem_of_app. intros [?|[?|Hc]]; [set_solver|set_solver|].
  destruct (IH Hc) as [?|(h&?&?)]; set_solver.
Qed.

Lemma elem_of_join_field c sep l f : f ∈ l -> c ∈ f -> c ∈ join sep l.
Proof.
  induction l as [|g l IH]; [set_solver|].
  intros [->|Hf]%elem_of_cons Hc; simpl; destruct l; set_solver.
Qed.

(** *** Lemmas on searching *)

Lemma find_char_None c s : find_char c s = None <-> c ∉ s.
Proof.
  induction s as [|x s IH]; simpl; [set_solver|].
  destruct (Z.eqb_spec x c); [set_solver|].
  rewrite fmap_None, IH. set_solver.
Qed.

Lemma find_char_Some c s i :
  find_char c s = Some i -> exists rest, s = take i s ++ c :: rest /\ c ∉ take i s.
Proof.
  revert i. induction s as [|x s IH]; simpl; [done|]. intros i.
  destruct (Z.eqb_spec x c) as [->|Hne].
  - intros [= <-]. exists s. set_solver.
  - intros (j&Hj&->)%fmap_Some. destruct (IH _ Hj) as (r&Hs&Hn).
    exists r. simpl. split; [by rewrite <- Hs|set_solver].
Qed.

Lemma find_char_app c s r : c ∉ s -> find_char c (s ++ c :: r) = Some (length s).
Proof.
  induction s as [|x s IH]; simpl; intros Hn.
  - by rewrite Z.eqb_refl.
  - destruct (Z.eqb_spec x c); [set_solver|]. rewrite IH by set_solver. done.
Qed.

Lemma starts_with_spec p s : starts_with p s = true <-> exists r, s = p ++ r.
Proof.
  revert s. induction p as [|x p IH]; intros s; simpl; [naive_solver|].
  destruct s as [|y s]; [split; [done|by intros (?&?)]|].
  rewrite andb_true_iff, Z.eqb_eq, IH. naive_solver.
Qed.

Lemma starts_with_app p r : starts_with p (p ++ r) = true.
Proof. apply starts_with_spec. eauto. Qed.

(** *** Lemmas on decimal text *)

Lemma dec_value_app s t acc : dec_value (s ++ t) acc = dec_value t (dec_value s acc).
Proof. revert acc. induction s; intros acc; simpl; auto. Qed.

Lemma dec_digits_app fuel n acc : dec_digits fuel n acc = dec_digits fuel n [] ++ acc.
Proof.
  revert n acc. induction fuel as [|f IH]; intros n acc; simpl; [done|].
  destruct (n <? 10); [done|].
  rewrite IH, (IH _ [48 + n mod 10]), <- app_assoc. done.
Qed.

Lemma dec_digits_value fuel n :
  0 <= n -> n < 2 ^ Z.of_nat fuel -> dec_value (dec_digits fuel n []) 0 = n.
Proof.
  revert n. induction fuel as [|f IH]; intros n H0 Hn; [simpl in *; lia|].
  cbn [dec_digits]. destruct (n <? 10) eqn:E; to_prop.
  - cbn [dec_value]. rewrite Z.mod_small by lia. lia.
  - rewrite dec_digits_app, dec_value_app, IH.
    + cbn [dec_value]. pose proof (Z_div_mod_eq_full n 10). lia.
    + apply Z.div_pos; lia.
    + rewrite Nat2Z.inj_succ, Z.pow_succ_r in Hn by lia.
      apply Z.div_lt_upper_bound; lia.
Qed.

Lemma dec_digits_isdigit fuel n :
  0 <= n -> Forall (fun c => isdigit c = true) (dec_digits fuel n []).
Proof.
  revert n. induction fuel as [|f IH]; intros n Hn; cbn [dec_digits]; [done|].
  assert (isdigit (48 + n mod 10) = true).
  { unfold isdigit. pose proof (Z.mod_pos_bound n 10 ltac:(lia)).
    apply andb_true_iff. rewrite !Z.leb_le. lia. }
  destruct (n <? 10); [by repeat constructor|].
  rewrite dec_digits_app. apply Forall_app. split; [|by repeat constructor].
  apply IH. apply Z.div_pos; lia.
Qed.

Lemma dec_digits_nonempty fuel n : dec_digits (S fuel) n [] <> [].
Proof.
  cbn [dec_digits]. destruct (n <? 10); [done|]. rewrite dec_digits_app.
  by destruct (dec_digits fuel (n / 10) []).
Qed.

Lemma dec_fuel_bound n : 0 <= n -> n < 2 ^ Z.of_nat (dec_fuel n).
Proof.
  intros. unfold dec_fuel. destruct (decide (n = 0)) as [->|]; [done|].
  rewrite Nat2Z.inj_succ, Z2Nat.id by apply Z.log2_nonneg.
  apply Z.log2_spec. lia.
Qed.

Lemma to_string_value n : 0 <= n -> dec_value (to_string n) 0 = n.
Proof.
  intros. unfold to_string. rewrite (proj2 (Z.ltb_ge n 0)) by lia.
  apply dec_digits_value; [done|]. by apply dec_fuel_bound.
Qed.

Lemma to_string_isdigit n : 0 <= n -> Forall (fun c => isdigit c = true) (to_string n).
Proof.
  intros. unfold to_string. rewrite (proj2 (Z.ltb_ge n 0)) by lia.
  by apply dec_digits_isdigit.
Qed.

Lemma to_string_nonempty n : to_string n <> [].
Proof. unfold to_string. destruct (n <? 0); [done|]. apply dec_digits_nonempty. Qed.

(** *** Lemmas on [replace] *)

Lemma length_replace_char a b s : length (replace_char a b s) = length s.
Proof. apply length_map. Qed.

Lemma replace_char_id a b s : a ∉ s -> replace_char a b s = s.
Proof.
  induction s as [|c s IH]; simpl; intros Ha; [done|].
  apply not_elem_of_cons in Ha as [? ?]. rewrite IH by done.
  destruct (Z.eqb_spec c a); [congruence|done].
Qed.

Lemma replace_char_not_elem a b s : a <> b -> a ∉ replace_char a b s.
Proof.
  intros Hab. induction s as [|c s IH]; simpl; [set_solver|].
  destruct (Z.eqb_spec c a); set_solver.
Qed.

#[export] Hint Rewrite length_replace_char : npsync.
#[export] Hint Resolve fields_nonempty getlines_no_delim to_string_nonempty : npsync.

Lemma take_digits_all s : Forall (fun c => isdigit c = true) s -> take_digits s = s.
Proof. induction 1 as [|c s Hc _ IH]; [done|]. cbn [take_digits]. by rewrite Hc, IH. Qed.

(** Reading back a printed integer. *)
Lemma parse_int_printed lo hi n :
  parse_int lo hi (to_string n) = if (n <? lo) || (hi <? n) then Throw out_of_range else Ok n.
Proof.
  assert (forall m, 0 <= m -> exists d ds, to_string m = d :: ds /\ isdigit d = true /\
    take_digits (d :: ds) = d :: ds /\ dec_value (d :: ds) 0 = m) as Hpos.
  { intros m Hm. pose proof (to_string_nonempty m). pose proof (to_string_isdigit m Hm) as Hd.
    pose proof (to_string_value m Hm) as Hv. pose proof (take_digits_all _ Hd) as Ht.
    destruct (to_string m) as [|d ds]; [done|]. exists d, ds. by apply Forall_cons in Hd as [? _]. }
  unfold parse_int. destruct (Z.ltb_spec n 0) as [Hneg|Hnn].
  - destruct (Hpos (- n) ltac:(lia)) as (d&ds&E&Hd&Ht&Hv).
    assert (to_string n = DASH :: d :: ds) as ->.
    { rewrite <- E. unfold to_string. rewrite (proj2 (Z.ltb_lt n 0)), (proj2 (Z.ltb_ge (- n) 0)) by lia. done. }
    cbn [trim_left isspace head]. change (isspace DASH) with false. cbn iota. cbn [head].
    rewrite (bool_decide_true (Some DASH = Some DASH)) by done. cbn [orb drop].
    rewrite ?drop_0, Ht, (bool_decide_false (d :: ds = [])), Hv by done.
    by rewrite Z.opp_involutive.
  - destruct (Hpos n Hnn) as (d&ds&E&Hd&Ht&Hv). rewrite E. unfold isdigit in Hd. to_prop.
    assert (isspace d = false) as Hs by (unfold isspace; rewrite (proj2 (Z.eqb_neq d 32)) by lia;
      rewrite (proj2 (Z.leb_gt d 13)) by lia; by rewrite andb_false_r).
    cbn [trim_left]. rewrite Hs. cbn [head].
    rewrite (bool_decide_false (Some d = Some DASH)), (bool_decide_false (Some d = Some 43))
      by (intros [=]; lia).
    cbn [orb]. rewrite Ht, (bool_decide_false (d :: ds = [])), Hv by done. done.
Qed.

Lemma parse_int_to_string lo hi n :
  lo <= n <= hi -> parse_int lo hi (to_string n) = Ok n.
Proof.
  intros Hn. rewrite parse_int_printed. by rewrite (proj2 (Z.ltb_ge _ lo)), (proj2 (Z.ltb_ge hi _)) by lia.
Qed.

(** *** Lemmas on [find_last] and trimming *)

Lemma find_last_app p a x b :
  p x = true -> Forall (fun c => p c = false) b -> find_last p (a ++ x :: b) = Some (length a).
Proof.
  intros Hx Hb. induction a as [|y a IH]; simpl; [|by rewrite IH].
  assert (find_last p b = None) as ->.
  { clear -Hb. induction Hb as [|z b Hz _ IH]; [done|]. simpl. by rewrite IH, Hz. }
  by rewrite Hx.
Qed.

Lemma find_last_none p s : Forall (fun c => p c = false) s -> find_last p s = None.
Proof. induction 1 as [|z b Hz _ IH]; [done|]. simpl. by rewrite IH, Hz. Qed.

Lemma trim_left_app p s :
  exists t, s = t ++ trim_left p s /\ Forall (fun c => p c = true) t.
Proof.
  induction s as [|c s (t&E&Ht)]; simpl; [by exists []|].
  destruct (p c) eqn:Ep; [|by exists []]. exists (c :: t). split; [simpl; by rewrite <- E|by constructor].
Qed.

Lemma trim_left_head p s c r : trim_left p s = c :: r -> p c = false.
Proof.
  induction s as [|x s IH]; simpl; [done|]. destruct (p x) eqn:E; [done|]. by intros [= <- <-].
Qed.

(** [trim_right] drops a suffix of matching characters and leaves none. *)
Lemma trim_right_spec p s :
  exists t, s = trim_right p s ++ t /\ Forall (fun c => p c = true) t /\
    (forall c, last (trim_right p s) = Some c -> p c = false).
Proof.
  destruct (trim_left_app p (reverse s)) as (t&E&Ht). exists (reverse t). unfold trim_right.
  split_and!.
  - by rewrite <- reverse_app, <- E, reverse_involutive.
  - by apply Forall_reverse.
  - intros c Hc. destruct (trim_left p (reverse s)) as [|x r] eqn:El; [done|].
    rewrite last_reverse in Hc. injection Hc as <-. by eapply trim_left_head.
Qed.

Lemma trim_left_idemp p s : trim_left p (trim_left p s) = trim_left p s.
Proof. induction s as [|c s IH]; simpl; [done|]. destruct (p c) eqn:E; [done|]. simpl. by rewrite E. Qed.

Lemma trim_right_idemp p s : trim_right p (trim_right p s) = trim_right p s.
Proof. unfold trim_right. by rewrite reverse_involutive, trim_left_idemp. Qed.

Lemma trim_left_app_stop p a b :
  trim_left p (a ++ b) = if bool_decide (trim_left p a = []) then trim_left p b else trim_left p a ++ b.
Proof.
  induction a as [|c a IH]; simpl; [done|]. destruct (p c); [done|]. by rewrite bool_decide_false.
Qed.

Lemma trim_right_app p a b :
  trim_right p a = a -> trim_right p (a ++ b) = a ++ trim_right p b.
Proof.
  unfold trim_right. intros Ha. rewrite reverse_app, trim_left_app_stop.
  assert (trim_left p (reverse a) = reverse a) as Ha' by (rewrite <- Ha at 2; by rewrite reverse_involutive).
  case_bool_decide as E.
  - by rewrite E, Ha', reverse_involutive, app_nil_r.
  - by rewrite reverse_app, reverse_involutive.
Qed.

Lemma trim_left_all p t : Forall (fun c => p c = true) t -> trim_left p t = [].
Proof. induction 1 as [|c t Hc _ IH]; [done|]. simpl. by rewrite Hc. Qed.

Lemma trim_left_id p s : (forall c, head s = Some c -> p c = false) -> trim_left p s = s.
Proof. destruct s as [|c s]; [done|]. intros H. simpl. by rewrite (H c eq_refl). Qed.

Lemma trim_right_id p s : (forall c, last s = Some c -> p c = false) -> trim_right p s = s.
Proof.
  intros H. unfold trim_right. rewrite trim_left_id; [apply reverse_involutive|].
  intros c Hc. apply H. by rewrite <- Hc, <- last_reverse, reverse_involutive.
Qed.

Lemma trim_right_suffix p s t : Forall (fun c => p c = true) t -> trim_right p (s ++ t) = trim_right p s.
Proof.
  intros Ht. unfold trim_right. rewrite reverse_app, trim_left_app_stop.
  by rewrite (trim_left_all p (reverse t)), bool_decide_true by (done || by apply Forall_reverse).
Qed.

(** The first occurrence of a text, when its first character occurs nowhere
    before. *)
Lemma find_str_first c n a b : c ∉ a -> find_str (c :: n) (a ++ (c :: n) ++ b) = Some (length a).
Proof.
  induction a as [|x a IH]; intros Ha.
  - pose proof (starts_with_app (c :: n) b) as Hs. cbn [app length] in *.
    unfold find_str. by rewrite Hs.
  - apply not_elem_of_cons in Ha as [Hx Ha]. cbn [app find_str starts_with].
    rewrite (proj2 (Z.eqb_neq c x)) by done. cbn [andb]. cbn [app] in IH. by rewrite (IH Ha).
Qed.
