(* ===== verification/VersionVector.v ===== *)
(** * VersionVector: core/VersionVector.cpp

    [entries] is the [std::map<std::string, int64_t>] of the class as a
    [gmap]; where the code iterates over it the listing is in key order, as
    [std::map] iterates. Signed 64-bit arithmetic is written with the
    two's-complement wrap of the x64 target ([wrap_i64]); the theorems carry
    the bounds under which nothing wraps. *)
From S2P Require Import Prelude Text.

Module VersionVector.

Record t := VV { entries : gmap str Z }.

#[export] Instance t_eq_dec : EqDecision t.
Proof. solve_decision. Defined.

Definition empty : t := VV ∅.

(** [std::less<std::string>]: lexicographic order of the bytes. *)
Fixpoint key_leb (a b : str) : bool :=
  match a, b with
  | [], _ => true
  | _ :: _, [] => false
  | x :: a', y :: b' => if x =? y then key_leb a' b' else x <? y
  end.

Definition key_le (p q : str * Z) : Prop := key_leb p.1 q.1 = true.

#[export] Instance key_le_dec p q : Decision (key_le p q).
Proof. unfold key_le. apply _. Defined.

(** Iteration order of [for (const auto& [dev, v] : entries)]. *)
Definition listing (vv : t) : list (str * Z) := merge_sort key_le (map_to_list (entries vv)).

Definition get (vv : t) (device : str) : Z :=
  match entries vv !! device with
  | None => 0
  | Some v => v
  end.

(** [++entries[device]]: [operator[]] creates the entry at 0. *)
Definition bump (vv : t) (device : str) : t :=
  VV (<[device := wrap_i64 (get vv device + 1)]> (entries vv)).

(** One iteration of the loop of [merge]: evaluating [entries[dev]] in the
    test already inserts a zero entry. *)
Definition merge_step (vv : t) (p : str * Z) : t :=
  let '(dev, v) := p in
  let touched := VV (<[dev := get vv dev]> (entries vv)) in
  if get touched dev <? v then VV (<[dev := v]> (entries touched)) else touched.

Definition merge (vv other : t) : t := fold_left merge_step (listing other) vv.

(** First loop of [dominates]: [None] is [return false]. *)
Fixpoint dominates_own (l : list (str * Z)) (o : t) (greater : bool) : option bool :=
  match l with
  | [] => Some greater
  | (dev, v) :: l' =>
      if v <? get o dev then None
      else dominates_own l' o (if get o dev <? v then true else greater)
  end.

(** Second loop of [dominates]: [false] is [return false]. *)
Fixpoint dominates_missing (l : list (str * Z)) (vv : t) : bool :=
  match l with
  | [] => true
  | (dev, v) :: l' =>
      if (0 <? v) && bool_decide (entries vv !! dev = None) then false
      else dominates_missing l' vv
  end.

Definition dominates (vv o : t) : bool :=
  match dominates_own (listing vv) o false with
  | None => false
  | Some greater => if dominates_missing (listing o) vv then greater else false
  end.

Definition equal (vv o : t) : bool := bool_decide (entries vv = entries o).

Definition concurrent (vv o : t) : bool :=
  negb (dominates vv o) && negb (dominates o vv) && negb (equal vv o).

(** [toJson]: the [ostringstream] contents. *)
Fixpoint emit (l : list (str * Z)) (first : bool) : str :=
  match l with
  | [] => lit "}"
  | (dev, v) :: l' =>
      (if first then [] else [COMMA]) ++ [QUOTE] ++ dev ++ [QUOTE; COLON] ++ to_string v
      ++ emit l' false
  end.

Definition toJson (vv : t) : str := lit "{" ++ emit (listing vv) true.

(** [fromJson]: the index [i] is the unread suffix of the text. *)
Fixpoint skipWs (s : str) : str :=
  match s with
  | c :: s' => if isspace c then skipWs s' else s
  | [] => []
  end.

(** The key loop: up to the next quote (not consumed) or the end. *)
Fixpoint read_key (s : str) : str * str :=
  match s with
  | [] => ([], [])
  | c :: s' => if c =? QUOTE then ([], s) else let '(k, r) := read_key s' in (c :: k, r)
  end.

(** The digit loop: value (wrapping), [any], rest. *)
Fixpoint read_digits (s : str) (val : Z) (any : bool) : Z * bool * str :=
  match s with
  | c :: s' =>
      if isdigit c then read_digits s' (wrap_i64 (val * 10 + (c - 48))) true
      else (val, any, s)
  | [] => (val, any, [])
  end.

(** [if (i < size && json[i] == c) ++i]. *)
Definition skip_if (c : Z) (s : str) : str :=
  match s with
  | x :: s' => if x =? c then s' else s
  | [] => []
  end.

Definition at_char (c : Z) (s : str) : bool :=
  match s with x :: _ => x =? c | [] => false end.

(** The main loop; each iteration reads at least the opening quote. *)
Fixpoint parse_entries (fuel : nat) (s : str) (m : gmap str Z) : gmap str Z :=
  match fuel with
  | O => m
  | S fuel' =>
      if bool_decide (s = []) then m else
      let s := skipWs s in
      if at_char RBRACE s then m else
      if negb (at_char QUOTE s) then m else
      let '(key, s) := read_key (drop 1 s) in
      let s := drop 1 s in (* closing quote, if any *)
      let s := skipWs (skip_if COLON (skipWs s)) in
      let neg := at_char DASH s in
      let '(val, any, s) := read_digits (skip_if DASH s) 0 false in
      let m := if any && negb neg then <[key := val]> m else m in
      parse_entries fuel' (skip_if COMMA (skipWs s)) m
  end.

Definition fromJson (json : str) : t :=
  let s := skipWs json in
  if at_char LBRACE s then VV (parse_entries (length s) (drop 1 s) ∅) else empty.

(** ** Order-theoretic reading of a vector *)

(** Counters are never negative: they start at 0 and only grow. *)
Definition nonneg (vv : t) : Prop := map_Forall (fun _ v => 0 <= v) (entries vv).

(** Every stored counter is positive (no entry left at zero). *)
Definition canonical (vv : t) : Prop := map_Forall (fun _ v => 0 < v) (entries vv).

(** Pointwise order of the counters, absent meaning zero. *)
Definition le (a b : t) : Prop := forall d, get a d <= get b d.

(** Vectors that count the same edits. *)
Definition same (a b : t) : Prop := forall d, get a d = get b d.

(** What [toJson] can write and [fromJson] read back. *)
Definition json_safe (vv : t) : Prop :=
  map_Forall (fun k v => QUOTE ∉ k /\ 0 <= v <= INT64_MAX) (entries vv).

#[export] Instance nonneg_dec vv : Decision (nonneg vv).
Proof. unfold nonneg. apply _. Defined.

#[export] Instance json_safe_dec vv : Decision (json_safe vv).
Proof. unfold json_safe. apply _. Defined.

End VersionVector.

(** * Properties *)

Module VersionVectorFacts.
Import VersionVector.

(** ** Listings *)

Lemma listing_perm vv : listing vv ≡ₚ map_to_list (entries vv).
Proof. apply merge_sort_Permutation. Qed.

Lemma elem_of_listing vv d v : (d, v) ∈ listing vv <-> entries vv !! d = Some v.
Proof. by rewrite listing_perm, elem_of_map_to_list. Qed.

Lemma listing_keys_NoDup vv : NoDup (listing vv).*1.
Proof. rewrite listing_perm. apply NoDup_fst_map_to_list. Qed.

Lemma listing_to_map vv : list_to_map (listing vv) = entries vv.
Proof.
  rewrite <- (list_to_map_to_list (entries vv)).
  apply list_to_map_proper; [apply listing_keys_NoDup | apply listing_perm].
Qed.

Lemma get_nonneg vv d : nonneg vv -> 0 <= get vv d.
Proof. intros H. unfold get. destruct (entries vv !! d) eqn:E; [by eapply H | done]. Qed.

Lemma get_Some vv d v : entries vv !! d = Some v -> get vv d = v.
Proof. unfold get. by intros ->. Qed.

Lemma get_insert m d v d' : get (VV (<[d := v]> m)) d' = if decide (d = d') then v else get (VV m) d'.
Proof. unfold get; simpl. case_decide; simplify_map_eq; done. Qed.

#[export] Instance le_preorder : PreOrder le.
Proof.
  split; [by intros a d|]. intros a b c H1 H2 d.
  etransitivity; [apply H1 | apply H2].
Qed.

#[export] Instance same_equiv : Equivalence same.
Proof.
  split; [by intros a d | by intros a b H d | intros a b c H1 H2 d; by rewrite H1].
Qed.

#[export] Instance le_same_proper : Proper (same ==> same ==> iff) le.
Proof.
  intros a a' Ha b b' Hb. unfold le.
  split; intros H d; specialize (H d); by rewrite ?(Ha d), ?(Hb d) in *.
Qed.

(** ** [dominates] *)

Lemma dominates_own_spec l o g :
  match dominates_own l o g with
  | None => Exists (fun p => p.2 < get o p.1) l
  | Some g' => Forall (fun p => get o p.1 <= p.2) l /\
               (g' = true <-> g = true \/ Exists (fun p => get o p.1 < p.2) l)
  end.
Proof.
  revert g. induction l as [|[d v] l IH]; intros g; simpl.
  { split; [done|]. rewrite Exists_nil. naive_solver. }
  destruct (Z.ltb_spec v (get o d)) as [Hlt|Hge]; [by left|].
  set (g1 := if get o d <? v then true else g). specialize (IH g1).
  destruct (dominates_own l o g1) as [g'|]; [|by right].
  destruct IH as [IH1 IH2]. split; [by constructor|].
  rewrite IH2, Exists_cons. subst g1. simpl.
  destruct (Z.ltb_spec (get o d) v); [naive_solver|]. split; [naive_solver|].
  intros [?|[?|?]]; [by left|lia|by right].
Qed.

Lemma dominates_missing_spec l vv :
  dominates_missing l vv = true <->
  Forall (fun p => 0 < p.2 -> entries vv !! p.1 <> None) l.
Proof.
  induction l as [|[d v] l IH]; simpl; [done|]. rewrite Forall_cons. simpl.
  destruct (Z.ltb_spec 0 v); simpl; [|rewrite IH; split; [split; [lia|done]|naive_solver]].
  case_bool_decide as Hd; [split; [done|intros [H' _]; by destruct (H' ltac:(done))]|].
  rewrite IH. naive_solver.
Qed.

Lemma Forall_listing (P : str * Z -> Prop) vv :
  Forall P (listing vv) <-> forall d v, entries vv !! d = Some v -> P (d, v).
Proof.
  rewrite Forall_forall. split.
  - intros H d v Hd. by apply H, elem_of_listing.
  - intros H [d v] Hd. by apply H, elem_of_listing.
Qed.

Lemma Exists_listing (P : str * Z -> Prop) vv :
  Exists P (listing vv) <-> exists d v, entries vv !! d = Some v /\ P (d, v).
Proof.
  rewrite Exists_exists. split.
  - intros ([d v]&Hd%elem_of_listing&HP). eauto.
  - intros (d&v&Hd&HP). exists (d, v). by rewrite elem_of_listing.
Qed.

Lemma dominates_true_iff a b :
  nonneg a -> nonneg b ->
  dominates a b = true <-> le b a /\ exists d, get b d < get a d.
Proof.
  intros Ha Hb. unfold dominates, le.
  pose proof (dominates_own_spec (listing a) b false) as Hown.
  pose proof (dominates_missing_spec (listing b) a) as Hmis.
  rewrite Forall_listing in Hmis. simpl in Hmis.
  destruct (dominates_own (listing a) b false) as [g|].
  2:{ apply Exists_listing in Hown as (d&v&Hd%get_Some&Hlt). simpl in *.
      split; [done|]. intros [Hle _]. specialize (Hle d). lia. }
  rewrite Forall_listing, Exists_listing in Hown. simpl in Hown.
  destruct Hown as [Hge Hg]. destruct (dominates_missing (listing b) a).
  - assert (forall d, get b d <= get a d) as Hle.
    { intros d. destruct (entries a !! d) as [v|] eqn:Ea.
      - rewrite (get_Some a d v Ea). by apply Hge.
      - unfold get at 2. rewrite Ea. unfold get.
        destruct (entries b !! d) as [w|] eqn:Eb; [|done].
        destruct (decide (0 < w)); [|lia]. by destruct (proj1 Hmis eq_refl d w Eb). }
    rewrite Hg. split; [|intros [_ (d&Hd)]; right].
    + intros [?|(d&v&Hd%get_Some&?)]; [done|]. split; [done|]. exists d. lia.
    + destruct (entries a !! d) as [v|] eqn:Ea.
      * exists d, v. split; [done|]. by rewrite (get_Some a d v Ea) in Hd.
      * pose proof (get_nonneg b d Hb). unfold get at 2 in Hd. rewrite Ea in Hd. lia.
  - split; [done|]. intros [Hle _]. apply Hmis. intros d v Hd%get_Some Hv Hn.
    specialize (Hle d). unfold get at 2 in Hle. rewrite Hn in Hle. lia.
Qed.

Lemma le_cases a b :
  nonneg b -> le a b \/ ~ le a b /\ exists d, get b d < get a d.
Proof.
  intros Hb. destruct (decide (Exists (fun p => get b p.1 < get a p.1) (listing a))) as [H|H].
  - apply Exists_listing in H as (d&v&_&Hd). simpl in Hd. right. split; [|by exists d].
    intros Hle. specialize (Hle d). lia.
  - left. intros d. destruct (decide (get b d < get a d)) as [Hlt|]; [|lia].
    destruct H. apply Exists_listing. unfold get at 2 in Hlt.
    destruct (entries a !! d) as [v|] eqn:Ed.
    + exists d, v. simpl. by rewrite (get_Some a d v).
    + pose proof (get_nonneg b d Hb). lia.
Qed.

Lemma dominates_iff_lt a b :
  nonneg a -> nonneg b -> dominates a b = true <-> le b a /\ ~ le a b.
Proof.
  intros Ha Hb. rewrite dominates_true_iff by done.
  destruct (le_cases a b Hb) as [H|[H (d&Hd)]]; [|naive_solver].
  split; [|naive_solver]. intros [_ (d&Hd)]. specialize (H d). lia.
Qed.

Lemma same_canonical a b : canonical a -> canonical b -> same a b -> entries a = entries b.
Proof.
  intros Ha Hb Hs. apply map_eq. intros d. specialize (Hs d). unfold get in Hs.
  destruct (entries a !! d) as [v|] eqn:Ea, (entries b !! d) as [w|] eqn:Eb; subst; try done.
  - specialize (Ha d _ Ea). simpl in Ha. lia.
  - specialize (Hb d _ Eb). simpl in Hb. lia.
Qed.

Lemma concurrent_iff a b :
  nonneg a -> nonneg b ->
  concurrent a b = true <-> (~ le a b /\ ~ le b a) \/ (same a b /\ entries a <> entries b).
Proof.
  intros Ha Hb. unfold concurrent. rewrite !andb_true_iff, !negb_true_iff.
  rewrite <- !not_true_iff_false, !dominates_iff_lt by done.
  unfold equal. rewrite bool_decide_eq_true.
  assert (le a b -> le b a -> same a b) by (intros H1 H2 d; specialize (H1 d); specialize (H2 d); lia).
  assert (same a b -> le a b /\ le b a) by (intros H1; split; intros d; specialize (H1 d); lia).
  assert (entries a = entries b -> same a b) by (intros H1 d; unfold get; by rewrite H1).
  destruct (le_cases a b Hb) as [?|[? _]], (le_cases b a Ha) as [?|[? _]]; naive_solver.
Qed.

Lemma dominates_irrefl a : nonneg a -> dominates a a = false.
Proof.
  intros Ha. apply not_true_is_false. rewrite dominates_true_iff by done.
  intros [_ (d&?)]. lia.
Qed.

Lemma dominates_asym a b : nonneg a -> nonneg b -> dominates a b = true -> dominates b a = false.
Proof.
  intros Ha Hb H. apply not_true_is_false. rewrite dominates_true_iff in * by done.
  intros [Hle _]. destruct H as [_ (d&?)]. specialize (Hle d). lia.
Qed.

Lemma dominates_trans a b c :
  nonneg a -> nonneg b -> nonneg c ->
  dominates a b = true -> dominates b c = true -> dominates a c = true.
Proof.
  intros Ha Hb Hc. rewrite !dominates_true_iff by done.
  intros [Hab (d&Hd)] [Hbc _]. split; [by transitivity b|].
  exists d. specialize (Hbc d). lia.
Qed.

(** ** [merge] *)

Lemma get_merge_step vv dev v d :
  get (merge_step vv (dev, v)) d = if decide (dev = d) then Z.max (get vv d) v else get vv d.
Proof.
  unfold merge_step. rewrite get_insert, decide_True by done.
  destruct (Z.ltb_spec (get vv dev) v); simpl; rewrite ?get_insert;
    case_decide; subst; try lia; destruct vv; done.
Qed.

Lemma get_fold_merge l vv d :
  NoDup l.*1 ->
  get (fold_left merge_step l vv) d =
  match list_to_map (M := gmap str Z) l !! d with
  | Some v => Z.max (get vv d) v
  | None => get vv d
  end.
Proof.
  revert vv. induction l as [|[k v] l IH]; intros vv Hnd; [done|].
  apply NoDup_cons in Hnd as [Hk Hnd]. cbn [fold_left].
  rewrite IH, get_merge_step by done. simpl.
  destruct (decide (k = d)) as [->|Hne].
  - rewrite lookup_insert_eq, not_elem_of_list_to_map_1 by done. done.
  - by rewrite lookup_insert_ne.
Qed.

Lemma get_merge a b d :
  nonneg a -> nonneg b -> get (merge a b) d = Z.max (get a d) (get b d).
Proof.
  intros Ha Hb. unfold merge.
  rewrite get_fold_merge, listing_to_map by apply listing_keys_NoDup.
  unfold get at 4. destruct (entries b !! d); [done|].
  pose proof (get_nonneg a d Ha). lia.
Qed.

Lemma merge_step_nonneg a p : nonneg a -> 0 <= p.2 -> nonneg (merge_step a p).
Proof.
  intros Ha Hp. destruct p as [k v]. unfold merge_step, nonneg in *. simpl in *.
  assert (0 <= get a k) by by apply get_nonneg.
  destruct (_ <? _); simpl; repeat apply map_Forall_insert_2; done.
Qed.

Lemma merge_nonneg a b : nonneg a -> nonneg b -> nonneg (merge a b).
Proof.
  intros Ha Hb. unfold merge.
  assert (Forall (fun p : str * Z => 0 <= p.2) (listing b)) as Hl.
  { apply Forall_forall. intros [k v] Hk%elem_of_listing. by eapply Hb. }
  revert a Ha. induction Hl as [|p l Hp Hl IH]; intros a Ha; [done|].
  apply IH. by apply merge_step_nonneg.
Qed.

(** ** [bump] *)

Lemma get_bump vv d d' :
  get (bump vv d) d' = if decide (d = d') then wrap_i64 (get vv d + 1) else get vv d'.
Proof. unfold bump. rewrite get_insert. by destruct vv. Qed.

Lemma bump_nonneg vv d : nonneg vv -> get vv d < INT64_MAX -> nonneg (bump vv d).
Proof.
  intros Hv Hd. pose proof (get_nonneg vv d Hv). unfold nonneg, bump. simpl.
  apply map_Forall_insert_2; [|done].
  rewrite wrap_i64_id; unfold is_int64, INT64_MIN, INT64_MAX in *; lia.
Qed.

(** ** JSON *)

Lemma skipWs_id c s : isspace c = false -> skipWs (c :: s) = c :: s.
Proof. intros H. simpl. by rewrite H. Qed.

Lemma read_key_app k s : QUOTE ∉ k -> read_key (k ++ QUOTE :: s) = (k, QUOTE :: s).
Proof.
  induction k as [|c k IH]; intros Hk; [done|].
  apply not_elem_of_cons in Hk as [Hc Hk]. cbn [read_key app].
  destruct (Z.eqb_spec c 34); [congruence|]. by rewrite IH.
Qed.

Lemma dec_value_mono s acc :
  Forall (fun c => isdigit c = true) s -> 0 <= acc -> acc <= dec_value s acc.
Proof.
  intros Hs. revert acc. induction Hs as [|c s Hc _ IH]; intros acc Ha; cbn [dec_value]; [lia|].
  unfold isdigit in Hc. to_prop. etransitivity; [|apply IH]; lia.
Qed.

Lemma read_digits_spec s r val any :
  Forall (fun c => isdigit c = true) s ->
  at_char ZERO r = false -> match r with c :: _ => isdigit c = false | [] => True end ->
  0 <= val -> dec_value s val <= INT64_MAX ->
  read_digits (s ++ r) val any = (dec_value s val, any || negb (bool_decide (s = [])), r).
Proof.
  intros Hs _ Hr. revert val any. induction Hs as [|c s Hc Hs IH]; intros val any Hv Hb; simpl.
  - rewrite orb_false_r. destruct r as [|c r]; [done|]. simpl. by rewrite Hr.
  - rewrite Hc. simpl in Hb. pose proof Hc as Hc'. unfold isdigit in Hc'. to_prop.
    assert (val * 10 + (c - 48) <= INT64_MAX).
    { etransitivity; [|exact Hb]. apply dec_value_mono; [done|lia]. }
    rewrite wrap_i64_id by (unfold is_int64, INT64_MIN; lia).
    rewrite IH by lia. by rewrite orb_true_r.
Qed.

Lemma emit_head l first :
  exists c s, emit l first = c :: s /\ isspace c = false /\ isdigit c = false /\
    (c = RBRACE \/ c = QUOTE \/ c = COMMA).
Proof. destruct l as [|[k v] l]; [|destruct first]; simpl; eexists _, _; eauto 10. Qed.

(** One printed entry is read back in one iteration of the parser's loop. *)
Lemma parse_entries_entry fuel k v l m :
  QUOTE ∉ k -> 0 <= v <= INT64_MAX ->
  parse_entries (S fuel) (emit ((k, v) :: l) true) m =
  parse_entries fuel (skip_if COMMA (skipWs (emit l false))) (<[k := v]> m).
Proof.
  intros Hk Hv. cbn [emit]. cbn [app].
  assert (exists c d, to_string v = c :: d) as (c&d&Ed).
  { pose proof (to_string_nonempty v). destruct (to_string v); [done|eauto]. }
  pose proof (to_string_isdigit v ltac:(lia)) as Hdig.
  cbn [parse_entries]. rewrite bool_decide_false by done.
  rewrite skipWs_id by done. cbn [at_char Z.eqb Pos.eqb negb drop].
  rewrite drop_0, read_key_app by done. rewrite skipn_cons, drop_0.
  rewrite skipWs_id by done. cbn [skip_if Z.eqb Pos.eqb].
  assert (isdigit c = true) as Hc by (rewrite Ed in Hdig; by inversion Hdig).
  rewrite Ed. cbn [app]. rewrite skipWs_id.
  2:{ unfold isdigit, isspace in *. to_prop. apply orb_false_iff. split; [lia|].
      apply andb_false_iff. right. lia. }
  cbn [at_char skip_if].
  destruct (Z.eqb_spec c 45) as [->|_]; [done|].
  change (c :: d ++ emit l false) with ((c :: d) ++ emit l false). rewrite <- Ed.
  destruct (emit_head l false) as (c'&s'&He&Hsp&Hnd&_).
  rewrite read_digits_spec; [|done| |by rewrite He|lia|].
  - rewrite to_string_value by lia. rewrite bool_decide_false by (by rewrite Ed). done.
  - rewrite He. cbn [at_char]. unfold isdigit in Hnd. to_prop. destruct (Z.eqb_spec c' 48); lia.
  - rewrite to_string_value by lia. lia.
Qed.

Lemma skip_comma_emit l :
  skip_if COMMA (skipWs (emit l false)) = emit l true \/ l = [].
Proof. destruct l as [|[k v] l]; [by right|by left]. Qed.

Lemma parse_entries_emit l fuel m :
  Forall (fun p : str * Z => QUOTE ∉ p.1 /\ 0 <= p.2 <= INT64_MAX) l ->
  (length l < fuel)%nat ->
  parse_entries fuel (emit l true) m = fold_left (fun m p => <[p.1 := p.2]> m) l m.
Proof.
  intros Hl. revert fuel m. induction Hl as [|[k v] l [Hk Hv] Hl IH]; intros fuel m Hf.
  - by destruct fuel; [simpl in Hf; lia|].
  - destruct fuel as [|fuel]; [simpl in Hf; lia|].
    rewrite parse_entries_entry by done. cbn [fold_left fst snd].
    destruct (skip_comma_emit l) as [->| ->]; [apply IH; simpl in Hf; lia|].
    destruct fuel; done.
Qed.

Lemma fold_insert_list_to_map (l : list (str * Z)) (m : gmap str Z) :
  NoDup l.*1 -> fold_left (fun m p => <[p.1 := p.2]> m) l m = list_to_map l ∪ m.
Proof.
  revert m. induction l as [|[k v] l IH]; intros m Hnd; simpl; [by rewrite (left_id_L ∅ (∪))|].
  apply NoDup_cons in Hnd as [Hk Hnd]. rewrite IH by done. simpl.
  rewrite <- insert_union_l, insert_union_r; [done|]. by apply not_elem_of_list_to_map_1.
Qed.

Lemma length_emit l first : (length l < length (emit l first))%nat.
Proof.
  revert first. induction l as [|[k v] l IH]; intros first; simpl; [lia|].
  specialize (IH false). rewrite !length_app. simpl. rewrite !length_app. simpl.
  rewrite length_app. lia.
Qed.

Lemma length_skipWs s : (length (skipWs s) <= length s)%nat.
Proof. induction s as [|c s IH]; simpl; [lia|]. destruct (isspace c); simpl; lia. Qed.

Lemma length_skip_if c s : (length (skip_if c s) <= length s)%nat.
Proof. destruct s as [|x s]; simpl; [lia|]. destruct (x =? c); simpl; lia. Qed.

Lemma length_read_key s : (length (read_key s).2 <= length s)%nat.
Proof.
  induction s as [|c s IH]; simpl; [lia|].
  destruct (c =? 34); simpl; [lia|]. destruct (read_key s); simpl in *. lia.
Qed.

Lemma length_read_digits s val any : (length (read_digits s val any).2 <= length s)%nat.
Proof.
  revert val any. induction s as [|c s IH]; intros val any; simpl; [lia|].
  destruct (isdigit c); simpl; [|lia]. etransitivity; [apply IH|lia].
Qed.

#[local] Hint Resolve length_skipWs length_skip_if length_read_key length_read_digits : core.

(** An iteration that does not stop the loop consumes input. *)
Lemma parse_entries_fuel f1 f2 s m :
  (length s <= f1)%nat -> (length s <= f2)%nat -> parse_entries f1 s m = parse_entries f2 s m.
Proof.
  revert f2 s m. induction f1 as [|f1 IH]; intros f2 s m H1 H2.
  { destruct s; [|simpl in H1; lia]. by destruct f2. }
  destruct f2 as [|f2]; [destruct s; [done|simpl in H2; lia]|].
  cbn [parse_entries]. case_bool_decide; [done|].
  destruct (at_char 125 _); [done|]. destruct (at_char 34 (skipWs s)) eqn:Eq; [|done].
  cbn [negb]. pose proof (length_skipWs s) as L0.
  destruct (skipWs s) as [|q s1]; [done|]. rewrite skipn_cons, drop_0. simpl in L0.
  pose proof (length_read_key s1) as L1. destruct (read_key s1) as [k s2]. simpl in L1.
  set (s3 := skipWs (skip_if 58 (skipWs (drop 1 s2)))).
  assert (length s3 <= length s2)%nat as L3.
  { subst s3. etransitivity; [apply length_skipWs|]. etransitivity; [apply length_skip_if|].
    etransitivity; [apply length_skipWs|]. rewrite length_drop. lia. }
  pose proof (length_read_digits (skip_if 45 s3) 0 false) as L4.
  destruct (read_digits _ 0 false) as [[val any] s4]. simpl in L4.
  assert (length (skip_if 44 (skipWs s4)) <= length s1)%nat as L5.
  { etransitivity; [apply length_skip_if|]. etransitivity; [apply length_skipWs|].
    pose proof (length_skip_if 45 s3). lia. }
  apply IH; lia.
Qed.

Lemma fromJson_unfold s :
  fromJson (LBRACE :: s) = VV (parse_entries (length s) s ∅).
Proof.
  unfold fromJson. rewrite skipWs_id by done. cbn [at_char Z.eqb Pos.eqb].
  rewrite skipn_cons, drop_0. f_equal. apply parse_entries_fuel; simpl; lia.
Qed.

Lemma fromJson_toJson vv : json_safe vv -> fromJson (toJson vv) = vv.
Proof.
  intros Hs. unfold toJson. change (lit "{" ++ ?x) with (LBRACE :: x).
  rewrite fromJson_unfold, parse_entries_emit.
  - rewrite fold_insert_list_to_map by apply listing_keys_NoDup.
    rewrite (right_id_L ∅ (∪)), listing_to_map. by destruct vv.
  - apply Forall_listing. intros d v Hd. by apply (Hs d v Hd).
  - pose proof (length_emit (listing vv) true). lia.
Qed.

Lemma bump_json_safe vv d :
  json_safe vv -> QUOTE ∉ d -> get vv d < INT64_MAX -> json_safe (bump vv d).
Proof.
  intros Hs Hd Hlt. unfold json_safe, bump in *. simpl. apply map_Forall_insert_2; [|done].
  split; [done|]. assert (0 <= get vv d).
  { apply get_nonneg. intros k v Hk. by apply (Hs k v Hk). }
  rewrite wrap_i64_id; unfold is_int64, INT64_MIN in *; lia.
Qed.

End VersionVectorFacts.

#[export] Hint Resolve VersionVectorFacts.bump_nonneg VersionVectorFacts.merge_nonneg
  VersionVectorFacts.get_nonneg VersionVectorFacts.bump_json_safe : npsync.

(** * Claims *)

Module VersionVectorSpec.
Import VersionVector VersionVectorFacts.

(** Two devices used by the concrete instances below. *)
Definition dev_A : str := lit "A".
Definition dev_B : str := lit "B".
Definition vv_of (l : list (str * Z)) : t := VV (list_to_map l).

(** C36: on vectors with non-negative counters [dominates] decides the strict
    pointwise order (at least everywhere, more somewhere, absent meaning 0),
    and is therefore irreflexive, asymmetric and transitive. *)
Theorem dominates_strict_order (a b c : t) (Ha : nonneg a) (Hb : nonneg b) (Hc : nonneg c) :
  (dominates a b = true <-> le b a /\ ~ le a b) /\
  dominates a a = false /\
  (dominates a b = true -> dominates b a = false) /\
  (dominates a b = true -> dominates b c = true -> dominates a c = true).
Proof.
  split_and!; [by apply dominates_iff_lt|by apply dominates_irrefl|by apply dominates_asym|].
  by apply dominates_trans.
Qed.

Lemma dominates_strict_order_witness :
  let a := vv_of [(dev_A, 2); (dev_B, 1)] in
  let b := vv_of [(dev_A, 1); (dev_B, 1)] in
  (dominates a b = true <-> le b a /\ ~ le a b) /\
  dominates a a = false /\
  (dominates a b = true -> dominates b a = false) /\
  (dominates a b = true -> dominates b empty = true -> dominates a empty = true).
Proof.
  apply (dominates_strict_order (vv_of [(dev_A, 2); (dev_B, 1)])
           (vv_of [(dev_A, 1); (dev_B, 1)]) empty);
    decide_goal.
Defined.

(** [merge] is the least upper bound of the two vectors in the pointwise
    order (the class comment's "element-wise max"), keeps counters
    non-negative, and [bump] strictly advances a vector on its own device
    only; at the last 64-bit value it wraps to a negative counter instead and
    the bumped vector no longer dominates. *)
Theorem merge_lub_bump_advances (a b : t) (d : str) (Ha : nonneg a) (Hb : nonneg b) :
  (le a (merge a b) /\ le b (merge a b) /\ nonneg (merge a b) /\
   forall c, le a c -> le b c -> le (merge a b) c) /\
  (forall d', d' <> d -> get (bump a d) d' = get a d') /\
  (get a d < INT64_MAX -> get (bump a d) d = get a d + 1 /\ dominates (bump a d) a = true) /\
  (get a d = INT64_MAX -> get (bump a d) d = INT64_MIN /\ dominates (bump a d) a = false).
Proof.
  assert (forall d', get (merge a b) d' = Z.max (get a d') (get b d')) as Hm
    by (intros; by apply get_merge).
  split; [split_and!|split_and!].
  - intros d'. rewrite Hm. lia.
  - intros d'. rewrite Hm. lia.
  - by apply merge_nonneg.
  - intros c Hac Hbc d'. rewrite Hm. specialize (Hac d'). specialize (Hbc d'). lia.
  - intros d' Hd'. rewrite get_bump, decide_False by done. done.
  - intros Hlt. pose proof (get_nonneg a d Ha).
    assert (get (bump a d) d = get a d + 1) as Hg.
    { rewrite get_bump, decide_True by done. apply wrap_i64_id.
      unfold is_int64, INT64_MIN, INT64_MAX in *; lia. }
    split; [done|]. apply dominates_true_iff; [by apply bump_nonneg|done|].
    split; [|exists d; lia]. intros d'. destruct (decide (d = d')) as [<-|]; [lia|].
    rewrite get_bump, decide_False by done. lia.
  - intros He. assert (get (bump a d) d = INT64_MIN) as Hg.
    { rewrite get_bump, decide_True by done. by rewrite He. }
    split; [done|]. unfold dominates.
    pose proof (dominates_own_spec (listing (bump a d)) a false) as Hown.
    destruct (dominates_own _ _ _) as [g|]; [|done]. destruct Hown as [Hall _].
    rewrite Forall_listing in Hall.
    assert (get a d <= INT64_MIN) by
      (apply (Hall d INT64_MIN); unfold bump; simpl; by rewrite lookup_insert_eq, He).
    unfold INT64_MAX, INT64_MIN in *. lia.
Qed.

Lemma merge_lub_bump_advances_witness :
  let a := vv_of [(dev_A, 2); (dev_B, 1)] in
  let b := vv_of [(dev_B, 4)] in
  le a (merge a b) /\ get (merge a b) dev_B = 4 /\ dominates (bump a dev_A) a = true.
Proof.
  destruct (merge_lub_bump_advances (vv_of [(dev_A, 2); (dev_B, 1)]) (vv_of [(dev_B, 4)]) dev_A)
    as [(H1&_) (_&H2&_)].
  1-2: decide_goal.
  split; [exact H1|]. split; [vm_compute; reflexivity|]. apply H2. vm_compute. reflexivity.
Defined.

(** [concurrent], the conflict test, reports exactly two situations: the
    vectors count edits the other has not seen on both sides, or they count
    the same edits but one stores an explicit zero entry the other lacks. For
    vectors without zero entries exactly one of equal, dominates, dominated
    and concurrent holds; with one, a vector can be "concurrent" with an
    equivalent one. *)
Theorem concurrent_spec (a b : t) (Ha : nonneg a) (Hb : nonneg b) :
  (concurrent a b = true <->
     (~ le a b /\ ~ le b a) \/ (same a b /\ entries a <> entries b)) /\
  (canonical a -> canonical b ->
     (Nat.b2n (equal a b) + Nat.b2n (dominates a b) + Nat.b2n (dominates b a)
      + Nat.b2n (concurrent a b) = 1)%nat) /\
  (exists x y, nonneg x /\ nonneg y /\ same x y /\ concurrent x y = true).
Proof.
  split_and!; [by apply concurrent_iff| |].
  - intros Ca Cb. pose proof (concurrent_iff a b Ha Hb) as Hc.
    pose proof (dominates_iff_lt a b Ha Hb) as H1. pose proof (dominates_iff_lt b a Hb Ha) as H2.
    pose proof (same_canonical a b Ca Cb) as Hs. unfold equal.
    assert (le a b -> le b a -> same a b)
      by (intros G1 G2 d; specialize (G1 d); specialize (G2 d); lia).
    assert (entries a = entries b -> le a b /\ le b a)
      by (intros G; split; intros d; unfold get; by rewrite G).
    case_bool_decide; destruct (dominates a b), (dominates b a), (concurrent a b); simpl;
      try done; exfalso; destruct (le_cases a b Hb) as [?|[? _]], (le_cases b a Ha) as [?|[? _]];
      naive_solver.
  - exists empty, (vv_of [(dev_A, 0)]). split_and!.
    + decide_goal.
    + decide_goal.
    + intros d. unfold get, vv_of, empty. simpl.
      destruct (decide (dev_A = d)) as [<-|]; simplify_map_eq; done.
    + vm_compute. reflexivity.
Qed.

Lemma concurrent_spec_witness :
  let a := vv_of [(dev_A, 6); (dev_B, 3)] in
  let b := vv_of [(dev_A, 5); (dev_B, 4)] in
  concurrent a b = true /\ ((~ le a b /\ ~ le b a) \/ (same a b /\ entries a <> entries b)).
Proof.
  split; [vm_compute; reflexivity|].
  apply (concurrent_spec (vv_of [(dev_A, 6); (dev_B, 3)]) (vv_of [(dev_A, 5); (dev_B, 4)]));
    [| |vm_compute; reflexivity];
    decide_goal.
Defined.

(** The JSON text of a vector parses back to the same vector, for every
    vector whose device names contain no double quote and whose counters are
    non-negative 64-bit values; the parser returns on every text (its loop
    consumes input, so any amount of fuel from the length of the text on gives
    the same result) and drops negative counters. *)
Theorem version_vector_json_roundtrip (vv : t) (Hs : json_safe vv) :
  fromJson (toJson vv) = vv /\
  (forall json fuel, (length json <= fuel)%nat ->
     fromJson (LBRACE :: json) = VV (parse_entries fuel json ∅)) /\
  fromJson (toJson (vv_of [(dev_A, -5); (dev_B, 2)])) = vv_of [(dev_B, 2)].
Proof.
  split_and!; [by apply fromJson_toJson| |decide_goal].
  intros json fuel Hf. rewrite fromJson_unfold. f_equal. by apply parse_entries_fuel.
Qed.

Lemma version_vector_json_roundtrip_witness :
  let vv := vv_of [(dev_A, 12); (dev_B, 9223372036854775807)] in
  toJson vv <> [] /\ fromJson (toJson vv) = vv.
Proof.
  split; [done|].
  apply (version_vector_json_roundtrip (vv_of [(dev_A, 12); (dev_B, 9223372036854775807)])).
  decide_goal.
Defined.

End VersionVectorSpec.
