(* ===== verification/Merge.v ===== *)
(** * Merge: core/Merge.cpp, the line-based three-way merge

    [diffLines] builds the LCS table row by row as the code fills it, walks it
    from (0,0) with the loop state [BT] (the indices, the open region, the
    edits so far) and closes regions as [closeRegion] does. [merge] overlays
    the two edit scripts on the base with the region sweep. A vector with a
    read cursor ([editsL], [iL]) is the list of the edits not yet consumed. *)
From S2P Require Import Prelude Text.

Module Merge.

Record MergeHunk := MkHunk { localLines : list str; remoteLines : list str }.

#[export] Instance MergeHunk_eq_dec : EqDecision MergeHunk.
Proof. solve_decision. Defined.

Record MergeResult := MkResult { clean : bool; merged : str; hunks : list MergeHunk }.

#[export] Instance MergeResult_eq_dec : EqDecision MergeResult.
Proof. solve_decision. Defined.

(** One changed region: base[aStart, aEnd) replaced by [elines]. *)
Record Edit := MkEdit { aStart : nat; aEnd : nat; elines : list str }.

#[export] Instance Edit_eq_dec : EqDecision Edit.
Proof. solve_decision. Defined.

Definition empty_edit : Edit := MkEdit 0 0 [].

Definition kMaxAutoMergeCells : Z := 16 * 1000 * 1000.

(** ** The LCS length table *)

(** Row [i] from row [i + 1] (cells 0..m): the inner loop over j = m-1..0. *)
Fixpoint dp_row (x : str) (to : list str) (below : list Z) : list Z :=
  match to, below with
  | y :: to', b :: below' =>
      let rest := dp_row x to' below' in
      (if decide (x = y) then wrap_u32 (default 0 (head below') + 1)
       else Z.max b (default 0 (head rest))) :: rest
  | _, _ => [0]
  end.

(** The whole table, rows 0..n: the outer loop over i = n-1..0. *)
Fixpoint dp_table (from to : list str) : list (list Z) :=
  match from with
  | [] => [replicate (S (length to)) 0]
  | x :: from' =>
      let rows := dp_table from' to in
      dp_row x to (default [] (head rows)) :: rows
  end.

Definition at_ (dp : list (list Z)) (i j : nat) : Z := default 0 (dp !! i ≫= (.!! j)).

(** ** Backtracking *)

Record BT := MkBT {
  bt_i : nat;
  bt_j : nat;
  bt_open : bool;      (* inside a changed region *)
  bt_cur : Edit;
  bt_edits : list Edit
}.

(** The lambda [closeRegion]. *)
Definition closeRegion (s : BT) : BT :=
  if bt_open s then
    MkBT (bt_i s) (bt_j s) false empty_edit
      (bt_edits s ++ [MkEdit (aStart (bt_cur s)) (bt_i s) (elines (bt_cur s))])
  else s.

(** [if (!open) { open = true; cur.aStart = i; }]. *)
Definition openRegion (s : BT) : BT :=
  if bt_open s then s
  else MkBT (bt_i s) (bt_j s) true
         (MkEdit (bt_i s) (aEnd (bt_cur s)) (elines (bt_cur s))) (bt_edits s).

(** [++i; ++j] after a match. *)
Definition step_match (s : BT) : BT :=
  let s := closeRegion s in
  MkBT (S (bt_i s)) (S (bt_j s)) (bt_open s) (bt_cur s) (bt_edits s).

(** [++i]: delete from[i]. *)
Definition step_delete (s : BT) : BT :=
  let s := openRegion s in
  MkBT (S (bt_i s)) (bt_j s) (bt_open s) (bt_cur s) (bt_edits s).

Definition push_line (y : str) (e : Edit) : Edit := MkEdit (aStart e) (aEnd e) (elines e ++ [y]).

(** [cur.lines.push_back(to[j]); ++j]: insert to[j]. *)
Definition step_insert (y : str) (s : BT) : BT :=
  let s := openRegion s in
  MkBT (bt_i s) (S (bt_j s)) (bt_open s) (push_line y (bt_cur s)) (bt_edits s).

(** The [while (i < n && j < m)] loop; it advances i or j, so n + m is enough fuel. *)
Fixpoint backtrack (fuel : nat) (from to : list str) (dp : list (list Z)) (s : BT) : BT :=
  match fuel with
  | O => s
  | S fuel' =>
      match from !! bt_i s, to !! bt_j s with
      | Some x, Some y =>
          if decide (x = y) then backtrack fuel' from to dp (step_match s)
          else if at_ dp (bt_i s) (S (bt_j s)) <=? at_ dp (S (bt_i s)) (bt_j s)
               then backtrack fuel' from to dp (step_delete s)
               else backtrack fuel' from to dp (step_insert y s)
      | _, _ => s
      end
  end.

(** [if (i < n) { open; i = n; }]. *)
Definition tail_delete (n : nat) (s : BT) : BT :=
  if decide (bt_i s < n)%nat then
    let s := openRegion s in MkBT n (bt_j s) (bt_open s) (bt_cur s) (bt_edits s)
  else s.

(** [if (j < m) { open; for (; j < m; ++j) push_back(to[j]); }]. *)
Definition tail_insert (to : list str) (s : BT) : BT :=
  if decide (bt_j s < length to)%nat then
    let s := openRegion s in
    MkBT (bt_i s) (length to) (bt_open s)
      (MkEdit (aStart (bt_cur s)) (aEnd (bt_cur s)) (elines (bt_cur s) ++ drop (bt_j s) to))
      (bt_edits s)
  else s.

Definition bt_init : BT := MkBT 0 0 false empty_edit [].

(** [None] is [ok = false]. *)
Definition diffLines (from to : list str) : option (list Edit) :=
  let n := length from in
  let m := length to in
  if decide (n = 0%nat /\ m = 0%nat) then Some []
  else if (0 <? Z.of_nat n) && (0 <? Z.of_nat m)
          && (kMaxAutoMergeCells <? wrap_u64 (Z.of_nat n * Z.of_nat m))
  then None
  else
    let dp := dp_table from to in
    let s := backtrack (n + m) from to dp bt_init in
    Some (bt_edits (closeRegion (tail_insert to (tail_delete n s)))).

(** ** Splitting *)

(** The first loop: counts of "\r\n" and of bare "\n". *)
Fixpoint count_eols (prev : Z) (s : str) (crlf lfOnly : Z) : Z * Z :=
  match s with
  | [] => (crlf, lfOnly)
  | c :: s' =>
      if c =? LF
      then if prev =? CR then count_eols c s' (crlf + 1) lfOnly
           else count_eols c s' crlf (lfOnly + 1)
      else count_eols c s' crlf lfOnly
  end.

(** Strip one trailing '\r' of a line that ended with '\n'. *)
Definition strip_cr (l : str) : str :=
  match last l with
  | Some c => if c =? CR then removelast l else l
  | None => l
  end.

(** The second loop: [cur] is text[start, i). *)
Fixpoint split_loop (s : str) (cur : str) (lines : list str) : list str * str :=
  match s with
  | [] => (lines, cur)
  | c :: s' =>
      if c =? LF then split_loop s' [] (lines ++ [strip_cr cur])
      else split_loop s' (cur ++ [c]) lines
  end.

(** [splitLines(text, eolOut)]: the lines and the dominant line ending. *)
Definition splitLines (text : str) : list str * str :=
  let '(crlf, lfOnly) := count_eols NUL text 0 0 in
  let eol := if lfOnly <=? crlf then [CR; LF] else [LF] in
  let '(lines, cur) := split_loop text [] [] in
  (if bool_decide (cur = []) then lines else lines ++ [cur], eol).

(** ** The region sweep *)

(** The lambda [appendLines]. *)
Definition appendLines (eol out : str) (ls : list str) : str :=
  fold_left (fun out l => (out ++ l) ++ eol) ls out.

(** [while (s < edits.size() && edits[s].aStart <= regionEnd)]: the new
    region end, the edits taken, the edits left. *)
Fixpoint absorb (regionEnd : nat) (es : list Edit) : nat * list Edit * list Edit :=
  match es with
  | e :: es' =>
      if decide (aStart e <= regionEnd)%nat then
        let '(re, taken, rest) := absorb (Nat.max regionEnd (aEnd e)) es' in
        (re, e :: taken, rest)
      else (regionEnd, [], es)
  | [] => (regionEnd, [], [])
  end.

(** The [for (;;)] loop; every round but the last takes an edit. *)
Fixpoint fold_region (fuel : nat) (regionEnd : nat) (tL eL tR eR : list Edit)
  : nat * (list Edit * list Edit) * (list Edit * list Edit) :=
  match fuel with
  | O => (regionEnd, (tL, eL), (tR, eR))
  | S fuel' =>
      let '(re1, gL, restL) := absorb regionEnd eL in
      let '(re2, gR, restR) := absorb re1 eR in
      if bool_decide (gL = [] /\ gR = []) then (re2, (tL, restL), (tR, restR))
      else fold_region fuel' re2 (tL ++ gL) restL (tR ++ gR) restR
  end.

(** The lambda [build]: one side's replacement text for base[cursor, regionEnd). *)
Fixpoint build (base : list str) (regionEnd cursor : nat) (es : list Edit) : list str :=
  match es with
  | [] => slice cursor regionEnd base
  | e :: es' => slice cursor (aStart e) base ++ elines e ++ build base regionEnd (aEnd e) es'
  end.

Definition next_start (eL eR : list Edit) : option nat :=
  match eL, eR with
  | [], [] => None
  | l :: _, [] => Some (aStart l)
  | [], r :: _ => Some (aStart r)
  | l :: _, r :: _ => Some (Nat.min (aStart l) (aStart r))
  end.

(** The body of the main loop past the fold: emit one region, given the edits
    [tL] and [tR] of both sides that fall into base[nextStart, regionEnd). *)
Definition emit_region (base : list str) (eol : str) (nextStart regionEnd : nat)
    (tL tR : list Edit) (out : str) (hs : list MergeHunk) : str * list MergeHunk :=
  let hasL := negb (bool_decide (tL = [])) in
  let hasR := negb (bool_decide (tR = [])) in
  let repL := if hasL then build base regionEnd nextStart tL
              else slice nextStart regionEnd base in
  let repR := if hasR then build base regionEnd nextStart tR
              else slice nextStart regionEnd base in
  if negb hasL && negb hasR
  then (appendLines eol out (slice nextStart regionEnd base), hs)
  else if bool_decide (repL = repR) then (appendLines eol out repL, hs)
  else if negb hasR then (appendLines eol out repL, hs)
  else if negb hasL then (appendLines eol out repR, hs)
  else (out, hs ++ [MkHunk repL repR]).

(** The main [while] loop: text appended so far and conflict hunks. *)
Fixpoint sweep (fuel : nat) (base : list str) (eol : str) (basePos : nat)
    (eL eR : list Edit) (out : str) (hs : list MergeHunk) : str * list MergeHunk :=
  match fuel with
  | O => (out, hs)
  | S fuel' =>
      if bool_decide ((length base <= basePos)%nat /\ eL = [] /\ eR = []) then (out, hs)
      else
        match next_start eL eR with
        | None => (appendLines eol out (slice basePos (length base) base), hs)
        | Some nextStart =>
            let out := appendLines eol out (slice basePos nextStart base) in
            let '(regionEnd, (tL, restL), (tR, restR)) :=
              fold_region (S (length eL + length eR)) nextStart [] eL [] eR in
            let '(out, hs) := emit_region base eol nextStart regionEnd tL tR out hs in
            sweep fuel' base eol regionEnd restL restR out hs
        end
  end.

Definition conflict_result (hs : list MergeHunk) : MergeResult := MkResult false [] hs.
Definition clean_result (text : str) : MergeResult := MkResult true text [].

(** [ThreeWayMerge::merge]. *)
Definition merge (base local remote : str) : MergeResult :=
  if bool_decide (local = remote) then clean_result local
  else if bool_decide (local = base) then clean_result remote
  else if bool_decide (remote = base) then clean_result local
  else
    let '(baseLines, eol) := splitLines base in
    let '(locLines, _) := splitLines local in
    let '(remLines, _) := splitLines remote in
    match diffLines baseLines locLines, diffLines baseLines remLines with
    | Some editsL, Some editsR =>
        let '(out, hs) :=
          sweep (S (S (length editsL + length editsR))) baseLines eol 0 editsL editsR [] [] in
        if bool_decide (hs = []) then clean_result out else conflict_result hs
    | _, _ => conflict_result [] (* too large to auto-merge safely *)
    end.

End Merge.

(** * Lemmas *)

Module MergeFacts.
Import Merge.

(** ** Reference notions *)

(** Well-formed edit scripts: in order, separated by at least one base line,
    never empty; [hi] bounds the position after the last edit. *)
Fixpoint wf_upto (lo : nat) (es : list Edit) (hi : nat) : Prop :=
  match es with
  | [] => (lo <= hi)%nat
  | e :: es' =>
      (lo <= aStart e)%nat /\ (aStart e <= aEnd e)%nat /\
      ((aStart e < aEnd e)%nat \/ elines e <> []) /\ wf_upto (S (aEnd e)) es' hi
  end.

(** The text an edit script makes of a base. *)
Definition apply_edits (base : list str) (es : list Edit) : list str :=
  build base (length base) 0 es.

(** Length of a longest common subsequence (textbook recursion). *)
Fixpoint lcs (l k : list str) {struct l} : nat :=
  match l with
  | [] => 0%nat
  | x :: l' =>
      (fix inner (k : list str) : nat :=
         match k with
         | [] => 0%nat
         | y :: k' => if decide (x = y) then S (lcs l' k') else Nat.max (lcs l' (y :: k')) (inner k')
         end) k
  end.

(** Base lines an edit script removes. *)
Definition deleted (es : list Edit) : nat := sum_list_with (fun e => aEnd e - aStart e)%nat es.

(** ** [wf_upto] and [build] *)

Lemma wf_upto_le lo es hi : wf_upto lo es hi -> (lo <= hi)%nat.
Proof.
  revert lo. induction es as [|e es IH]; intros lo; simpl; [done|].
  intros (?&?&_&?%IH). lia.
Qed.

Lemma wf_upto_mono lo es hi hi' : wf_upto lo es hi -> (hi <= hi')%nat -> wf_upto lo es hi'.
Proof.
  revert lo. induction es as [|e es IH]; intros lo; simpl; [lia|].
  intros (?&?&?&?) ?. split_and!; eauto.
Qed.

Lemma wf_upto_weaken lo lo' es hi : wf_upto lo es hi -> (lo' <= lo)%nat -> wf_upto lo' es hi.
Proof. destruct es as [|e es]; simpl; [lia|]. intros (?&?&?&?) ?. split_and!; [lia|done..]. Qed.

Lemma wf_upto_snoc lo es hi a b ls :
  wf_upto lo es hi -> (hi <= a)%nat -> (a <= b)%nat -> ((a < b)%nat \/ ls <> []) ->
  wf_upto lo (es ++ [MkEdit a b ls]) (S b).
Proof.
  revert lo. induction es as [|e es IH]; intros lo; simpl.
  - intros. split_and!; [lia|done|done|lia].
  - intros (?&?&?&?) ? ? ?. split_and!; [done..|]. by apply IH.
Qed.

Lemma wf_upto_app lo es1 es2 hi :
  wf_upto lo (es1 ++ es2) hi -> exists mid, wf_upto lo es1 mid /\ wf_upto mid es2 hi.
Proof.
  revert lo. induction es1 as [|e es1 IH]; intros lo; simpl; [by exists lo|].
  intros (?&?&?&(mid&?&?)%IH). exists mid. by split_and!.
Qed.

Lemma wf_upto_ends lo es hi : wf_upto lo es hi -> Forall (fun e => S (aEnd e) <= hi)%nat es.
Proof.
  revert lo. induction es as [|e es IH]; intros lo; simpl; [done|].
  intros (?&?&_&Hw). constructor; [by eapply wf_upto_le|eauto].
Qed.

Lemma build_snoc base re pos es e :
  build base re pos (es ++ [e]) =
  build base (aStart e) pos es ++ elines e ++ slice (aEnd e) re base.
Proof. revert pos. induction es as [|x es IH]; intros pos; simpl; [done|]. by rewrite IH, <- !app_assoc. Qed.

(** Extending the end of the built range copies base lines. *)
Lemma build_extend base es pos i k :
  Forall (fun e => aEnd e <= i)%nat es -> (pos <= i)%nat -> (i <= k)%nat ->
  build base k pos es = build base i pos es ++ slice i k base.
Proof.
  intros Hes Hp Hk. revert pos Hp. induction Hes as [|e es He Hes IH]; intros pos Hp; simpl.
  - symmetry. by apply slice_app.
  - by rewrite IH, <- !app_assoc by done.
Qed.

(** Cutting the built range at [re], when no remaining edit starts before. *)
Lemma build_cut base n re pos es hi :
  (pos <= re)%nat -> (re <= n)%nat -> wf_upto re es hi ->
  match es with e :: _ => aStart e <= n | [] => True end%nat ->
  build base n pos es = slice pos re base ++ build base n re es.
Proof.
  intros Hp Hre Hw Hn. destruct es as [|e es]; simpl in *.
  - symmetry. by apply slice_app.
  - destruct Hw as (?&_). rewrite <- (slice_app pos re (aStart e)) by lia. by rewrite <- app_assoc.
Qed.

Lemma build_app base n re pos es1 es2 hi :
  (pos <= re)%nat -> Forall (fun e => aEnd e <= re)%nat es1 -> (re <= n)%nat ->
  wf_upto re es2 hi -> match es2 with e :: _ => aStart e <= n | [] => True end%nat ->
  build base n pos (es1 ++ es2) = build base re pos es1 ++ build base n re es2.
Proof.
  intros Hp Hes Hre Hw Hn. revert pos Hp. induction Hes as [|e es1 He Hes IH]; intros pos Hp; simpl.
  - by eapply build_cut.
  - by rewrite IH, <- !app_assoc by done.
Qed.

(** ** Backtracking invariant: the script so far makes to[0, j) of from[0, i) *)

Record bt_inv (from to : list str) (s : BT) : Prop := {
  inv_i : (bt_i s <= length from)%nat;
  inv_j : (bt_j s <= length to)%nat;
  inv_text :
    if bt_open s then
      wf_upto 0 (bt_edits s) (aStart (bt_cur s)) /\ (aStart (bt_cur s) <= bt_i s)%nat /\
      ((aStart (bt_cur s) < bt_i s)%nat \/ elines (bt_cur s) <> []) /\
      build from (aStart (bt_cur s)) 0 (bt_edits s) ++ elines (bt_cur s) = take (bt_j s) to
    else
      wf_upto 0 (bt_edits s) (bt_i s) /\ elines (bt_cur s) = [] /\
      build from (bt_i s) 0 (bt_edits s) = take (bt_j s) to
}.

(** The same with a region that may still be empty, right after [openRegion]. *)
Definition opened (from to : list str) (s : BT) : Prop :=
  bt_open s = true /\ wf_upto 0 (bt_edits s) (aStart (bt_cur s)) /\
  (aStart (bt_cur s) <= bt_i s)%nat /\
  build from (aStart (bt_cur s)) 0 (bt_edits s) ++ elines (bt_cur s) = take (bt_j s) to.

Lemma openRegion_ij s : bt_i (openRegion s) = bt_i s /\ bt_j (openRegion s) = bt_j s.
Proof. unfold openRegion. by destruct (bt_open s). Qed.

Lemma openRegion_spec from to s : bt_inv from to s -> opened from to (openRegion s).
Proof.
  intros [Hi Hj Ht]. unfold openRegion. destruct (bt_open s) eqn:Eo.
  - destruct Ht as (?&?&_&?). by split_and!.
  - destruct Ht as (?&Hl&?). split_and!; simpl; [done|done|lia|]. by rewrite Hl, app_nil_r.
Qed.

Lemma closeRegion_spec from to s :
  bt_inv from to s ->
  let s' := closeRegion s in
  bt_i s' = bt_i s /\ bt_j s' = bt_j s /\ bt_open s' = false /\ elines (bt_cur s') = [] /\
  wf_upto 0 (bt_edits s') (S (bt_i s)) /\ build from (bt_i s) 0 (bt_edits s') = take (bt_j s) to.
Proof.
  intros [Hi Hj Ht]. unfold closeRegion. destruct (bt_open s) eqn:Eo; simpl.
  - destruct Ht as (Hw&Hle&Hne&Hb). split_and!; try done.
    + by eapply wf_upto_snoc.
    + by rewrite build_snoc, slice_refl, app_nil_r; simpl.
  - destruct Ht as (Hw&Hl&Hb). split_and!; try done. eapply wf_upto_mono; [done|lia].
Qed.

Lemma bt_inv_init from to : bt_inv from to bt_init.
Proof. split; simpl; [lia|lia|]. split_and!; [lia|done|]. by rewrite slice_refl. Qed.

Lemma step_match_inv from to s x :
  bt_inv from to s -> from !! bt_i s = Some x -> to !! bt_j s = Some x ->
  bt_inv from to (step_match s).
Proof.
  intros Hinv Hx Hy. pose proof (lookup_lt_Some _ _ _ Hx). pose proof (lookup_lt_Some _ _ _ Hy).
  unfold step_match. destruct (closeRegion_spec _ _ _ Hinv) as (Ei&Ej&Eo&El&Hw&Hb).
  split; simpl; rewrite ?Ei, ?Ej; [lia|lia|]. rewrite Eo. split_and!; [done|done|].
  rewrite (build_extend from _ 0 (bt_i s)).
  - by rewrite Hb, (slice_cons _ _ _ x), slice_refl, (take_S_r _ _ x) by (done || lia).
  - eapply Forall_impl; [by eapply wf_upto_ends|]. simpl. lia.
  - lia.
  - lia.
Qed.

Lemma step_delete_inv from to s :
  bt_inv from to s -> (bt_i s < length from)%nat -> bt_inv from to (step_delete s).
Proof.
  intros Hinv Hi. pose proof (openRegion_spec _ _ _ Hinv) as (Ho&Hw&Hle&Hb).
  destruct (openRegion_ij s) as [Ei Ej]. destruct Hinv as [_ Hj _].
  unfold step_delete. split; simpl; rewrite ?Ei, ?Ej; [lia|lia|].
  rewrite Ho. rewrite Ei in *. rewrite Ej in *. split_and!; [done|lia|left; lia|done].
Qed.

Lemma step_insert_inv from to s y :
  bt_inv from to s -> to !! bt_j s = Some y -> bt_inv from to (step_insert y s).
Proof.
  intros Hinv Hy. pose proof (lookup_lt_Some _ _ _ Hy).
  pose proof (openRegion_spec _ _ _ Hinv) as (Ho&Hw&Hle&Hb).
  destruct (openRegion_ij s) as [Ei Ej]. destruct Hinv as [Hi _ _].
  unfold step_insert. split; simpl; rewrite ?Ei, ?Ej; [lia|lia|].
  rewrite Ho. rewrite Ei in *. rewrite Ej in *. split_and!; [done|done|right|].
  - by destruct (elines _).
  - by rewrite app_assoc, Hb, (take_S_r _ _ y).
Qed.

Lemma backtrack_inv fuel from to dp s :
  bt_inv from to s -> bt_inv from to (backtrack fuel from to dp s).
Proof.
  revert s. induction fuel as [|fuel IH]; intros s Hinv; simpl; [done|].
  destruct (from !! bt_i s) as [x|] eqn:Hx; [|done].
  destruct (to !! bt_j s) as [y|] eqn:Hy; [|done].
  pose proof (lookup_lt_Some _ _ _ Hx).
  case_decide as Hxy; [subst y; by apply IH, (step_match_inv _ _ _ x)|].
  destruct (_ <=? _); apply IH; [by apply step_delete_inv|by apply step_insert_inv].
Qed.

Lemma tail_delete_inv from to s :
  bt_inv from to s ->
  bt_inv from to (tail_delete (length from) s) /\ bt_i (tail_delete (length from) s) = length from.
Proof.
  intros Hinv. pose proof (openRegion_spec _ _ _ Hinv) as (Ho&Hw&Hle&Hb).
  destruct (openRegion_ij s) as [Ei Ej]. unfold tail_delete. case_decide as Hlt.
  - destruct Hinv as [_ Hj _]. split; [|done]. split; simpl; rewrite ?Ej; [lia|lia|].
    rewrite Ho. rewrite Ei in *. rewrite Ej in *. split_and!; [done|lia|left; lia|done].
  - split; [done|]. destruct Hinv. lia.
Qed.

Lemma tail_insert_inv from to s :
  bt_inv from to s ->
  bt_inv from to (tail_insert to s) /\ bt_i (tail_insert to s) = bt_i s /\
  bt_j (tail_insert to s) = length to.
Proof.
  intros Hinv. pose proof (openRegion_spec _ _ _ Hinv) as (Ho&Hw&Hle&Hb).
  destruct (openRegion_ij s) as [Ei Ej]. unfold tail_insert. case_decide as Hlt.
  - destruct Hinv as [Hi _ _]. split; [|done]. split; simpl; rewrite ?Ei; [lia|lia|].
    rewrite Ho. rewrite Ei in *. rewrite Ej in *. split_and!; [done|done| |].
    + right. intros [_ Hd]%app_nil. apply (f_equal length) in Hd.
      rewrite length_drop in Hd. simpl in Hd. lia.
    + by rewrite app_assoc, Hb, take_drop, firstn_all.
  - split; [done|]. destruct Hinv. split; [done|lia].
Qed.

(** The whole of [diffLines] past its guards. *)
Definition script (from to : list str) : BT :=
  tail_insert to (tail_delete (length from)
    (backtrack (length from + length to) from to (dp_table from to) bt_init)).

Lemma script_inv from to :
  bt_inv from to (script from to) /\ bt_i (script from to) = length from /\
  bt_j (script from to) = length to.
Proof.
  unfold script. set (s := backtrack _ _ _ _ _).
  assert (bt_inv from to s) as H1 by (apply backtrack_inv, bt_inv_init).
  destruct (tail_delete_inv _ _ _ H1) as [H2 E2].
  destruct (tail_insert_inv _ _ _ H2) as (H3&E3&E4). by rewrite E3.
Qed.

Lemma diffLines_Some from to es :
  diffLines from to = Some es -> es = bt_edits (closeRegion (script from to)).
Proof.
  unfold diffLines. case_decide as Hnm; [|by destruct (_ && _); [done|intros [= <-]]].
  destruct Hnm as [Hf Ht]. apply nil_length_inv in Hf, Ht. subst. by intros [= <-].
Qed.

Lemma diffLines_sound from to es :
  diffLines from to = Some es ->
  wf_upto 0 es (S (length from)) /\ apply_edits from es = to.
Proof.
  intros ->%diffLines_Some. destruct (script_inv from to) as (Hinv&Ei&Ej).
  destruct (closeRegion_spec _ _ _ Hinv) as (_&_&_&_&Hw&Hb). rewrite Ei in *.
  split; [done|]. unfold apply_edits. by rewrite Hb, Ej, firstn_all.
Qed.

(** ** The LCS table and optimality *)

Lemma lcs_cons x l y k :
  lcs (x :: l) (y :: k) =
  if decide (x = y) then S (lcs l k) else Nat.max (lcs l (y :: k)) (lcs (x :: l) k).
Proof. done. Qed.

Lemma lcs_nil_r l : lcs l [] = 0%nat.
Proof. by destruct l. Qed.

Lemma lcs_le l k : (lcs l k <= length l /\ lcs l k <= length k)%nat.
Proof.
  revert k. induction l as [|x l IHl]; intros k; [simpl; lia|].
  induction k as [|y k IHk]; [simpl; lia|].
  rewrite lcs_cons. pose proof (IHl k). pose proof (IHl (y :: k)).
  simpl in *. case_decide; lia.
Qed.

Lemma sublist_cons_tail {A} (c x : A) cs l : sublist (c :: cs) (x :: l) -> sublist cs l.
Proof.
  inversion 1; subst; [done|]. etransitivity; [|done]. by apply sublist_cons.
Qed.

(** No common subsequence is longer. *)
Lemma lcs_max cs l k : sublist cs l -> sublist cs k -> (length cs <= lcs l k)%nat.
Proof.
  revert cs k. induction l as [|x l IHl]; intros cs k Hl Hk.
  { apply sublist_nil_r in Hl. by subst. }
  revert cs Hl Hk. induction k as [|y k IHk]; intros cs Hl Hk.
  { apply sublist_nil_r in Hk. subst. simpl. lia. }
  rewrite lcs_cons. destruct cs as [|c cs]; [simpl; lia|].
  case_decide as Hxy.
  - simpl. apply le_n_S, IHl; by eapply sublist_cons_tail.
  - inversion Hl as [|? ? ? Hl' |? ? ? Hl']; subst.
    + inversion Hk as [|? ? ? Hk' |? ? ? Hk']; subst; [done|].
      specialize (IHk _ Hl Hk'). cbn [length] in *. lia.
    + specialize (IHl _ _ Hl' Hk). cbn [length] in *. lia.
Qed.

Lemma length_dp_row x to below :
  length below = S (length to) -> length (dp_row x to below) = S (length to).
Proof.
  revert below. induction to as [|y to IH]; intros [|b below] H; simpl in *; try lia.
  f_equal. apply IH. lia.
Qed.

(** A row of the table: cell j holds the LCS length of the suffixes. *)
Definition row_ok (l to : list str) (row : list Z) : Prop :=
  length row = S (length to) /\
  forall j, (j <= length to)%nat -> row !! j = Some (Z.of_nat (lcs l (drop j to))).

Lemma row_ok_tail l y to b row : row_ok l (y :: to) (b :: row) -> row_ok l to row.
Proof.
  intros [Hl Hr]. split; [simpl in Hl; lia|].
  intros j Hj. apply (Hr (S j)). simpl. lia.
Qed.

Lemma row_ok_head l to row : row_ok l to row -> default 0 (head row) = Z.of_nat (lcs l to).
Proof.
  intros [_ Hr]. specialize (Hr 0%nat ltac:(lia)). rewrite drop_0 in Hr.
  destruct row as [|r row]; [done|]. by injection Hr as ->.
Qed.

Lemma dp_row_ok x l to below :
  Z.of_nat (length to) < 2 ^ 32 -> row_ok l to below -> row_ok (x :: l) to (dp_row x to below).
Proof.
  revert below. induction to as [|y to IH]; intros below Hm Hrow.
  - destruct below; (split; [done|]); intros j Hj;
      (replace j with 0%nat by (simpl in Hj; lia)); done.
  - destruct below as [|b below]; [by destruct Hrow|].
    assert (Z.of_nat (length to) < 2 ^ 32) as Hm' by (cbn [length] in Hm; lia).
    pose proof (row_ok_tail _ _ _ _ _ Hrow) as Htl.
    pose proof (IH below Hm' Htl) as Hrest.
    pose proof (row_ok_head _ _ _ Htl) as E1. pose proof (row_ok_head _ _ _ Hrest) as E2.
    pose proof (row_ok_head _ _ _ Hrow) as E3. simpl in E3.
    cbn [dp_row]. rewrite E1, E2. split; [by simpl; f_equal; destruct Hrest|].
    intros [|j] Hj; [|by apply Hrest; simpl in Hj; lia].
    rewrite drop_0, lcs_cons. simpl. f_equal. case_decide.
    + cbn [length] in Hm. pose proof (lcs_le l to). rewrite wrap_u32_id; lia.
    + rewrite E3. lia.
Qed.

Lemma dp_table_ok from to i :
  Z.of_nat (length to) < 2 ^ 32 -> (i <= length from)%nat ->
  exists row, dp_table from to !! i = Some row /\ row_ok (drop i from) to row.
Proof.
  intros Hm. revert i. induction from as [|x from IH]; intros i Hi.
  - replace i with 0%nat by (simpl in Hi; lia). eexists. split; [done|].
    split; [by rewrite length_replicate|]. intros j Hj. apply lookup_replicate_2. lia.
  - destruct (IH 0%nat ltac:(lia)) as (row&Hrow&Hok). rewrite drop_0 in Hok.
    destruct i as [|i].
    + eexists. split; [done|]. rewrite drop_0. apply dp_row_ok; [done|].
      change (row_ok from to (default [] (head (dp_table from to)))).
      destruct (dp_table from to) as [|r rs]; [done|]. by injection Hrow as ->.
    + apply IH. simpl in Hi. lia.
Qed.

Lemma at_lcs from to i j :
  Z.of_nat (length to) < 2 ^ 32 -> (i <= length from)%nat -> (j <= length to)%nat ->
  at_ (dp_table from to) i j = Z.of_nat (lcs (drop i from) (drop j to)).
Proof.
  intros Hm Hi Hj. destruct (dp_table_ok from to i Hm Hi) as (row&Hrow&_&Hok).
  unfold at_. rewrite Hrow. simpl. by rewrite Hok.
Qed.

(** Deletions so far, the open region counted up to [bt_i]. *)
Definition dels (s : BT) : nat :=
  (deleted (bt_edits s) + if bt_open s then bt_i s - aStart (bt_cur s) else 0)%nat.

(** What the walk conserves: lines matched so far plus the LCS of the rest. *)
Definition bt_opt (from to : list str) (s : BT) : Prop :=
  (bt_i s + lcs (drop (bt_i s) from) (drop (bt_j s) to) = dels s + lcs from to)%nat.

Lemma deleted_app es1 es2 : deleted (es1 ++ es2) = (deleted es1 + deleted es2)%nat.
Proof. unfold deleted. induction es1; simpl; lia. Qed.

Lemma dels_openRegion s : dels (openRegion s) = dels s.
Proof. unfold openRegion, dels. destruct (bt_open s) eqn:E; simpl; rewrite ?E; lia. Qed.

Lemma dels_closeRegion s : dels (closeRegion s) = dels s.
Proof.
  unfold closeRegion, dels. destruct (bt_open s) eqn:E; simpl; rewrite ?E; [|done].
  rewrite deleted_app. unfold deleted at 2. simpl. lia.
Qed.

(** After [openRegion] the cursor advances over the open region. *)
Lemma dels_advance s i j cur :
  bt_open s = true -> (aStart (bt_cur s) <= bt_i s <= i)%nat -> aStart cur = aStart (bt_cur s) ->
  dels (MkBT i j (bt_open s) cur (bt_edits s)) = (dels s + (i - bt_i s))%nat.
Proof. intros Ho Hi Hc. unfold dels. simpl. rewrite Ho, Hc. lia. Qed.

Lemma step_match_opt from to s x :
  bt_opt from to s -> from !! bt_i s = Some x -> to !! bt_j s = Some x ->
  bt_opt from to (step_match s).
Proof.
  unfold bt_opt. intros Ho Hx Hy. rewrite (drop_S _ _ _ Hx), (drop_S _ _ _ Hy) in Ho.
  rewrite lcs_cons, decide_True in Ho by done.
  unfold step_match. assert (bt_i (closeRegion s) = bt_i s /\ bt_j (closeRegion s) = bt_j s) as [Ei Ej]
    by (unfold closeRegion; by destruct (bt_open s)).
  assert (bt_open (closeRegion s) = false) as Eo
    by (unfold closeRegion; destruct (bt_open s) eqn:E; done).
  simpl. rewrite Ei, Ej. set (s' := MkBT _ _ _ _ _).
  assert (dels s' = dels s) as ->
    by (rewrite <- (dels_closeRegion s); unfold dels, s'; simpl; by rewrite Eo).
  lia.
Qed.

Lemma step_delete_opt from to s x y :
  bt_inv from to s -> bt_opt from to s -> Z.of_nat (length to) < 2 ^ 32 ->
  from !! bt_i s = Some x -> to !! bt_j s = Some y -> x <> y ->
  at_ (dp_table from to) (bt_i s) (S (bt_j s)) <= at_ (dp_table from to) (S (bt_i s)) (bt_j s) ->
  bt_opt from to (step_delete s).
Proof.
  intros Hinv Ho Hm Hx Hy Hxy Hat.
  pose proof (lookup_lt_Some _ _ _ Hx). pose proof (lookup_lt_Some _ _ _ Hy).
  rewrite !at_lcs in Hat by lia. apply Nat2Z.inj_le in Hat.
  destruct (openRegion_spec _ _ _ Hinv) as (Eo&_&Hle&_).
  destruct (openRegion_ij s) as [Ei Ej].
  unfold bt_opt, step_delete in *. rewrite dels_advance by (done || lia).
  rewrite dels_openRegion. simpl. rewrite Ei, Ej.
  rewrite (drop_S _ _ _ Hx), (drop_S _ _ _ Hy) in Ho.
  rewrite lcs_cons, decide_False in Ho by done.
  rewrite <- (drop_S _ _ _ Hx), <- (drop_S _ _ _ Hy) in Ho. lia.
Qed.

Lemma step_insert_opt from to s x y :
  bt_inv from to s -> bt_opt from to s -> Z.of_nat (length to) < 2 ^ 32 ->
  from !! bt_i s = Some x -> to !! bt_j s = Some y -> x <> y ->
  at_ (dp_table from to) (S (bt_i s)) (bt_j s) < at_ (dp_table from to) (bt_i s) (S (bt_j s)) ->
  bt_opt from to (step_insert y s).
Proof.
  intros Hinv Ho Hm Hx Hy Hxy Hat.
  pose proof (lookup_lt_Some _ _ _ Hx). pose proof (lookup_lt_Some _ _ _ Hy).
  rewrite !at_lcs in Hat by lia. apply Nat2Z.inj_lt in Hat.
  destruct (openRegion_spec _ _ _ Hinv) as (Eo&_&Hle&_).
  destruct (openRegion_ij s) as [Ei Ej].
  unfold bt_opt, step_insert in *. rewrite dels_advance by (done || lia).
  rewrite dels_openRegion. simpl. rewrite Ei, Ej.
  rewrite (drop_S _ _ _ Hx), (drop_S _ _ _ Hy) in Ho.
  rewrite lcs_cons, decide_False in Ho by done.
  rewrite <- (drop_S _ _ _ Hx), <- (drop_S _ _ _ Hy) in Ho. lia.
Qed.

(** The loop's measure: it ends with one side exhausted within the fuel. *)
Lemma backtrack_opt fuel from to s :
  Z.of_nat (length to) < 2 ^ 32 -> bt_inv from to s -> bt_opt from to s ->
  (length from - bt_i s + (length to - bt_j s) <= fuel)%nat ->
  let s' := backtrack fuel from to (dp_table from to) s in
  bt_opt from to s' /\ (bt_i s' = length from \/ bt_j s' = length to).
Proof.
  intros Hm. revert s. induction fuel as [|fuel IH]; intros s Hinv Hopt Hf; simpl.
  { split; [done|]. destruct Hinv. lia. }
  destruct (from !! bt_i s) as [x|] eqn:Hx.
  2:{ split; [done|]. apply lookup_ge_None in Hx. destruct Hinv. lia. }
  destruct (to !! bt_j s) as [y|] eqn:Hy.
  2:{ split; [done|]. apply lookup_ge_None in Hy. destruct Hinv. lia. }
  pose proof (lookup_lt_Some _ _ _ Hx). pose proof (lookup_lt_Some _ _ _ Hy).
  destruct (openRegion_ij s) as [Ei Ej].
  case_decide as Hxy; [subst y|destruct (Z.leb_spec (at_ (dp_table from to) (bt_i s) (S (bt_j s)))
    (at_ (dp_table from to) (S (bt_i s)) (bt_j s)))]; apply IH.
  - by eapply step_match_inv.
  - by eapply step_match_opt.
  - destruct (closeRegion_spec _ _ _ Hinv) as (E1&E2&_). simpl. rewrite E1, E2. lia.
  - by apply step_delete_inv.
  - by eapply step_delete_opt.
  - simpl. rewrite Ei, Ej. lia.
  - by eapply step_insert_inv.
  - by eapply step_insert_opt.
  - simpl. rewrite Ei, Ej. lia.
Qed.

Lemma tail_opt from to s :
  bt_inv from to s -> (bt_i s = length from \/ bt_j s = length to) -> bt_opt from to s ->
  (length from = dels (tail_insert to (tail_delete (length from) s)) + lcs from to)%nat.
Proof.
  intros Hinv Hend Hopt.
  assert (lcs (drop (bt_i s) from) (drop (bt_j s) to) = 0%nat) as H0.
  { destruct Hend as [-> | ->]; rewrite drop_all; [done|apply lcs_nil_r]. }
  unfold bt_opt in Hopt. rewrite H0 in Hopt.
  destruct (openRegion_spec _ _ _ Hinv) as (Eo&_&Hle&_). destruct (openRegion_ij s) as [Ei Ej].
  assert (dels (tail_delete (length from) s) = dels s + (length from - bt_i s))%nat as Hd.
  { unfold tail_delete. case_decide; [|lia].
    rewrite dels_advance, dels_openRegion, Ei by (done || lia). done. }
  destruct (tail_delete_inv _ _ _ Hinv) as [Hinv2 E2].
  set (s2 := tail_delete _ _) in *.
  destruct (openRegion_spec _ _ _ Hinv2) as (Eo2&_&Hle2&_). destruct (openRegion_ij s2) as [Ei2 Ej2].
  assert (dels (tail_insert to s2) = dels s2) as ->.
  { unfold tail_insert. case_decide; [|done].
    rewrite dels_advance, dels_openRegion by (done || lia). lia. }
  destruct Hinv. lia.
Qed.

(** The cell budget keeps the shorter side under 2^32 lines. *)
Lemma diffLines_budget from to es :
  diffLines from to = Some es -> Z.of_nat (length from) * Z.of_nat (length to) < 2 ^ 64 ->
  from = [] \/ to = [] \/ (Z.of_nat (length from) < 2 ^ 32 /\ Z.of_nat (length to) < 2 ^ 32).
Proof.
  unfold diffLines. intros H Hb. case_decide as Hnm; [destruct Hnm as [?%nil_length_inv _]; auto|].
  rewrite wrap_u64_id in H by lia. destruct (_ && _) eqn:E; [done|]. to_prop.
  unfold kMaxAutoMergeCells in *.
  destruct from as [|f from]; [auto|]. destruct to as [|t to]; [auto|]. right. right.
  destruct E as [E|E]; to_prop; cbn [length] in *; [|nia].
  destruct E; to_prop; lia.
Qed.

Lemma script_optimal from to :
  Z.of_nat (length to) < 2 ^ 32 ->
  (length from = deleted (bt_edits (closeRegion (script from to))) + lcs from to)%nat.
Proof.
  intros Hm. set (s0 := backtrack (length from + length to) from to (dp_table from to) bt_init).
  assert (bt_inv from to s0) as Hinv by (apply backtrack_inv, bt_inv_init).
  destruct (backtrack_opt (length from + length to) from to bt_init Hm) as [Hopt Hend].
  - apply bt_inv_init.
  - unfold bt_opt, dels. simpl. by rewrite !drop_0.
  - simpl. lia.
  - fold s0 in Hopt, Hend. pose proof (tail_opt _ _ _ Hinv Hend Hopt) as Hd.
    change (tail_insert to _) with (script from to) in Hd.
    rewrite <- dels_closeRegion in Hd. unfold dels in Hd.
    destruct (script_inv from to) as (Hi&_).
    destruct (closeRegion_spec _ _ _ Hi) as (_&_&Eo&_). rewrite Eo in Hd. lia.
Qed.

End MergeFacts.
