(* ===== verification/MergeSpec.v ===== *)
(** * MergeSpec: what the three-way merge promises

    The reference is a diff3 overlay: base, local and remote are cut into the
    same number of aligned regions, each of which is unchanged on both sides,
    changed the same way, changed on one side only, or a clash. *)
From S2P Require Import Prelude Text Merge.

Module MergeRegions.
Import Merge MergeFacts.

(** ** Aligned regions *)

Inductive Region :=
  | RSame (b l : list str)      (* both sides have [l] for the base text [b] *)
  | RLocal (b l : list str)     (* only local changed [b], to [l] *)
  | RRemote (b r : list str)    (* only remote changed [b], to [r] *)
  | RClash (b l r : list str).  (* both changed [b], differently *)

Definition base_of (g : Region) : list str :=
  match g with RSame b _ | RLocal b _ | RRemote b _ | RClash b _ _ => b end.
Definition local_of (g : Region) : list str :=
  match g with RSame _ l | RLocal _ l | RClash _ l _ => l | RRemote b _ => b end.
Definition remote_of (g : Region) : list str :=
  match g with RSame _ l => l | RLocal b _ => b | RRemote _ r | RClash _ _ r => r end.

(** The merged text of a region; a clash has none. *)
Definition output_of (g : Region) : list str :=
  match g with RSame _ l => l | RLocal _ l => l | RRemote _ r => r | RClash _ _ _ => [] end.
Definition hunk_of (g : Region) : list MergeHunk :=
  match g with RClash _ l r => [MkHunk l r] | _ => [] end.

(** A clash is a real disagreement. *)
Definition region_ok (g : Region) : Prop :=
  match g with RClash _ l r => l <> r | _ => True end.

(** The overlay of a list of regions. *)
Record overlay (base local remote : list str) (rs : list Region) : Prop := {
  ov_base : base = concat (base_of <$> rs);
  ov_local : local = concat (local_of <$> rs);
  ov_remote : remote = concat (remote_of <$> rs);
  ov_ok : Forall region_ok rs
}.

Lemma overlay_app b1 l1 r1 rs1 b2 l2 r2 rs2 :
  overlay b1 l1 r1 rs1 -> overlay b2 l2 r2 rs2 ->
  overlay (b1 ++ b2) (l1 ++ l2) (r1 ++ r2) (rs1 ++ rs2).
Proof.
  intros [] []. split; [| | |by apply Forall_app];
    rewrite fmap_app, concat_app; congruence.
Qed.

Lemma overlay_one g : region_ok g -> overlay (base_of g) (local_of g) (remote_of g) [g].
Proof. intros. split; simpl; rewrite ?app_nil_r; [done..|by constructor]. Qed.

(** ** [appendLines] *)

Definition lines_text (eol : str) (ls : list str) : str := appendLines eol [] ls.

Lemma appendLines_text eol out ls : appendLines eol out ls = out ++ lines_text eol ls.
Proof.
  unfold lines_text. revert out. induction ls as [|l ls IH]; intros out; simpl.
  - by rewrite app_nil_r.
  - by rewrite IH, (IH (l ++ eol)), !app_assoc.
Qed.

Lemma lines_text_cons eol l ls : lines_text eol (l :: ls) = l ++ eol ++ lines_text eol ls.
Proof. unfold lines_text at 1. simpl. by rewrite appendLines_text, <- app_assoc. Qed.

Lemma lines_text_app eol ls1 ls2 :
  lines_text eol (ls1 ++ ls2) = lines_text eol ls1 ++ lines_text eol ls2.
Proof.
  induction ls1 as [|l ls1 IH]; [done|].
  rewrite <- app_comm_cons, !lines_text_cons, IH. by rewrite !app_assoc.
Qed.

(** ** Folding overlapping edits into one region *)

Definition starts_after (re : nat) (es : list Edit) : Prop :=
  match es with e :: _ => (re < aStart e)%nat | [] => True end.

(** What absorbing edits into a region guarantees. *)
Record absorbed (re re' : nat) (es taken rest : list Edit) : Prop := {
  ab_split : es = taken ++ rest;
  ab_grow : (re <= re')%nat;
  ab_ends : Forall (fun e => aEnd e <= re')%nat taken;
  ab_rest : starts_after re' rest
}.

Lemma absorb_spec re es re' taken rest :
  absorb re es = (re', taken, rest) ->
  absorbed re re' es taken rest /\ Forall (fun e => aStart e <= re')%nat taken.
Proof.
  revert re re' taken rest. induction es as [|e es IH]; intros re re' taken rest; simpl.
  - intros [= <- <- <-]. by repeat split.
  - case_decide as Hs.
    + destruct (absorb _ es) as [[re1 t1] r1] eqn:E. intros [= <- <- <-].
      destruct (IH _ _ _ _ E) as [[H1 H2 H3 H4] H5]. subst es.
      split; [split|]; [done|lia|constructor; [lia|done]|done|constructor; [lia|done]].
    + intros [= <- <- <-]. split; [split|]; [done|done|done|simpl; lia|done].
Qed.

Lemma absorb_bound n re es re' taken rest :
  absorb re es = (re', taken, rest) -> (re <= n)%nat -> Forall (fun e => aEnd e <= n)%nat es ->
  (re' <= n)%nat.
Proof.
  revert re re' taken rest. induction es as [|e es IH]; intros re re' taken rest; simpl.
  - by intros [= <- <- <-].
  - case_decide.
    + destruct (absorb _ es) as [[re1 t1] r1] eqn:E. intros [= <- <- <-] Hre [He Hes]%Forall_cons.
      eapply IH; [done|lia|done].
    + by intros [= <- <- <-].
Qed.

Lemma absorb_stop re es : starts_after re es -> absorb re es = (re, [], es).
Proof. destruct es as [|e es]; simpl; [done|]. intros. by rewrite decide_False by lia. Qed.

Lemma absorb_nil re es re' rest : absorb re es = (re', [], rest) -> re' = re /\ rest = es.
Proof.
  destruct es as [|e es]; simpl; [by intros [= <- <-]|].
  case_decide; [|by intros [= <- <-]]. by destruct (absorb _ es) as [[? ?] ?].
Qed.

(** Outcome of [fold_region] on both sides. *)
Record folded (n ns re : nat) (eL tL rL eR tR rR : list Edit) : Prop := {
  fo_L : eL = tL ++ rL;
  fo_R : eR = tR ++ rR;
  fo_ns : (ns <= re)%nat;
  fo_n : (re <= n)%nat;
  fo_endL : Forall (fun e => aEnd e <= re)%nat tL;
  fo_endR : Forall (fun e => aEnd e <= re)%nat tR;
  fo_restL : starts_after re rL;
  fo_restR : starts_after re rR
}.

Lemma Forall_ends_mono re re' es :
  (re <= re')%nat -> Forall (fun e => aEnd e <= re)%nat es -> Forall (fun e => aEnd e <= re')%nat es.
Proof. intros. eapply Forall_impl; [done|]. simpl. lia. Qed.

Lemma fold_region_spec fuel n ns re tL eL tR eR re' tL' rL' tR' rR' :
  fold_region fuel re tL eL tR eR = (re', (tL', rL'), (tR', rR')) ->
  (length eL + length eR < fuel)%nat -> (ns <= re <= n)%nat ->
  Forall (fun e => aEnd e <= re)%nat tL -> Forall (fun e => aEnd e <= re)%nat tR ->
  Forall (fun e => aEnd e <= n)%nat eL -> Forall (fun e => aEnd e <= n)%nat eR ->
  folded n ns re' (tL ++ eL) tL' rL' (tR ++ eR) tR' rR'.
Proof.
  revert re tL eL tR eR. induction fuel as [|fuel IH]; intros re tL eL tR eR; simpl; [lia|].
  destruct (absorb re eL) as [[re1 gL] restL] eqn:EL.
  destruct (absorb re1 eR) as [[re2 gR] restR] eqn:ER.
  intros H Hf Hre HtL HtR HnL HnR.
  destruct (absorb_spec _ _ _ _ _ EL) as [[L1 L2 L3 L4] _].
  destruct (absorb_spec _ _ _ _ _ ER) as [[R1 R2 R3 R4] _].
  pose proof (absorb_bound n _ _ _ _ _ EL ltac:(lia) HnL) as BL.
  pose proof (absorb_bound n _ _ _ _ _ ER BL HnR) as BR.
  revert H. case_bool_decide as Hg.
  - destruct Hg as [-> ->]. intros [= <- <- <- <- <-].
    apply absorb_nil in EL as [-> ->]. apply absorb_nil in ER as [-> ->]. by split; try lia.
  - intros H. subst eL eR. rewrite !app_assoc. rewrite Forall_app in HnL, HnR.
    apply IH in H; try done.
    + rewrite !length_app in Hf.
      assert (0 < length gL + length gR)%nat; [|lia].
      destruct gL, gR; simpl; [by destruct Hg|lia..].
    + lia.
    + apply Forall_app; split; eapply Forall_ends_mono; [|done| |done]; lia.
    + apply Forall_app; split; eapply Forall_ends_mono; [|done| |done]; lia.
    + apply HnL.
    + apply HnR.
Qed.

(** The edit that starts at [nextStart] is taken. *)
Lemma folded_progress n ns re eL tL rL eR tR rR :
  folded n ns re eL tL rL eR tR rR -> next_start eL eR = Some ns ->
  (length rL + length rR < length eL + length eR)%nat /\ (tL <> [] \/ tR <> []).
Proof.
  intros [-> -> Hns _ _ _ HrL HrR] Hn.
  assert (tL <> [] \/ tR <> []) as Ht.
  { destruct tL as [|? ?]; [|by left]. destruct tR as [|? ?]; [|by right]. exfalso.
    simpl in Hn. destruct rL, rR; simpl in *; simplify_eq; lia. }
  split; [|done]. rewrite !length_app. destruct Ht as [Ht|Ht]; [destruct tL|destruct tR]; simpl in *; done || lia.
Qed.

Lemma wf_rest lo n re t r :
  wf_upto lo (t ++ r) (S n) -> (re <= n)%nat -> starts_after re r -> wf_upto re r (S n).
Proof.
  intros (mid&_&Hr)%wf_upto_app Hre Hs. destruct r as [|e r]; simpl in *; [lia|].
  destruct Hr as (?&?&?&?). split_and!; [lia|done..].
Qed.

Lemma wf_ends lo n es : wf_upto lo es (S n) -> Forall (fun e => aEnd e <= n)%nat es.
Proof. intros H%wf_upto_ends. eapply Forall_impl; [done|]. simpl. lia. Qed.

Lemma wf_head lo n es :
  wf_upto lo es (S n) -> match es with e :: _ => aStart e <= n | [] => True end%nat.
Proof.
  destruct es as [|e es]; [done|]. simpl. intros (?&?&_&Hw%wf_upto_le). lia.
Qed.

Lemma next_start_ge lo n eL eR ns :
  next_start eL eR = Some ns -> wf_upto lo eL (S n) -> wf_upto lo eR (S n) ->
  (lo <= ns <= n)%nat /\ wf_upto ns eL (S n) /\ wf_upto ns eR (S n).
Proof.
  intros Hn HL HR. pose proof (wf_head _ _ _ HL). pose proof (wf_head _ _ _ HR).
  pose proof (wf_upto_le _ _ _ HL). pose proof (wf_upto_le _ _ _ HR).
  destruct eL as [|l eL], eR as [|r eR]; simpl in *; simplify_eq; destruct_and?; split_and!;
    done || lia.
Qed.

(** One side over one region: the untouched prefix, the region, the rest. *)
Lemma build_region base n lo ns re eL tL rL :
  wf_upto ns eL (S n) -> eL = tL ++ rL -> (lo <= ns)%nat -> (ns <= re)%nat -> (re <= n)%nat ->
  Forall (fun e => aEnd e <= re)%nat tL -> starts_after re rL ->
  build base n lo eL = slice lo ns base ++ build base re ns tL ++ build base n re rL.
Proof.
  intros Hw -> Hlo Hns Hre Hend Hrest.
  rewrite (build_cut base n ns lo _ (S n)); [|done|lia|done|by eapply wf_head].
  f_equal. pose proof (wf_rest _ _ _ _ _ Hw Hre Hrest) as Hwr.
  eapply build_app; try done. by eapply wf_head.
Qed.

(** The region the sweep emits for the replacement texts of both sides. *)
Definition pick (b l r : list str) (hasL hasR : bool) : Region :=
  if bool_decide (l = r) then RSame b l
  else if negb hasR then RLocal b l
  else if negb hasL then RRemote b r
  else RClash b l r.

Definition picked (base : list str) (ns re : nat) (tL tR : list Edit) : Region :=
  pick (slice ns re base) (build base re ns tL) (build base re ns tR)
    (negb (bool_decide (tL = []))) (negb (bool_decide (tR = []))).

Lemma pick_spec b l r hasL hasR :
  (hasL = false -> l = b) -> (hasR = false -> r = b) ->
  base_of (pick b l r hasL hasR) = b /\ local_of (pick b l r hasL hasR) = l /\
  remote_of (pick b l r hasL hasR) = r /\ region_ok (pick b l r hasL hasR).
Proof.
  intros HL HR. unfold pick. case_bool_decide as E; [by subst r|].
  destruct hasR; simpl; [|by rewrite HR in * by done].
  destruct hasL; simpl; [done|]. by rewrite HL in * by done.
Qed.

Lemma picked_spec base ns re tL tR :
  let g := picked base ns re tL tR in
  base_of g = slice ns re base /\ local_of g = build base re ns tL /\
  remote_of g = build base re ns tR /\ region_ok g.
Proof. apply pick_spec; intros H; by destruct tL, tR. Qed.

Definition remote_only (g : Region) : Prop := output_of g = remote_of g /\ hunk_of g = [].

Lemma picked_remote_only base ns re tR : tR <> [] -> remote_only (picked base ns re [] tR).
Proof.
  intros HtR. unfold picked, pick, remote_only.
  rewrite (bool_decide_false (tR = [])), (bool_decide_true ([] = [])) by done. cbn [negb].
  by destruct (bool_decide _).
Qed.

Lemma emit_region_picked base eol ns re tL tR out hs :
  tL <> [] \/ tR <> [] ->
  emit_region base eol ns re tL tR out hs =
  (out ++ lines_text eol (output_of (picked base ns re tL tR)),
   hs ++ hunk_of (picked base ns re tL tR)).
Proof.
  intros Ht. unfold emit_region, picked, pick.
  assert ((if negb (bool_decide (tL = [])) then build base re ns tL else slice ns re base)
          = build base re ns tL) as -> by (by destruct tL).
  assert ((if negb (bool_decide (tR = [])) then build base re ns tR else slice ns re base)
          = build base re ns tR) as -> by (by destruct tR).
  assert (bool_decide (tL = []) && bool_decide (tR = []) = false) as Hb
    by (destruct Ht; [|rewrite andb_comm]; by rewrite bool_decide_false).
  destruct (bool_decide (tL = [])), (bool_decide (tR = [])); [done|..]; cbn [negb andb];
    destruct (bool_decide _); cbn [output_of hunk_of]; by rewrite ?app_nil_r, ?appendLines_text.
Qed.

(** The sweep from [pos] on computes an overlay of what is left. *)
Definition sweep_result (base : list str) (eol : str) (pos : nat) (eL eR : list Edit)
    (out out' : str) (hs hs' : list MergeHunk) : Prop :=
  exists rs,
    overlay (drop pos base) (build base (length base) pos eL) (build base (length base) pos eR) rs /\
    hs' = hs ++ concat (hunk_of <$> rs) /\
    out' = out ++ lines_text eol (concat (output_of <$> rs)) /\
    (eL = [] -> Forall remote_only rs).

Lemma sweep_result_cons base eol pos eL eR re rL rR g1 g2 out out1 out' hs hs1 hs' :
  sweep_result base eol re rL rR out1 out' hs1 hs' ->
  drop pos base = (base_of g1 ++ base_of g2) ++ drop re base ->
  build base (length base) pos eL = (local_of g1 ++ local_of g2) ++ build base (length base) re rL ->
  build base (length base) pos eR = (remote_of g1 ++ remote_of g2) ++ build base (length base) re rR ->
  region_ok g1 -> region_ok g2 -> hunk_of g1 = [] ->
  hs1 = hs ++ hunk_of g2 -> out1 = out ++ lines_text eol (output_of g1 ++ output_of g2) ->
  (eL = [] -> rL = [] /\ remote_only g1 /\ remote_only g2) ->
  sweep_result base eol pos eL eR out out' hs hs'.
Proof.
  intros (rs&Hov&->&->&Hro) Eb El Er Hg1 Hg2 Hh -> -> HL.
  exists (g1 :: g2 :: rs). split_and!.
  - rewrite Eb, El, Er. apply (overlay_app _ _ _ [g1; g2]); [|done].
    apply (overlay_app _ _ _ [g1] _ _ _ [g2]); by apply overlay_one.
  - simpl. by rewrite Hh, <- app_assoc.
  - simpl. by rewrite <- !app_assoc, !lines_text_app, <- ?app_assoc.
  - intros ?. destruct HL as (->&?&?); [done|]. constructor; [done|]. constructor; auto.
Qed.

Lemma sweep_result_end base eol pos eL eR out hs :
  (pos <= length base)%nat -> next_start eL eR = None ->
  sweep_result base eol pos eL eR out
    (appendLines eol out (slice pos (length base) base)) hs hs.
Proof.
  intros Hpos En. assert (eL = [] /\ eR = []) as [-> ->] by (by destruct eL, eR).
  set (sl := slice pos (length base) base).
  assert (drop pos base = sl) as Es by (symmetry; by apply slice_to_end).
  exists [RSame sl sl]. rewrite Es. split_and!; simpl; rewrite ?app_nil_r.
  - by apply (overlay_one (RSame sl sl)).
  - done.
  - apply appendLines_text.
  - intros _. by repeat constructor.
Qed.

Lemma drop_regions (base : list str) pos ns re :
  (pos <= ns)%nat -> (ns <= re)%nat -> (re <= length base)%nat ->
  drop pos base = (slice pos ns base ++ slice ns re base) ++ drop re base.
Proof.
  intros. rewrite slice_app by lia. rewrite <- (slice_to_end pos (length base)) by lia.
  rewrite <- (slice_to_end re (length base)) by lia. symmetry. apply slice_app; lia.
Qed.

Lemma sweep_spec fuel base eol pos eL eR out hs out' hs' :
  sweep fuel base eol pos eL eR out hs = (out', hs') ->
  (S (length eL + length eR) < fuel)%nat -> (pos <= length base)%nat ->
  wf_upto pos eL (S (length base)) -> wf_upto pos eR (S (length base)) ->
  sweep_result base eol pos eL eR out out' hs hs'.
Proof.
  revert pos eL eR out hs. induction fuel as [|fuel IH]; intros pos eL eR out hs; [lia|].
  cbn [sweep]. intros H Hf Hpos HL HR. revert H. case_bool_decide as Hend.
  { destruct Hend as (?&->&->). intros [= <- <-].
    pose proof (sweep_result_end base eol pos [] [] out hs Hpos eq_refl) as He.
    rewrite slice_nil_ge in He by lia. exact He. }
  destruct (next_start eL eR) as [ns|] eqn:En; [|intros [= <- <-]; by apply sweep_result_end].
  destruct (next_start_ge pos (length base) eL eR ns En HL HR) as ((Hlo&Hhi)&HLns&HRns).
  destruct (fold_region _ ns [] eL [] eR) as [[re [tL rL]] [tR rR]] eqn:Ef.
  assert (folded (length base) ns re eL tL rL eR tR rR) as Hfo.
  { eapply (fold_region_spec _ _ ns ns [] eL [] eR); [exact Ef|lia|lia|done|done|..];
      by eapply wf_ends. }
  destruct (folded_progress _ _ _ _ _ _ _ _ _ Hfo En) as [Hless Hsome].
  rewrite emit_region_picked by done. intros H.
  destruct Hfo as [FL FR Fns Fn FeL FeR FrL FrR].
  destruct (picked_spec base ns re tL tR) as (Gb&Gl&Gr&Gok).
  apply IH in H as Hrec; [|lia|done|rewrite FL in HLns; by eapply wf_rest|
    rewrite FR in HRns; by eapply wf_rest].
  set (sl := slice pos ns base) in *.
  eapply (sweep_result_cons _ _ _ _ _ _ _ _ (RSame sl sl) (picked base ns re tL tR)); [exact Hrec|..];
    cbn [base_of local_of remote_of output_of hunk_of region_ok]; rewrite ?Gb, ?Gl, ?Gr; try done.
  - by apply drop_regions.
  - rewrite <- app_assoc. by apply build_region.
  - rewrite <- app_assoc. by apply build_region.
  - by rewrite lines_text_app, (appendLines_text eol out sl), <- app_assoc.
  - intros ->. symmetry in FL. apply app_nil in FL as [-> ->]. split_and!; [done|done|].
    apply picked_remote_only. by destruct Hsome.
Qed.

End MergeRegions.

(** ** Swapping local and remote *)

Module MergeSymmetry.
Import Merge MergeFacts MergeRegions.

(** [r] is closed when no edit that starts in the region reaches past it. *)
Definition closed (r : nat) (es : list Edit) : Prop :=
  Forall (fun e => aStart e <= r -> aEnd e <= r)%nat es.

Lemma absorb_min r re es re' taken rest :
  absorb re es = (re', taken, rest) -> (re <= r)%nat -> closed r es ->
  (re' <= r)%nat /\ closed r rest.
Proof.
  revert re re' taken rest. induction es as [|e es IH]; intros re re' taken rest; simpl.
  - by intros [= <- <- <-].
  - case_decide.
    + destruct (absorb _ es) as [[re1 t1] r1] eqn:E. intros [= <- <- <-] Hre [He Hes]%Forall_cons.
      eapply IH; [done|specialize (He ltac:(lia)); lia|done].
    + by intros [= <- <- <-].
Qed.

Lemma fold_region_min r fuel re tL eL tR eR re' tL' rL' tR' rR' :
  fold_region fuel re tL eL tR eR = (re', (tL', rL'), (tR', rR')) ->
  (re <= r)%nat -> closed r eL -> closed r eR -> (re' <= r)%nat.
Proof.
  revert re tL eL tR eR. induction fuel as [|fuel IH]; intros re tL eL tR eR; simpl.
  { by intros [= <- <- <- <- <-]. }
  destruct (absorb re eL) as [[re1 gL] restL] eqn:EL.
  destruct (absorb re1 eR) as [[re2 gR] restR] eqn:ER.
  intros H Hre HL HR.
  destruct (absorb_min _ _ _ _ _ _ EL Hre HL) as [H1 HL'].
  destruct (absorb_min _ _ _ _ _ _ ER H1 HR) as [H2 HR'].
  revert H. case_bool_decide; [by intros [= <- <- <- <- <-]|]. intros H'. by eapply IH.
Qed.

Lemma wf_starts lo es hi : wf_upto lo es hi -> Forall (fun e => lo <= aStart e)%nat es.
Proof.
  revert lo. induction es as [|e es IH]; intros lo; simpl; [done|].
  intros (?&?&_&Hw). constructor; [done|]. eapply Forall_impl; [by apply IH|]. simpl. lia.
Qed.

Lemma starts_after_all lo re es hi :
  wf_upto lo es hi -> starts_after re es -> Forall (fun e => re < aStart e)%nat es.
Proof.
  destruct es as [|e es]; simpl; [done|]. intros (?&?&_&Hw) ?. constructor; [done|].
  eapply Forall_impl; [by eapply wf_starts|]. simpl. lia.
Qed.

Lemma folded_closed n ns re e1 t1 r1 e2 t2 r2 lo :
  folded n ns re e1 t1 r1 e2 t2 r2 -> wf_upto lo e1 (S n) -> wf_upto lo e2 (S n) ->
  closed re e1 /\ closed re e2.
Proof.
  intros [-> -> _ _ H1 H2 HR1 HR2] (m1&_&W1)%wf_upto_app (m2&_&W2)%wf_upto_app. unfold closed.
  split; apply Forall_app; (split; [eapply Forall_impl; [done|]; simpl; lia|]);
    (eapply Forall_impl; [by eapply starts_after_all|]); simpl; lia.
Qed.

(** A prefix of edits ending in the region is determined by the region's end. *)
Lemma split_unique lo re hi t1 r1 t2 r2 :
  wf_upto lo (t1 ++ r1) hi -> t1 ++ r1 = t2 ++ r2 ->
  Forall (fun e => aEnd e <= re)%nat t1 -> Forall (fun e => aEnd e <= re)%nat t2 ->
  starts_after re r1 -> starts_after re r2 -> t1 = t2 /\ r1 = r2.
Proof.
  revert lo t2. induction t1 as [|e t1 IH]; intros lo t2 Hw E H1 H2 S1 S2.
  - destruct t2 as [|e2 t2]; [done|]. simpl in *. subst r1.
    apply Forall_cons in H2 as [? _]. destruct Hw as (_&?&_). simpl in *. lia.
  - destruct t2 as [|e2 t2]; simpl in *.
    + subst r2. apply Forall_cons in H1 as [? _]. destruct Hw as (_&?&_). simpl in *. lia.
    + injection E as -> E. apply Forall_cons in H1 as [_ H1], H2 as [_ H2].
      destruct Hw as (_&_&_&Hw). destruct (IH _ _ Hw E H1 H2 S1 S2) as [-> ->]. done.
Qed.

Lemma fold_region_swap n ns eL eR re tL rL tR rR :
  (ns <= n)%nat -> wf_upto ns eL (S n) -> wf_upto ns eR (S n) ->
  fold_region (S (length eL + length eR)) ns [] eL [] eR = (re, (tL, rL), (tR, rR)) ->
  fold_region (S (length eR + length eL)) ns [] eR [] eL = (re, (tR, rR), (tL, rL)).
Proof.
  intros Hn HL HR H.
  destruct (fold_region (S (length eR + length eL)) ns [] eR [] eL)
    as [[re' [tR' rR']] [tL' rL']] eqn:H'.
  assert (folded n ns re eL tL rL eR tR rR) as F
    by (eapply (fold_region_spec _ _ ns ns [] eL [] eR); [exact H|lia|lia|done|done|..];
        by eapply wf_ends).
  assert (folded n ns re' eR tR' rR' eL tL' rL') as F'
    by (eapply (fold_region_spec _ _ ns ns [] eR [] eL); [exact H'|lia|lia|done|done|..];
        by eapply wf_ends).
  destruct (folded_closed _ _ _ _ _ _ _ _ _ _ F HL HR) as [CL CR].
  destruct (folded_closed _ _ _ _ _ _ _ _ _ _ F' HR HL) as [CR' CL'].
  assert (re' = re) as ->.
  { apply Nat.le_antisymm; [eapply (fold_region_min re); [exact H'|..]|
                            eapply (fold_region_min re'); [exact H|..]]; try done;
      [by destruct F|by destruct F']. }
  destruct F as [-> -> _ _ EL ER SL SR], F' as [FR FL _ _ ER' EL' SR' SL'].
  destruct (split_unique _ _ _ _ _ _ _ HL FL EL EL' SL SL') as [-> ->].
  destruct (split_unique _ _ _ _ _ _ _ HR FR ER ER' SR SR') as [-> ->]. done.
Qed.

Definition swap_hunk (h : MergeHunk) : MergeHunk := MkHunk (remoteLines h) (localLines h).

Definition swap_result (r : MergeResult) : MergeResult :=
  MkResult (clean r) (merged r) (swap_hunk <$> hunks r).

Lemma emit_region_swap base eol ns re tL tR out hs :
  emit_region base eol ns re tR tL out (swap_hunk <$> hs) =
  let '(out', hs') := emit_region base eol ns re tL tR out hs in (out', swap_hunk <$> hs').
Proof.
  destruct (decide (tL <> [] \/ tR <> [])) as [Ht|Ht].
  - rewrite !emit_region_picked by naive_solver. unfold picked, pick.
    rewrite (bool_decide_ext (build base re ns tR = build base re ns tL)
               (build base re ns tL = build base re ns tR)) by done.
    case_bool_decide as E; [by rewrite E, !app_nil_r|].
    case_bool_decide; case_bool_decide; subst; cbn [negb output_of hunk_of];
      rewrite ?app_nil_r, ?fmap_app; done.
  - assert (tL = [] /\ tR = []) as [-> ->] by (destruct tL, tR; naive_solver). done.
Qed.

Lemma next_start_swap eL eR : next_start eR eL = next_start eL eR.
Proof. destruct eL, eR; simpl; try done. by rewrite Nat.min_comm. Qed.

Lemma sweep_swap fuel base eol pos eL eR out hs :
  wf_upto pos eL (S (length base)) -> wf_upto pos eR (S (length base)) ->
  sweep fuel base eol pos eR eL out (swap_hunk <$> hs) =
  let '(out', hs') := sweep fuel base eol pos eL eR out hs in (out', swap_hunk <$> hs').
Proof.
  revert pos eL eR out hs. induction fuel as [|fuel IH]; intros pos eL eR out hs HL HR; [done|].
  cbn [sweep]. rewrite (bool_decide_ext (_ /\ eR = [] /\ eL = [])
    ((length base <= pos)%nat /\ eL = [] /\ eR = [])) by tauto.
  case_bool_decide; [done|]. rewrite next_start_swap.
  destruct (next_start eL eR) as [ns|] eqn:En; [|done].
  destruct (next_start_ge pos (length base) eL eR ns En HL HR) as ((Hlo&Hhi)&HLns&HRns).
  destruct (fold_region _ ns [] eL [] eR) as [[re [tL rL]] [tR rR]] eqn:Ef.
  assert (folded (length base) ns re eL tL rL eR tR rR) as [FL FR _ Fn _ _ SL SR]
    by (eapply (fold_region_spec _ _ ns ns [] eL [] eR); [exact Ef|lia|lia|done|done|..];
        by eapply wf_ends).
  rewrite (fold_region_swap (length base) _ _ _ _ _ _ _ _ Hhi HLns HRns Ef).
  rewrite emit_region_swap. destruct (emit_region _ _ _ _ _ _ _ _) as [out1 hs1].
  apply IH; [rewrite FL in HLns|rewrite FR in HRns]; by eapply wf_rest.
Qed.

End MergeSymmetry.

(** ** Special inputs *)

Module MergeInputs.
Import Merge MergeFacts MergeRegions.

Lemma backtrack_same fuel l dp i :
  (i <= length l)%nat -> (length l - i <= fuel)%nat ->
  backtrack fuel l l dp (MkBT i i false empty_edit []) =
  MkBT (length l) (length l) false empty_edit [].
Proof.
  revert i. induction fuel as [|fuel IH]; intros i Hi Hf; simpl.
  { by replace i with (length l) by lia. }
  destruct (l !! i) as [x|] eqn:Hx.
  - apply lookup_lt_Some in Hx. rewrite decide_True by done.
    unfold step_match, closeRegion. simpl. apply IH; lia.
  - apply lookup_ge_None in Hx. by replace i with (length l) by lia.
Qed.

(** Identical line lists have the empty edit script. *)
Lemma diffLines_same l es : diffLines l l = Some es -> es = [].
Proof.
  intros ->%diffLines_Some. unfold script, bt_init. rewrite backtrack_same by lia.
  unfold tail_delete. simpl. rewrite decide_False by lia.
  unfold tail_insert. simpl. by rewrite decide_False by lia.
Qed.

(** Against an empty base everything is one insertion. *)
Lemma diffLines_nil to :
  diffLines [] to = Some (if bool_decide (to = []) then [] else [MkEdit 0 0 to]).
Proof. by destruct to. Qed.

(** ** Scripts that never touch *)

(** At least one base line separates [e] from every edit of [es]. *)
Definition apart (e : Edit) (es : list Edit) : Prop :=
  Forall (fun e' => aEnd e < aStart e' \/ aEnd e' < aStart e)%nat es.

Definition separate (eL eR : list Edit) : Prop := Forall (fun e => apart e eR) eL.

#[export] Instance apart_dec e es : Decision (apart e es).
Proof. unfold apart. apply _. Defined.
#[export] Instance separate_dec eL eR : Decision (separate eL eR).
Proof. unfold separate. apply _. Defined.

Lemma separate_app eL1 eL2 eR1 eR2 :
  separate (eL1 ++ eL2) (eR1 ++ eR2) -> separate eL2 eR2.
Proof.
  unfold separate, apart. intros [_ H]%Forall_app. eapply Forall_impl; [done|]. simpl.
  intros e He. apply Forall_app in He. tauto.
Qed.

Lemma separate_sym eL eR : separate eL eR -> separate eR eL.
Proof.
  unfold separate, apart. intros H. apply Forall_forall. intros e He.
  apply Forall_forall. intros e' He'. rewrite Forall_forall in H. specialize (H e' He').
  rewrite Forall_forall in H. specialize (H e He). lia.
Qed.

(** An edit that starts the region and is apart from the other side ends it. *)
Lemma absorb_first lo e es re' hi :
  wf_upto lo (e :: es) hi -> re' = aEnd e -> absorb (aStart e) (e :: es) = (re', [e], es).
Proof.
  intros (?&?&_&Hw) ->. cbn [absorb]. rewrite decide_True by done.
  rewrite Nat.max_r by done. rewrite absorb_stop; [done|].
  destruct es as [|e2 es]; simpl in *; [done|]. lia.
Qed.

(** The other side contributes nothing to a region of one side's edit. *)
Lemma apart_starts_after n e es :
  apart e es -> wf_upto (aStart e) es n -> (aStart e <= aEnd e)%nat ->
  starts_after (aEnd e) es.
Proof.
  destruct es as [|e' es]; simpl; [done|]. intros [Ha _]%Forall_cons (?&?&_) ?. lia.
Qed.

Lemma fold_left_only fuel lo n e eL eR :
  wf_upto lo (e :: eL) (S n) -> wf_upto (aStart e) eR (S n) -> apart e eR -> (1 < fuel)%nat ->
  fold_region fuel (aStart e) [] (e :: eL) [] eR = (aEnd e, ([e], eL), ([], eR)).
Proof.
  intros HL HR Ha Hf. destruct fuel as [|[|fuel]]; [lia..|]. cbn [fold_region].
  rewrite (absorb_first lo e eL (aEnd e) (S n)) by done.
  rewrite (absorb_stop _ eR) by (destruct HL as (?&?&_); by eapply apart_starts_after).
  rewrite bool_decide_false by naive_solver. cbn [fold_region app].
  assert (starts_after (aEnd e) eL) as Hs
    by (destruct HL as (_&_&_&Hw); destruct eL; simpl in *; lia).
  rewrite (absorb_stop _ eL) by done.
  rewrite (absorb_stop _ eR) by (destruct HL as (?&?&_); by eapply apart_starts_after).
  done.
Qed.

Lemma fold_right_only fuel lo n e eL eR :
  wf_upto lo (e :: eR) (S n) -> wf_upto (aStart e) eL (S n) -> apart e eL -> (1 < fuel)%nat ->
  fold_region fuel (aStart e) [] eL [] (e :: eR) = (aEnd e, ([], eL), ([e], eR)).
Proof.
  intros HR HL Ha Hf. destruct fuel as [|[|fuel]]; [lia..|]. cbn [fold_region].
  assert (starts_after (aEnd e) eL) as Hs by (destruct HR as (?&?&_); by eapply apart_starts_after).
  assert (starts_after (aStart e) eL) as Hs0
    by (destruct HR as (?&?&_), eL; simpl in *; lia).
  rewrite (absorb_stop _ eL) by done.
  rewrite (absorb_first lo e eR (aEnd e) (S n)) by done.
  rewrite bool_decide_false by naive_solver. cbn [fold_region app].
  assert (starts_after (aEnd e) eR) as Hs2
    by (destruct HR as (_&_&_&Hw); destruct eR; simpl in *; lia).
  by rewrite !absorb_stop by done.
Qed.

(** Two insertions at the same place form one region. *)
Lemma fold_region_two fuel e1 e2 :
  aStart e1 = aStart e2 -> aEnd e1 = aStart e1 -> aEnd e2 = aStart e2 ->
  (1 < fuel)%nat ->
  fold_region fuel (aStart e1) [] [e1] [] [e2] = (aStart e1, ([e1], []), ([e2], [])).
Proof.
  intros E1 E2 E3 Hf. destruct fuel as [|[|fuel]]; [lia..|].
  cbn [fold_region absorb]. rewrite decide_True by lia. rewrite E2, Nat.max_id.
  rewrite decide_True by lia. rewrite E3, E1, Nat.max_id.
  by rewrite bool_decide_false by naive_solver.
Qed.

Lemma emit_one_sided base eol ns re tL tR out hs out' hs' :
  tL = [] \/ tR = [] -> emit_region base eol ns re tL tR out hs = (out', hs') -> hs' = hs.
Proof.
  unfold emit_region. intros [-> | ->]; rewrite (bool_decide_true ([] = [])) by done; cbn [negb andb];
    rewrite ?andb_true_r; intros H; split_ifs; by simplify_eq.
Qed.

(** The first region of two separate scripts has edits of one side only. *)
Lemma fold_separate n ns eL eR re tL rL tR rR :
  next_start eL eR = Some ns -> wf_upto ns eL (S n) -> wf_upto ns eR (S n) ->
  separate eL eR ->
  fold_region (S (length eL + length eR)) ns [] eL [] eR = (re, (tL, rL), (tR, rR)) ->
  tL = [] \/ tR = [].
Proof.
  intros En HL HR Hs. destruct eL as [|l eL], eR as [|r eR]; [done|..]; simpl in En; simplify_eq.
  - rewrite (fold_right_only _ (aStart r) n) by (done || apply Forall_nil_2 || (simpl; lia)).
    intros [= _ <- _ _ _]. by left.
  - apply Forall_cons in Hs as [Hs _].
    rewrite (fold_left_only _ (aStart l) n) by (done || apply Forall_nil_2 || (simpl; lia)).
    intros [= _ _ _ <- _]. by right.
  - pose proof (separate_sym _ _ Hs) as Hs'.
    apply Forall_cons in Hs as [Hs _], Hs' as [Hs' _].
    destruct (Nat.le_gt_cases (aStart l) (aStart r)) as [Hc|Hc].
    + rewrite Nat.min_l in * by done.
      rewrite (fold_left_only _ (aStart l) n) by (done || apply Forall_nil_2 || (simpl; lia)).
      intros [= _ _ _ <- _]. by right.
    + rewrite Nat.min_r in * by lia.
      rewrite (fold_right_only _ (aStart r) n) by (done || apply Forall_nil_2 || (simpl; lia)).
      intros [= _ <- _ _ _]. by left.
Qed.

Lemma sweep_separate fuel base eol pos eL eR out hs out' hs' :
  wf_upto pos eL (S (length base)) -> wf_upto pos eR (S (length base)) -> separate eL eR ->
  sweep fuel base eol pos eL eR out hs = (out', hs') -> hs' = hs.
Proof.
  revert pos eL eR out hs. induction fuel as [|fuel IH]; intros pos eL eR out hs HL HR Hs.
  { by intros [= _ <-]. }
  cbn [sweep]. case_bool_decide; [by intros [= _ <-]|].
  destruct (next_start eL eR) as [ns|] eqn:En; [|by intros [= _ <-]].
  destruct (next_start_ge pos (length base) eL eR ns En HL HR) as ((Hlo&Hhi)&HLns&HRns).
  destruct (fold_region _ ns [] eL [] eR) as [[re [tL rL]] [tR rR]] eqn:Ef.
  assert (folded (length base) ns re eL tL rL eR tR rR) as [FL FR _ Fn _ _ SL SR]
    by (eapply (fold_region_spec _ _ ns ns [] eL [] eR); [exact Ef|lia|lia|done|done|..];
        by eapply wf_ends).
  pose proof (fold_separate _ _ _ _ _ _ _ _ _ En HLns HRns Hs Ef) as Ht.
  destruct (emit_region _ _ _ _ _ _ _ _) as [out1 hs1] eqn:Ee.
  apply emit_one_sided in Ee as ->; [|done]. apply IH.
  - rewrite FL in HLns. by eapply wf_rest.
  - rewrite FR in HRns. by eapply wf_rest.
  - rewrite FL, FR in Hs. by eapply separate_app.
Qed.

(** ** Line splitting *)

(** A line: no line feed, no trailing carriage return. *)
Definition line_ok (l : str) : Prop := LF ∉ l /\ last l <> Some CR.

#[export] Instance line_ok_dec l : Decision (line_ok l).
Proof. unfold line_ok. apply _. Defined.

Lemma split_loop_line l s cur lines :
  LF ∉ l -> split_loop (l ++ LF :: s) cur lines = split_loop s [] (lines ++ [strip_cr (cur ++ l)]).
Proof.
  revert cur. induction l as [|c l IH]; intros cur Hl.
  - by rewrite app_nil_r.
  - apply not_elem_of_cons in Hl as [Hc Hl]. cbn [app split_loop].
    destruct (Z.eqb_spec c LF); [by subst|]. by rewrite IH, <- app_assoc.
Qed.

Lemma strip_cr_crlf l : strip_cr (l ++ [CR]) = l.
Proof. unfold strip_cr. rewrite last_snoc. simpl. apply removelast_last. Qed.

Lemma strip_cr_plain l : last l <> Some CR -> strip_cr l = l.
Proof.
  unfold strip_cr. destruct (last l) as [c|]; [|done]. intros H.
  destruct (Z.eqb_spec c CR); [by subst|done].
Qed.

Lemma split_loop_lines eol ls s lines :
  eol = [LF] \/ eol = [CR; LF] -> Forall line_ok ls ->
  split_loop (lines_text eol ls ++ s) [] lines = split_loop s [] (lines ++ ls).
Proof.
  intros He Hls. revert lines. induction Hls as [|l ls [Hl Hcr] _ IH]; intros lines.
  { by rewrite app_nil_r. }
  rewrite lines_text_cons, <- !app_assoc. destruct He as [-> | ->].
  - cbn [app]. rewrite split_loop_line by done. rewrite IH by auto.
    by rewrite strip_cr_plain, <- app_assoc by done.
  - replace (l ++ [CR; LF] ++ lines_text [CR; LF] ls ++ s)
      with ((l ++ [CR]) ++ LF :: lines_text [CR; LF] ls ++ s) by (by rewrite <- app_assoc).
    rewrite split_loop_line by (intros [?|?%list_elem_of_singleton]%elem_of_app; done).
    rewrite IH by auto. rewrite app_nil_l, strip_cr_crlf. by rewrite <- app_assoc.
Qed.

Lemma count_eols_skip l s prev a b :
  LF ∉ l -> count_eols prev (l ++ s) a b = count_eols (default prev (last l)) s a b.
Proof.
  revert prev. induction l as [|c l IH]; intros prev Hl; [done|].
  apply not_elem_of_cons in Hl as [Hc Hl]. cbn [app count_eols].
  destruct (Z.eqb_spec c LF); [by subst|]. rewrite IH by done. f_equal.
  rewrite last_cons. by destruct (last l).
Qed.

Lemma count_eols_lf ls a b prev :
  Forall line_ok ls -> prev <> CR ->
  count_eols prev (lines_text [LF] ls) a b = (a, b + Z.of_nat (length ls)).
Proof.
  intros Hls. revert a b prev. induction Hls as [|l ls [Hl Hcr] _ IH]; intros a b prev Hp.
  { simpl. by rewrite Z.add_0_r. }
  rewrite lines_text_cons, count_eols_skip by done. cbn [app count_eols].
  rewrite Z.eqb_refl. assert (default prev (last l) <> CR) as Hd
    by (destruct (last l); simpl in *; congruence).
  apply Z.eqb_neq in Hd. rewrite Hd. rewrite IH by done. f_equal. cbn [length]. lia.
Qed.

Lemma count_eols_crlf ls a b prev :
  Forall line_ok ls ->
  count_eols prev (lines_text [CR; LF] ls) a b = (a + Z.of_nat (length ls), b).
Proof.
  intros Hls. revert a b prev. induction Hls as [|l ls [Hl Hcr] _ IH]; intros a b prev.
  { simpl. by rewrite Z.add_0_r. }
  rewrite lines_text_cons, count_eols_skip by done. cbn [app count_eols Z.eqb Pos.eqb].
  rewrite IH. f_equal. cbn [length]. lia.
Qed.

(** Text rebuilt from lines splits back into them, with its line ending. *)
Lemma splitLines_text eol ls :
  eol = [LF] \/ eol = [CR; LF] -> Forall line_ok ls -> ls <> [] ->
  splitLines (lines_text eol ls) = (ls, eol).
Proof.
  intros He Hls Hne. unfold splitLines.
  assert (split_loop (lines_text eol ls) [] [] = (ls, [])) as ->.
  { rewrite <- (app_nil_r (lines_text eol ls)). by rewrite split_loop_lines. }
  assert (0 < Z.of_nat (length ls)) by (destruct ls; cbn [length]; [done|lia]).
  destruct He as [-> | ->].
  - rewrite count_eols_lf by done. simpl. by rewrite (proj2 (Z.leb_gt _ _)) by lia.
  - rewrite count_eols_crlf by done. simpl. by rewrite (proj2 (Z.leb_le _ _)) by lia.
Qed.

(** The last line may lack its line ending: it is split off all the same. *)
Lemma splitLines_no_final_eol eol ls l :
  eol = [LF] \/ eol = [CR; LF] -> Forall line_ok ls -> LF ∉ l -> l <> [] ->
  (splitLines (lines_text eol ls ++ l)).1 = ls ++ [l].
Proof.
  intros He Hls Hl Hne. unfold splitLines.
  assert (forall cur lines, split_loop l cur lines = (lines, cur ++ l)) as Hs.
  { clear Hne. induction l as [|c l IH]; intros cur lines; simpl; [by rewrite app_nil_r|].
    apply not_elem_of_cons in Hl as [Hc Hl]. destruct (Z.eqb_spec c LF); [by subst|].
    rewrite IH by done. by rewrite <- app_assoc. }
  destruct (count_eols _ _ _ _) as [a b].
  rewrite split_loop_lines, Hs by done. simpl. by rewrite bool_decide_false.
Qed.

End MergeInputs.

(** * The claims *)

Module MergeClaims.
Import Merge MergeFacts MergeRegions MergeSymmetry MergeInputs.

Lemma merge_unfold base local remote es1 es2 :
  local <> remote -> local <> base -> remote <> base ->
  diffLines (splitLines base).1 (splitLines local).1 = Some es1 ->
  diffLines (splitLines base).1 (splitLines remote).1 = Some es2 ->
  merge base local remote =
  let '(out, hs) := sweep (S (S (length es1 + length es2))) (splitLines base).1
                      (splitLines base).2 0 es1 es2 [] [] in
  if bool_decide (hs = []) then clean_result out else conflict_result hs.
Proof.
  intros H1 H2 H3 D1 D2. unfold merge. rewrite !bool_decide_false by done.
  destruct (splitLines base) as [bl eol], (splitLines local) as [ll e1], (splitLines remote) as [rl e2].
  cbn [fst snd] in *. by rewrite D1, D2.
Qed.

(** The sweep of [merge] as an overlay. *)
Lemma merge_overlay base eol local remote es1 es2 out hs :
  diffLines base local = Some es1 -> diffLines base remote = Some es2 ->
  sweep (S (S (length es1 + length es2))) base eol 0 es1 es2 [] [] = (out, hs) ->
  exists rs, overlay base local remote rs /\ hs = concat (hunk_of <$> rs) /\
    out = lines_text eol (concat (output_of <$> rs)) /\ (es1 = [] -> Forall remote_only rs).
Proof.
  intros [W1 A1]%diffLines_sound [W2 A2]%diffLines_sound Hs.
  apply sweep_spec in Hs as (rs&Hov&->&->&Hro); [|lia|lia|done|done].
  unfold apply_edits in *. rewrite drop_0, A1, A2 in Hov. by exists rs.
Qed.

Definition L (s : string) : str := lit s.

Lemma sweep_two_insertions eol a b :
  a <> b ->
  sweep 4 [] eol 0 [MkEdit 0 0 a] [MkEdit 0 0 b] [] [] = ([], [MkHunk a b]).
Proof.
  intros Hab. cbn [sweep]. rewrite bool_decide_false by naive_solver.
  cbn [next_start aStart Nat.min length Nat.add].
  pose proof (fold_region_two 3 (MkEdit 0 0 a) (MkEdit 0 0 b) eq_refl eq_refl eq_refl
    ltac:(lia)) as Hf. cbn [aStart] in Hf. rewrite Hf.
  unfold emit_region. cbn. by rewrite !app_nil_r, (bool_decide_false (a = b)).
Qed.

(** C34: [diffLines] computes a minimal edit script. The edits are in order,
    never touch each other and are never empty; applying them to [from] gives
    [to]; they remove as few lines of [from] as possible (every common
    subsequence of the two texts has at most the lines kept); and the walk
    over the LCS table ends with one side exhausted within |from| + |to|
    rounds. The hypothesis is that the line counts multiply without overflow. *)
Theorem diffLines_minimal_script (from to : list str) (es : list Edit)
    (Hd : diffLines from to = Some es)
    (Hb : Z.of_nat (length from) * Z.of_nat (length to) < 2 ^ 64) :
  wf_upto 0 es (S (length from)) /\ apply_edits from es = to /\
  (forall cs, sublist cs from -> sublist cs to ->
     (length cs + deleted es <= length from)%nat) /\
  let s := backtrack (length from + length to) from to (dp_table from to) bt_init in
  bt_i s = length from \/ bt_j s = length to.
Proof.
  destruct (diffLines_sound _ _ _ Hd) as [Hw Ha].
  assert (from <> [] -> to <> [] -> Z.of_nat (length to) < 2 ^ 32) as Hm
    by (intros ? ?; pose proof (diffLines_budget _ _ _ Hd Hb); naive_solver).
  assert (from = [] \/ to = [] \/ Z.of_nat (length to) < 2 ^ 32) as Hcase
    by (destruct from, to; auto).
  assert (Z.of_nat (length to) < 2 ^ 32 \/ from = []) as Hc2
    by (destruct Hcase as [?|[->|?]]; [by right|left; simpl; lia|by left]).
  split_and!; [done|done| |].
  - intros cs Hf Ht. destruct Hc2 as [Hlt| ->].
    + apply diffLines_Some in Hd as ->. pose proof (script_optimal from to Hlt).
      pose proof (lcs_max _ _ _ Hf Ht). lia.
    + apply sublist_nil_r in Hf as ->. clear -Hd. rewrite diffLines_nil in Hd.
      injection Hd as <-. by destruct (bool_decide _).
  - destruct Hc2 as [Hlt| ->]; [|left; by destruct to].
    apply (backtrack_opt _ from to bt_init Hlt); [apply bt_inv_init| |simpl; lia].
    unfold bt_opt, dels. simpl. by rewrite !drop_0.
Qed.

Lemma diffLines_minimal_script_witness :
  let from := [L "a"; L "b"; L "c"; L "d"] in
  let to := [L "x"; L "b"; L "d"; L "e"] in
  diffLines from to = Some [MkEdit 0 1 [L "x"]; MkEdit 2 3 []; MkEdit 4 4 [L "e"]] /\
  apply_edits from [MkEdit 0 1 [L "x"]; MkEdit 2 3 []; MkEdit 4 4 [L "e"]] = to.
Proof.
  split; [vm_compute; reflexivity|].
  apply (diffLines_minimal_script [L "a"; L "b"; L "c"; L "d"] [L "x"; L "b"; L "d"; L "e"]);
    vm_compute; reflexivity.
Defined.

(** C5: [merge] is a diff3 overlay. When the three texts differ pairwise and
    are small enough for the table, base, local and remote are cut into
    aligned regions that are unchanged, changed on one side only, changed
    identically, or clash; the result is clean exactly when there is no clash,
    and then it is the chosen texts of the regions joined with the line ending
    of base; otherwise the hunks are exactly the clashes, in order. Edit
    scripts that keep at least one base line between any two edits of
    different sides always merge cleanly. *)
Theorem merge_is_diff3 (base local remote : str) (es1 es2 : list Edit)
    (H1 : local <> remote) (H2 : local <> base) (H3 : remote <> base)
    (D1 : diffLines (splitLines base).1 (splitLines local).1 = Some es1)
    (D2 : diffLines (splitLines base).1 (splitLines remote).1 = Some es2) :
  (exists rs,
     overlay (splitLines base).1 (splitLines local).1 (splitLines remote).1 rs /\
     (concat (hunk_of <$> rs) = [] ->
        merge base local remote =
        clean_result (lines_text (splitLines base).2 (concat (output_of <$> rs)))) /\
     (concat (hunk_of <$> rs) <> [] ->
        merge base local remote = conflict_result (concat (hunk_of <$> rs)))) /\
  (separate es1 es2 -> clean (merge base local remote) = true).
Proof.
  rewrite (merge_unfold _ _ _ _ _ H1 H2 H3 D1 D2).
  destruct (sweep _ _ _ _ _ _ _ _) as [out hs] eqn:Hs.
  destruct (merge_overlay _ _ _ _ _ _ _ _ D1 D2 Hs) as (rs&Hov&->&->&_). split.
  - exists rs. split_and!; [done|..]; intros Hh; [by rewrite bool_decide_true|].
    by rewrite bool_decide_false.
  - intros Hsep. apply sweep_separate in Hs as ->; [by rewrite bool_decide_true|..| done];
      by eapply diffLines_sound.
Qed.

Lemma merge_is_diff3_witness :
  let base := L "a" ++ [LF] ++ L "b" ++ [LF] ++ L "c" ++ [LF] in
  let local := L "x" ++ [LF] ++ L "b" ++ [LF] ++ L "c" ++ [LF] in
  let remote := L "a" ++ [LF] ++ L "b" ++ [LF] ++ L "y" ++ [LF] in
  merge base local remote = clean_result (L "x" ++ [LF] ++ L "b" ++ [LF] ++ L "y" ++ [LF]) /\
  clean (merge base local remote) = true.
Proof.
  split; [vm_compute; reflexivity|].
  apply (merge_is_diff3 (L "a" ++ [LF] ++ L "b" ++ [LF] ++ L "c" ++ [LF])
    (L "x" ++ [LF] ++ L "b" ++ [LF] ++ L "c" ++ [LF])
    (L "a" ++ [LF] ++ L "b" ++ [LF] ++ L "y" ++ [LF])
    [MkEdit 0 1 [L "x"]] [MkEdit 2 3 [L "y"]]);
    [decide_goal|decide_goal|decide_goal|vm_compute; reflexivity|vm_compute; reflexivity|decide_goal].
Defined.

(** The cases [merge] settles without an overlay, and the ones it refuses.
    Equal texts and one-sided changes are returned byte for byte; when either
    diff is over the table budget the result is a conflict without hunks;
    without a common base (the empty text, which the engine passes when no
    backup of the base exists) two texts with different, non-empty lines are
    always one conflict that shows both in full, never a guess. *)
Theorem merge_settled_cases (base local remote : str) :
  merge base local local = clean_result local /\
  merge base base remote = clean_result remote /\
  merge base local base = clean_result local /\
  (local <> remote -> local <> base -> remote <> base ->
     diffLines (splitLines base).1 (splitLines local).1 = None \/
     diffLines (splitLines base).1 (splitLines remote).1 = None ->
     merge base local remote = conflict_result []) /\
  ((splitLines local).1 <> [] -> (splitLines remote).1 <> [] ->
     (splitLines local).1 <> (splitLines remote).1 ->
     merge [] local remote =
     conflict_result [MkHunk (splitLines local).1 (splitLines remote).1]).
Proof.
  split_and!.
  - unfold merge. by rewrite bool_decide_true.
  - unfold merge. case_bool_decide; [by subst|]. by rewrite bool_decide_true.
  - unfold merge. case_bool_decide; [done|]. by rewrite bool_decide_true.
  - intros ? ? ? Hn. unfold merge. rewrite !bool_decide_false by done.
    destruct (splitLines base) as [bl eol], (splitLines local) as [ll e1],
      (splitLines remote) as [rl e2]. cbn [fst] in *.
    destruct (diffLines bl ll), (diffLines bl rl); naive_solver.
  - intros Hl Hr Hlr.
    assert (local <> remote) by congruence.
    assert (local <> []) by (by intros ->). assert (remote <> []) by (by intros ->).
    rewrite (merge_unfold [] local remote _ _ ltac:(done) ltac:(done) ltac:(done)
      (diffLines_nil _) (diffLines_nil _)).
    rewrite !(bool_decide_false (_ = [])) by done. cbn [length Nat.add splitLines fst].
    change (splitLines []) with (@nil str, [CR; LF]). cbn [fst snd].
    by rewrite sweep_two_insertions.
Qed.

Lemma merge_settled_cases_witness :
  merge [] (L "one") (L "two") = conflict_result [MkHunk [L "one"] [L "two"]].
Proof.
  apply (merge_settled_cases [] (L "one") (L "two")); decide_goal.
Defined.

(** C35: [merge] treats the two sides alike: exchanging local and remote gives
    the same verdict and the same merged text, with the two columns of every
    conflict hunk exchanged. Which device merges does not matter. *)
Theorem merge_symmetric (base local remote : str) :
  merge base remote local = swap_result (merge base local remote).
Proof.
  unfold merge. destruct (decide (local = remote)) as [->|Hlr].
  { by rewrite !bool_decide_true. }
  rewrite (bool_decide_false (remote = local)), (bool_decide_false (local = remote)) by congruence.
  destruct (decide (local = base)) as [->|Hlb].
  { rewrite (bool_decide_false (remote = base)) by congruence. by rewrite !bool_decide_true. }
  rewrite (bool_decide_false (local = base)) by done.
  destruct (decide (remote = base)) as [->|Hrb]; [by rewrite !bool_decide_true|].
  rewrite (bool_decide_false (remote = base)) by done.
  destruct (splitLines base) as [bl eol], (splitLines local) as [ll e1], (splitLines remote) as [rl e2].
  destruct (diffLines bl ll) as [es1|] eqn:D1, (diffLines bl rl) as [es2|] eqn:D2; try done.
  rewrite (Nat.add_comm (length es2)).
  rewrite (sweep_swap _ _ _ _ es1 es2 [] []) by (by eapply diffLines_sound).
  destruct (sweep _ _ _ _ _ _ _ _) as [out hs].
  destruct hs as [|h hs]; [done|]. rewrite !bool_decide_false by done. done.
Qed.

(** Splitting inverts joining: lines without line feeds or trailing
    carriage returns, joined with LF or CRLF, split back into the same lines
    and the line ending they were joined with; a last line without a line
    ending is kept as a line. *)
Theorem splitLines_roundtrip (eol : str) (ls : list str) (l : str)
    (He : eol = [LF] \/ eol = [CR; LF]) (Hls : Forall line_ok ls) :
  (ls <> [] -> splitLines (appendLines eol [] ls) = (ls, eol)) /\
  (LF ∉ l -> l <> [] -> (splitLines (appendLines eol [] ls ++ l)).1 = ls ++ [l]).
Proof.
  split; intros; [by apply splitLines_text|by apply splitLines_no_final_eol].
Qed.

Lemma splitLines_roundtrip_witness :
  let ls := [L "a"; L ""; L "b c"] in
  splitLines (appendLines [CR; LF] [] ls) = (ls, [CR; LF]) /\
  splitLines (appendLines [CR; LF] [] ls ++ L "z") = (ls ++ [L "z"], [CR; LF]).
Proof.
  split.
  - apply (splitLines_roundtrip [CR; LF] [L "a"; L ""; L "b c"] (L "z"));
      [by right|decide_goal|done].
  - vm_compute. reflexivity.
Defined.

(** An edit of line endings or of the final newline alone is not merged:
    when local has the lines of base, the merge with a changed remote is clean
    and consists of the lines of remote with the line ending of base, whatever
    local did. So a device that only converts LF to CRLF loses its edit
    silently, although the header of the module promises a whitespace-exact
    merge that never discards content silently. *)
Theorem merge_drops_eol_edit (base local remote : str)
    (Hlr : local <> remote) (Hlb : local <> base) (Hrb : remote <> base)
    (Hl : (splitLines local).1 = (splitLines base).1)
    (Hd : diffLines (splitLines base).1 (splitLines base).1 <> None /\
          diffLines (splitLines base).1 (splitLines remote).1 <> None) :
  merge base local remote =
  clean_result (appendLines (splitLines base).2 [] (splitLines remote).1).
Proof.
  destruct Hd as [Hd1 Hd2]. destruct (diffLines _ _) as [es1|] eqn:D1 in Hd1; [|done].
  destruct (diffLines (splitLines base).1 (splitLines remote).1) as [es2|] eqn:D2; [|done].
  pose proof (diffLines_same _ _ D1) as ->. rewrite <- Hl in D1 at 2.
  rewrite (merge_unfold _ _ _ _ _ Hlr Hlb Hrb D1 D2).
  destruct (sweep _ _ _ _ _ _ _ _) as [out hs] eqn:Hs.
  destruct (merge_overlay _ _ _ _ _ _ _ _ D1 D2 Hs) as (rs&[_ _ Er _]&->&->&Hro).
  specialize (Hro eq_refl).
  assert (concat (hunk_of <$> rs) = [] /\ concat (output_of <$> rs) = concat (remote_of <$> rs))
    as [-> ->].
  { clear -Hro. induction Hro as [|g rs [Ho Hh] _ [IH1 IH2]]; [done|]. rewrite !fmap_cons; cbn [concat].
    by rewrite Hh, Ho, IH1, IH2. }
  by rewrite bool_decide_true, <- Er.
Qed.

Lemma merge_drops_eol_edit_witness :
  let base := L "a" ++ [LF] ++ L "b" ++ [LF] in
  let local := L "a" ++ [CR; LF] ++ L "b" ++ [CR; LF] in
  let remote := L "a" ++ [LF] ++ L "c" ++ [LF] in
  local <> base /\ merge base local remote = clean_result remote.
Proof.
  split; [decide_goal|].
  apply (merge_drops_eol_edit (L "a" ++ [LF] ++ L "b" ++ [LF])
    (L "a" ++ [CR; LF] ++ L "b" ++ [CR; LF]) (L "a" ++ [LF] ++ L "c" ++ [LF]));
    [decide_goal|decide_goal|decide_goal|vm_compute; reflexivity|split; decide_goal].
Defined.

End MergeClaims.
