(* ===== verification/Platform.v ===== *)
(** * Platform: the operating-system services the sources rely on

    Code outside the repository is a parameter of the development: an
    operational type class holds the functions, a second class the documented
    behaviour that theorems rely on. Each has a small concrete instance, used
    by the witnesses. *)
From S2P Require Import Prelude Text.

(** ** Text services of the C runtime and of Win32 *)

(** [towlower] of the current locale; [MultiByteToWideChar] with [CP_UTF8] and
    [MB_ERR_INVALID_CHARS], [None] for its failure on malformed input;
    [WideCharToMultiByte] with [CP_UTF8]. *)
Class Win32Text := {
  towlower : Z -> Z;
  MultiByteToWideChar : str -> option wstr;
  WideCharToMultiByte : wstr -> option str
}.

Definition ascii_str (s : str) : Prop := Forall (fun c => 0 <= c < 128) s.

#[export] Instance ascii_str_dec s : Decision (ascii_str s).
Proof. unfold ascii_str. apply _. Defined.

(** What is documented about them: case mapping keeps the path separators, the
    UTF-8 conversions keep ASCII text, convert around an ASCII character
    independently, never make an ASCII unit out of other characters, and invert
    each other on well-formed text. (The empty text, which the API refuses, is
    never passed by the sources; here it converts to itself.) *)
Class Win32TextLaws `{Win32Text} : Prop := {
  towlower_sep c : towlower c = BSLASH <-> c = BSLASH;
  towlower_slash c : towlower c = SLASH <-> c = SLASH;
  mbtowc_ascii s : ascii_str s -> MultiByteToWideChar s = Some s;
  mbtowc_split a c b : 0 <= c < 128 ->
    MultiByteToWideChar (a ++ c :: b) =
    match MultiByteToWideChar a, MultiByteToWideChar b with
    | Some wa, Some wb => Some (wa ++ c :: wb)
    | _, _ => None
    end;
  mbtowc_ascii_unit s w c : MultiByteToWideChar s = Some w -> 0 <= c < 128 -> c ∈ w -> c ∈ s;
  wctomb_mbtowc s w : MultiByteToWideChar s = Some w -> WideCharToMultiByte w = Some s
}.

(** A concrete instance: a code page that accepts ASCII only. *)
Definition ascii_text : Win32Text := {|
  towlower := tolower;
  MultiByteToWideChar s := if bool_decide (ascii_str s) then Some s else None;
  WideCharToMultiByte w := if bool_decide (ascii_str w) then Some w else None
|}.

Lemma ascii_str_app a c b : ascii_str (a ++ c :: b) <-> ascii_str a /\ 0 <= c < 128 /\ ascii_str b.
Proof. unfold ascii_str. by rewrite Forall_app, Forall_cons. Qed.

Lemma ascii_text_laws : @Win32TextLaws ascii_text.
Proof.
  split; simpl.
  - intros c. unfold tolower, is_upper. split_ifs; to_prop; lia.
  - intros c. unfold tolower, is_upper. split_ifs; to_prop; lia.
  - intros s Hs. by rewrite bool_decide_true.
  - intros a c b Hc. rewrite (bool_decide_ext _ _ (ascii_str_app a c b)).
    repeat case_bool_decide; naive_solver.
  - intros s w c. case_bool_decide; [|done]. by intros [= ->].
  - intros s w. case_bool_decide; [|done]. intros [= ->]. by rewrite bool_decide_true.
Qed.

(** ** Cryptography: Windows CNG

    [None] is a non-zero status. The random generator is a stream of bytes
    threaded as state; it fails when the stream is exhausted. *)

Class CNG := {
  BCryptEncrypt : Bytes -> Bytes -> str -> Bytes -> option (Bytes * Bytes);
    (* key, nonce, additional data, plaintext: ciphertext and tag *)
  BCryptDecrypt : Bytes -> Bytes -> str -> Bytes -> Bytes -> option Bytes;
    (* key, nonce, additional data, ciphertext, tag: plaintext *)
  BCryptSha256 : Bytes -> option Bytes;
  BCryptDeriveKeyPBKDF2 : str -> Bytes -> Z -> option Bytes
    (* code, salt, iterations: 32 bytes *)
}.

Definition bytes_ok (b : Bytes) : Prop := Forall is_byte b.

#[export] Instance is_byte_dec z : Decision (is_byte z).
Proof. unfold is_byte. apply _. Defined.
#[export] Instance bytes_ok_dec b : Decision (bytes_ok b).
Proof. unfold bytes_ok. apply _. Defined.

(** AES-256-GCM is a deterministic AEAD: decryption inverts encryption, and
    succeeds only on the ciphertext and tag that encryption of its result
    gives. *)
Class CNGLaws `{CNG} : Prop := {
  gcm_decrypt_encrypt k n a p c t :
    BCryptEncrypt k n a p = Some (c, t) -> BCryptDecrypt k n a c t = Some p;
  gcm_encrypt_decrypt k n a p c t :
    length t = 16%nat -> BCryptDecrypt k n a c t = Some p -> BCryptEncrypt k n a p = Some (c, t);
  gcm_sizes k n a p c t :
    BCryptEncrypt k n a p = Some (c, t) -> length c = length p /\ length t = 16%nat;
  gcm_bytes k n a p c t :
    bytes_ok p -> BCryptEncrypt k n a p = Some (c, t) -> bytes_ok c /\ bytes_ok t;
  sha256_size d h : BCryptSha256 d = Some h -> length h = 32%nat /\ bytes_ok h;
  pbkdf2_size c s i k : BCryptDeriveKeyPBKDF2 c s i = Some k -> length k = 32%nat /\ bytes_ok k
}.

Abbreviation rng := (list Z).

Definition BCryptGenRandom (len : nat) : M rng Bytes := fun r =>
  if decide (length r < len)%nat then (Throw runtime_error, r) else (Ok (take len r), drop len r).

(** A concrete instance: a checksum in the place of the tag and the digest,
    and no confidentiality at all. *)
Definition checksum (n : nat) (d : list Z) : Bytes :=
  let h := fold_left (fun h c => (h * 257 + c + 1) mod 2 ^ 127) d 7 in
  map (fun i => (h / 2 ^ (8 * Z.of_nat i)) mod 256) (seq 0 n).

Definition toy_cng : CNG := {|
  BCryptEncrypt k n a p := Some (p, checksum 16 (k ++ n ++ a ++ p));
  BCryptDecrypt k n a c t :=
    if bool_decide (checksum 16 (k ++ n ++ a ++ c) = t) then Some c else None;
  BCryptSha256 d := Some (checksum 32 d);
  BCryptDeriveKeyPBKDF2 c s i := Some (checksum 32 (c ++ s ++ [i]))
|}.

Lemma checksum_ok n d : length (checksum n d) = n /\ bytes_ok (checksum n d).
Proof.
  unfold checksum. rewrite length_map, length_seq. split; [done|].
  apply Forall_map, Forall_forall. intros i _. unfold is_byte. simpl.
  apply Z.mod_pos_bound. lia.
Qed.

Lemma toy_cng_laws : @CNGLaws toy_cng.
Proof.
  split; simpl; intros.
  - simplify_eq. by rewrite bool_decide_true.
  - case_bool_decide; simplify_eq. done.
  - simplify_eq. split; [done|]. apply checksum_ok.
  - simplify_eq. split; [done|]. apply checksum_ok.
  - simplify_eq. apply checksum_ok.
  - simplify_eq. apply checksum_ok.
Qed.

(** ** The local time zone: [localtime_s] *)

Record tm := MkTm { tm_year : Z; tm_mon : Z; tm_mday : Z; tm_hour : Z; tm_min : Z; tm_sec : Z }.

Class LocalTime := { localtime : Z -> tm }.

(** A concrete instance: one fixed moment. *)
Definition toy_time : LocalTime := {| localtime _ := MkTm 126 0 31 23 59 58 |}.

(** ** DPAPI: data only the current Windows user can open

    [None] is failure. *)
Class DPAPI := {
  CryptProtectData : Bytes -> option Bytes;
  CryptUnprotectData : Bytes -> option Bytes
}.

Class DPAPILaws `{DPAPI} : Prop := {
  unprotect_protect d e : CryptProtectData d = Some e -> e <> [] /\ CryptUnprotectData e = Some d
}.

(** A concrete instance, without any protection. *)
Definition toy_dpapi : DPAPI := {|
  CryptProtectData d := Some (1 :: d);
  CryptUnprotectData e := match e with 1 :: d => Some d | _ => None end
|}.

Lemma toy_dpapi_laws : @DPAPILaws toy_dpapi.
Proof. split. simpl. by intros d e [= <-]. Qed.

(** ** JSON: nlohmann::json

    The values of the library's data model the sources use (integral numbers
    only); an object is the list of its members, looked up by key. [parse] and
    [dump] are parameters; the accessors throw the documented type errors. *)

Inductive json :=
  | JNull
  | JBool (b : bool)
  | JInt (z : Z)
  | JStr (s : str)
  | JArr (l : list json)
  | JObj (m : list (str * json)).

Fixpoint member (key : str) (m : list (str * json)) : option json :=
  match m with
  | [] => None
  | (k, v) :: m' => if decide (k = key) then Some v else member key m'
  end.

(** [j.value(key, default)] at the types the sources use: 306 when [j] is not
    an object, 302 when the member has another type. *)
Definition value {A} (get : json -> outcome A) (j : json) (key : str) (dflt : A) : outcome A :=
  match j with
  | JObj m => match member key m with Some v => get v | None => Ok dflt end
  | _ => Throw (json_type_error 306)
  end.

Definition get_str (j : json) : outcome str :=
  match j with JStr s => Ok s | _ => Throw (json_type_error 302) end.
Definition get_int64 (j : json) : outcome Z :=
  match j with JInt z => Ok (wrap_i64 z) | _ => Throw (json_type_error 302) end.
(** [get<int>()] narrows, and takes booleans as well. *)
Definition get_int (j : json) : outcome Z :=
  match j with
  | JInt z => Ok (wrap_i32 z)
  | JBool b => Ok (if b then 1 else 0)
  | _ => Throw (json_type_error 302)
  end.
Definition get_bool (j : json) : outcome bool :=
  match j with JBool b => Ok b | _ => Throw (json_type_error 302) end.
Definition get_json (j : json) : outcome json := Ok j.

(** [j.get<std::vector<std::string>>()]. *)
Fixpoint get_strs (l : list json) : outcome (list str) :=
  match l with
  | [] => Ok []
  | x :: l' => (let! s := get_str x in let! r := get_strs l' in Ok (s :: r))%outcome
  end.
Definition get_str_list (j : json) : outcome (list str) :=
  match j with JArr l => get_strs l | _ => Throw (json_type_error 302) end.

(** The elements [for (auto& v : j)] visits: those of an array, the values of
    an object's members, nothing for null, the value itself otherwise. *)
Definition json_elements (j : json) : list json :=
  match j with
  | JArr l => l
  | JObj m => map snd m
  | JNull => []
  | _ => [j]
  end.

(** [j.contains(key)]. *)
Definition contains (j : json) (key : str) : bool :=
  match j with JObj m => bool_decide (is_Some (member key m)) | _ => false end.

Definition value_str := value get_str.
Definition value_int := value get_int.
Definition value_int64 := value get_int64.
Definition value_bool := value get_bool.
Definition value_json := value get_json.

(** [parse]: [None] is a parse error. [f >> j] reads one value and leaves the
    rest of the stream. [dump()] and [dump(2)] throw (316) on text that is not
    UTF-8. *)
Class Json := {
  json_parse : str -> option json;
  json_read : str -> option json;
  json_dump : json -> outcome str;
  json_dump_pretty : json -> outcome str
}.

Fixpoint ascii_json (j : json) : Prop :=
  match j with
  | JStr s => ascii_str s
  | JArr l => (fix all l := match l with [] => True | x :: l' => ascii_json x /\ all l' end) l
  | JObj m =>
      (fix all m := match m with
                    | [] => True
                    | (k, x) :: m' => ascii_str k /\ ascii_json x /\ all m'
                    end) m
  | _ => True
  end.

(** Members are kept in key order, each key once ([std::map]). *)
Fixpoint str_ltb (a b : str) : bool :=
  match a, b with
  | _, [] => false
  | [], _ :: _ => true
  | x :: a', y :: b' => if x =? y then str_ltb a' b' else x <? y
  end.

(** [j[key] = v] on an object (or on null, which becomes one). *)
Fixpoint put_member (key : str) (v : json) (m : list (str * json)) : list (str * json) :=
  match m with
  | [] => [(key, v)]
  | (k, x) :: m' =>
      if decide (k = key) then (key, v) :: m'
      else if str_ltb key k then (key, v) :: (k, x) :: m'
      else (k, x) :: put_member key v m'
  end.

Definition json_set (key : str) (v : json) (j : json) : json :=
  match j with JObj m => JObj (put_member key v m) | _ => JObj [(key, v)] end.

Fixpoint sorted_json (j : json) : Prop :=
  match j with
  | JArr l => (fix all l := match l with [] => True | x :: l' => sorted_json x /\ all l' end) l
  | JObj m =>
      (fix all m := match m with
                    | [] => True
                    | (k, x) :: m' =>
                        sorted_json x /\ all m' /\
                        match m' with [] => True | (k', _) :: _ => str_ltb k k' = true end
                    end) m
  | _ => True
  end.

Class JsonLaws `{Json} : Prop := {
  json_round_trip j : ascii_json j -> sorted_json j ->
    exists s, json_dump j = Ok s /\ bytes_ok s /\ s <> [] /\ json_parse s = Some j;
  json_pretty_round_trip j s : sorted_json j ->
    json_dump_pretty j = Ok s -> bytes_ok s /\ json_read s = Some j
}.

(** A concrete instance: a prefix code of the value in place of its text. *)
Section json_induction.
Context (P : json -> Prop).
Context (Hnull : P JNull) (Hbool : forall b, P (JBool b)) (Hint : forall z, P (JInt z))
  (Hstr : forall s, P (JStr s)) (Harr : forall l, Forall P l -> P (JArr l))
  (Hobj : forall m, Forall (fun kx => P kx.2) m -> P (JObj m)).

Fixpoint json_rect' (j : json) : P j :=
  match j with
  | JNull => Hnull
  | JBool b => Hbool b
  | JInt z => Hint z
  | JStr s => Hstr s
  | JArr l =>
      Harr l ((fix all l : Forall P l :=
                 match l with [] => Forall_nil_2 _ | x :: l' => Forall_cons_2 _ _ _ (json_rect' x) (all l') end) l)
  | JObj m =>
      Hobj m ((fix all m : Forall (fun kx => P kx.2) m :=
                 match m with
                 | [] => Forall_nil_2 _
                 | (k, x) :: m' => Forall_cons_2 _ (k, x) _ (json_rect' x) (all m')
                 end) m)
  end.
End json_induction.

Definition put_members (f : json -> gen_tree (str + Z)) :=
  fix go (m : list (str * json)) : list (gen_tree (str + Z)) :=
    match m with
    | [] => []
    | (k, x) :: m' => GenLeaf (inl k) :: f x :: go m'
    end.

Definition get_members (f : gen_tree (str + Z) -> option json) :=
  fix go (ts : list (gen_tree (str + Z))) : option (list (str * json)) :=
    match ts with
    | [] => Some []
    | GenLeaf (inl k) :: t :: ts' => x ← f t; xs ← go ts'; Some ((k, x) :: xs)
    | _ => None
    end.

Definition get_items (f : gen_tree (str + Z) -> option json) :=
  fix go (ts : list (gen_tree (str + Z))) : option (list json) :=
    match ts with
    | [] => Some []
    | t :: ts' => x ← f t; xs ← go ts'; Some (x :: xs)
    end.

Fixpoint to_tree (j : json) : gen_tree (str + Z) :=
  match j with
  | JNull => GenNode 0 []
  | JBool b => GenNode 1 [GenLeaf (inr (if b then 1 else 0))]
  | JInt z => GenNode 2 [GenLeaf (inr z)]
  | JStr s => GenLeaf (inl s)
  | JArr l => GenNode 3 (map to_tree l)
  | JObj m => GenNode 4 (put_members to_tree m)
  end.

Fixpoint of_tree (t : gen_tree (str + Z)) : option json :=
  match t with
  | GenLeaf (inl s) => Some (JStr s)
  | GenNode 0 [] => Some JNull
  | GenNode 1 [GenLeaf (inr z)] => Some (JBool (z =? 1))
  | GenNode 2 [GenLeaf (inr z)] => Some (JInt z)
  | GenNode 3 ts => JArr <$> get_items of_tree ts
  | GenNode 4 ts => JObj <$> get_members of_tree ts
  | _ => None
  end.

Lemma of_to_tree j : of_tree (to_tree j) = Some j.
Proof.
  induction j as [|b|z|s|l IH|m IH] using json_rect'; try done.
  - by destruct b.
  - cbn [to_tree of_tree].
    assert (get_items of_tree (map to_tree l) = Some l) as ->; [|done].
    induction IH as [|x l Hx _ IH]; [done|]. cbn [map get_items]. rewrite Hx. cbn.
    by rewrite IH.
  - cbn [to_tree of_tree].
    assert (get_members of_tree (put_members to_tree m) = Some m) as ->; [|done].
    induction IH as [|[k x] m Hx _ IH]; [done|]. cbn [put_members get_members snd] in *. rewrite Hx. cbn.
    by rewrite IH.
Qed.

Fixpoint to_bits (p : positive) : str :=
  match p with xH => [49] | xO p' => 48 :: to_bits p' | xI p' => 49 :: to_bits p' end.

Fixpoint of_bits (s : str) : positive :=
  match s with
  | [] | [_] => xH
  | c :: s' => if c =? 48 then xO (of_bits s') else xI (of_bits s')
  end.

Lemma of_to_bits p : of_bits (to_bits p) = p.
Proof. induction p as [p IH|p IH|]; [..|done]; simpl; rewrite IH; by destruct p. Qed.

Lemma to_bits_ok p : bytes_ok (to_bits p) /\ to_bits p <> [].
Proof. split; [|by destruct p]. induction p; simpl; constructor; unfold is_byte; try lia; done. Qed.

Definition toy_json : Json := {|
  json_parse s := decode (of_bits s) ≫= of_tree;
  json_read s := decode (of_bits s) ≫= of_tree;
  json_dump j := Ok (to_bits (encode (to_tree j)));
  json_dump_pretty j := Ok (to_bits (encode (to_tree j)))
|}.

Lemma toy_json_laws : @JsonLaws toy_json.
Proof.
  split.
  - intros j _ _. eexists. split; [done|]. split_and!; [apply to_bits_ok..|].
    simpl. by rewrite of_to_bits, decode_encode; simpl; rewrite of_to_tree.
  - intros j s _ [= <-]. split; [apply to_bits_ok|].
    simpl. by rewrite of_to_bits, decode_encode; simpl; rewrite of_to_tree.
Qed.

(** *** Members of an object that is built key by key *)

Lemma str_ltb_trichotomy a b : str_ltb a b = false -> a <> b -> str_ltb b a = true.
Proof.
  revert b. induction a as [|x a IH]; intros [|y b]; simpl; try done.
  destruct (Z.eqb_spec x y) as [->|Hn].
  - rewrite Z.eqb_refl. intros H Hne. apply IH; [done|congruence].
  - intros H _. rewrite (proj2 (Z.eqb_neq y x)) by congruence. to_prop. apply Z.ltb_lt. lia.
Qed.

Lemma member_put key k v m :
  member key (put_member k v m) = if decide (k = key) then Some v else member key m.
Proof.
  induction m as [|[k' x] m IH]; cbn [put_member member]; [done|].
  destruct (decide (k' = k)) as [->|Hk]; [cbn [member]; by destruct (decide (k = key))|].
  destruct (str_ltb k k'); cbn [member]; [done|].
  destruct (decide (k' = key)) as [->|]; [by rewrite decide_False by congruence|exact IH].
Qed.

Lemma sorted_put k v m : sorted_json (JObj m) -> sorted_json v -> sorted_json (JObj (put_member k v m)).
Proof.
  intros Hm Hv. induction m as [|[k' x] m IH]; [done|].
  cbn [put_member]. destruct Hm as (Hx&Hm&Hh).
  destruct (decide (k' = k)) as [->|Hk]; [by split_and!|].
  destruct (str_ltb k k') eqn:E; [by split_and!|].
  apply str_ltb_trichotomy in E; [|congruence]. split_and!; [done|by apply IH|].
  destruct m as [|[k2 y] m]; cbn [put_member]; [done|].
  destruct (decide (k2 = k)) as [->|]; [done|]. by destruct (str_ltb k k2).
Qed.
