(* ===== verification/PathUtil.v ===== *)
(** * PathUtil: core/PathUtil.cpp, path normalization and containment

    The security boundary of the plugin: relative paths arrive from other
    devices. [normalizeRelative] returns the boolean and the out-parameter the
    code writes; [joinInsideRoot] the absolute path when it returns true. *)
From S2P Require Import Prelude Text Platform.

Module PathUtil.

(** The anonymous-namespace [lower]. *)
Definition lower (s : str) : str := map tolower s.

(** [static const std::string illegal]. *)
Definition illegal : str := [60; 62; COLON; QUOTE; 124; QMARK; STAR].

Definition base_name (relPath : str) : str :=
  match find_last (Z.eqb SLASH) relPath with
  | None => relPath
  | Some slash => drop (S slash) relPath
  end.

Definition hasIllegalChars (relPath : str) : bool :=
  existsb (fun c => (c <? 32) || bool_decide (c ∈ illegal)) relPath
  || match last (base_name relPath) with
     | Some c => (c =? DOT) || (c =? SPACE)
     | None => false
     end.

Definition names : list str :=
  map lit ["con"; "prn"; "aux"; "nul";
           "com1"; "com2"; "com3"; "com4"; "com5"; "com6"; "com7"; "com8"; "com9";
           "lpt1"; "lpt2"; "lpt3"; "lpt4"; "lpt5"; "lpt6"; "lpt7"; "lpt8"; "lpt9"]%string.

(** The part of a segment before its first dot, in lower case. *)
Definition device_base (seg : str) : str :=
  let base := lower seg in
  match find_char DOT base with
  | Some dot => take dot base
  | None => base
  end.

Definition hasReservedName (relPath : str) : bool :=
  existsb (fun seg => bool_decide (device_base seg ∈ names)) (getlines SLASH relPath).

(** One round of the segment loop; [None] is [return false]. *)
Definition resolve_seg (segs : list str) (seg : str) : option (list str) :=
  if bool_decide (seg = [] \/ seg = [DOT]) then Some segs
  else if bool_decide (seg = [DOT; DOT])
  then if bool_decide (segs = []) then None else Some (removelast segs)
  else Some (segs ++ [seg]).

Fixpoint resolve (segs : list str) (l : list str) : option (list str) :=
  match l with
  | [] => Some segs
  | seg :: l' => resolve_seg segs seg ≫= fun segs' => resolve segs' l'
  end.

Definition normalizeRelative (inp : str) : bool * str :=
  if bool_decide (inp = []) || (4096 <? Z.of_nat (length inp)) then (false, [])
  else
    let s := replace_char BSLASH SLASH inp in
    if bool_decide (s !! 0%nat = Some SLASH) || bool_decide (s !! 1%nat = Some COLON)
    then (false, [])
    else if bool_decide (NUL ∈ s) then (false, [])
    else
      match resolve [] (getlines SLASH s) with
      | None => (false, [])
      | Some segs =>
          if bool_decide (segs = []) then (false, [])
          else
            let out := join [SLASH] segs in
            if hasIllegalChars out || hasReservedName out then (false, out)
            else (true, out)
      end.

Section wide.
Context `{Win32Text}.

(** The anonymous-namespace [wlower]: lower case, then [/] to [\ ]. *)
Definition wlower (s : wstr) : wstr := replace_char SLASH BSLASH (map towlower s).

Definition utf8ToWide (s : str) : wstr :=
  if bool_decide (s = []) then [] else default [] (MultiByteToWideChar s).

Definition wideToUtf8 (s : wstr) : str :=
  if bool_decide (s = []) then [] else default [] (WideCharToMultiByte s).

Definition isInsideRoot (absRoot absPath : wstr) : bool :=
  let root := trim_right (Z.eqb BSLASH) (wlower absRoot) in
  let path := wlower absPath in
  if bool_decide (path = root) then true
  else if decide (length path <= length root)%nat then false
  else bool_decide (take (length root) path = root)
       && bool_decide (path !! length root = Some BSLASH).

Definition joinInsideRoot (absRoot : wstr) (relNormalized : str) : option wstr :=
  let '(ok, rel) := normalizeRelative relNormalized in
  if negb ok then None
  else
    let wrel := replace_char SLASH BSLASH (utf8ToWide rel) in
    let root := trim_right (fun c => (c =? BSLASH) || (c =? SLASH)) absRoot in
    let full := root ++ [BSLASH] ++ wrel in
    if isInsideRoot root full then Some full else None.
End wide.

End PathUtil.

(** * Lemmas *)

Module PathUtilFacts.
Import PathUtil.

(** A path segment that may be written to disk. *)
Definition good_seg (seg : str) : Prop :=
  seg <> [] /\ seg <> [DOT] /\ seg <> [DOT; DOT] /\
  Forall (fun c => 32 <= c /\ c ∉ illegal /\ c <> SLASH /\ c <> BSLASH) seg /\
  device_base seg ∉ names.

#[export] Instance good_seg_dec seg : Decision (good_seg seg).
Proof. unfold good_seg. apply _. Defined.

(** A safe relative path, as its list of segments. *)
Record safe_path (segs : list str) : Prop := {
  sp_ne : segs <> [];
  sp_good : Forall good_seg segs;
  sp_last : forall l c, last segs = Some l -> last l = Some c -> c <> DOT /\ c <> SPACE
}.

(** ** [resolve] *)

Definition plain (seg : str) : Prop := seg <> [] /\ seg <> [DOT] /\ seg <> [DOT; DOT].

#[export] Instance plain_dec seg : Decision (plain seg).
Proof. unfold plain. apply _. Defined.

Lemma resolve_seg_spec segs seg segs' (P : str -> Prop) :
  resolve_seg segs seg = Some segs' -> Forall (fun s => plain s /\ P s) segs -> P seg ->
  Forall (fun s => plain s /\ P s) segs'.
Proof.
  unfold resolve_seg. intros Hr Hs Hp. case_bool_decide; [by simplify_eq|].
  case_bool_decide.
  - case_bool_decide; [done|]. simplify_eq.
    destruct segs as [|x segs] using rev_ind; [done|]. rewrite removelast_last.
    by apply Forall_app in Hs as [? _].
  - simplify_eq. apply Forall_app. split; [done|]. constructor; [|done]. unfold plain. naive_solver.
Qed.

Lemma resolve_spec l segs segs' (P : str -> Prop) :
  resolve segs l = Some segs' -> Forall (fun s => plain s /\ P s) segs -> Forall P l ->
  Forall (fun s => plain s /\ P s) segs'.
Proof.
  revert segs. induction l as [|x l IH]; intros segs; simpl; [by intros [= <-]|].
  intros Hr%bind_Some Hs [Hx Hl]%Forall_cons. destruct Hr as (segs1&H1&H2).
  eapply IH; [done| |done]. by eapply resolve_seg_spec.
Qed.

(** Plain segments resolve to themselves. *)
Lemma resolve_plain l segs : Forall plain l -> resolve segs l = Some (segs ++ l).
Proof.
  intros Hl. revert segs. induction Hl as [|x l (?&?&?) _ IH]; intros segs; simpl.
  { by rewrite app_nil_r. }
  unfold resolve_seg. rewrite !bool_decide_false by naive_solver. simpl.
  by rewrite IH, <- app_assoc.
Qed.

(** Resolution never grows the text. *)
Lemma length_removelast {A} (l : list A) : (length (removelast l) <= length l)%nat.
Proof. destruct l as [|x l] using rev_ind; [done|]. rewrite removelast_last, length_app. lia. Qed.

Definition width (l : list str) : nat := sum_list_with (fun s => S (length s)) l.

Lemma width_app l1 l2 : width (l1 ++ l2) = (width l1 + width l2)%nat.
Proof. unfold width. induction l1; simpl; lia. Qed.

Lemma resolve_width l segs segs' :
  resolve segs l = Some segs' -> (width segs' <= width segs + width l)%nat.
Proof.
  revert segs. induction l as [|x l IH]; intros segs; simpl; [intros [= <-]; lia|].
  intros (segs1&H1&H2)%bind_Some. apply IH in H2.
  assert (width segs1 <= width segs + S (length x))%nat; [|unfold width in *; simpl; lia].
  unfold resolve_seg in H1. case_bool_decide; [simplify_eq; lia|].
  case_bool_decide; [case_bool_decide; [done|]|]; simplify_eq.
  - destruct segs as [|y segs _] using rev_ind; [done|]. rewrite removelast_last, width_app. lia.
  - rewrite width_app. unfold width. simpl. lia.
Qed.

Lemma length_join c l : l <> [] -> S (length (join [c] l)) = width l.
Proof.
  induction l as [|x l IH]; [done|]. intros _. destruct l as [|y l].
  - unfold width. simpl. lia.
  - specialize (IH ltac:(done)). change (join [c] (x :: y :: l)) with (x ++ [c] ++ join [c] (y :: l)).
    rewrite !length_app. unfold width in *. simpl in *. lia.
Qed.

Lemma width_fields d s : width (fields d s) = S (length s).
Proof.
  induction s as [|c s IH]; [done|]. simpl.
  pose proof (fields_nonempty d s). destruct (c =? d); [unfold width in *; simpl in *; lia|].
  destruct (fields d s) as [|f fs]; [done|]. unfold width in *. simpl in *. lia.
Qed.

Lemma width_drop_last_empty l : (width (drop_last_empty l) <= width l)%nat.
Proof.
  induction l as [|x l IH]; [done|]. destruct l as [|y l].
  - simpl. case_decide; [|done]. unfold width. simpl. lia.
  - change (drop_last_empty (x :: y :: l)) with (x :: drop_last_empty (y :: l)).
    unfold width in *. simpl in *. lia.
Qed.

(** ** [find_last] and the last segment *)

Lemma not_slash_all s : SLASH ∉ s -> Forall (fun c => (SLASH =? c) = false) s.
Proof.
  intros Hs. apply Forall_forall. intros c Hc. apply Z.eqb_neq. intros <-. done.
Qed.

Lemma base_name_join segs seg :
  SLASH ∉ seg -> base_name (join [SLASH] (segs ++ [seg])) = seg.
Proof.
  intros Hs. unfold base_name. induction segs as [|x segs IH].
  { simpl. by rewrite find_last_none by by apply not_slash_all. }
  assert (join [SLASH] ((x :: segs) ++ [seg]) = x ++ SLASH :: join [SLASH] (segs ++ [seg])) as ->
    by (simpl; by destruct (segs ++ [seg]) eqn:E; [by apply app_nil in E as [_ ?]|]).
  destruct (find_last (Z.eqb SLASH) (join [SLASH] (segs ++ [seg]))) as [i|] eqn:E.
  - assert (find_last (Z.eqb SLASH) (x ++ SLASH :: join [SLASH] (segs ++ [seg]))
            = Some (length x + S i)%nat) as ->.
    { clear -E. induction x as [|c x IHx]; simpl; [by rewrite E|]. by rewrite IHx. }
    replace (S (length x + S i))%nat with (length x + S (S i))%nat by lia.
    rewrite <- drop_drop, drop_app_length. exact IH.
  - assert (find_last (Z.eqb SLASH) (x ++ SLASH :: join [SLASH] (segs ++ [seg]))
            = Some (length x)) as ->.
    { clear -E. induction x as [|c x IHx]; simpl; [by rewrite E|]. by rewrite IHx. }
    replace (S (length x)) with (length x + 1)%nat by lia.
    rewrite <- drop_drop, drop_app_length. simpl. by rewrite drop_0.
Qed.

(** ** The checks, segment by segment *)

Lemma existsb_false {A} (p : A -> bool) l : existsb p l = false <-> Forall (fun x => p x = false) l.
Proof.
  induction l as [|x l IH]; simpl; [done|]. by rewrite orb_false_iff, IH, Forall_cons.
Qed.

Definition legal_char (c : Z) : Prop := 32 <= c /\ c ∉ illegal.

#[export] Instance legal_char_dec c : Decision (legal_char c).
Proof. unfold legal_char. apply _. Defined.

Lemma hasIllegalChars_false s :
  hasIllegalChars s = false <->
  Forall legal_char s /\ (forall c, last (base_name s) = Some c -> c <> DOT /\ c <> SPACE).
Proof.
  unfold hasIllegalChars. rewrite orb_false_iff, existsb_false. f_equiv.
  - apply Forall_iff. intros c. unfold legal_char.
    rewrite orb_false_iff, Z.ltb_ge, bool_decide_eq_false. done.
  - destruct (last (base_name s)) as [c|]; [|naive_solver].
    rewrite orb_false_iff, !Z.eqb_neq. split; [by intros ? ? [= <-]|intros Hc; by apply Hc].
Qed.

Lemma hasReservedName_false s :
  hasReservedName s = false <-> Forall (fun seg => device_base seg ∉ names) (getlines SLASH s).
Proof.
  unfold hasReservedName. rewrite existsb_false. apply Forall_iff.
  intros seg. by rewrite bool_decide_eq_false.
Qed.

Lemma legal_slash : legal_char SLASH.
Proof. decide_goal. Qed.

Lemma Forall_join (P : Z -> Prop) sep l :
  P sep -> Forall (Forall P) l <-> Forall P (join [sep] l).
Proof.
  intros Hsep.
  induction l as [|x l IH]; [done|]. destruct l as [|y l].
  - rewrite Forall_singleton. done.
  - change (join [sep] (x :: y :: l)) with (x ++ [sep] ++ join [sep] (y :: l)).
    rewrite Forall_cons, !Forall_app, Forall_singleton, IH. naive_solver.
Qed.

Lemma getlines_segs segs :
  Forall plain segs -> Forall (fun s => SLASH ∉ s) segs -> getlines SLASH (join [SLASH] segs) = segs.
Proof.
  intros Hp Hs. destruct segs as [|x segs]; [done|]. apply getlines_join; [|done].
  apply Forall_and. split; [done|]. eapply Forall_impl; [exact Hp|]. by intros ? [? _].
Qed.

(** What [normalizeRelative] guarantees when it returns true. *)
Lemma normalizeRelative_true inp out :
  normalizeRelative inp = (true, out) ->
  exists segs, out = join [SLASH] segs /\ safe_path segs /\ (length out <= 4096)%nat.
Proof.
  unfold normalizeRelative. set (s := replace_char BSLASH SLASH inp).
  destruct (bool_decide (inp = []) || _) eqn:E0; [done|].
  destruct (bool_decide (s !! 0%nat = _) || _) eqn:E1; [done|].
  destruct (bool_decide (NUL ∈ s)) eqn:Enul; [done|]. destruct (resolve _ _) as [segs|] eqn:Er; [|done].
  destruct (bool_decide (segs = [])) eqn:Esegs; [done|]. apply bool_decide_eq_false in Esegs.
  destruct (hasIllegalChars _ || _) eqn:E2; [done|]. intros [= <-].
  to_prop. exists segs. split; [done|].
  assert (Forall (fun f => plain f /\ (SLASH ∉ f /\ BSLASH ∉ f)) segs) as Hsegs.
  { eapply resolve_spec; [exact Er|done|]. apply Forall_forall. intros f Hf. split.
    - by eapply getlines_no_delim.
    - intros Hc. assert (BSLASH ∈ s) as Hb.
      { apply drop_last_empty_sub in Hf. by eapply fields_sub. }
      revert Hb. by apply replace_char_not_elem. }
  assert (Forall plain segs) as Hplain
    by (eapply Forall_impl; [exact Hsegs|]; by intros f (?&_)).
  assert (Forall (fun f => SLASH ∉ f) segs) as Hslash
    by (eapply Forall_impl; [exact Hsegs|]; by intros f (_&?&_)).
  rename select (hasIllegalChars _ = false) into Hi.
  rename select (hasReservedName _ = false) into Hr.
  apply hasIllegalChars_false in Hi as [Hi Hlast].
  apply hasReservedName_false in Hr. rewrite getlines_segs in Hr by done.
  assert (Forall (Forall legal_char) segs) as Hlegal
    by (by apply (Forall_join _ SLASH); [apply legal_slash|]).
  split; [split|].
  - done.
  - apply Forall_forall. intros f Hf. rewrite Forall_forall in Hsegs, Hr, Hlegal.
    destruct (Hsegs f Hf) as [(?&?&?) [? ?]]. split_and!; [done..| |by apply Hr].
    apply Forall_forall. intros c Hc. pose proof (Hlegal f Hf) as Hl.
    rewrite Forall_forall in Hl. destruct (Hl c Hc). split_and!; [done|done|naive_solver..].
  - intros l c Hl Hc. destruct segs as [|seg segs _] using rev_ind; [done|].
    rewrite last_snoc in Hl. simplify_eq.
    rewrite base_name_join in Hlast by (by apply Forall_app in Hslash as [_ [? _]%Forall_cons]).
    by apply Hlast.
  - pose proof (resolve_width _ _ _ Er) as Hw. pose proof (length_join SLASH segs Esegs).
    pose proof (width_drop_last_empty (fields SLASH s)). pose proof (width_fields SLASH s).
    assert (length s = length inp) by apply length_replace_char.
    unfold getlines in Hw. simpl in Hw. lia.
Qed.

(** ** A drive-like prefix is never accepted *)

Lemma fields_slash_prefix a : exists l pre, SLASH ∉ pre /\ forall x, fields SLASH (a ++ x) = l ++ fields SLASH (pre ++ x).
Proof.
  induction a as [|c a (l&pre&Hp&IH)]; [exists [], []; split; [apply not_elem_of_nil|done]|].
  destruct (decide (c = SLASH)) as [->|Hc].
  - exists ([] :: l), pre. split; [done|]. intros x. cbn [app fields]. by rewrite Z.eqb_refl, IH.
  - destruct l as [|f l].
    + exists [], (c :: pre). split; [by apply not_elem_of_cons|]. intros x. cbn [app fields].
      by rewrite (proj2 (Z.eqb_neq c SLASH)), IH.
    + exists ((c :: f) :: l), pre. split; [done|]. intros x. cbn [app fields].
      by rewrite (proj2 (Z.eqb_neq c SLASH)), IH.
Qed.

Lemma drop_last_empty_app l k : k <> [] -> drop_last_empty (l ++ k) = l ++ drop_last_empty k.
Proof.
  intros Hk. induction l as [|f l IH]; [done|]. cbn [app drop_last_empty]. rewrite IH.
  destruct (l ++ k) as [|y r] eqn:E; [|done]. apply app_nil in E as [_ ?]. done.
Qed.

Lemma resolve_app segs l k : resolve segs (l ++ k) = resolve segs l ≫= fun segs' => resolve segs' k.
Proof.
  revert segs. induction l as [|x l IH]; intros segs; [done|]. cbn [app resolve].
  destruct (resolve_seg segs x) as [segs'|]; cbn [mbind option_bind]; [apply IH|done].
Qed.

(** A text, a colon, and a normalized path: no such input is accepted. *)
Lemma normalizeRelative_colon a inp norm :
  normalizeRelative inp = (true, norm) -> (normalizeRelative (a ++ [COLON] ++ norm)).1 = false.
Proof.
  intros Hn. destruct (normalizeRelative_true _ _ Hn) as (segs&->&[Hne Hg _]&_).
  unfold normalizeRelative. set (s := replace_char BSLASH SLASH (a ++ [COLON] ++ join [SLASH] segs)).
  destruct (_ || _); [done|]. destruct (_ || _); [done|]. destruct (bool_decide _); [done|].
  destruct (resolve [] (getlines SLASH s)) as [out|] eqn:Er; [|done].
  destruct (bool_decide (out = [])); [done|].
  enough (hasIllegalChars (join [SLASH] out) = true) as -> by done.
  destruct segs as [|seg segs]; [done|]. apply Forall_cons in Hg as [Hseg Hg].
  assert (Forall (fun f => SLASH ∉ f /\ BSLASH ∉ f /\ plain f) (seg :: segs)) as Hall.
  { apply Forall_cons. assert (forall f, good_seg f -> SLASH ∉ f /\ BSLASH ∉ f /\ plain f) as Hgood.
    { intros f (?&?&?&Hc&_). rewrite Forall_forall in Hc.
      split_and!; [intros Hx; apply Hc in Hx; tauto..|done]. }
    split; [by apply Hgood|]. eapply Forall_impl; [exact Hg|]. exact Hgood. }
  destruct (fields_slash_prefix (replace_char BSLASH SLASH a)) as (l&pre&Hpre&Hf).
  set (x := pre ++ [COLON] ++ seg). assert (COLON ∈ x) as Hx by (apply elem_of_app; right; by left).
  assert (getlines SLASH s = l ++ x :: segs) as Eg.
  { unfold getlines, s. unfold replace_char at 1. rewrite !map_app. fold (replace_char BSLASH SLASH a).
    change (map _ [COLON]) with [COLON].
    fold (replace_char BSLASH SLASH (join [SLASH] (seg :: segs))).
    assert (BSLASH ∉ join [SLASH] (seg :: segs)) as Hb.
    { intros [Hin|(f&Hin&Hc)]%elem_of_join; [by apply list_elem_of_singleton in Hin|].
      rewrite Forall_forall in Hall. apply Hall in Hin. tauto. }
    rewrite (replace_char_id BSLASH SLASH _ Hb), Hf.
    assert (pre ++ [COLON] ++ join [SLASH] (seg :: segs) = join [SLASH] (x :: segs)) as ->.
    { unfold x. destruct segs; cbn [join]; by rewrite <- ?app_assoc. }
    rewrite fields_join.
    - rewrite drop_last_empty_app, drop_last_empty_id; [done| |done].
      apply Forall_cons in Hall as [_ Hall]. constructor; [by destruct pre|].
      eapply Forall_impl; [exact Hall|]. by intros f (_&_&?&_).
    - done.
    - apply Forall_cons in Hall as [(?&_&_) Hall]. constructor.
      + unfold x. rewrite !not_elem_of_app, not_elem_of_cons. split_and!; [done|done|apply not_elem_of_nil|done].
      + eapply Forall_impl; [exact Hall|]. by intros f (?&_&_). }
  rewrite Eg, resolve_app in Er. destruct (resolve [] l) as [segs0|]; [|done]. cbn [mbind option_bind] in Er.
  rewrite resolve_plain in Er.
  - injection Er as <-. unfold hasIllegalChars. apply orb_true_iff. left. apply existsb_exists. exists COLON.
    split; [|done]. apply list_elem_of_In. eapply elem_of_join_field; [|exact Hx]. apply elem_of_app. right. by left.
  - apply Forall_cons in Hall as [_ Hall]. constructor.
    + unfold plain. split_and!; intros E; rewrite E in Hx; revert Hx; decide_goal.
    + eapply Forall_impl; [exact Hall|]. by intros f (_&_&?).
Qed.

(** Conversely, every safe path of at most 4096 bytes is accepted unchanged. *)
Lemma normalizeRelative_safe segs :
  safe_path segs -> (length (join [SLASH] segs) <= 4096)%nat ->
  normalizeRelative (join [SLASH] segs) = (true, join [SLASH] segs).
Proof.
  intros [Hne Hgood Hlast] Hlen. set (s := join [SLASH] segs) in *.
  assert (Forall plain segs) as Hplain
    by (eapply Forall_impl; [exact Hgood|]; intros f (?&?&?&_); done).
  assert (Forall (Forall (fun c => 32 <= c /\ c ∉ illegal /\ c <> SLASH /\ c <> BSLASH)) segs) as Hc
    by (eapply Forall_impl; [exact Hgood|]; intros f (_&_&_&?&_); done).
  assert (Forall (fun f => SLASH ∉ f) segs) as Hslash.
  { eapply Forall_impl; [exact Hc|]. simpl. intros f Hf Hin. rewrite Forall_forall in Hf.
    naive_solver. }
  assert (Forall (fun c => legal_char c /\ c <> BSLASH) s) as Hs.
  { apply (Forall_join _ SLASH); [split; [apply legal_slash|done]|].
    eapply Forall_impl; [exact Hc|]. simpl. intros f Hf. eapply Forall_impl; [exact Hf|].
      simpl. unfold legal_char. tauto. }
  assert (replace_char BSLASH SLASH s = s) as Erep.
  { apply replace_char_id. intros Hin. rewrite Forall_forall in Hs. by apply Hs in Hin as [_ ?]. }
  assert (s !! 0%nat <> Some SLASH) as H0.
  { destruct segs as [|[|c x] segs]; [done| |]; apply Forall_cons in Hplain as [[? _] _];
      [done|]. apply Forall_cons in Hslash as [Hsl _]. subst s. intros E.
    assert (c = SLASH) by (destruct segs; simpl in E; congruence). subst c.
    apply Hsl. by left. }
  assert (s !! 1%nat <> Some COLON) as H1.
  { intros E%list_elem_of_lookup_2. rewrite Forall_forall in Hs. apply Hs in E as [[_ E] _].
    apply E. decide_goal. }
  assert (NUL ∉ s) as H2.
  { intros E. rewrite Forall_forall in Hs. apply Hs in E as [[E _] _]. lia. }
  assert (s <> []) as H3.
  { intros E. pose proof (length_join SLASH segs Hne) as Hj. fold s in Hj. rewrite E in Hj.
    destruct segs as [|[|c x] segs]; [done|apply Forall_cons in Hplain as [[? _] _]; done|].
    unfold width in Hj. simpl in Hj. lia. }
  unfold normalizeRelative. rewrite Erep, !bool_decide_false by done.
  rewrite (proj2 (Z.ltb_ge _ _)) by lia. cbn [orb].
  unfold s at 1. rewrite getlines_segs, resolve_plain by done. cbn [app].
  rewrite bool_decide_false by done. fold s.
  assert (hasIllegalChars s = false) as ->.
  { apply hasIllegalChars_false. split; [eapply Forall_impl; [exact Hs|]; by intros ? []|].
    intros c Hcl. destruct segs as [|seg segs _] using rev_ind; [done|].
    apply Forall_app in Hslash as [_ [Hsl _]%Forall_cons].
    unfold s in Hcl. rewrite base_name_join in Hcl by done.
    by apply (Hlast seg); [rewrite last_snoc|]. }
  assert (hasReservedName s = false) as ->; [|done].
  apply hasReservedName_false. unfold s. rewrite getlines_segs by done.
  eapply Forall_impl; [exact Hgood|]. by intros f (_&_&_&_&?).
Qed.

(** ** Wide paths *)

Section wide.
Context `{Win32TextLaws}.

Lemma wlower_app a b : wlower (a ++ b) = wlower a ++ wlower b.
Proof. unfold wlower, replace_char. by rewrite !map_app. Qed.

Lemma length_wlower s : length (wlower s) = length s.
Proof. unfold wlower, replace_char. by rewrite !length_map. Qed.

Lemma wlower_sep : wlower [BSLASH] = [BSLASH].
Proof. unfold wlower. simpl. by rewrite (proj2 (towlower_sep BSLASH) eq_refl). Qed.

(** The trimmed, lower-cased form in which roots are compared. *)
Definition key (root : wstr) : wstr := trim_right (Z.eqb BSLASH) (wlower root).

Lemma isInsideRoot_spec root p :
  isInsideRoot root p = true <->
  wlower p = key root \/ exists rest, wlower p = key root ++ BSLASH :: rest.
Proof.
  unfold isInsideRoot. fold (key root). case_bool_decide as E1; [naive_solver|].
  case_decide as E2.
  { split; [done|]. intros [?|(rest&E)]; [done|]. rewrite E, length_app in E2. simpl in E2. lia. }
  rewrite andb_true_iff, !bool_decide_eq_true. split.
  - intros [Ht Hl]. right. exists (drop (S (length (key root))) (wlower p)).
    rewrite <- (take_drop (length (key root)) (wlower p)) at 1. rewrite Ht. f_equal.
    by apply drop_S.
  - intros [?|(rest&E)]; [done|]. rewrite E. by rewrite take_app_length, list_lookup_middle.
Qed.

(** [wlower] character by character. *)
Definition wlower_char (c : Z) : Z := if towlower c =? SLASH then BSLASH else towlower c.

Lemma wlower_map s : wlower s = map wlower_char s.
Proof. unfold wlower, replace_char, wlower_char. by rewrite map_map. Qed.

Lemma wlower_char_sep c : (BSLASH =? wlower_char c) = ((c =? BSLASH) || (c =? SLASH)).
Proof.
  unfold wlower_char. pose proof (towlower_sep c). pose proof (towlower_slash c).
  destruct (Z.eqb_spec (towlower c) SLASH), (Z.eqb_spec c BSLASH), (Z.eqb_spec c SLASH);
    cbn [orb]; try reflexivity;
    rewrite ?(Z.eqb_sym BSLASH (towlower c)); try (exfalso; intuition congruence); (apply Z.eqb_neq; intuition congruence) || (apply Z.eqb_eq; intuition congruence).
Qed.

Lemma trim_left_map p q (f : Z -> Z) s :
  (forall c, q (f c) = p c) -> trim_left q (map f s) = map f (trim_left p s).
Proof. intros Hf. induction s as [|c s IH]; simpl; [done|]. rewrite Hf. by destruct (p c). Qed.

Lemma trim_right_map p q (f : Z -> Z) s :
  (forall c, q (f c) = p c) -> trim_right q (map f s) = map f (trim_right p s).
Proof.
  intros Hf. unfold trim_right.
  assert (forall l, reverse (map f l) = map f (reverse l)) as Hr
    by (intros l; symmetry; apply (fmap_reverse f)).
  by rewrite Hr, (trim_left_map p q f), Hr.
Qed.

Definition is_sep (c : Z) : bool := (c =? BSLASH) || (c =? SLASH).

Lemma key_trim root : key root = wlower (trim_right is_sep root).
Proof. unfold key. rewrite !wlower_map. apply trim_right_map, wlower_char_sep. Qed.

(** The containment check of [joinInsideRoot] never fails. *)
Lemma isInsideRoot_join root w :
  let troot := trim_right is_sep root in
  isInsideRoot root (troot ++ [BSLASH] ++ w) = true /\
  isInsideRoot troot (troot ++ [BSLASH] ++ w) = true.
Proof.
  intros troot. rewrite !isInsideRoot_spec, !key_trim. unfold troot.
  rewrite trim_right_idemp, !wlower_app, wlower_sep. split; right; by eexists.
Qed.

(** Conversion segment by segment. *)
Lemma mbtowc_join segs w :
  segs <> [] -> MultiByteToWideChar (join [SLASH] segs) = Some w ->
  exists ws, Forall2 (fun s v => MultiByteToWideChar s = Some v) segs ws /\ w = join [SLASH] ws.
Proof.
  revert w. induction segs as [|x segs IH]; [done|]. intros w _. destruct segs as [|y segs].
  - intros E. exists [w]. split; [by repeat constructor|done].
  - change (join [SLASH] (x :: y :: segs)) with (x ++ SLASH :: join [SLASH] (y :: segs)).
    rewrite mbtowc_split by lia. destruct (MultiByteToWideChar x) as [wx|] eqn:Ex; [|done].
    destruct (MultiByteToWideChar (join _ _)) as [wr|] eqn:Er; [|done]. intros [= <-].
    destruct (IH wr ltac:(done) eq_refl) as (ws&Hws&->).
    exists (wx :: ws). split; [by constructor|]. inversion Hws; subst. done.
Qed.

Lemma replace_join a b ws :
  Forall (fun w => a ∉ w) ws -> replace_char a b (join [a] ws) = join [b] ws.
Proof.
  induction 1 as [|w ws Hw Hws IH]; [done|]. destruct ws as [|v ws].
  - by apply replace_char_id.
  - change (join [a] (w :: v :: ws)) with (w ++ a :: join [a] (v :: ws)).
    assert (forall x y, replace_char a b (x ++ a :: y) = replace_char a b x ++ b :: replace_char a b y)
      as Happ by (intros x y; unfold replace_char; rewrite map_app; simpl; by rewrite Z.eqb_refl).
    by rewrite Happ, IH, replace_char_id.
Qed.

(** A component of an absolute Windows path that names a file or directory. *)
Definition good_wseg (w : wstr) : Prop :=
  w <> [] /\ w <> [DOT] /\ w <> [DOT; DOT] /\ SLASH ∉ w /\ BSLASH ∉ w /\ COLON ∉ w /\ NUL ∉ w.

Lemma good_seg_wide s w : good_seg s -> MultiByteToWideChar s = Some w -> good_wseg w.
Proof.
  intros (H1&H2&H3&Hc&_) E. rewrite Forall_forall in Hc.
  assert (forall v, ascii_str v -> s <> v -> w <> v) as Hne.
  { intros v Hv Hs ->. apply wctomb_mbtowc in E.
    pose proof (wctomb_mbtowc _ _ (mbtowc_ascii v Hv)). congruence. }
  assert (forall c, 0 <= c < 128 -> c ∉ s -> c ∉ w) as Hnc
    by (intros c Hcr Hs Hw; by eapply Hs, mbtowc_ascii_unit).
  split_and!; try (apply Hne; [decide_goal|done]); apply Hnc; try lia; intros Hin;
    destruct (Hc _ Hin) as (L&I&?&?); first [done|lia|apply I; decide_goal].
Qed.

Lemma key_idemp root : trim_right (Z.eqb BSLASH) (key root) = key root.
Proof. apply trim_right_idemp. Qed.

Lemma isInsideRoot_refl root : isInsideRoot root root = true.
Proof.
  apply isInsideRoot_spec. unfold key.
  destruct (trim_right_spec (Z.eqb BSLASH) (wlower root)) as (t&E&Ht&_).
  destruct t as [|c t]; [left; by rewrite app_nil_r in E|right].
  apply Forall_cons in Ht as [<-%Z.eqb_eq _]. by exists t.
Qed.

(** The key of a path inside a root is the root's key, or continues it. *)
Lemma isInsideRoot_key root p :
  isInsideRoot root p = true ->
  key p = key root \/ exists rest, key p = key root ++ BSLASH :: rest.
Proof.
  intros [E|(rest&E)]%isInsideRoot_spec; unfold key at 1 3; rewrite E.
  - left. apply key_idemp.
  - rewrite trim_right_app by apply key_idemp.
    destruct (trim_right_spec (Z.eqb BSLASH) (BSLASH :: rest)) as (t&E'&_).
    destruct (trim_right _ (BSLASH :: rest)) as [|c r]; [left; by rewrite app_nil_r|].
    injection E' as <- _. right. by exists r.
Qed.

Lemma isInsideRoot_trans root p q :
  isInsideRoot root p = true -> isInsideRoot p q = true -> isInsideRoot root q = true.
Proof.
  intros H1%isInsideRoot_key H2%isInsideRoot_spec. apply isInsideRoot_spec.
  destruct H1 as [E1|(r1&E1)], H2 as [E2|(r2&E2)]; rewrite E1 in E2; eauto.
  right. rewrite <- app_assoc in E2. simpl in E2. by eexists.
Qed.

Lemma key_trailing root : key (root ++ [BSLASH]) = key root.
Proof.
  unfold key. rewrite wlower_app, wlower_sep. unfold trim_right. by rewrite reverse_snoc.
Qed.

End wide.

End PathUtilFacts.

(** * The claims *)

Module PathUtilSpec.
Import PathUtil PathUtilFacts.

(** C7: what [normalizeRelative] lets through is a safe relative path, and
    exactly those: a true result is one or more segments joined by single
    slashes, none of them empty, dot or dot-dot, free of control characters,
    colons, backslashes and the other characters Windows forbids, none with a
    reserved device name, the last one not ending in a dot or space, at most
    4096 bytes in all; and every such path is accepted as it is, so the
    function is idempotent. *)
Theorem normalizeRelative_safe_paths (inp : str) :
  (forall out, normalizeRelative inp = (true, out) ->
     (exists segs, out = join [SLASH] segs /\ safe_path segs) /\ (length out <= 4096)%nat /\
     normalizeRelative out = (true, out)) /\
  (forall segs, safe_path segs -> (length (join [SLASH] segs) <= 4096)%nat ->
     normalizeRelative (join [SLASH] segs) = (true, join [SLASH] segs)).
Proof.
  split; [|apply normalizeRelative_safe].
  intros out (segs&->&Hs&Hl)%normalizeRelative_true. split_and!; [by exists segs|done|].
  by apply normalizeRelative_safe.
Qed.

Lemma normalizeRelative_safe_paths_witness :
  normalizeRelative (lit "./docs\\a/../My Note.md") = (true, lit "docs/My Note.md") /\
  normalizeRelative (lit "docs/My Note.md") = (true, lit "docs/My Note.md").
Proof.
  assert (normalizeRelative (lit "./docs\\a/../My Note.md") = (true, lit "docs/My Note.md")) as E
    by (vm_compute; reflexivity).
  split; [exact E|].
  by apply (normalizeRelative_safe_paths (lit "./docs\\a/../My Note.md")).
Defined.

(** Height above the root after a run of segments. *)
Definition seg_height (seg : str) : Z :=
  if bool_decide (seg = [DOT; DOT]) then -1
  else if bool_decide (seg = [] \/ seg = [DOT]) then 0 else 1.

Fixpoint height (l : list str) : Z :=
  match l with [] => 0 | seg :: l' => seg_height seg + height l' end.

Lemma resolve_seg_height segs seg :
  match resolve_seg segs seg with
  | Some segs' => Z.of_nat (length segs') = Z.of_nat (length segs) + seg_height seg
  | None => Z.of_nat (length segs) + seg_height seg < 0
  end.
Proof.
  unfold resolve_seg, seg_height. case_bool_decide as E1.
  { rewrite bool_decide_false by naive_solver. lia. }
  case_bool_decide as E2; [|rewrite length_app; simpl; lia].
  case_bool_decide as E3; [subst; simpl; lia|].
  destruct segs as [|x segs _] using rev_ind; [done|]. rewrite removelast_last, length_app. simpl. lia.
Qed.

Lemma resolve_height l segs :
  resolve segs l = None <->
  exists l1 l2, l = l1 ++ l2 /\ Z.of_nat (length segs) + height l1 < 0.
Proof.
  revert segs. induction l as [|x l IH]; intros segs; cbn [resolve].
  - split; [done|]. intros (l1&l2&E&H). symmetry in E. apply app_nil in E as [-> _]. simpl in H. lia.
  - pose proof (resolve_seg_height segs x) as Hx. destruct (resolve_seg segs x) as [segs1|]; simpl.
    + rewrite IH. split; intros (l1&l2&E&H).
      * exists (x :: l1), l2. split; [by rewrite E|]. cbn [height]. lia.
      * destruct l1 as [|y l1]; [simpl in H; lia|]. injection E as <- E.
        exists l1, l2. split; [done|]. cbn [height] in H. lia.
    + split; [|done]. intros _. exists [x], l. split; [done|]. cbn [height]. lia.
Qed.

(** What [normalizeRelative] refuses: the empty path, paths over 4096
    bytes, paths that start with a slash or backslash, drive letters, NUL
    bytes, and every path some prefix of which climbs above the root; a
    backslash and a slash are the same separator. *)
Theorem normalizeRelative_rejects (inp : str) :
  let s := replace_char BSLASH SLASH inp in
  normalizeRelative s = normalizeRelative inp /\
  (inp = [] \/ (4096 < length inp)%nat \/ s !! 0%nat = Some SLASH \/ s !! 1%nat = Some COLON \/
   NUL ∈ s \/ (exists l1 l2, getlines SLASH s = l1 ++ l2 /\ height l1 < 0) ->
   (normalizeRelative inp).1 = false).
Proof.
  intros s.
  assert (replace_char BSLASH SLASH s = s) as Es
    by (apply replace_char_id; by apply replace_char_not_elem).
  split.
  - unfold normalizeRelative. rewrite Es. fold s.
    assert (length s = length inp) as -> by apply length_replace_char.
    by rewrite (bool_decide_ext (s = []) (inp = [])) by (unfold s; by destruct inp).
  - intros H. unfold normalizeRelative. fold s.
    destruct (_ || _) eqn:E1; [done|]. destruct (bool_decide (s !! 0%nat = _) || _) eqn:E2; [done|].
    destruct (bool_decide (NUL ∈ s)) eqn:E3; [done|]. to_prop.
    rewrite !bool_decide_eq_false in *.
    assert (exists l1 l2, getlines SLASH s = l1 ++ l2 /\ height l1 < 0) as Hh
      by (destruct H as [?|[?|[?|[?|[?|?]]]]]; done || lia).
    by rewrite (proj2 (resolve_height _ [])) by exact Hh.
Qed.

Lemma normalizeRelative_rejects_witness :
  normalizeRelative (lit "a/../../b") = (false, []) /\
  (normalizeRelative (lit "a\..\..\b")).1 = false.
Proof.
  split; [vm_compute; reflexivity|].
  apply (normalizeRelative_rejects (lit "a\..\..\b")). do 5 right.
  exists [lit "a"; lit ".."; lit ".."], [lit "b"]. split; [vm_compute; reflexivity|decide_goal].
Defined.

Section inside.
Context `{Win32TextLaws}.

(** [isInsideRoot] is containment of directories: a path is inside a
    root exactly when, compared without case and with either separator, it is
    the root or continues it with a separator (so C:\notes2 is not inside
    C:\notes); it is reflexive and transitive, and trailing separators of the
    root do not matter. *)
Theorem isInsideRoot_containment (root p q : wstr) :
  (isInsideRoot root p = true <->
     wlower p = key root \/ exists rest, wlower p = key root ++ BSLASH :: rest) /\
  isInsideRoot root root = true /\
  (isInsideRoot root p = true -> isInsideRoot p q = true -> isInsideRoot root q = true) /\
  isInsideRoot (root ++ [BSLASH]) p = isInsideRoot root p.
Proof.
  split_and!.
  - apply isInsideRoot_spec.
  - apply isInsideRoot_refl.
  - apply isInsideRoot_trans.
  - apply eq_true_iff_eq. by rewrite !isInsideRoot_spec, key_trailing.
Qed.

(** [joinInsideRoot] never leaves the root. It fails exactly when
    [normalizeRelative] refuses the relative path; otherwise the result is the
    trimmed root, a backslash and a relative part, it is inside the root, and
    when the relative path is well-formed UTF-8 every component of that part
    is a proper name (no dot, dot-dot, colon, separator or NUL), so no
    component climbs out of the root or names a stream or device root. A path
    that is not well-formed UTF-8 gives the root itself with a trailing
    backslash, with the result true. *)
Theorem joinInsideRoot_contained (root : wstr) (rel : str) :
  (joinInsideRoot root rel = None <-> (normalizeRelative rel).1 = false) /\
  forall full, joinInsideRoot root rel = Some full ->
    let troot := trim_right is_sep root in
    let w := MultiByteToWideChar (normalizeRelative rel).2 in
    isInsideRoot root full = true /\
    match w with
    | Some _ => exists ws, ws <> [] /\ Forall good_wseg ws /\ full = troot ++ [BSLASH] ++ join [BSLASH] ws
    | None => full = troot ++ [BSLASH]
    end.
Proof.
  unfold joinInsideRoot. destruct (normalizeRelative rel) as [[|] out] eqn:En; cbn [negb fst snd].
  2:{ split; [done|]. by intros full. }
  fold is_sep. set (w := replace_char SLASH BSLASH (utf8ToWide out)).
  destruct (isInsideRoot_join root w) as [H1 H2]. fold is_sep in *. rewrite H2.
  split; [done|]. intros full [= <-]. split; [exact H1|].
  destruct (normalizeRelative_true _ _ En) as (segs&->&[Hne Hg _]&_).
  assert (join [SLASH] segs <> []) as Hj.
  { intros E. pose proof (length_join SLASH segs Hne) as Hl. rewrite E in Hl.
    destruct segs as [|s segs]; [done|]. apply Forall_cons in Hg as [[Hs _] _].
    destruct s; [done|]. unfold width in Hl. simpl in Hl. lia. }
  unfold w, utf8ToWide. rewrite bool_decide_false by done.
  destruct (MultiByteToWideChar (join [SLASH] segs)) as [v|] eqn:Ev; [|done].
  destruct (mbtowc_join _ _ Hne Ev) as (ws&Hws&->).
  assert (Forall good_wseg ws) as Hgw.
  { clear -Hws Hg H0. induction Hws as [|s v segs ws Hsv _ IH]; [done|].
    apply Forall_cons in Hg as [Hs Hg]. constructor; [by eapply good_seg_wide|auto]. }
  exists ws. split_and!; [by intros ->; inversion Hws; subst|done|].
  simpl. rewrite replace_join; [done|].
  eapply Forall_impl; [exact Hgw|]. unfold good_wseg. tauto.
Qed.

End inside.

Lemma isInsideRoot_containment_witness :
  @isInsideRoot ascii_text (lit "C:\Notes") (lit "c:/notes/a.md") = true /\
  @isInsideRoot ascii_text (lit "C:\Notes") (lit "C:\notes2\a.md") = false /\
  @isInsideRoot ascii_text (lit "C:\Notes\") (lit "C:\NOTES") = true.
Proof.
  split; [vm_compute; reflexivity|]. split; [vm_compute; reflexivity|].
  destruct (@isInsideRoot_containment ascii_text ascii_text_laws (lit "C:\Notes") (lit "C:\NOTES")
    (lit "C:\NOTES")) as (_&_&_&E). refine (eq_trans E _). vm_compute. reflexivity.
Defined.

Lemma joinInsideRoot_contained_witness :
  @joinInsideRoot ascii_text (lit "C:\Notes\") (lit "sub/../a/b.md") = Some (lit "C:\Notes\a\b.md") /\
  @isInsideRoot ascii_text (lit "C:\Notes\") (lit "C:\Notes\a\b.md") = true /\
  @joinInsideRoot ascii_text (lit "C:\Notes") (lit "..\evil") = None.
Proof.
  split; [vm_compute; reflexivity|]. split.
  - refine (proj1 (proj2 (@joinInsideRoot_contained ascii_text ascii_text_laws (lit "C:\Notes\")
      (lit "sub/../a/b.md")) (lit "C:\Notes\a\b.md") _)). vm_compute. reflexivity.
  - refine (proj2 (proj1 (@joinInsideRoot_contained ascii_text ascii_text_laws (lit "C:\Notes")
      (lit "..\evil"))) _). vm_compute. reflexivity.
Defined.

End PathUtilSpec.
