(* ===== verification/IgnoreRules.v ===== *)
(** * IgnoreRules: core/IgnoreRules.cpp, exclusion patterns of a sync root

    [rules_] is the list of parsed rules. The glob matcher is the loop of
    [globMatch] with its five variables; indices are [nat], [npos] is [None],
    and running out of fuel is [None], which [glob_loop_total] excludes. [means]
    is what the documentation says a pattern means, [matches] the wider language
    that the loop follows. *)
From S2P Require Import Prelude Text.

Module IgnoreRules.

Record Rule := MkRule { pattern : str; negate : bool; dirOnly : bool; anchored : bool }.

#[export] Instance Rule_eq_dec : EqDecision Rule.
Proof. solve_decision. Defined.

(** The anonymous-namespace [lower] and [trim]. *)
Definition lower (s : str) : str := map tolower s.

Definition is_blank (c : Z) : bool := (c =? SPACE) || (c =? TAB) || (c =? CR).

Definition trim (s : str) : str := trim_right is_blank (trim_left is_blank s).

(** One line of [parse]; [None] is [continue]. *)
Definition parse_line (l : str) : option Rule :=
  let line := trim l in
  if bool_decide (line = [] \/ line !! 0%nat = Some HASH) then None
  else
    let neg := bool_decide (line !! 0%nat = Some BANG) in
    let line := if neg then trim (drop 1 line) else line in
    if bool_decide (line = []) then None
    else
      let dir := bool_decide (last line = Some SLASH) in
      let line := if dir then removelast line else line in
      let anch := bool_decide (line !! 0%nat = Some SLASH) in
      let line := if anch then drop 1 line else line in
      if bool_decide (line = []) then None else Some (MkRule (lower line) neg dir anch).

Definition parse (text : str) : list Rule := omap parse_line (getlines LF text).

(** ** [globMatch] *)

Record Glob := MkGlob {
  g_p : nat; g_s : nat;
  g_starP : option nat; g_starS : nat;
  g_double : bool
}.

(** What one round of the [while (s < str.size())] loop does. *)
Inductive Round := Continue (g : Glob) | Return (b : bool).

(** [(pat[p] == '?' || pat[p] == str[s])]. *)
Definition char_match (pc sc : Z) : bool := (pc =? QMARK) || (pc =? sc).

Definition glob_round (pat str : str) (g : Glob) (c : Z) : Round :=
  let backtrack :=
    match g_starP g with
    | None => Return false
    | Some starP =>
        if negb (g_double g) && bool_decide (str !! g_starS g = Some SLASH) then Return false
        else
          let starS := S (g_starS g) in
          let p := if g_double g && bool_decide (pat !! (starP + 2)%nat = Some SLASH)
                   then (starP + 3)%nat
                   else (starP + (if g_double g then 2 else 1))%nat in
          Continue (MkGlob p starS (Some starP) starS (g_double g))
    end in
  match pat !! g_p g with
  | Some pc =>
      if char_match pc c
      then Continue (MkGlob (S (g_p g)) (S (g_s g)) (g_starP g) (g_starS g) (g_double g))
      else if pc =? STAR then
        if bool_decide (pat !! S (g_p g) = Some STAR) then
          let p := (g_p g + 2)%nat in
          Continue (MkGlob (if bool_decide (pat !! p = Some SLASH) then S p else p) (g_s g)
                      (Some (g_p g)) (g_s g) true)
        else Continue (MkGlob (S (g_p g)) (g_s g) (Some (g_p g)) (g_s g) false)
      else backtrack
  | None => backtrack
  end.

(** After the loop: the rest of the pattern is stars. *)
Definition only_stars (pat : str) : bool := forallb (Z.eqb STAR) pat.

Fixpoint glob_loop (fuel : nat) (pat str : str) (g : Glob) : option bool :=
  match str !! g_s g with
  | None => Some (only_stars (drop (g_p g) pat))
  | Some c =>
      match fuel with
      | O => None
      | S fuel' =>
          match glob_round pat str g c with
          | Return b => Some b
          | Continue g' => glob_loop fuel' pat str g'
          end
      end
  end.

Definition glob_fuel (pat str : str) : nat := S (length str) * S (length pat).

Definition glob_init : Glob := MkGlob 0 0 None 0 false.

Definition globMatch (pat str : str) : bool :=
  default false (glob_loop (glob_fuel pat str) pat str glob_init).

(** ** Rules *)

(** The proper directory prefixes of a path: cut at every slash. *)
Fixpoint prefixes (seen rest : str) : list str :=
  match rest with
  | [] => []
  | c :: rest' =>
      if c =? SLASH then seen :: prefixes (seen ++ [c]) rest' else prefixes (seen ++ [c]) rest'
  end.

Definition candidates (relPath : str) : list str := relPath :: prefixes [] relPath.

Definition base_of (cand : str) : str :=
  match find_last (Z.eqb SLASH) cand with None => cand | Some slash => drop (S slash) cand end.

(** The body of the loop over the candidates. *)
Definition match_cand (r : Rule) (relPath : str) (isDir : bool) (cand : str) : bool :=
  let candIsDir := negb (bool_decide (cand = relPath)) || isDir in
  if dirOnly r && negb candIsDir then false
  else if anchored r || bool_decide (SLASH ∈ pattern r)
  then globMatch (pattern r) cand
  else globMatch (pattern r) (base_of cand).

Definition matchRule (r : Rule) (relPath : str) (isDir : bool) : bool :=
  existsb (match_cand r relPath isDir) (candidates relPath).

Definition ignored (rules : list Rule) (relPath : str) (isDir : bool) : bool :=
  let p := replace_char BSLASH SLASH (lower relPath) in
  fold_left (fun result r => if matchRule r p isDir then negb (negate r) else result) rules false.

End IgnoreRules.

(** * What a pattern means, and what the loop takes it to mean *)

Module IgnoreRulesFacts.
Import IgnoreRules.

(** ** The documented meaning

    IgnoreRules.h and the user guide promise a subset of the syntax of
    .gitignore: a star stands for any run without a slash, a question mark for
    one character that is no slash; two stars at the start of a segment stand
    for any number of path segments, so that with the slash behind them they
    take whole segments, each with its slash, and at the end of the pattern
    everything that is left; two stars elsewhere are two single stars; any
    other character stands for itself. [start] says that the pattern is at the
    start of a segment. *)

(** The places where a text can be cut. *)
Definition cuts (s : str) : list nat := seq 0 (S (length s)).

(** A cut in front of a segment: at the start or behind a slash. *)
Definition at_segment (s : str) (i : nat) : bool :=
  match i with O => true | S j => bool_decide (s !! j = Some SLASH) end.

Definition no_slash (s : str) : bool := forallb (fun c => negb (c =? SLASH)) s.

Fixpoint means (start : bool) (p s : str) : bool :=
  match p with
  | [] => bool_decide (s = [])
  | c :: p1 =>
      if c =? STAR then
        let single := existsb (fun i => no_slash (take i s) && means false p1 (drop i s)) (cuts s) in
        match p1 with
        | [] => single
        | d :: p2 =>
            if start && (d =? STAR) then
              match p2 with
              | [] => true
              | e :: p3 =>
                  if e =? SLASH
                  then existsb (fun i => at_segment s i && means true p3 (drop i s)) (cuts s)
                  else single
              end
            else single
        end
      else
        match s with
        | [] => false
        | x :: s' => (if c =? QMARK then negb (x =? SLASH) else c =? x) && means (c =? SLASH) p1 s'
        end
  end.

(** ** The loop's meaning, which is wider

    A question mark takes a slash too, and two stars, with a slash behind them
    or not, take any run, whole segments or not. *)
Inductive matches : str -> str -> Prop :=
  | m_nil : matches [] []
  | m_any p c s : matches p s -> matches (QMARK :: p) (c :: s)
  | m_char p c s : c <> STAR -> matches p s -> matches (c :: p) (c :: s)
  | m_star p a s : SLASH ∉ a -> matches p s -> matches (STAR :: p) (a ++ s)
  | m_double p a s : matches p s -> matches (STAR :: STAR :: p) (a ++ s)
  | m_double_slash p a s : matches p s -> matches (STAR :: STAR :: SLASH :: p) (a ++ s).

(** ** Soundness of the loop *)

(** The pattern position the loop resumes at after a star at [starP]. *)
Definition after_star (pat : str) (starP : nat) (double : bool) : nat :=
  if double && bool_decide (pat !! (starP + 2)%nat = Some SLASH) then (starP + 3)%nat
  else (starP + (if double then 2 else 1))%nat.

(** What is left to match from the current position proves the whole match, and
    so does what is left after the last star, from any later point it reaches. *)
Record sound_at (pat str : str) (g : Glob) : Prop := {
  sa_here : matches (drop (g_p g) pat) (drop (g_s g) str) -> matches pat str;
  sa_star : forall starP, g_starP g = Some starP -> forall a rest,
    drop (g_starS g) str = a ++ rest -> (g_double g = false -> SLASH ∉ a) ->
    matches (drop (after_star pat starP (g_double g)) pat) rest -> matches pat str
}.

Lemma matches_char pc c p s :
  char_match pc c = true -> matches p s -> matches (pc :: p) (c :: s).
Proof.
  unfold char_match. intros [->%Z.eqb_eq | ->%Z.eqb_eq]%orb_true_iff Hm; [by constructor|].
  destruct (decide (c = STAR)) as [->|]; [|by constructor].
  apply (m_star p [STAR] s); [decide_goal|done].
Qed.

(** A star at [p], and what may follow the text it takes. *)
Lemma matches_after pat p double a rest :
  pat !! p = Some STAR -> (double = true -> pat !! S p = Some STAR) ->
  (double = false -> SLASH ∉ a) ->
  matches (drop (after_star pat p double) pat) rest -> matches (drop p pat) (a ++ rest).
Proof.
  intros Hp Hd Ha. unfold after_star. rewrite (drop_S _ _ _ Hp).
  destruct double; cbn [andb].
  - specialize (Hd eq_refl). rewrite (drop_S _ _ _ Hd). case_bool_decide as Es.
    + replace (p + 2)%nat with (S (S p)) in Es by lia. rewrite (drop_S _ _ _ Es).
      replace (p + 3)%nat with (S (S (S p))) by lia. by constructor.
    + replace (p + 2)%nat with (S (S p)) by lia. by constructor.
  - replace (p + 1)%nat with (S p) by lia. constructor; auto.
Qed.

Lemma glob_round_sound pat str g c :
  sound_at pat str g -> str !! g_s g = Some c ->
  match glob_round pat str g c with
  | Continue g' => sound_at pat str g'
  | Return b => b = false
  end.
Proof.
  intros [Hh Hs] Hc. unfold glob_round.
  match goal with |- context [match g_starP g with None => ?x | Some q => @?y q end] =>
    assert (match (match g_starP g with None => x | Some q => y q end) with
            | Continue g' => sound_at pat str g' | Return b => b = false end) as Hback end.
  { destruct (g_starP g) as [starP|] eqn:Estar; [|done].
    destruct (negb (g_double g) && _) eqn:Eb; [done|].
    assert (forall a rest, drop (S (g_starS g)) str = a ++ rest -> (g_double g = false -> SLASH ∉ a) ->
      matches (drop (after_star pat starP (g_double g)) pat) rest -> matches pat str) as Hnext.
    { intros a rest Ed Ha Hm. destruct (str !! g_starS g) as [d|] eqn:Ed0.
      - apply (Hs starP eq_refl (d :: a) rest); [by rewrite (drop_S _ _ _ Ed0), Ed| |done].
        intros Hd. rewrite Hd in Eb. cbn [negb andb] in Eb. apply bool_decide_eq_false in Eb.
        apply not_elem_of_cons. split; [congruence|auto].
      - apply lookup_ge_None in Ed0.
        assert (drop (g_starS g) str = []) as E0 by (apply drop_ge; lia).
        rewrite drop_ge in Ed by lia. symmetry in Ed. apply app_nil in Ed as [-> ->].
        apply (Hs starP eq_refl [] []); [by rewrite E0|intros _; apply not_elem_of_nil|done]. }
    split; cbn [g_p g_s g_starP g_starS g_double].
    - intros Hm. apply (Hnext [] (drop (S (g_starS g)) str)); [done|intros _; apply not_elem_of_nil|].
      exact Hm.
    - intros ? [= <-]. exact Hnext. }
  destruct (pat !! g_p g) as [pc|] eqn:Ep; [|exact Hback].
  destruct (char_match pc c) eqn:Ecm; [|destruct (Z.eqb_spec pc STAR) as [->|]; [|exact Hback]].
  - split; cbn [g_p g_s g_starP g_starS g_double]; [|exact Hs].
    intros Hm. apply Hh. rewrite (drop_S _ _ _ Ep), (drop_S _ _ _ Hc). by apply matches_char.
  - assert (forall dbl, (dbl = true -> pat !! S (g_p g) = Some STAR) ->
      sound_at pat str (MkGlob (after_star pat (g_p g) dbl) (g_s g) (Some (g_p g)) (g_s g) dbl)) as Hnew.
    { intros dbl Hd. split; cbn [g_p g_s g_starP g_starS g_double].
      - intros Hm. apply Hh. apply (matches_after _ _ dbl [] _); auto. intros _. apply not_elem_of_nil.
      - intros ? [= <-] a rest Ed Ha Hm. apply Hh. rewrite Ed. by apply (matches_after _ _ dbl). }
    clear Hback. case_bool_decide as E2.
    + specialize (Hnew true (fun _ => E2)). unfold after_star in Hnew. cbn [andb] in Hnew.
      revert Hnew. case_bool_decide; [|done].
      by replace (g_p g + 3)%nat with (S (g_p g + 2)) by lia.
    + specialize (Hnew false ltac:(done)). unfold after_star in Hnew. cbn [andb] in Hnew.
      by replace (g_p g + 1)%nat with (S (g_p g)) in Hnew by lia.
Qed.

Lemma only_stars_matches p : only_stars p = true -> matches p [].
Proof.
  induction p as [|c p IH]; [constructor|]. unfold only_stars. cbn [forallb].
  intros [<-%Z.eqb_eq Hp]%andb_true_iff. apply (m_star p []); [apply not_elem_of_nil|auto].
Qed.

Lemma glob_loop_sound fuel pat str g :
  sound_at pat str g -> glob_loop fuel pat str g = Some true -> matches pat str.
Proof.
  revert g. induction fuel as [|fuel IH]; intros g Hg; cbn [glob_loop].
  all: destruct (str !! g_s g) as [c|] eqn:Ec.
  2, 4: intros [= Hst%only_stars_matches]; apply lookup_ge_None in Ec; apply (sa_here _ _ _ Hg);
        by rewrite (drop_ge str).
  - done.
  - pose proof (glob_round_sound _ _ _ _ Hg Ec) as Hr.
    destruct (glob_round pat str g c) as [g'|b]; [by apply IH|by subst].
Qed.

(** ** Termination *)

(** Rounds left: backtracks move [starS] on, everything else moves [p] on. *)
Definition glob_measure (pat str : str) (g : Glob) : nat :=
  ((length str - g_starS g) * S (length pat) + (length pat - g_p g))%nat.

Record glob_ok (str : str) (g : Glob) : Prop := { go_starS : (g_starS g <= g_s g)%nat }.

Lemma glob_round_measure pat str g c :
  glob_ok str g -> str !! g_s g = Some c ->
  match glob_round pat str g c with
  | Continue g' => glob_ok str g' /\ (glob_measure pat str g' < glob_measure pat str g)%nat
  | Return _ => True
  end.
Proof.
  intros [Hle] Hc%lookup_lt_Some. unfold glob_round.
  match goal with |- context [match g_starP g with None => ?x | Some q => @?y q end] =>
    assert (match (match g_starP g with None => x | Some q => y q end) with
      | Continue g' => glob_ok str g' /\ (glob_measure pat str g' < glob_measure pat str g)%nat
      | Return _ => True end) as Hback end.
  { destruct (g_starP g) as [starP|]; [|done]. destruct (negb _ && _); [done|].
    split; [split; simpl; lia|]. unfold glob_measure. cbn [g_p g_s g_starS].
    assert (length str - g_starS g = S (length str - S (g_starS g)))%nat as -> by lia. nia. }
  destruct (pat !! g_p g) as [pc|] eqn:Ep; [|exact Hback]. apply lookup_lt_Some in Ep.
  destruct (char_match pc c); [|destruct (pc =? STAR); [|exact Hback]].
  - split; [split; simpl; lia|]. unfold glob_measure. simpl. lia.
  - assert (forall p' d, (g_p g < p')%nat ->
      glob_ok str (MkGlob p' (g_s g) (Some (g_p g)) (g_s g) d) /\
      (glob_measure pat str (MkGlob p' (g_s g) (Some (g_p g)) (g_s g) d)
         < glob_measure pat str g)%nat) as Hp.
    { intros p' d Hp. split; [split; simpl; lia|]. unfold glob_measure. cbn [g_p g_s g_starS]. nia. }
    clear Hback. case_bool_decide; apply Hp; [case_bool_decide|]; lia.
Qed.

Lemma glob_loop_returns fuel pat str g :
  glob_ok str g -> (glob_measure pat str g < fuel)%nat -> glob_loop fuel pat str g <> None.
Proof.
  revert g. induction fuel as [|fuel IH]; intros g Hg Hf; [lia|]. cbn [glob_loop].
  destruct (str !! g_s g) as [c|] eqn:Ec; [|done].
  pose proof (glob_round_measure pat _ _ _ Hg Ec) as Hr.
  destruct (glob_round pat str g c) as [g'|b]; [|done]. destruct Hr. apply IH; [done|lia].
Qed.

Lemma glob_init_ok str : glob_ok str glob_init.
Proof. by split. Qed.

Lemma glob_loop_total pat str : glob_loop (glob_fuel pat str) pat str glob_init <> None.
Proof.
  apply glob_loop_returns; [apply glob_init_ok|].
  unfold glob_measure, glob_fuel. cbn [g_p g_starS glob_init]. lia.
Qed.

Lemma globMatch_sound pat str : globMatch pat str = true -> matches pat str.
Proof.
  unfold globMatch. destruct (glob_loop _ _ _ _) as [[|]|] eqn:E; try done. intros _.
  eapply glob_loop_sound; [|exact E]. split; [done|]. by intros ? [=].
Qed.

(** ** Completeness on names

    For a pattern without slashes (the rules matched against the last segment)
    and a name without slashes or stars, the greedy loop finds every match. *)

Lemma star_inv p s :
  matches (STAR :: p) s -> SLASH ∉ p ->
  exists a r, s = a ++ r /\ (matches p r \/ exists p', p = STAR :: p' /\ matches p' r).
Proof.
  intros Hm Hp. inversion Hm as [| | |? a s' Ha Hp'|? a s' Hp'|? a s' Hp']; subst.
  - done.
  - by exists a, s'; auto.
  - exists a, s'. eauto.
  - exfalso. apply Hp. right. by left.
Qed.

Lemma star_absorb a p s :
  SLASH ∉ a -> SLASH ∉ p -> matches (STAR :: p) s -> matches (STAR :: p) (a ++ s).
Proof.
  intros Ha Hp Hm. inversion Hm as [| | |? b s' Hb Hp'|? b s' Hp'|? b s' Hp']; subst.
  - done.
  - rewrite app_assoc. apply m_star; [|done]. intros [?|?]%elem_of_app; done.
  - rewrite app_assoc. by apply m_double.
  - exfalso. apply Hp. right. by left.
Qed.

Lemma double_inv p s :
  matches (STAR :: STAR :: p) s -> SLASH ∉ p -> exists a r, s = a ++ r /\ matches p r.
Proof.
  intros Hm Hp. destruct (star_inv _ _ Hm) as (a&r&->&[Hm'|(p'&E&Hm')]).
  - intros [?|?]%elem_of_cons; done.
  - destruct (star_inv _ _ Hm' Hp) as (a2&r2&->&[Hm2|(p'&->&Hm2)]); exists (a ++ a2), r2;
      (split; [by rewrite app_assoc|]); [done|].
    apply (m_star _ []); [apply not_elem_of_nil|done].
  - injection E as <-. by exists a, r.
Qed.

Lemma matches_nil_inv p : matches p [] -> SLASH ∉ p -> only_stars p = true.
Proof.
  remember [] as s eqn:Es. intros Hm. induction Hm as [|p c s _ _|p c s _ _ _|p a s _ Hm IH|p a s Hm IH|p a s Hm IH];
    intros Hp; try done; apply app_nil in Es as [_ Es]; unfold only_stars in *; cbn [forallb].
  - rewrite Z.eqb_refl. apply IH; [done|]. intros ?. apply Hp. by right.
  - rewrite Z.eqb_refl. apply IH; [done|]. intros ?. apply Hp. by do 2 right.
  - exfalso. apply Hp. do 2 right. by left.
Qed.

(** Matching past [n] pattern characters that are not stars. *)
Lemma matches_literals n p s :
  matches p s -> Forall (fun c => c <> STAR) (take n p) -> (n <= length p)%nat ->
  (n <= length s)%nat /\ matches (drop n p) (drop n s).
Proof.
  revert p s. induction n as [|n IH]; intros p s Hm Hs Hn; [rewrite !drop_0; split; [lia|done]|].
  destruct Hm as [|p c s Hm|p c s Hc Hm|p a s _ Hm|p a s Hm|p a s Hm]; cbn [length take] in *;
    try (by apply Forall_cons in Hs as [? _]); [lia|..];
    apply Forall_cons in Hs as [_ Hs]; destruct (IH p s Hm Hs ltac:(lia)) as [? ?];
    (split; [lia|by rewrite !skipn_cons]).
Qed.

Section names.
Context (pat str : str) (Hpat : SLASH ∉ pat) (Hstr : SLASH ∉ str) (Hstar : STAR ∉ str).

Definition after (g : Glob) (starP : nat) : nat := after_star pat starP (g_double g).

(** The characters between the last star and [p] are not stars and have been
    matched one by one from [starS]. *)
Record complete_at (g : Glob) : Prop := {
  ca_p : (g_p g <= length pat)%nat;
  ca_s : (g_s g <= length str)%nat;
  ca_seg : forall starP, g_starP g = Some starP ->
    (g_starS g <= g_s g)%nat /\ g_p g = (after g starP + (g_s g - g_starS g))%nat /\
    Forall (fun c => c <> STAR) (take (g_s g - g_starS g) (drop (after g starP) pat));
  ca_match : matches pat str ->
    matches (drop (g_p g) pat) (drop (g_s g) str) \/
    exists starP t, g_starP g = Some starP /\ (g_starS g < t <= length str)%nat /\
      matches (drop (after g starP) pat) (drop t str)
}.

Lemma not_slash_drop n : SLASH ∉ drop n pat.
Proof. intros H. apply Hpat. rewrite <- (take_drop n pat). apply elem_of_app. by right. Qed.

Lemma after_single starP d : after_star pat starP d = (starP + (if d then 2 else 1))%nat.
Proof.
  unfold after_star. rewrite (bool_decide_false (_ = Some SLASH)); [by rewrite andb_false_r|].
  intros E%list_elem_of_lookup_2. done.
Qed.

(** The second alternative of [ca_match] moves to the current position. *)
Lemma later_match g starP t :
  complete_at g -> g_starP g = Some starP -> (g_starS g < t <= length str)%nat ->
  matches (drop (after g starP) pat) (drop t str) ->
  let k := (g_s g - g_starS g)%nat in
  (t + k <= length str)%nat /\ matches (drop (g_p g) pat) (drop (t + k) str).
Proof.
  intros [Hp Hs Hseg _] Hst Ht Hm k. destruct (Hseg starP Hst) as (H1&H2&H3).
  destruct (matches_literals k _ _ Hm) as [Hk Hm']; [done|rewrite length_drop; unfold k; lia|].
  rewrite length_drop in Hk. rewrite !drop_drop in Hm'. fold k in H2. rewrite <- H2 in Hm'. split; [lia|done].
Qed.

(** At a star the two alternatives meet: it takes the text in between. *)
Lemma star_match g :
  complete_at g -> pat !! g_p g = Some STAR -> matches pat str ->
  matches (drop (g_p g) pat) (drop (g_s g) str).
Proof.
  intros Hg Hp [?|(starP&t&Hst&Ht&Hm)]%(ca_match _ Hg); [done|].
  destruct (later_match _ _ _ Hg Hst Ht Hm) as [Hk Hm'].
  destruct (ca_seg _ Hg starP Hst) as (H1&_&_).
  set (k := (g_s g - g_starS g)%nat) in *.
  rewrite (drop_S _ _ _ Hp) in *.
  assert (drop (g_s g) str = slice (g_s g) (t + k) str ++ drop (t + k) str) as ->.
  { rewrite <- (slice_to_end (g_s g) (length str)), <- (slice_to_end (t + k) (length str)) by lia.
    symmetry. apply slice_app; unfold k; lia. }
  apply star_absorb; [|apply not_slash_drop|done].
  intros Hin. apply Hstr. unfold slice in Hin.
  apply elem_of_take in Hin as (j&Hj&_). rewrite lookup_drop in Hj.
  by eapply list_elem_of_lookup_2.
Qed.

Lemma new_star g d :
  complete_at g -> pat !! g_p g = Some STAR ->
  (match d return Prop with true => pat !! S (g_p g) = Some STAR | false => pat !! S (g_p g) <> Some STAR end) ->
  complete_at (MkGlob (after_star pat (g_p g) d) (g_s g) (Some (g_p g)) (g_s g) d).
Proof.
  intros Hg Hp Hd. pose proof (lookup_lt_Some _ _ _ Hp).
  split; unfold after; cbn [g_p g_s g_starP g_starS g_double].
  - rewrite after_single. destruct d; [apply lookup_lt_Some in Hd|]; lia.
  - apply Hg.
  - intros ? [= <-]. rewrite Nat.sub_diag. split_and!; [done|lia|constructor].
  - intros Hm. pose proof (star_match g Hg Hp Hm) as Hs.
    assert (exists a r, drop (g_s g) str = a ++ r /\
      matches (drop (after_star pat (g_p g) d) pat) r) as (a&r&Ea&Hr).
    { rewrite after_single. rewrite (drop_S _ _ _ Hp) in Hs. destruct d.
      - rewrite (drop_S _ _ _ Hd) in Hs. replace (g_p g + 2)%nat with (S (S (g_p g))) by lia.
        apply double_inv; [done|apply not_slash_drop].
      - replace (g_p g + 1)%nat with (S (g_p g)) by lia.
        destruct (star_inv _ _ Hs ltac:(apply not_slash_drop)) as (a&r&Ea&[Hr|(p'&E&_)]); [eauto|].
        exfalso. apply Hd. rewrite <- (Nat.add_0_r (S (g_p g))), <- lookup_drop, E. done. }
    destruct a as [|c a]; [left; by rewrite Ea|right].
    exists (g_p g), (g_s g + length (c :: a))%nat. pose proof (f_equal length Ea) as El.
    rewrite length_drop, length_app in El. cbn [length] in *.
    split_and!; [done|lia|lia|]. rewrite <- drop_drop, Ea.
    change (S (length a)) with (length (c :: a)). by rewrite drop_app_length.
Qed.

Lemma complete_backtrack g c starP :
  complete_at g -> str !! g_s g = Some c -> g_starP g = Some starP ->
  (forall s, ~ matches (drop (g_p g) pat) (c :: s)) ->
  complete_at (MkGlob (after g starP) (S (g_starS g)) (Some starP) (S (g_starS g)) (g_double g)).
Proof.
  intros Hg Hc Hst Hno. pose proof (lookup_lt_Some _ _ _ Hc).
  destruct (ca_seg _ Hg starP Hst) as (H1&H2&H3). pose proof (ca_p _ Hg).
  split; unfold after in *; cbn [g_p g_s g_starP g_starS g_double].
  - lia.
  - lia.
  - intros ? [= <-]. rewrite Nat.sub_diag. split_and!; [done|lia|constructor].
  - intros [Hm|(q&t&E&Ht&Hm)]%(ca_match _ Hg).
    { rewrite (drop_S _ _ _ Hc) in Hm. by apply Hno in Hm. }
    rewrite Hst in E. injection E as <-.
    destruct (decide (t = S (g_starS g))) as [->|]; [by left|right].
    exists starP, t. split_and!; [done|lia|lia|done].
Qed.

Lemma stuck g c :
  str !! g_s g = Some c ->
  match pat !! g_p g with Some pc => char_match pc c = false /\ pc <> STAR | None => True end ->
  forall s, ~ matches (drop (g_p g) pat) (c :: s).
Proof.
  intros Hc Hp s Hm. assert (c <> STAR) by (intros ->; by apply list_elem_of_lookup_2 in Hc).
  destruct (pat !! g_p g) as [pc|] eqn:Ep.
  - destruct Hp as [Hcm Hpc]. unfold char_match in Hcm. to_prop.
    rewrite (drop_S _ _ _ Ep) in Hm. inversion Hm; subst; done.
  - apply lookup_ge_None in Ep. rewrite drop_ge in Hm by done. inversion Hm.
Qed.

Lemma glob_round_complete g c :
  complete_at g -> str !! g_s g = Some c ->
  match glob_round pat str g c with
  | Continue g' => complete_at g'
  | Return b => ~ matches pat str
  end.
Proof.
  intros Hg Hc. pose proof (lookup_lt_Some _ _ _ Hc) as Hlt. unfold glob_round.
  assert (c <> STAR) as Hcs by (intros ->; by apply list_elem_of_lookup_2 in Hc).
  assert (bool_decide (str !! g_starS g = Some SLASH) = false) as ->
    by (apply bool_decide_eq_false; by intros E%list_elem_of_lookup_2).
  rewrite andb_false_r.
  match goal with |- context [match g_starP g with None => ?x | Some q => @?y q end] =>
    assert ((forall s, ~ matches (drop (g_p g) pat) (c :: s)) ->
      match (match g_starP g with None => x | Some q => y q end) with
      | Continue g' => complete_at g' | Return b => ~ matches pat str end) as Hback end.
  { intros Hno. destruct (g_starP g) as [starP|] eqn:Est.
    - exact (complete_backtrack g c starP Hg Hc Est Hno).
    - intros [Hm|(q&t&E&_)]%(ca_match _ Hg); [|congruence].
      rewrite (drop_S _ _ _ Hc) in Hm. by apply Hno in Hm. }
  pose proof (stuck g c Hc) as Hstuck.
  destruct (pat !! g_p g) as [pc|] eqn:Ep; [|by apply Hback, Hstuck].
  destruct (char_match pc c) eqn:Ecm.
  - clear Hback Hstuck. pose proof (lookup_lt_Some _ _ _ Ep).
    assert (pc <> STAR) as Hps by (intros ->; unfold char_match in Ecm; apply orb_true_iff in Ecm;
      rewrite !Z.eqb_eq in Ecm; destruct Ecm as [?|?]; [done|by subst]).
    destruct Hg as [Hp Hs Hseg Hm].
    split; unfold after in *; cbn [g_p g_s g_starP g_starS g_double]; [lia|lia| |].
    + intros starP Est. destruct (Hseg starP Est) as (H1&H2&H3).
      replace (S (g_s g) - g_starS g)%nat with (S (g_s g - g_starS g)) by lia.
      split_and!; [lia|lia|]. rewrite (take_S_r _ _ pc); [by apply Forall_app_2; [|repeat constructor]|].
      rewrite lookup_drop. by rewrite <- H2.
    + intros [Hm'|?]%Hm; [left|by right]. rewrite (drop_S _ _ _ Ep), (drop_S _ _ _ Hc) in Hm'.
      inversion Hm'; subst; done.
  - destruct (Z.eqb_spec pc STAR) as [->|Hne]; [|by apply Hback, Hstuck].
    clear Hback. case_bool_decide as E2.
    + pose proof (new_star g true Hg Ep E2) as Hn. unfold after_star in Hn. cbn [andb] in Hn.
      revert Hn. case_bool_decide; [|done]. by replace (g_p g + 3)%nat with (S (g_p g + 2)) by lia.
    + pose proof (new_star g false Hg Ep E2) as Hn. unfold after_star in Hn. cbn [andb] in Hn.
      by replace (g_p g + 1)%nat with (S (g_p g)) in Hn by lia.
Qed.

Lemma glob_loop_complete fuel g :
  complete_at g -> matches pat str ->
  glob_loop fuel pat str g = None \/ glob_loop fuel pat str g = Some true.
Proof.
  intros Hg Hm. revert g Hg.
  assert (forall g, complete_at g -> str !! g_s g = None -> only_stars (drop (g_p g) pat) = true) as Hend.
  { intros g Hg He%lookup_ge_None. apply matches_nil_inv; [|apply not_slash_drop].
    destruct (ca_match _ Hg Hm) as [Hm'|(starP&t&Est&Ht&Hm')]; [by rewrite (drop_ge str) in Hm' by done|].
    destruct (later_match _ _ _ Hg Est Ht Hm') as [Hk _].
    destruct (ca_seg _ Hg starP Est) as (H1&_). lia. }
  induction fuel as [|fuel IH]; intros g Hg; cbn [glob_loop];
    (destruct (str !! g_s g) as [c|] eqn:Ec; [|right; f_equal; by apply Hend]); [by left|].
  pose proof (glob_round_complete _ _ Hg Ec) as Hr.
  destruct (glob_round pat str g c) as [g'|b]; [by apply IH|done].
Qed.

Lemma globMatch_complete : matches pat str -> globMatch pat str = true.
Proof.
  intros Hm. unfold globMatch. destruct (glob_loop_complete (glob_fuel pat str) glob_init) as [E|E].
  - split; simpl; [lia|lia|done|]. by left.
  - done.
  - by apply glob_loop_total in E.
  - by rewrite E.
Qed.

End names.

(** ** The documented meaning and the loop's *)

Lemma no_slash_true s : no_slash s = true <-> SLASH ∉ s.
Proof.
  unfold no_slash. rewrite forallb_forall. split.
  - intros Hs Hin%list_elem_of_In. specialize (Hs _ Hin). by rewrite Z.eqb_refl in Hs.
  - intros Hs x Hx%list_elem_of_In. apply negb_true_iff, Z.eqb_neq. by intros ->.
Qed.

Lemma existsb_cuts f s : existsb f (cuts s) = true <-> exists i, (i <= length s)%nat /\ f i = true.
Proof.
  rewrite existsb_exists. unfold cuts. split; intros (i & Hi & Hf); exists i; (split; [|done]).
  - apply in_seq in Hi. lia.
  - apply in_seq. lia.
Qed.

(** A single star is met by a run without a slash. *)
Definition meets_star (p1 s : str) : bool :=
  existsb (fun i => no_slash (take i s) && means false p1 (drop i s)) (cuts s).

Lemma meets_star_app p1 a s : SLASH ∉ a -> means false p1 s = true -> meets_star p1 (a ++ s) = true.
Proof.
  intros Ha Hs. apply existsb_cuts. exists (length a). rewrite length_app, take_app_length, drop_app_length.
  split; [lia|]. by rewrite (proj2 (no_slash_true a) Ha), Hs.
Qed.

Lemma meets_star_inv p1 s : meets_star p1 s = true ->
  exists a r, s = a ++ r /\ SLASH ∉ a /\ means false p1 r = true.
Proof.
  intros (i & _ & [Ha%no_slash_true Hr]%andb_true_iff)%existsb_cuts.
  exists (take i s), (drop i s). by rewrite take_drop.
Qed.

(** What is documented the loop's meaning allows. *)
Lemma means_matches start p s : means start p s = true -> matches p s.
Proof.
  revert start s. induction p as [p IH] using (induction_ltof1 _ length). unfold ltof in IH.
  assert (forall p1 s, (length p1 < length p)%nat -> meets_star p1 s = true -> matches (STAR :: p1) s) as Hstar.
  { intros p1 s Hl (a & r & -> & Ha & Hr)%meets_star_inv. constructor; [done|]. by apply (IH p1 Hl false). }
  destruct p as [|c p1]; intros start s; cbn [means].
  { intros ->%bool_decide_eq_true. constructor. }
  destruct (Z.eqb_spec c STAR) as [->|Hc].
  - fold (meets_star p1 s). assert (meets_star p1 s = true -> matches (STAR :: p1) s) as Hs by (apply Hstar; simpl; lia).
    destruct p1 as [|d p2]; [done|]. destruct (start && _) eqn:Hd; [|done].
    apply andb_true_iff in Hd as [_ ->%Z.eqb_eq]. destruct p2 as [|e p3].
    { intros _. rewrite <- (app_nil_r s). apply m_double. constructor. }
    destruct (Z.eqb_spec e SLASH) as [->|]; [|done].
    intros (i & _ & [_ Hm]%andb_true_iff)%existsb_cuts. rewrite <- (take_drop i s).
    apply m_double_slash. apply (IH p3 ltac:(simpl; lia) true). done.
  - destruct s as [|x s]; [done|]. intros [Hx Hm]%andb_true_iff.
    apply (IH p1 ltac:(simpl; lia)) in Hm. destruct (Z.eqb_spec c QMARK) as [->|]; [by constructor|].
    apply Z.eqb_eq in Hx as <-. by constructor.
Qed.

(** On names the two are the same. *)
Lemma matches_means_name start p s : SLASH ∉ p -> SLASH ∉ s -> matches p s -> means start p s = true.
Proof.
  intros Hp Hs Hm. revert start Hp Hs.
  assert (forall start p1 s, SLASH ∉ p1 -> meets_star p1 s = true -> means start (STAR :: p1) s = true) as Hstar.
  { intros start p1 r Hp1 Hr. cbn [means]. rewrite Z.eqb_refl. fold (meets_star p1 r).
    destruct p1 as [|d p2]; [done|]. destruct (start && _); [|done]. destruct p2 as [|e p3]; [done|].
    rewrite (proj2 (Z.eqb_neq e SLASH)); [done|]. intros ->. apply Hp1. right. left. }
  induction Hm as [|p c s Hm IH|p c s Hc Hm IH|p a s Ha Hm IH|p a s Hm IH|p a s Hm IH]; intros start Hp Hs.
  - done.
  - apply not_elem_of_cons in Hp as [_ Hp], Hs as [Hc Hs]. cbn. rewrite IH by done.
    by rewrite (proj2 (Z.eqb_neq c SLASH)).
  - apply not_elem_of_cons in Hp as [_ Hp], Hs as [_ Hs]. cbn [means].
    rewrite (proj2 (Z.eqb_neq c STAR)) by done. rewrite IH, Z.eqb_refl by done.
    destruct (Z.eqb_spec c QMARK) as [->|]; done.
  - apply not_elem_of_cons in Hp as [_ Hp]. rewrite not_elem_of_app in Hs. destruct Hs.
    apply Hstar; [done|]. apply meets_star_app; [done|]. by apply IH.
  - rewrite !not_elem_of_cons in Hp. rewrite not_elem_of_app in Hs. destruct Hp as (_ & _ & Hp), Hs as [Ha Hs].
    apply Hstar; [by apply not_elem_of_cons|]. apply meets_star_app; [done|].
    apply Hstar; [done|]. apply (meets_star_app p []); [apply not_elem_of_nil|]. by apply IH.
  - destruct Hp. right. right. left.
Qed.

(** No two stars in a row. *)
Fixpoint single_stars (p : str) : bool :=
  match p with
  | [] => true
  | c :: p1 => negb ((c =? STAR) && bool_decide (head p1 = Some STAR)) && single_stars p1
  end.

(** Across segments they are the same for patterns with single stars only. *)
Lemma matches_means_single start p s :
  single_stars p = true -> QMARK ∉ p -> matches p s -> means start p s = true.
Proof.
  intros Hp Hq Hm. revert start Hp Hq.
  induction Hm as [|p c s Hm IH|p c s Hc Hm IH|p a s Ha Hm IH|p a s Hm IH|p a s Hm IH]; intros start Hp Hq.
  - done.
  - destruct Hq. left.
  - apply not_elem_of_cons in Hq as [Hcq Hq]. cbn [single_stars] in Hp. apply andb_true_iff in Hp as [_ Hp].
    cbn [means]. rewrite (proj2 (Z.eqb_neq c STAR)), IH, Z.eqb_refl by done.
    by rewrite (proj2 (Z.eqb_neq c QMARK)).
  - apply not_elem_of_cons in Hq as [_ Hq]. cbn [single_stars] in Hp. apply andb_true_iff in Hp as [Hh Hp].
    cbn [means]. rewrite Z.eqb_refl in *. fold (meets_star p (a ++ s)). cbn [andb] in Hh.
    apply negb_true_iff, bool_decide_eq_false in Hh.
    assert (meets_star p (a ++ s) = true) as Hs by (apply meets_star_app; auto).
    destruct p as [|d p2]; [done|]. rewrite (proj2 (Z.eqb_neq d STAR)); [by rewrite andb_false_r|].
    intros ->. by apply Hh.
  - done.
  - done.
Qed.

End IgnoreRulesFacts.

(** * The claims *)

Module IgnoreRulesSpec.
Import IgnoreRules IgnoreRulesFacts.

(** C37: [globMatch] always returns. On a name and a slash-free pattern, which is
    how unanchored rules are tested, it accepts exactly what the documentation
    says the pattern means; across directories that is so, in the direction that
    keeps files from being left out, for patterns whose only wildcards are single
    stars. Beyond that the code departs from the documented meaning, both ways.
    It accepts too much, by the wider language that it does follow: two stars and
    a slash take any run of characters instead of whole segments, so the rule of
    two stars, a slash and foo leaves notes/xfoo out, and a, slash, two stars,
    slash, b accepts a/xb; a question mark takes a slash. And it accepts too
    little: it refuses a/b.txt for two stars, a slash and star.txt, because the
    later single star overwrites the backtrack point of the two stars. *)
Theorem globMatch_spec (pat str : str) :
  (exists b, glob_loop (glob_fuel pat str) pat str glob_init = Some b /\ globMatch pat str = b) /\
  (SLASH ∉ pat -> SLASH ∉ str -> STAR ∉ str -> globMatch pat str = means true pat str) /\
  (single_stars pat = true -> QMARK ∉ pat -> globMatch pat str = true -> means true pat str = true) /\
  (globMatch pat str = true -> matches pat str) /\ (means true pat str = true -> matches pat str) /\
  (globMatch (lit "**/foo") (lit "xfoo") = true /\ means true (lit "**/foo") (lit "xfoo") = false) /\
  (ignored (parse (lit "**/foo")) (lit "notes/xfoo") false = true /\
   means true (lit "**/foo") (lit "notes/xfoo") = false) /\
  (globMatch (lit "a/**/b") (lit "a/xb") = true /\ means true (lit "a/**/b") (lit "a/xb") = false) /\
  (globMatch (lit "a?b") (lit "a/b") = true /\ means true (lit "a?b") (lit "a/b") = false) /\
  (globMatch (lit "**/*.txt") (lit "a/b.txt") = false /\ means true (lit "**/*.txt") (lit "a/b.txt") = true).
Proof.
  split_and!; try (vm_compute; reflexivity).
  - unfold globMatch. pose proof (glob_loop_total pat str) as Ht.
    destruct (glob_loop _ _ _ _) as [b|]; [by exists b|done].
  - intros Hp Hs Hst. apply eq_bool_prop_intro. rewrite !Is_true_true. split.
    + intros Hg. apply matches_means_name; [done..|]. by apply globMatch_sound.
    + intros Hm. apply globMatch_complete; [done..|]. by eapply means_matches.
  - intros Hp Hq Hg. apply matches_means_single; [done..|]. by apply globMatch_sound.
  - apply globMatch_sound.
  - apply means_matches.
Qed.

Lemma globMatch_spec_witness :
  globMatch (lit "no*s-?.md") (lit "notes-1.md") = means true (lit "no*s-?.md") (lit "notes-1.md") /\
  globMatch (lit "docs/*.md") (lit "docs/a.md") = true /\ means true (lit "docs/*.md") (lit "docs/a.md") = true.
Proof.
  split; [|split; [vm_compute; reflexivity|]].
  - refine (proj1 (proj2 (globMatch_spec (lit "no*s-?.md") (lit "notes-1.md"))) _ _ _); decide_goal.
  - refine (proj1 (proj2 (proj2 (globMatch_spec (lit "docs/*.md") (lit "docs/a.md")))) _ _ _);
      [vm_compute; reflexivity|decide_goal|vm_compute; reflexivity].
Defined.

(** ** Rules on paths *)

Lemma prefixes_app seen a b :
  prefixes seen (a ++ b) = prefixes seen a ++ prefixes (seen ++ a) b.
Proof.
  revert seen. induction a as [|c a IH]; intros seen; simpl; [by rewrite app_nil_r|].
  rewrite IH, <- app_assoc. by destruct (c =? SLASH).
Qed.

Lemma prefixes_length seen rest cand :
  cand ∈ prefixes seen rest -> (length cand < length seen + length rest)%nat.
Proof.
  revert seen. induction rest as [|c rest IH]; intros seen; simpl; [by intros ?%not_elem_of_nil|].
  destruct (c =? SLASH); [intros [->|Hc]%elem_of_cons; [lia|]|intros Hc]; apply IH in Hc;
    rewrite length_app in Hc; simpl in Hc; lia.
Qed.

Lemma candidates_dir d rest cand :
  cand ∈ candidates d -> cand ∈ candidates (d ++ SLASH :: rest) /\ cand <> d ++ SLASH :: rest.
Proof.
  intros Hc.
  assert (cand = d \/ cand ∈ prefixes [] d) as Hc' by (by apply elem_of_cons in Hc).
  assert (length cand <= length d)%nat as Hl.
  { destruct Hc' as [->|Hc']; [done|]. apply prefixes_length in Hc'. simpl in Hc'. lia. }
  split.
  - unfold candidates. rewrite prefixes_app. apply elem_of_cons. right. apply elem_of_app.
    destruct Hc' as [->|?]; [right; simpl; by left|by left].
  - intros ->. rewrite length_app in Hl. simpl in Hl. lia.
Qed.

(** A rule that matches a directory matches everything beneath it. *)
Lemma matchRule_beneath r d rest isDir :
  matchRule r d true = true -> matchRule r (d ++ SLASH :: rest) isDir = true.
Proof.
  unfold matchRule. rewrite !existsb_exists. intros (cand&Hin&Hm).
  apply list_elem_of_In in Hin. destruct (candidates_dir d rest cand Hin) as [Hin' Hne].
  exists cand. split; [by apply list_elem_of_In|].
  unfold match_cand in *. rewrite (bool_decide_false (cand = _ ++ _)) by done.
  rewrite orb_true_r in Hm. exact Hm.
Qed.

Definition norm (relPath : str) : str := replace_char BSLASH SLASH (lower relPath).

Definition last_match (rules : list Rule) (p : str) (isDir : bool) : bool :=
  match last (filter (fun r => matchRule r p isDir = true) rules) with
  | Some r => negb (negate r)
  | None => false
  end.

Lemma ignored_last rules relPath isDir :
  ignored rules relPath isDir = last_match rules (norm relPath) isDir.
Proof.
  unfold ignored, last_match. fold (norm relPath). set (p := norm relPath).
  induction rules as [|r rules IH] using rev_ind; [done|].
  rewrite fold_left_app, filter_app. cbn [fold_left]. rewrite IH.
  rewrite filter_cons, filter_nil. case_decide as E.
  - by rewrite E, last_snoc.
  - destruct (matchRule r p isDir); [done|]. by rewrite app_nil_r.
Qed.

Lemma norm_dir d rest : norm (d ++ SLASH :: rest) = norm d ++ SLASH :: norm rest.
Proof. unfold norm, lower, replace_char. by rewrite !map_app. Qed.

Lemma norm_lower d : norm (lower d) = norm d.
Proof.
  unfold norm, lower. f_equal. rewrite map_map. apply map_ext. apply tolower_idemp.
Qed.

(** The verdict of a rule list is that of its last matching rule, so a
    later negation re-includes and a later pattern excludes again; letter case
    does not matter; and when no rule negates, excluding a directory excludes
    everything beneath it. *)
Theorem ignored_last_match_wins (rules : list Rule) (relPath rest : str) (isDir isDir' : bool) :
  ignored rules relPath isDir =
    match last (filter (fun r => matchRule r (norm relPath) isDir = true) rules) with
    | Some r => negb (negate r)
    | None => false
    end /\
  ignored rules (lower relPath) isDir = ignored rules relPath isDir /\
  (Forall (fun r => negate r = false) rules -> ignored rules relPath true = true ->
     ignored rules (relPath ++ SLASH :: rest) isDir' = true).
Proof.
  split_and!.
  - apply ignored_last.
  - by rewrite !ignored_last, norm_lower.
  - rewrite !ignored_last, norm_dir. unfold last_match. intros Hn Hm.
    destruct (last (filter _ rules)) as [r|] eqn:E; [|done].
    apply last_Some_elem_of in E. apply list_elem_of_filter in E as [E1 E2].
    set (F := filter _ rules).
    assert (r ∈ F) as HF
      by (apply list_elem_of_filter; split; [by apply matchRule_beneath|done]).
    destruct (last F) as [r'|] eqn:EF.
    + apply last_Some_elem_of in EF. apply list_elem_of_filter in EF as [_ EF].
      rewrite Forall_forall in Hn. by rewrite (Hn r' EF).
    + apply last_None in EF. rewrite EF in HF. by apply not_elem_of_nil in HF.
Qed.

Lemma ignored_last_match_wins_witness :
  let rules := parse (lit "build/
*.TMP
!keep.tmp
") in
  let dirs := parse (lit "build/") in
  ignored rules (lit "sub\a.tmp") false = true /\ ignored rules (lit "sub/Keep.tmp") false = false /\
  ignored dirs (lit "x/Build/out.bin") false = true.
Proof.
  split; [vm_compute; reflexivity|]. split; [vm_compute; reflexivity|].
  apply (ignored_last_match_wins (parse (lit "build/")) (lit "x/Build") (lit "out.bin") false false);
    [decide_goal|vm_compute; reflexivity].
Defined.

(** ** Parsing *)

Lemma fields_app d a b : fields d (a ++ d :: b) = fields d a ++ fields d b.
Proof.
  induction a as [|c a IH]; simpl; [by rewrite Z.eqb_refl|].
  destruct (c =? d); [by rewrite IH|]. rewrite IH.
  pose proof (fields_nonempty d a). by destruct (fields d a).
Qed.

Lemma parse_line_nil : parse_line [] = None.
Proof. done. Qed.

Lemma parse_fields text : parse text = omap parse_line (fields LF text).
Proof.
  unfold parse, getlines. induction (fields LF text) as [|f l IH]; [done|].
  destruct l as [|g l].
  - simpl. case_decide; [subst|done]. done.
  - change (drop_last_empty (f :: g :: l)) with (f :: drop_last_empty (g :: l)). csimpl.
    csimpl in IH. by rewrite IH.
Qed.

Lemma parse_line_shape l r :
  parse_line l = Some r -> pattern r <> [] /\ Forall (fun c => tolower c = c) (pattern r).
Proof.
  unfold parse_line. set (ln := trim l). intros H. repeat case_match; try done; injection H as <-;
    simpl; (split; [intros E; apply fmap_nil_inv in E; by rewrite E in *; rewrite bool_decide_true in *|]);
    apply Forall_map, Forall_forall; intros c _; apply tolower_idemp.
Qed.

(** [parse] reads line by line: the rules of two texts joined by a line
    feed are the rules of the first followed by those of the second; blank
    lines, comments and lines with only a negation or a slash give no rule;
    every rule has a non-empty lower-case pattern. *)
Theorem parse_line_by_line (t1 t2 : str) :
  parse (t1 ++ LF :: t2) = parse t1 ++ parse t2 /\
  Forall (fun r => pattern r <> [] /\ Forall (fun c => tolower c = c) (pattern r)) (parse t1) /\
  parse (lit "
  	 
# *.txt
!
/
!/ 
") = [].
Proof.
  split_and!.
  - by rewrite !parse_fields, fields_app, omap_app.
  - apply Forall_forall. intros r Hr. unfold parse in Hr.
    apply list_elem_of_omap in Hr as (l&_&Hl). by eapply parse_line_shape.
  - vm_compute. reflexivity.
Qed.

End IgnoreRulesSpec.
