(* ===== verification/Crypto.v ===== *)
(** * Crypto: core/Crypto.cpp

    The envelope around AES-256-GCM, key wrapping, base64url and the recovery
    key. CNG is a parameter ([Platform.CNG]); the random generator is the byte
    stream threaded as state. *)
From S2P Require Import Prelude Text Platform.

#[local] Open Scope monad_scope.

Module Crypto.

Definition kMasterKeyLen : nat := 32.
Definition kGcmNonceLen : nat := 12.
Definition kGcmTagLen : nat := 16.
Definition kEnvelopeMagic : Bytes := lit "NPS1".
Definition kAlgAes256Gcm : Z := 1.
Definition keywrap_aad : str := lit "npsync-keywrap".

Definition random (len : nat) : M rng Bytes := BCryptGenRandom len.

Definition generateMasterKey : M rng Bytes := random kMasterKeyLen.

Section cng.
Context `{CNG}.

(** [aesGcmCrypt] when encrypting: ciphertext and the tag written to [tagOut]. *)
Definition aesGcmEncrypt (key nonce input : Bytes) (aad : str) : outcome (Bytes * Bytes) :=
  if bool_decide (length key <> kMasterKeyLen \/ length nonce <> kGcmNonceLen)
  then Throw invalid_argument
  else match BCryptEncrypt key nonce aad input with
       | Some ct => Ok ct
       | None => Throw runtime_error
       end.

(** [aesGcmCrypt] when decrypting: [None] is [std::nullopt]. *)
Definition aesGcmDecrypt (key nonce input : Bytes) (aad : str) (tag : Bytes) : outcome (option Bytes) :=
  if bool_decide (length key <> kMasterKeyLen \/ length nonce <> kGcmNonceLen)
  then Throw invalid_argument
  else if bool_decide (length tag <> kGcmTagLen) then Throw invalid_argument
  else Ok (BCryptDecrypt key nonce aad input tag).

Definition headerLen : nat := 4 + 1 + kGcmNonceLen + kGcmTagLen.

Definition envelope_of (nonce tag ct : Bytes) : Bytes :=
  kEnvelopeMagic ++ [kAlgAes256Gcm] ++ nonce ++ tag ++ ct.

Definition encrypt (key plaintext : Bytes) (aad : str) : M rng Bytes :=
  let* nonce := random kGcmNonceLen in
  let* (ct, tag) := lift (aesGcmEncrypt key nonce plaintext aad) in
  ret (envelope_of nonce tag ct).

(** [None] is [return false]; the out-parameter is then untouched. *)
Definition decrypt (key envelope : Bytes) (aad : str) : outcome (option Bytes) :=
  if decide (length envelope < headerLen)%nat then Ok None
  else if negb (bool_decide (take 4 envelope = kEnvelopeMagic)) then Ok None
  else if negb (bool_decide (envelope !! 4%nat = Some kAlgAes256Gcm)) then Ok None
  else
    let nonce := slice 5 (5 + kGcmNonceLen) envelope in
    let tag := slice (5 + kGcmNonceLen) headerLen envelope in
    let ct := drop headerLen envelope in
    aesGcmDecrypt key nonce ct aad tag.

Definition hexd (n : Z) : Z := default 0 (lit "0123456789abcdef" !! Z.to_nat n).

Definition sha256Hex (data : Bytes) : outcome str :=
  match BCryptSha256 data with
  | None => Throw runtime_error
  | Some digest =>
      Ok (mbind (fun b => [hexd (Z.shiftr b 4); hexd (Z.land b 15)]) digest)
  end.

Definition deriveKeyFromCode (code : str) (salt : Bytes) : outcome Bytes :=
  match BCryptDeriveKeyPBKDF2 code salt 200000 with
  | Some key => Ok key
  | None => Throw runtime_error
  end.

Definition wrapMasterKey (masterKey wrappingKey : Bytes) : M rng Bytes :=
  encrypt wrappingKey masterKey keywrap_aad.

(** The returned boolean, and what was written to [masterKeyOut], if anything. *)
Definition unwrapMasterKey (wrapped wrappingKey : Bytes) : outcome (bool * option Bytes) :=
  (let! out := decrypt wrappingKey wrapped keywrap_aad in
   match out with
   | None => Ok (false, None)
   | Some mk => Ok (bool_decide (length mk = kMasterKeyLen), Some mk)
   end)%outcome.
End cng.

(** ** base64url *)

Definition tbl : str := lit "ABCDEFGHIJKLMNOPQRSTUVWXYZabcdefghijklmnopqrstuvwxyz0123456789-_".

(** [tbl[(v >> k) & 63]]. *)
Definition sextet (v k : Z) : Z := default 0 (tbl !! Z.to_nat (Z.land (Z.shiftr v k) 63)).

Fixpoint base64UrlEncode (data : Bytes) : str :=
  match data with
  | a :: b :: c :: rest =>
      let v := Z.lor (Z.lor (Z.shiftl a 16) (Z.shiftl b 8)) c in
      sextet v 18 :: sextet v 12 :: sextet v 6 :: sextet v 0 :: base64UrlEncode rest
  | [a; b] =>
      let v := Z.lor (Z.shiftl a 16) (Z.shiftl b 8) in
      [sextet v 18; sextet v 12; sextet v 6]
  | [a] => let v := Z.shiftl a 16 in [sextet v 18; sextet v 12]
  | [] => []
  end.

(** The lambda [val]. *)
Definition val (c : Z) : Z :=
  if (65 <=? c) && (c <=? 90) then c - 65
  else if (97 <=? c) && (c <=? 122) then c - 97 + 26
  else if (48 <=? c) && (c <=? 57) then c - 48 + 52
  else if c =? 45 then 62
  else if c =? 95 then 63
  else -1.

(** The loop; [None] is [return false]. *)
Fixpoint decode_loop (inp : str) (acc bits : Z) (out : Bytes) : option Bytes :=
  match inp with
  | [] => Some out
  | c :: inp' =>
      let v := val c in
      if v <? 0 then None
      else
        let acc := Z.lor (wrap_u32 (Z.shiftl acc 6)) v in
        let bits := bits + 6 in
        if 8 <=? bits then
          let bits := bits - 8 in
          decode_loop inp' acc bits (out ++ [Z.land (Z.shiftr acc bits) 255])
        else decode_loop inp' acc bits out
  end.

Definition base64UrlDecode (inp : str) : option Bytes := decode_loop inp 0 0 [].

(** What the call leaves in [out]: the bytes decoded before the character at
    which it returns false. *)
Fixpoint valid_prefix (inp : str) : str :=
  match inp with
  | [] => []
  | c :: inp' => if val c <? 0 then [] else c :: valid_prefix inp'
  end.

Definition base64UrlDecode_out (inp : str) : Bytes := default [] (base64UrlDecode (valid_prefix inp)).

(** ** The recovery key *)

Definition alphabet : str := lit "ABCDEFGHJKMNPQRSTUVWXYZ23456789".

(** [alphabet[i]]: the literal is followed by its terminating NUL. *)
Definition alphabet_at (i : Z) : Z := default 0 ((alphabet ++ [NUL]) !! Z.to_nat i).

(** The loops that insert a dash before every fourth symbol but the first. *)
Fixpoint grouped (i : nat) (body : str) : str :=
  match body with
  | [] => []
  | c :: body' =>
      (if bool_decide (0 < i /\ i mod 4 = 0)%nat then [DASH; c] else [c]) ++ grouped (S i) body'
  end.

Definition generateRecoveryKey : M rng str :=
  let* raw := random 20 in
  ret (lit "NPSYNC-" ++ grouped 0 (map (fun b => alphabet_at (b mod 32)) raw)).

Definition key_prefix : str := lit "NPSYNC".

Definition normalizeRecoveryKey (inp : str) : option str :=
  let body := map toupper (filter (fun c => ~ (c = DASH \/ c = SPACE)) inp) in
  let body := if starts_with key_prefix body then drop (length key_prefix) body else body in
  if bool_decide (length body <> 20%nat) then None
  else Some (lit "NPSYNC-" ++ grouped 0 body).

End Crypto.

(** * Lemmas *)

Module CryptoFacts.
Import Crypto.

(** ** The envelope *)

Section cng.
Context `{CNGLaws}.

Lemma envelope_parts nonce tag ct :
  length nonce = kGcmNonceLen -> length tag = kGcmTagLen ->
  let env := envelope_of nonce tag ct in
  length env = (headerLen + length ct)%nat /\ take 4 env = kEnvelopeMagic /\
  env !! 4%nat = Some kAlgAes256Gcm /\ slice 5 (5 + kGcmNonceLen) env = nonce /\
  slice (5 + kGcmNonceLen) headerLen env = tag /\ drop headerLen env = ct.
Proof.
  intros Hn Ht env. unfold headerLen, kGcmNonceLen, kGcmTagLen in *. cbn [Nat.add] in *.
  assert (env = (kEnvelopeMagic ++ [kAlgAes256Gcm]) ++ nonce ++ tag ++ ct) as E
    by (unfold env, envelope_of; by rewrite <- app_assoc).
  assert (drop 5 env = nonce ++ tag ++ ct) as E5 by (by rewrite E).
  assert (drop 17 env = tag ++ ct) as E17.
  { replace 17%nat with (5 + 12)%nat by done. rewrite <- drop_drop, E5.
    rewrite <- Hn. by rewrite drop_app_length. }
  split_and!.
  - rewrite E, !length_app, Hn, Ht. simpl. lia.
  - by rewrite E.
  - by rewrite E.
  - unfold slice. rewrite E5. cbn [Nat.sub]. by rewrite <- Hn, take_app_length.
  - unfold slice. rewrite E17. cbn [Nat.sub]. by rewrite <- Ht, take_app_length.
  - replace 33%nat with (17 + 16)%nat by done.
    rewrite <- drop_drop, E17, <- Ht. by rewrite drop_app_length.
Qed.

(** A header-correct envelope is its parts put back together. *)
Lemma envelope_rebuild env :
  (headerLen <= length env)%nat -> take 4 env = kEnvelopeMagic ->
  env !! 4%nat = Some kAlgAes256Gcm ->
  let nonce := slice 5 (5 + kGcmNonceLen) env in
  let tag := slice (5 + kGcmNonceLen) headerLen env in
  env = envelope_of nonce tag (drop headerLen env) /\
  length nonce = kGcmNonceLen /\ length tag = kGcmTagLen.
Proof.
  intros Hl Hm Ha nonce tag. unfold headerLen, kGcmNonceLen, kGcmTagLen in *. cbn [Nat.add] in *.
  split_and!.
  - unfold envelope_of. rewrite <- Hm. rewrite <- (take_drop 4 env) at 1. f_equal.
    rewrite (drop_S _ _ _ Ha). cbn [app]. f_equal. unfold nonce, tag. cbn [Nat.add kGcmNonceLen].
    rewrite <- (slice_to_end 33 (length env) env) by lia.
    rewrite slice_app by lia. rewrite slice_app by lia. by rewrite slice_to_end.
  - unfold nonce. rewrite length_slice; lia.
  - unfold tag. rewrite length_slice; lia.
Qed.

(** Decrypting an envelope is decrypting its parts. *)
Lemma decrypt_envelope key nonce tag ct aad :
  length nonce = kGcmNonceLen -> length tag = kGcmTagLen ->
  decrypt key (envelope_of nonce tag ct) aad = aesGcmDecrypt key nonce ct aad tag.
Proof.
  intros Hn Ht. destruct (envelope_parts nonce tag ct Hn Ht) as (El&Em&Ea&En&Et&Ec).
  unfold decrypt. rewrite decide_False by (rewrite El; lia).
  rewrite !bool_decide_true by done. cbn [negb]. by rewrite En, Et, Ec.
Qed.

Lemma decrypt_cases key env aad r :
  decrypt key env aad = r ->
  r = Ok None \/
  exists nonce tag ct, env = envelope_of nonce tag ct /\ length nonce = kGcmNonceLen /\
    length tag = kGcmTagLen /\ r = aesGcmDecrypt key nonce ct aad tag.
Proof.
  unfold decrypt. case_decide as El; [by left|].
  destruct (bool_decide (take 4 env = _)) eqn:Em; [|by left].
  destruct (bool_decide (env !! 4%nat = _)) eqn:Ea; [|by left]. cbn [negb]. intros <-. right.
  apply bool_decide_eq_true in Em, Ea.
  destruct (envelope_rebuild env ltac:(lia) Em Ea) as (E&En&Et).
  eexists _, _, _. by split_and!.
Qed.

Lemma hexd_NUL n : 0 <= n < 16 -> hexd n <> NUL.
Proof.
  intros Hn. assert (Forall (fun i => hexd i <> NUL) (map Z.of_nat (seq 0 16))) as Hf by decide_goal.
  rewrite Forall_forall in Hf. apply Hf, list_elem_of_fmap. exists (Z.to_nat n). split; [lia|].
  apply elem_of_seq. lia.
Qed.

(** A digest's text is stored by SQLite as it is. *)
Lemma sha256Hex_NUL data h : sha256Hex data = Ok h -> NUL ∉ h.
Proof.
  unfold sha256Hex. destruct (BCryptSha256 data) as [digest|] eqn:E; [|done]. intros [= <-].
  destruct (sha256_size _ _ E) as [_ Hb]. intros (b&Hi&Hin)%list_elem_of_bind.
  unfold bytes_ok in Hb. rewrite Forall_forall in Hb. specialize (Hb b Hin). unfold is_byte in Hb.
  rewrite !elem_of_cons in Hi. destruct Hi as [Hi|[Hi|Hi]]; [| |by apply elem_of_nil in Hi];
    symmetry in Hi; revert Hi; apply hexd_NUL.
  - rewrite Z.shiftr_div_pow2 by lia. change (2 ^ 4) with 16. Z.to_euclidean_division_equations. lia.
  - change 15 with (Z.ones 4). rewrite Z.land_ones by lia. apply Z.mod_pos_bound. lia.
Qed.

Lemma random_Ok n r b r' :
  random n r = (Ok b, r') -> length b = n /\ r = b ++ r' /\ r' = drop n r.
Proof.
  unfold random, BCryptGenRandom. case_decide; [done|]. intros [= <- <-].
  rewrite length_take. split_and!; [lia|by rewrite take_drop|done].
Qed.

Lemma encrypt_Ok key p aad r env r' :
  encrypt key p aad r = (Ok env, r') <->
  exists nonce ct tag, r = nonce ++ r' /\ length nonce = kGcmNonceLen /\
    length key = kMasterKeyLen /\ BCryptEncrypt key nonce aad p = Some (ct, tag) /\
    env = envelope_of nonce tag ct.
Proof.
  unfold encrypt. rewrite bind_Ok. split.
  - intros (nonce&r1&Hr&H2). apply random_Ok in Hr as (Hn&->&_).
    apply bind_Ok in H2 as ([ct tag]&r2&H2&H3). unfold lift, ret in *.
    injection H2 as H2 <-. injection H3 as <- <-. unfold aesGcmEncrypt in H2.
    case_bool_decide as Hk; [done|]. destruct (BCryptEncrypt _ _ _ _) as [[c t]|] eqn:E; [|done].
    injection H2 as -> ->. exists nonce, ct, tag. split_and!; try done. lia.
  - intros (nonce&ct&tag&->&Hn&Hk&E&->). exists nonce, r'. split.
    + unfold random, BCryptGenRandom. rewrite decide_False by (rewrite length_app; lia).
      rewrite <- Hn. by rewrite take_app_length, drop_app_length.
    + unfold aesGcmEncrypt. rewrite bool_decide_false by lia. by rewrite E.
Qed.

Lemma decrypt_encrypt key p aad r env r' :
  encrypt key p aad r = (Ok env, r') -> decrypt key env aad = Ok (Some p).
Proof.
  intros (nonce&ct&tag&->&Hn&Hk&E&->)%encrypt_Ok. destruct (gcm_sizes _ _ _ _ _ _ E) as [Hc Ht].
  rewrite decrypt_envelope by done. unfold aesGcmDecrypt.
  rewrite !bool_decide_false by naive_solver. by rewrite (gcm_decrypt_encrypt _ _ _ _ _ _ E).
Qed.

Lemma encrypt_bytes key p aad r env r' :
  encrypt key p aad r = (Ok env, r') -> bytes_ok p -> bytes_ok r -> bytes_ok env.
Proof.
  intros (nonce&ct&tag&->&Hn&Hk&E&->)%encrypt_Ok Hp Hr. destruct (gcm_bytes _ _ _ _ _ _ Hp E) as [Hc Ht].
  unfold bytes_ok in *. apply Forall_app in Hr as [Hnn _]. unfold envelope_of. rewrite !Forall_app.
  split_and!; try done; by decide_goal.
Qed.

End cng.

(** ** base64url *)

Lemma lor_shiftl a b n : 0 <= n -> 0 <= b < 2 ^ n -> Z.lor (Z.shiftl a n) b = a * 2 ^ n + b.
Proof.
  intros Hn Hb. assert (Z.land (Z.shiftl a n) b = 0) as Hd.
  { apply Z.bits_inj'. intros i Hi. rewrite Z.land_spec, Z.bits_0.
    destruct (Z.ltb_spec i n); [by rewrite Z.shiftl_spec_low by lia|].
    rewrite <- (Z.mod_small b (2 ^ n)) by done. by rewrite Z.mod_pow2_bits_high, andb_false_r by lia. }
  by rewrite <- Z.lxor_lor, <- Z.add_nocarry_lxor, Z.shiftl_mul_pow2.
Qed.

Lemma land_ones a n : 0 <= n -> Z.land a (2 ^ n - 1) = a mod 2 ^ n.
Proof. intros. rewrite <- Z.land_ones by done. by rewrite Z.ones_equiv, Z.sub_1_r. Qed.

(** [val] inverts the table. *)
Lemma val_tbl i : 0 <= i < 64 -> val (default 0 (tbl !! Z.to_nat i)) = i.
Proof.
  intros Hi. apply (Forall_seqZ (fun i => val (default 0 (tbl !! Z.to_nat i)) = i) 0 64);
    [decide_goal|lia].
Qed.

Definition digit (v k : Z) : Z := (v / 2 ^ k) mod 64.

Lemma val_sextet v k : 0 <= k -> val (sextet v k) = digit v k.
Proof.
  intros Hk. unfold sextet, digit. change 63 with (2 ^ 6 - 1).
  rewrite land_ones, Z.shiftr_div_pow2 by lia. apply val_tbl. apply Z.mod_pos_bound. lia.
Qed.

Lemma digit_range v k : 0 <= digit v k < 64.
Proof. apply Z.mod_pos_bound. lia. Qed.

(** One character of the decoding loop, in arithmetic. *)
Lemma decode_step c inp acc bits out v :
  val c = v -> 0 <= v < 64 -> 0 <= bits < 8 ->
  decode_loop (c :: inp) acc bits out =
  let acc' := (acc * 64) mod 2 ^ 32 + v in
  if 2 <=? bits
  then decode_loop inp acc' (bits - 2) (out ++ [(acc' / 2 ^ (bits - 2)) mod 256])
  else decode_loop inp acc' (bits + 6) out.
Proof.
  intros Hv Hr Hb. cbn [decode_loop]. rewrite Hv. rewrite (proj2 (Z.ltb_ge _ _)) by lia.
  assert (Z.lor (wrap_u32 (Z.shiftl acc 6)) v = (acc * 64) mod 2 ^ 32 + v) as ->.
  { unfold wrap_u32. rewrite Z.shiftl_mul_pow2 by lia. change (2 ^ 6) with 64.
    assert ((acc * 64) mod 2 ^ 32 = Z.shiftl (((acc * 64) mod 2 ^ 32) / 64) 6) as E.
    { rewrite Z.shiftl_mul_pow2 by lia. change (2 ^ 6) with 64.
      change (2 ^ 32) with 4294967296. Z.div_mod_to_equations. lia. }
    rewrite E at 1. rewrite lor_shiftl by lia. change (2 ^ 6) with 64.
    rewrite E at 2. rewrite Z.shiftl_mul_pow2 by lia. done. }
  change 255 with (2 ^ 8 - 1). cbn zeta.
  replace (8 <=? bits + 6) with (2 <=? bits)
    by (destruct (Z.leb_spec 2 bits); symmetry; [apply Z.leb_le|apply Z.leb_gt]; lia).
  destruct (Z.leb_spec 2 bits); [|done]. replace (bits + 6 - 8) with (bits - 2) by lia.
  rewrite land_ones, Z.shiftr_div_pow2 by lia. done.
Qed.

(** The two phases of the loop with the bit count computed. *)
Lemma decode_quiet v k inp acc out :
  0 <= k ->
  decode_loop (sextet v k :: inp) acc 0 out =
  decode_loop inp ((acc * 64) mod 2 ^ 32 + digit v k) 6 out.
Proof.
  intros Hk. by rewrite (decode_step _ _ _ _ _ (digit v k)) by
    (by apply val_sextet || apply digit_range || lia).
Qed.

Lemma decode_emit v k inp acc bits out :
  0 <= k -> 2 <= bits < 8 ->
  let acc' := (acc * 64) mod 2 ^ 32 + digit v k in
  decode_loop (sextet v k :: inp) acc bits out =
  decode_loop inp acc' (bits - 2) (out ++ [(acc' / 2 ^ (bits - 2)) mod 256]).
Proof.
  intros Hk Hb. rewrite (decode_step _ _ _ _ _ (digit v k)) by
    (by apply val_sextet || apply digit_range || lia).
  cbv zeta. by rewrite (proj2 (Z.leb_le _ _)) by lia.
Qed.

(** The bytes the loop emits for a 24-bit group, whatever was accumulated. *)
Lemma emitted v z :
  0 <= v < 2 ^ 24 ->
  ((((z * 64) mod 2 ^ 32 + digit v 18) * 64) mod 2 ^ 32 + digit v 12) / 2 ^ 4 mod 256 = v / 2 ^ 16 /\
  ((((z * 64) mod 2 ^ 32 + digit v 12) * 64) mod 2 ^ 32 + digit v 6) / 2 ^ 2 mod 256 = v / 2 ^ 8 mod 256 /\
  ((((z * 64) mod 2 ^ 32 + digit v 6) * 64) mod 2 ^ 32 + digit v 0) / 2 ^ 0 mod 256 = v mod 256.
Proof.
  intros Hv. pose proof (digit_range v 18). pose proof (digit_range v 12).
  pose proof (digit_range v 6). pose proof (digit_range v 0). unfold digit in *.
  change (2 ^ 32) with 4294967296 in *. change (2 ^ 24) with 16777216 in *.
  change (2 ^ 18) with 262144 in *. change (2 ^ 12) with 4096 in *. change (2 ^ 6) with 64 in *.
  change (2 ^ 4) with 16. change (2 ^ 2) with 4. change (2 ^ 0) with 1 in *.
  change (2 ^ 16) with 65536. change (2 ^ 8) with 256.
  split_and!; Z.div_mod_to_equations; lia.
Qed.

Lemma pack a b c :
  is_byte a -> is_byte b -> is_byte c ->
  Z.lor (Z.lor (Z.shiftl a 16) (Z.shiftl b 8)) c = a * 65536 + b * 256 + c.
Proof.
  unfold is_byte. intros Ha Hb Hc.
  rewrite (lor_shiftl a (Z.shiftl b 8) 16) by (rewrite ?Z.shiftl_mul_pow2; lia).
  rewrite Z.shiftl_mul_pow2 by lia.
  replace (a * 2 ^ 16 + b * 2 ^ 8) with (Z.shiftl (a * 256 + b) 8)
    by (rewrite Z.shiftl_mul_pow2 by lia; lia).
  rewrite lor_shiftl; lia.
Qed.

Lemma pack2 a b :
  is_byte a -> is_byte b -> Z.lor (Z.shiftl a 16) (Z.shiftl b 8) = a * 65536 + b * 256 + 0.
Proof.
  intros Ha Hb. rewrite <- (pack a b 0) by (done || (unfold is_byte; lia)). by rewrite Z.lor_0_r.
Qed.

Lemma pack1 a : is_byte a -> Z.shiftl a 16 = a * 65536 + 0 * 256 + 0.
Proof. intros Ha. rewrite Z.shiftl_mul_pow2 by lia. lia. Qed.

Lemma unpack a b c :
  is_byte a -> is_byte b -> is_byte c ->
  let v := a * 65536 + b * 256 + c in
  0 <= v < 2 ^ 24 /\ v / 2 ^ 16 = a /\ v / 2 ^ 8 mod 256 = b /\ v mod 256 = c.
Proof.
  intros Ha Hb Hc v. unfold v, is_byte in *. change (2 ^ 24) with 16777216.
  change (2 ^ 16) with 65536. change (2 ^ 8) with 256.
  split_and!; Z.div_mod_to_equations; lia.
Qed.

(** Decoding the sextets of a group, up to the number of bytes it stands for. *)
Lemma decode_group a b c inp acc out :
  is_byte a -> is_byte b -> is_byte c ->
  let v := a * 65536 + b * 256 + c in
  (exists acc', decode_loop (sextet v 18 :: sextet v 12 :: inp) acc 0 out =
                decode_loop inp acc' 4 (out ++ [a])) /\
  (exists acc', decode_loop (sextet v 18 :: sextet v 12 :: sextet v 6 :: inp) acc 0 out =
                decode_loop inp acc' 2 (out ++ [a; b])) /\
  (exists acc', decode_loop (sextet v 18 :: sextet v 12 :: sextet v 6 :: sextet v 0 :: inp) acc 0 out =
                decode_loop inp acc' 0 (out ++ [a; b; c])).
Proof.
  intros Ha Hb Hc v. destruct (unpack a b c Ha Hb Hc) as (Hv&E1&E2&E3). fold v in Hv, E1, E2, E3.
  assert (forall inp, decode_loop (sextet v 18 :: sextet v 12 :: inp) acc 0 out =
    decode_loop inp ((((acc * 64) mod 2 ^ 32 + digit v 18) * 64) mod 2 ^ 32 + digit v 12) 4
      (out ++ [a])) as D2.
  { intros i. rewrite decode_quiet, decode_emit by lia. change (6 - 2) with 4.
    by rewrite (proj1 (emitted v acc Hv)), E1. }
  set (z := (acc * 64) mod 2 ^ 32 + digit v 18) in D2.
  assert (forall inp, decode_loop (sextet v 18 :: sextet v 12 :: sextet v 6 :: inp) acc 0 out =
    decode_loop inp ((((z * 64) mod 2 ^ 32 + digit v 12) * 64) mod 2 ^ 32 + digit v 6) 2
      (out ++ [a; b])) as D3.
  { intros i. rewrite D2, decode_emit by lia. change (4 - 2) with 2.
    rewrite (proj1 (proj2 (emitted v z Hv))), E2. by rewrite <- app_assoc. }
  set (z' := (z * 64) mod 2 ^ 32 + digit v 12) in D3.
  split_and!; [rewrite D2; eauto|rewrite D3; eauto|].
  rewrite D3, decode_emit by lia. change (2 - 2) with 0.
  rewrite (proj2 (proj2 (emitted v z' Hv))), E3. rewrite <- app_assoc. eauto.
Qed.

Lemma decode_encode_loop n data acc out :
  (length data <= n)%nat -> bytes_ok data ->
  decode_loop (base64UrlEncode data) acc 0 out = Some (out ++ data).
Proof.
  revert data acc out. induction n as [|n IH]; intros data acc out Hn Hd.
  { destruct data; simpl in *; [by rewrite app_nil_r|lia]. }
  assert (is_byte 0) as H0 by (unfold is_byte; lia).
  destruct data as [|a [|b [|c rest]]]; cbn [base64UrlEncode].
  - by rewrite app_nil_r.
  - apply Forall_cons in Hd as [Ha _]. rewrite pack1 by done.
    destruct (decode_group a 0 0 [] acc out Ha H0 H0) as [[acc' E] _]. by rewrite E.
  - apply Forall_cons in Hd as [Ha [Hb _]%Forall_cons]. rewrite pack2 by done.
    destruct (decode_group a b 0 [] acc out Ha Hb H0) as [_ [[acc' E] _]]. by rewrite E.
  - apply Forall_cons in Hd as [Ha [Hb [Hc Hr]%Forall_cons]%Forall_cons]. rewrite pack by done.
    destruct (decode_group a b c (base64UrlEncode rest) acc out Ha Hb Hc) as [_ [_ [acc' E]]].
    rewrite E, IH by (done || (simpl in Hn; lia)). by rewrite <- app_assoc.
Qed.

Lemma base64_round_trip data : bytes_ok data -> base64UrlDecode (base64UrlEncode data) = Some data.
Proof. intros Hd. by apply (decode_encode_loop (length data)). Qed.

(** Decoding fails exactly on a foreign character. *)
Lemma decode_loop_None inp acc bits out :
  decode_loop inp acc bits out = None <-> Exists (fun c => val c < 0) inp.
Proof.
  revert acc bits out. induction inp as [|c inp IH]; intros acc bits out.
  - split; [done|]. by intros ?%Exists_nil.
  - cbn [decode_loop]. rewrite Exists_cons. destruct (Z.ltb_spec (val c) 0); [tauto|].
    destruct (8 <=? bits + 6); rewrite IH; split; auto; (intros [?|?]; [lia|done]).
Qed.

Lemma val_nonneg c : 0 <= val c <-> c ∈ tbl.
Proof.
  assert (Forall (fun c => 0 <= val c) tbl) as Hall by decide_goal.
  split; [|intros Hc; rewrite Forall_forall in Hall; by apply Hall].
  unfold val. intros Hc.
  assert (65 <= c <= 90 \/ 97 <= c <= 122 \/ 48 <= c <= 57 \/ c = 45 \/ c = 95) as Hr
    by (repeat case_match; to_prop; lia).
  assert (Forall (fun c => c ∈ tbl) (seqZ 65 26 ++ seqZ 97 26 ++ seqZ 48 10 ++ [45; 95])) as Hf
    by decide_goal.
  rewrite Forall_forall in Hf. apply Hf. rewrite !elem_of_app, !elem_of_seqZ.
  rewrite elem_of_cons, list_elem_of_singleton. lia.
Qed.

Lemma valid_prefix_id s : Forall (fun c => c ∈ tbl) s -> valid_prefix s = s.
Proof.
  induction 1 as [|c s Hc _ IH]; [done|]. cbn [valid_prefix]. apply val_nonneg in Hc.
  rewrite (proj2 (Z.ltb_ge _ _)) by done. by rewrite IH.
Qed.

Lemma sextet_tbl v k : 0 <= k -> sextet v k ∈ tbl.
Proof. intros Hk. apply val_nonneg. rewrite val_sextet by done. apply digit_range. Qed.

Lemma encode_tbl n data : (length data <= n)%nat -> Forall (fun c => c ∈ tbl) (base64UrlEncode data).
Proof.
  revert data. induction n as [|n IH]; intros data Hn.
  { destruct data; simpl in *; [done|lia]. }
  destruct data as [|a [|b [|c rest]]]; cbn [base64UrlEncode];
    repeat (apply Forall_cons; split; [apply sextet_tbl; lia|]); try done.
  apply IH. simpl in Hn. lia.
Qed.

Lemma encode_length n data :
  (length data <= n)%nat -> length (base64UrlEncode data) = ((length data * 4 + 2) / 3)%nat.
Proof.
  revert data. induction n as [|n IH]; intros data Hn.
  { destruct data; simpl in *; [done|lia]. }
  destruct data as [|a [|b [|c rest]]]; cbn [base64UrlEncode length]; try done.
  rewrite IH by (simpl in Hn; lia).
  replace (S (S (S (length rest))) * 4 + 2)%nat with (length rest * 4 + 2 + 4 * 3)%nat by lia.
  rewrite Nat.div_add by lia. lia.
Qed.

(** ** Recovery keys *)

Lemma grouped_no_dash i body :
  Forall (fun c => ~ (c = DASH \/ c = SPACE)) body ->
  filter (fun c => ~ (c = DASH \/ c = SPACE)) (grouped i body) = body.
Proof.
  intros Hb. revert i. induction Hb as [|c body Hc _ IH]; intros i; [done|]. cbn [grouped].
  rewrite filter_app, IH. case_bool_decide; rewrite ?filter_cons, filter_nil.
  - rewrite decide_False by (intros Hx; apply Hx; by left). by rewrite decide_True.
  - by rewrite decide_True.
Qed.

Lemma toupper_filter s :
  Forall (fun c => ~ (c = DASH \/ c = SPACE)) (map toupper (filter (fun c => ~ (c = DASH \/ c = SPACE)) s)).
Proof.
  apply Forall_map, Forall_forall. intros c Hc. apply list_elem_of_filter in Hc as [Hc _].
  simpl. unfold toupper, is_lower. split_ifs; to_prop; lia.
Qed.

Lemma map_toupper_idemp s : Forall (fun c => toupper c = c) s -> map toupper s = s.
Proof. induction 1 as [|c s Hc _ IH]; [done|]. simpl. by rewrite Hc, IH. Qed.

(** Normalizing a displayed key gives the key back. *)
Lemma normalize_displayed body :
  length body = 20%nat -> Forall (fun c => ~ (c = DASH \/ c = SPACE)) body ->
  Forall (fun c => toupper c = c) body ->
  normalizeRecoveryKey (lit "NPSYNC-" ++ grouped 0 body) = Some (lit "NPSYNC-" ++ grouped 0 body).
Proof.
  intros Hl Hd Hu. unfold normalizeRecoveryKey. rewrite filter_app, (grouped_no_dash 0 body Hd).
  assert (filter (fun c => ~ (c = DASH \/ c = SPACE)) (lit "NPSYNC-") = key_prefix) as -> by decide_goal.
  rewrite map_app, (map_toupper_idemp body Hu).
  assert (map toupper key_prefix = key_prefix) as -> by done.
  rewrite starts_with_app, drop_app_length. by rewrite bool_decide_false by lia.
Qed.

Lemma toupper_toupper s : Forall (fun c => toupper c = c) (map toupper s).
Proof. apply Forall_map, Forall_forall. intros c _. apply toupper_idemp. Qed.

Lemma normalize_body inp n :
  normalizeRecoveryKey inp = Some n ->
  exists body, n = lit "NPSYNC-" ++ grouped 0 body /\ length body = 20%nat /\
    Forall (fun c => ~ (c = DASH \/ c = SPACE)) body /\ Forall (fun c => toupper c = c) body.
Proof.
  unfold normalizeRecoveryKey. set (b := map toupper _). case_bool_decide as Hl; [done|].
  intros [= <-].
  exists (if starts_with key_prefix b then drop (length key_prefix) b else b).
  split_and!; [done|exact Hl| |].
  - destruct (starts_with key_prefix b); [apply Forall_drop|]; apply toupper_filter.
  - destruct (starts_with key_prefix b); [apply Forall_drop|]; apply toupper_toupper.
Qed.

Lemma length_grouped body : length body = 20%nat -> length (grouped 0 body) = 24%nat.
Proof.
  intros Hl. do 20 (destruct body as [|? body]; [done|]). destruct body; [done|done].
Qed.

End CryptoFacts.

(** * The claims *)

Module CryptoSpec.
Import Crypto CryptoFacts.

Section cng.
Context `{CNGLaws}.

(** C6: what [encrypt] produces [decrypt] opens, with the same key and the
    same context string, for every plaintext, the empty one included; the
    envelope is 33 bytes longer than the plaintext and consumes 12 fresh
    random bytes as its nonce. Conversely [decrypt] yields a plaintext only
    for the very envelope that encrypting that plaintext with its nonce makes:
    a changed, truncated or transplanted envelope is never accepted as one of
    another plaintext. *)
Theorem envelope_roundtrip_authentic (key p env : Bytes) (aad : str) :
  (forall r r', encrypt key p aad r = (Ok env, r') ->
     decrypt key env aad = Ok (Some p) /\ length env = (headerLen + length p)%nat /\
     exists nonce, r = nonce ++ r' /\ length nonce = kGcmNonceLen /\
       slice 5 (5 + kGcmNonceLen) env = nonce) /\
  (decrypt key env aad = Ok (Some p) ->
     forall r', encrypt key p aad (slice 5 (5 + kGcmNonceLen) env ++ r') = (Ok env, r')).
Proof.
  split.
  - intros r r' (nonce&ct&tag&->&Hn&Hk&E&->)%encrypt_Ok.
    destruct (gcm_sizes _ _ _ _ _ _ E) as [Hc Ht].
    destruct (envelope_parts nonce tag ct Hn Ht) as (El&_&_&En&_).
    split_and!; [|by rewrite El, Hc|by exists nonce].
    apply (decrypt_encrypt _ _ _ (nonce ++ r') _ r'). apply encrypt_Ok. by exists nonce, ct, tag.
  - intros Hd r'. apply decrypt_cases in Hd as [?|(nonce&tag&ct&->&Hn&Ht&Hd)]; [done|].
    destruct (envelope_parts nonce tag ct Hn Ht) as (_&_&_&En&_). rewrite En.
    unfold aesGcmDecrypt in Hd. case_bool_decide as Hb; [done|]. case_bool_decide; [done|].
    injection Hd as Hd. apply encrypt_Ok. exists nonce, ct, tag. split_and!; try done; [lia|].
    by apply gcm_encrypt_decrypt.
Qed.

(** [decrypt] fails closed. An envelope that is too short or has another
    magic or algorithm byte gives false; with a 32-byte key no input at all
    makes it throw, and an envelope that authentication refuses gives false
    and leaves the out-parameter alone; with a key of another length a
    well-formed header throws invalid_argument instead of returning. *)
Theorem decrypt_fails_closed (key env : Bytes) (aad : str) :
  let header_ok := (headerLen <= length env)%nat /\ take 4 env = kEnvelopeMagic /\
                   env !! 4%nat = Some kAlgAes256Gcm in
  (~ header_ok -> decrypt key env aad = Ok None) /\
  (length key = kMasterKeyLen -> exists out, decrypt key env aad = Ok out) /\
  (header_ok -> length key <> kMasterKeyLen -> decrypt key env aad = Throw invalid_argument).
Proof.
  intros header_ok. split_and!.
  - intros Hh. unfold decrypt. case_decide; [done|].
    destruct (bool_decide (take 4 env = _)) eqn:Em; [|done].
    destruct (bool_decide (env !! 4%nat = _)) eqn:Ea; [|done]. exfalso.
    apply bool_decide_eq_true in Em, Ea. apply Hh. split_and!; [lia|done|done].
  - intros Hk. destruct (decrypt_cases key env aad _ eq_refl) as [->|(nonce&tag&ct&_&Hn&Ht&->)]; [eauto|].
    unfold aesGcmDecrypt. rewrite !bool_decide_false by naive_solver. eauto.
  - intros (Hl&Hm&Ha) Hk. unfold decrypt. rewrite decide_False by lia.
    rewrite !bool_decide_true by done. cbn [negb]. unfold aesGcmDecrypt.
    rewrite bool_decide_true; [done|by left].
Qed.
End cng.

Definition toy_key : Bytes := replicate 32 7.
Definition toy_rng : rng := map Z.of_nat (seq 0 64).
Definition toy_env : Bytes :=
  match @encrypt toy_cng toy_key (lit "hello") (lit "file") toy_rng with
  | (Ok e, _) => e
  | _ => []
  end.

Lemma envelope_roundtrip_authentic_witness :
  @decrypt toy_cng toy_key toy_env (lit "file") = Ok (Some (lit "hello")) /\
  @decrypt toy_cng toy_key toy_env (lit "meta") = Ok None.
Proof.
  split; [|vm_compute; reflexivity].
  refine (proj1 (proj1 (@envelope_roundtrip_authentic toy_cng toy_cng_laws toy_key (lit "hello")
    toy_env (lit "file")) toy_rng (drop 12 toy_rng) _)).
  vm_compute. reflexivity.
Defined.

Lemma decrypt_fails_closed_witness :
  @decrypt toy_cng toy_key (lit "NPS2") (lit "file") = Ok None /\
  @decrypt toy_cng [] toy_env (lit "file") = Throw invalid_argument.
Proof.
  split.
  - refine (proj1 (@decrypt_fails_closed toy_cng toy_key (lit "NPS2") (lit "file")) _).
    intros (Hl&_). unfold headerLen, kGcmNonceLen, kGcmTagLen in Hl. simpl in Hl. lia.
  - refine (proj2 (proj2 (@decrypt_fails_closed toy_cng [] toy_env (lit "file"))) _ _); decide_goal.
Defined.

(** Base64url without padding round-trips every byte string; the encoder
    emits ceil(4n/3) characters of the URL alphabet; the decoder fails exactly
    when some character is outside the alphabet, and it is not injective: a
    dangling character and non-zero trailing bits are accepted and ignored. *)
Theorem base64url_roundtrip (data : Bytes) (inp : str) :
  (bytes_ok data -> base64UrlDecode (base64UrlEncode data) = Some data) /\
  Forall (fun c => c ∈ tbl) (base64UrlEncode data) /\
  length (base64UrlEncode data) = ((length data * 4 + 2) / 3)%nat /\
  (base64UrlDecode inp = None <-> Exists (fun c => c ∉ tbl) inp) /\
  base64UrlDecode (lit "YQ") = base64UrlDecode (lit "YR") /\
  base64UrlDecode (lit "YQ") = Some (lit "a") /\ base64UrlDecode (lit "Y") = Some [].
Proof.
  split_and!; [| | | |vm_compute; reflexivity..].
  - apply base64_round_trip.
  - by apply (encode_tbl (length data)).
  - by apply (encode_length (length data)).
  - unfold base64UrlDecode. rewrite decode_loop_None.
    split; intros Hx; (eapply Exists_impl; [exact Hx|]); intros c; simpl; rewrite <- val_nonneg; lia.
Qed.

Lemma base64url_roundtrip_witness :
  let d := [0; 255; 16; 131; 7] in
  base64UrlEncode d = lit "AP8Qgwc" /\ base64UrlDecode (base64UrlEncode d) = Some d.
Proof.
  split; [vm_compute; reflexivity|].
  apply (base64url_roundtrip [0; 255; 16; 131; 7] []). decide_goal.
Defined.

Lemma alphabet_at_31 b : is_byte b -> alphabet_at (b mod 32) = NUL <-> b mod 32 = 31.
Proof.
  intros Hb. assert (0 <= b mod 32 < 32) as Hr by (apply Z.mod_pos_bound; lia).
  apply (Forall_seqZ (fun i => alphabet_at i = NUL <-> i = 31) 0 32); [decide_goal|lia].
Qed.

Lemma alphabet_at_ok b :
  ~ (alphabet_at (b mod 32) = DASH \/ alphabet_at (b mod 32) = SPACE) /\
  toupper (alphabet_at (b mod 32)) = alphabet_at (b mod 32).
Proof.
  assert (0 <= b mod 32 < 32) as Hr by (apply Z.mod_pos_bound; lia).
  apply (Forall_seqZ (fun i => ~ (alphabet_at i = DASH \/ alphabet_at i = SPACE) /\
    toupper (alphabet_at i) = alphabet_at i) 0 32); [decide_goal|lia].
Qed.

(** The recovery key. [generateRecoveryKey] turns 20 random bytes into
    NPSYNC- and five groups of four, 31 characters that [normalizeRecoveryKey]
    maps to themselves; normalization accepts any case, spacing and dashes and
    is idempotent. But the alphabet has 31 symbols and the index runs over 32:
    the key contains a NUL character exactly when some random byte is 31
    modulo 32. *)
Theorem recovery_key_display (r r' : rng) (key inp n : str) :
  length alphabet = 31%nat /\
  (generateRecoveryKey r = (Ok key, r') -> Forall is_byte r ->
     length key = 31%nat /\ normalizeRecoveryKey key = Some key /\
     (NUL ∈ key <-> Exists (fun b => b mod 32 = 31) (take 20 r))) /\
  (normalizeRecoveryKey inp = Some n -> normalizeRecoveryKey n = Some n).
Proof.
  split_and!; [done| |].
  - unfold generateRecoveryKey. intros (raw&r1&Hr&Hk)%bind_Ok Hb. apply ret_Ok in Hk as [-> ->].
    apply random_Ok in Hr as (Hl&->&_). set (body := map _ raw).
    assert (length body = 20%nat) as Hlb by (unfold body; by rewrite length_map).
    assert (Forall (fun c => ~ (c = DASH \/ c = SPACE)) body) as Hd
      by (apply Forall_map, Forall_forall; intros b _; apply alphabet_at_ok).
    assert (Forall (fun c => toupper c = c) body) as Hu
      by (apply Forall_map, Forall_forall; intros b _; apply alphabet_at_ok).
    split_and!.
    + rewrite length_app, length_grouped by done. done.
    + by apply normalize_displayed.
    + rewrite <- Hl, take_app_length.
      assert (NUL ∈ lit "NPSYNC-" ++ grouped 0 body <-> NUL ∈ body) as ->.
      { rewrite <- (grouped_no_dash 0 body Hd) at 2. rewrite list_elem_of_filter, elem_of_app.
        split; [intros [Hx|?]|]; [|split; [lia|done]|tauto].
        exfalso. revert Hx. decide_goal. }
      apply Forall_app in Hb as [Hb _]. unfold body. rewrite Exists_exists, list_elem_of_fmap.
      rewrite Forall_forall in Hb. split; intros (b&H1&H2); exists b;
        [split; [done|]; by apply alphabet_at_31; [apply Hb|]
        |split; [|done]; symmetry; by apply alphabet_at_31; [apply Hb|]].
  - intros (body&->&Hl&Hd&Hu)%normalize_body. by apply normalize_displayed.
Qed.

Lemma recovery_key_display_witness :
  let r := [0; 31; 2; 3; 4; 5; 6; 7; 8; 9; 10; 11; 12; 13; 14; 15; 16; 17; 18; 19] in
  normalizeRecoveryKey (lit "npsync abcd efgh jkmn pqrs tuvw") = Some (lit "NPSYNC-ABCD-EFGH-JKMN-PQRS-TUVW") /\
  match generateRecoveryKey r with (Ok key, _) => NUL ∈ key | _ => False end.
Proof.
  split; [vm_compute; reflexivity|].
  refine (proj2 (proj2 (proj2 (proj1 (proj2 (recovery_key_display
    [0; 31; 2; 3; 4; 5; 6; 7; 8; 9; 10; 11; 12; 13; 14; 15; 16; 17; 18; 19] []
    (lit "NPSYNC-" ++ grouped 0 (map (fun b => alphabet_at (b mod 32))
      [0; 31; 2; 3; 4; 5; 6; 7; 8; 9; 10; 11; 12; 13; 14; 15; 16; 17; 18; 19])) [] []))
    _ _))) _); decide_goal.
Defined.

End CryptoSpec.
