(* ===== verification/KeySetup.v ===== *)
(** * KeySetup: core/KeySetup.cpp, who holds the account master key

    Pairing codes, the wrapped key that travels through the server, and the
    first-run decision. Built on [Crypto] and the JSON interface. *)
From S2P Require Import Prelude Text Platform Crypto.
Import Crypto CryptoFacts.

#[local] Open Scope monad_scope.

Module KeySetup.

Definition pairingAlphabet (c : Z) : bool := bool_decide (c ∈ lit "ABCDEFGHJKMNPQRSTUVWXYZ23456789").

(** The loop of [normalizePairingCode]; [None] is [return false]. *)
Fixpoint scan_code (inp raw : str) : option str :=
  match inp with
  | [] => Some raw
  | ch :: inp' =>
      if (ch =? SPACE) || (ch =? DASH) || (ch =? TAB) then scan_code inp' raw
      else
        let ch := if (97 <=? ch) && (ch <=? 122) then ch - 97 + 65 else ch in
        if (127 <? ch) || negb (pairingAlphabet ch) then None
        else scan_code inp' (raw ++ [ch])
  end.

Definition normalizePairingCode (inp : str) : option str :=
  match scan_code inp [] with
  | None => None
  | Some raw =>
      if bool_decide (length raw <> 8%nat) then None
      else Some (take 4 raw ++ [DASH] ++ drop 4 raw)
  end.

Definition payload_of (salt wrapped : Bytes) : json :=
  JObj [(lit "salt", JStr (base64UrlEncode salt)); (lit "wrapped", JStr (base64UrlEncode wrapped))].

Section cng.
Context `{CNG} `{Json}.

Definition wrapMasterKeyForPairing (masterKey : Bytes) (code : str) : M rng str :=
  match normalizePairingCode code with
  | None => ret []
  | Some normalized =>
      if bool_decide (length masterKey <> kMasterKeyLen) then ret []
      else
        let* salt := random 16 in
        let* wrapping := lift (deriveKeyFromCode normalized salt) in
        let* wrapped := wrapMasterKey masterKey wrapping in
        let* dumped := lift (json_dump (payload_of salt wrapped)) in
        ret (base64UrlEncode dumped)
  end.

(** The returned boolean, and what was written to [masterKeyOut], if anything. *)
Definition installWrappedMasterKey (wrappedPayloadB64 code : str) : outcome (bool * option Bytes) :=
  (match normalizePairingCode code with
   | None => Ok (false, None)
   | Some normalized =>
       match base64UrlDecode wrappedPayloadB64 with
       | None | Some [] => Ok (false, None)
       | Some blob =>
           match json_parse blob with
           | None => Ok (false, None)
           | Some payload =>
               let! salt64 := value_str payload (lit "salt") [] in
               match base64UrlDecode salt64 with
               | None => Ok (false, None)
               | Some salt =>
                   let! wrapped64 := value_str payload (lit "wrapped") [] in
                   match base64UrlDecode wrapped64 with
                   | None => Ok (false, None)
                   | Some wrapped =>
                       let! wrapping := deriveKeyFromCode normalized salt in
                       unwrapMasterKey wrapped wrapping
                   end
               end
           end
       end
   end)%outcome.
End cng.

Inductive WizardKeyOutcome := KeptExisting | CreatedNew | RefusedToMint.

(** The outcome and the master key afterwards. *)
Definition applyWizardKeyStep (masterKey : Bytes) (createIfMissing : bool)
    : M rng (WizardKeyOutcome * Bytes) :=
  if bool_decide (length masterKey = kMasterKeyLen) then ret (KeptExisting, masterKey)
  else if negb createIfMissing then ret (RefusedToMint, masterKey)
  else
    let* key := generateMasterKey in
    ret (CreatedNew, key).

End KeySetup.

(** * Lemmas *)

Module KeySetupFacts.
Import KeySetup.

Definition is_sep (c : Z) : bool := (c =? SPACE) || (c =? DASH) || (c =? TAB).

(** The symbols of a code: separators dropped, letters in upper case. *)
Definition symbols (inp : str) : str := map toupper (filter (fun c => is_sep c = false) inp).

Lemma upper_eq ch : (if (97 <=? ch) && (ch <=? 122) then ch - 97 + 65 else ch) = toupper ch.
Proof. unfold toupper, is_lower. split_ifs; lia. Qed.

Lemma pairing_range c : pairingAlphabet c = true -> 50 <= c <= 90 /\ toupper c = c /\ is_sep c = false.
Proof.
  unfold pairingAlphabet. rewrite bool_decide_eq_true. intros Hc.
  assert (Forall (fun c => 50 <= c <= 90 /\ toupper c = c /\ is_sep c = false)
    (lit "ABCDEFGHJKMNPQRSTUVWXYZ23456789")) as Hf by decide_goal.
  rewrite Forall_forall in Hf. by apply Hf.
Qed.

Lemma scan_code_spec inp raw out :
  scan_code inp raw = Some out <->
  out = raw ++ symbols inp /\ Forall (fun c => pairingAlphabet c = true) (symbols inp).
Proof.
  revert raw. induction inp as [|ch inp IH]; intros raw; cbn [scan_code].
  { rewrite app_nil_r. split; [by intros [= <-]|by intros [-> _]]. }
  unfold symbols. rewrite filter_cons. fold (is_sep ch). destruct (is_sep ch) eqn:Es.
  { rewrite decide_False by done. apply IH. }
  rewrite decide_True by done. rewrite upper_eq. cbn [map].
  change (map toupper (filter _ inp)) with (symbols inp).
  destruct (pairingAlphabet (toupper ch)) eqn:Ep; cbn [negb].
  - destruct (pairing_range _ Ep) as (?&_). rewrite (proj2 (Z.ltb_ge _ _)) by lia. cbn [orb].
    rewrite IH, Forall_cons, <- app_assoc. naive_solver.
  - rewrite orb_true_r. split; [done|]. intros [_ [Hx _]%Forall_cons]. congruence.
Qed.

Lemma normalizePairingCode_spec inp n :
  normalizePairingCode inp = Some n <->
  n = take 4 (symbols inp) ++ [DASH] ++ drop 4 (symbols inp) /\ length (symbols inp) = 8%nat /\
  Forall (fun c => pairingAlphabet c = true) (symbols inp).
Proof.
  unfold normalizePairingCode. destruct (scan_code inp []) as [raw|] eqn:E.
  - apply scan_code_spec in E as [-> Hf]. cbn [app]. case_bool_decide; [naive_solver|].
    split; [intros [= <-]; split_and!; [done|lia|done]|by intros [-> _]].
  - split; [done|]. intros (_&_&Hf).
    assert (scan_code inp [] = Some (symbols inp)) by (by apply scan_code_spec). congruence.
Qed.

Lemma symbols_app a b : symbols (a ++ b) = symbols a ++ symbols b.
Proof. unfold symbols. by rewrite filter_app, map_app. Qed.

Lemma symbols_id s : Forall (fun c => pairingAlphabet c = true) s -> symbols s = s.
Proof.
  induction 1 as [|c s Hc _ IH]; [done|]. unfold symbols in *.
  destruct (pairing_range _ Hc) as (_&Hu&Hs). rewrite filter_cons, decide_True by done.
  cbn [map]. by rewrite Hu, IH.
Qed.

Lemma tbl_ascii s : Forall (fun c => c ∈ tbl) s -> ascii_str s.
Proof.
  intros Hs. eapply Forall_impl; [exact Hs|]. simpl.
  assert (Forall (fun c => 0 <= c < 128) tbl) as Hf by decide_goal.
  rewrite Forall_forall in Hf. apply Hf.
Qed.

Lemma payload_ok salt wrapped :
  ascii_json (payload_of salt wrapped) /\ sorted_json (payload_of salt wrapped).
Proof.
  assert (forall d, ascii_str (base64UrlEncode d)) as Ha
    by (intros d; by apply tbl_ascii, (encode_tbl (length d))).
  split; [|by vm_compute]. unfold payload_of. cbn [ascii_json]. split_and!; try apply Ha; try done;
    decide_goal.
Qed.

Section cng.
Context `{CNGLaws} `{JsonLaws}.

(** Opening a wrapped key with the code that sealed it. *)
Lemma install_wrapped mk code1 code2 r blob r' :
  bytes_ok mk -> Forall is_byte r ->
  wrapMasterKeyForPairing mk code1 r = (Ok blob, r') -> blob <> [] ->
  normalizePairingCode code2 = normalizePairingCode code1 ->
  installWrappedMasterKey blob code2 = Ok (true, Some mk).
Proof.
  intros Hmk Hr Hw Hne Hcode. unfold wrapMasterKeyForPairing in Hw.
  destruct (normalizePairingCode code1) as [n|] eqn:En; [|by apply ret_Ok in Hw as [-> _]].
  case_bool_decide as Hlen; [by apply ret_Ok in Hw as [-> _]|].
  apply bind_Ok in Hw as (salt&r1&Hsalt&Hw). apply random_Ok in Hsalt as (_&->&_).
  apply Forall_app in Hr as [Hsalt Hr1].
  apply bind_Ok in Hw as (wk&r2&Hk&Hw). unfold lift in Hk. injection Hk as Hk <-.
  apply bind_Ok in Hw as (wrapped&r3&Hwr&Hw).
  apply bind_Ok in Hw as (dumped&r4&Hd&Hw). unfold lift in Hd. injection Hd as Hd <-.
  apply ret_Ok in Hw as [-> ->]. apply encrypt_Ok in Hwr as (nonce&ct&tag&->&Hn&Hkl&E&->).
  apply Forall_app in Hr1 as [Hnonce _].
  destruct (gcm_sizes _ _ _ _ _ _ E) as [_ Ht]. destruct (gcm_bytes _ _ _ _ _ _ Hmk E) as [Hct Htag].
  assert (bytes_ok (envelope_of nonce tag ct)) as Henv.
  { unfold envelope_of, bytes_ok. rewrite !Forall_app. split_and!; try done; decide_goal. }
  destruct (payload_ok salt (envelope_of nonce tag ct)) as [Pa Ps].
  destruct (json_round_trip _ Pa Ps) as (s&Es&Hs&Hsne&Hp). rewrite Hd in Es. injection Es as ->.
  unfold installWrappedMasterKey. rewrite Hcode, base64_round_trip by done.
  destruct s as [|c s]; [done|]. rewrite Hp.
  cbn [value_str value payload_of member get_str obind].
  rewrite decide_True by done. cbn [get_str obind]. rewrite base64_round_trip by done.
  rewrite decide_False by done. rewrite decide_True by done. cbn [get_str obind].
  rewrite base64_round_trip by done. rewrite Hk. cbn [obind]. unfold unwrapMasterKey.
  rewrite decrypt_envelope by done. unfold aesGcmDecrypt.
  rewrite !(bool_decide_false) by naive_solver.
  rewrite (gcm_decrypt_encrypt _ _ _ _ _ _ E). cbn [obind].
  by rewrite bool_decide_true by lia.
Qed.

(** A true result carries a 32-byte key sealed under the code. *)
Lemma install_true blob code out :
  installWrappedMasterKey blob code = Ok (true, out) ->
  exists mk n salt wrapped wk, out = Some mk /\ length mk = kMasterKeyLen /\
    normalizePairingCode code = Some n /\ deriveKeyFromCode n salt = Ok wk /\
    decrypt wk wrapped keywrap_aad = Ok (Some mk).
Proof.
  unfold installWrappedMasterKey. destruct (normalizePairingCode code) as [n|]; [|done].
  destruct (base64UrlDecode blob) as [[|c b]|]; [done| |done].
  destruct (json_parse (c :: b)) as [payload|]; [|done].
  intros (salt64&_&Hx)%obind_Ok. destruct (base64UrlDecode salt64) as [salt|]; [|done].
  apply obind_Ok in Hx as (w64&_&Hx). destruct (base64UrlDecode w64) as [wrapped|]; [|done].
  apply obind_Ok in Hx as (wk&Hwk&Hx). unfold unwrapMasterKey in Hx.
  apply obind_Ok in Hx as ([mk|]&Hd&Hx); [|done]. injection Hx as Hb <-.
  apply bool_decide_eq_true in Hb. by exists mk, n, salt, wrapped, wk.
Qed.
End cng.

End KeySetupFacts.

(** * The claims *)

Module KeySetupSpec.
Import KeySetup KeySetupFacts.

(** Pairing codes have one normal form. A code is accepted exactly when
    dropping spaces, tabs and dashes and folding case leaves eight symbols of
    the pairing alphabet; the result is those symbols as XXXX-XXXX; it is a
    fixed point of normalization; so two spellings of the same symbols derive
    the same wrapping key. *)
Theorem pairing_code_normal_form (inp inp' n : str) :
  (normalizePairingCode inp = Some n <->
     n = take 4 (symbols inp) ++ [DASH] ++ drop 4 (symbols inp) /\ length (symbols inp) = 8%nat /\
     Forall (fun c => pairingAlphabet c = true) (symbols inp)) /\
  (normalizePairingCode inp = Some n -> normalizePairingCode n = Some n) /\
  (symbols inp = symbols inp' -> normalizePairingCode inp = normalizePairingCode inp').
Proof.
  split_and!; [apply normalizePairingCode_spec| |].
  - intros (->&Hl&Hf)%normalizePairingCode_spec. apply normalizePairingCode_spec.
    assert (symbols (take 4 (symbols inp) ++ [DASH] ++ drop 4 (symbols inp)) = symbols inp) as ->.
    { rewrite !symbols_app, (symbols_id (take 4 _)) by (by apply Forall_take).
      rewrite (symbols_id (drop 4 _)) by (by apply Forall_drop).
      change (symbols [DASH]) with (@nil Z). apply take_drop. }
    done.
  - intros E. destruct (normalizePairingCode inp) as [m|] eqn:E1.
    + symmetry. apply normalizePairingCode_spec in E1. apply normalizePairingCode_spec. by rewrite <- E.
    + destruct (normalizePairingCode inp') as [m|] eqn:E2; [|done].
      apply normalizePairingCode_spec in E2. rewrite <- E in E2.
      apply normalizePairingCode_spec in E2. congruence.
Qed.

Lemma pairing_code_normal_form_witness :
  normalizePairingCode (lit " ab2c defg") = Some (lit "AB2C-DEFG") /\
  normalizePairingCode (lit "AB2C-DEFG") = Some (lit "AB2C-DEFG") /\
  normalizePairingCode (lit "AB0C-DEFG") = None.
Proof.
  split; [vm_compute; reflexivity|]. split; [|vm_compute; reflexivity].
  refine (proj1 (proj2 (pairing_code_normal_form (lit " ab2c defg") [] (lit "AB2C-DEFG"))) _).
  vm_compute. reflexivity.
Defined.

Section cng.
Context `{CNGLaws} `{JsonLaws}.

(** The master key survives pairing and nothing else does. A key wrapped
    for a code installs on another computer with any spelling of that code and
    gives the same key; and installation reports success only with a 32-byte
    key that was sealed under the key derived from the typed code (by [envelope_roundtrip_authentic] the
    envelope is exactly the one sealing that key makes), never on a malformed
    code, blob or payload. *)
Theorem master_key_pairing (mk : Bytes) (code1 code2 blob : str) (r r' : rng) :
  (bytes_ok mk -> Forall is_byte r ->
   wrapMasterKeyForPairing mk code1 r = (Ok blob, r') -> blob <> [] ->
   normalizePairingCode code2 = normalizePairingCode code1 ->
   installWrappedMasterKey blob code2 = Ok (true, Some mk)) /\
  (forall out, installWrappedMasterKey blob code1 = Ok (true, out) ->
   exists mk n salt wrapped wk, out = Some mk /\ length mk = kMasterKeyLen /\
     normalizePairingCode code1 = Some n /\ deriveKeyFromCode n salt = Ok wk /\
     decrypt wk wrapped keywrap_aad = Ok (Some mk)) /\
  (normalizePairingCode code1 = None \/ length mk <> kMasterKeyLen ->
   wrapMasterKeyForPairing mk code1 r = (Ok [], r)).
Proof.
  split_and!; [by apply install_wrapped|apply install_true|].
  unfold wrapMasterKeyForPairing. intros [->|Hl]; [done|].
  rewrite bool_decide_true by done. by destruct (normalizePairingCode code1).
Qed.
End cng.

(** First-run setup never replaces a key. A 32-byte key on the device is
    kept whatever the user answered, without touching the random generator;
    without a key one is minted only when the user said this is the first
    computer, and it is then the 32 bytes the generator gave; otherwise the
    step refuses and changes nothing. *)
Theorem wizard_never_replaces_key (mk : Bytes) (createIfMissing : bool) (r r' : rng)
    (o : WizardKeyOutcome) (mk' : Bytes)
    (Hrun : applyWizardKeyStep mk createIfMissing r = (Ok (o, mk'), r')) :
  (length mk = kMasterKeyLen -> o = KeptExisting /\ mk' = mk /\ r' = r) /\
  (o = CreatedNew <-> length mk <> kMasterKeyLen /\ createIfMissing = true) /\
  (o = CreatedNew -> length mk' = kMasterKeyLen /\ r = mk' ++ r') /\
  (o <> CreatedNew -> mk' = mk /\ r' = r) /\
  (o = RefusedToMint <-> length mk <> kMasterKeyLen /\ createIfMissing = false).
Proof.
  revert Hrun. unfold applyWizardKeyStep. case_bool_decide as Hl.
  { intros [[= -> ->] ->]%ret_Ok. split_and!; naive_solver. }
  destruct createIfMissing; cbn [negb].
  - intros (key&r1&Hr&[[= -> ->] ->]%ret_Ok)%bind_Ok. apply random_Ok in Hr as (Hk&->&_).
    split_and!; naive_solver.
  - intros [[= -> ->] ->]%ret_Ok. split_and!; naive_solver.
Qed.

Definition toy_master : Bytes := map Z.of_nat (seq 100 32).

Lemma wizard_never_replaces_key_witness :
  let r := map Z.of_nat (seq 0 64) in
  applyWizardKeyStep toy_master true r = (Ok (KeptExisting, toy_master), r) /\
  (KeptExisting = KeptExisting /\ toy_master = toy_master /\ r = r).
Proof.
  assert (applyWizardKeyStep toy_master true (map Z.of_nat (seq 0 64)) =
    (Ok (KeptExisting, toy_master), map Z.of_nat (seq 0 64))) as E by (vm_compute; reflexivity).
  split; [exact E|].
  refine (proj1 (wizard_never_replaces_key toy_master true _ _ _ _ E) _). reflexivity.
Defined.

(** The blob another computer receives for the code AB2C-DEFG. *)
Definition toy_blob : str :=
  match @wrapMasterKeyForPairing toy_cng toy_json toy_master (lit "AB2C-DEFG") (map Z.of_nat (seq 0 64)) with
  | (Ok b, _) => b
  | _ => []
  end.

Lemma master_key_pairing_witness :
  toy_blob <> [] /\
  @installWrappedMasterKey toy_cng toy_json toy_blob (lit "ab2c defg") = Ok (true, Some toy_master) /\
  @installWrappedMasterKey toy_cng toy_json toy_blob (lit "AB2C-DEFH") = Ok (false, None).
Proof.
  split; [decide_goal|]. split; [|vm_compute; reflexivity].
  refine (proj1 (@master_key_pairing toy_cng toy_cng_laws toy_json toy_json_laws toy_master
    (lit "AB2C-DEFG") (lit "ab2c defg") toy_blob (map Z.of_nat (seq 0 64))
    (drop 28 (map Z.of_nat (seq 0 64)))) _ _ _ _ _);
    [decide_goal|decide_goal|vm_compute; reflexivity|decide_goal|vm_compute; reflexivity].
Defined.

End KeySetupSpec.
