(* ===== verification/LocalDb.v ===== *)
(** * LocalDb: LocalDb.cpp, the SQLite-backed local state

    Each SQL statement of the file is a function on the tables; a table is the
    list of its rows in rowid order. The handle runs a statement atomically or
    not at all: [faults] tells what the next statements meet ([None] success,
    [Some k] an error, for a query after [k] rows). Text is bound with
    [c_str()], so it ends at its first NUL; times come from the caller
    ([time(nullptr)]). *)
From S2P Require Import Prelude Text VersionVector.
Import VersionVector.

#[local] Open Scope monad_scope.

Module LocalDb.

Record LocalFileState := MkFile {
  fileId : str;
  syncRoot : str;
  f_relPath : str;
  localHash : str;
  remoteHash : str;
  f_remoteVersion : Z;
  versionVector : VersionVector.t;
  deleted : bool;
  modifiedAtLocal : Z
}.

Record PendingOp := MkOp {
  op_id : Z;
  op_kind : str;
  op_relPath : str;
  op_newRelPath : str;
  op_queuedAt : Z;
  op_retryCount : Z;
  op_lastError : str
}.

Record ConflictState := MkConflict {
  c_fileId : str;
  c_relPath : str;
  c_remoteVersion : Z;
  c_localCopyPath : str;
  c_remoteBlobHash : str;
  c_detectedAt : Z
}.

#[export] Instance LocalFileState_eq_dec : EqDecision LocalFileState.
Proof. solve_decision. Defined.
#[export] Instance PendingOp_eq_dec : EqDecision PendingOp.
Proof. solve_decision. Defined.
#[export] Instance ConflictState_eq_dec : EqDecision ConflictState.
Proof. solve_decision. Defined.

(** ** Tables ([kSchema]) *)

Record RootRow := MkRoot { r_id : str; r_abs_path : str; r_is_folder : bool }.

Record FileRow := MkFileRow {
  fr_rel_path : str; fr_file_id : str; fr_sync_root : str; fr_local_hash : str;
  fr_remote_hash : str; fr_remote_version : Z; fr_version_vector : str;
  fr_deleted : Z; fr_modified_local : Z
}.

#[export] Instance RootRow_eq_dec : EqDecision RootRow.
Proof. solve_decision. Defined.
#[export] Instance FileRow_eq_dec : EqDecision FileRow.
Proof. solve_decision. Defined.

Record Tables := MkTables {
  meta : gmap str str;
  sync_roots : list RootRow;
  files : list FileRow;
  pending_ops : list PendingOp;
  seq : Z;  (* sqlite_sequence of pending_ops *)
  conflicts : list ConflictState
}.

#[export] Instance Tables_eq_dec : EqDecision Tables.
Proof. solve_decision. Defined.

Definition empty_tables : Tables := MkTables ∅ [] [] [] 0 [].

Definition set_meta (f : gmap str str -> gmap str str) (t : Tables) : Tables :=
  MkTables (f (meta t)) (sync_roots t) (files t) (pending_ops t) (seq t) (conflicts t).
Definition set_roots (f : list RootRow -> list RootRow) (t : Tables) : Tables :=
  MkTables (meta t) (f (sync_roots t)) (files t) (pending_ops t) (seq t) (conflicts t).
Definition set_files (f : list FileRow -> list FileRow) (t : Tables) : Tables :=
  MkTables (meta t) (sync_roots t) (f (files t)) (pending_ops t) (seq t) (conflicts t).
Definition set_ops (f : list PendingOp -> list PendingOp) (t : Tables) : Tables :=
  MkTables (meta t) (sync_roots t) (files t) (f (pending_ops t)) (seq t) (conflicts t).
Definition set_conflicts (f : list ConflictState -> list ConflictState) (t : Tables) : Tables :=
  MkTables (meta t) (sync_roots t) (files t) (pending_ops t) (seq t) (f (conflicts t)).

(** ** The handle *)

Record Db := MkDb { opened : bool; tables : Tables; faults : list (option nat) }.

#[export] Instance Db_eq_dec : EqDecision Db.
Proof. solve_decision. Defined.

Definition next_fault (d : Db) : option nat := default None (head (faults d)).

(** One statement that changes rows; [upd] is [None] when a constraint fails. *)
Definition stmt_opt (upd : Tables -> option Tables) : M Db bool := fun d =>
  if negb (opened d) then (Ok false, d)
  else
    let d' := MkDb true (tables d) (drop 1 (faults d)) in
    match next_fault d, upd (tables d) with
    | None, Some t => (Ok true, MkDb true t (drop 1 (faults d)))
    | _, _ => (Ok false, d')
    end.

Definition stmt (upd : Tables -> Tables) : M Db bool := stmt_opt (fun t => Some (upd t)).

(** [while (st.stepRow()) out.push_back(...)]. *)
Definition query {A} (rows : Tables -> list A) : M Db (list A) := fun d =>
  if negb (opened d) then (Ok [], d)
  else
    (Ok (match next_fault d with None => rows (tables d) | Some k => take k (rows (tables d)) end),
     MkDb true (tables d) (drop 1 (faults d))).

(** [INSERT ... ON CONFLICT(key) DO UPDATE]: replace the row in place, or
    append. *)
Fixpoint upsert_by {A} (same : A -> bool) (upd : A -> A) (new : A) (rows : list A) : list A :=
  match rows with
  | [] => [new]
  | r :: rows' => if same r then upd r :: rows' else r :: upsert_by same upd new rows'
  end.

(** ** Opening *)

(** The tables of an existing database file persist; a new file has none,
    which [migrate] then creates empty. *)
Definition exec : M Db bool := stmt (fun t => t).

Definition migrate : M Db bool :=
  let* a := exec in if a then exec else ret false.

Definition close : M Db unit := fun d => (Ok tt, MkDb false (tables d) (faults d)).

Definition open_handle : M Db bool := fun d =>
  match next_fault d with
  | None => (Ok true, MkDb true (tables d) (drop 1 (faults d)))
  | Some _ => (Ok false, MkDb false (tables d) (drop 1 (faults d)))
  end.

Definition open : M Db bool :=
  close ;;
  let* ok := open_handle in
  if negb ok then (close ;; ret false)
  else (exec ;; exec ;; exec ;; migrate).

(** ** meta *)

Definition setMeta (key value : str) : M Db bool :=
  stmt (set_meta (fun m => <[c_str key := c_str value]> m)).

Definition getMeta (key : str) : M Db (option str) :=
  let* rows := query (fun t => option_list (meta t !! c_str key)) in
  ret (head rows).

(** ** sync roots *)

Definition addSyncRoot (id absPath_utf8 : str) (isFolder : bool) : M Db bool :=
  stmt (set_roots (upsert_by (fun r => bool_decide (r_id r = c_str id))
    (fun r => MkRoot (r_id r) (c_str absPath_utf8) (r_is_folder r))
    (MkRoot (c_str id) (c_str absPath_utf8) isFolder))).

Definition removeSyncRoot (id : str) : M Db bool :=
  stmt (set_roots (filter (fun r => r_id r <> c_str id))).

(** (id, path in UTF-8) of the rows of one kind. *)
Definition list_roots (folder : bool) : M Db (list (str * str)) :=
  query (fun t => map (fun r => (r_id r, r_abs_path r))
                    (filter (fun r => r_is_folder r = folder) (sync_roots t))).

Definition listSyncRoots : M Db (list (str * str)) := list_roots true.
Definition listSyncFiles : M Db (list (str * str)) := list_roots false.

(** ** files *)

Definition file_row (f : LocalFileState) : FileRow :=
  MkFileRow (c_str (f_relPath f)) (c_str (fileId f)) (c_str (syncRoot f)) (c_str (localHash f))
    (c_str (remoteHash f)) (f_remoteVersion f) (c_str (toJson (versionVector f)))
    (if deleted f then 1 else 0) (modifiedAtLocal f).

(** A row read back; [getFile] puts the path it was asked for. *)
Definition file_of_row (relPath : str) (r : FileRow) : LocalFileState :=
  MkFile (fr_file_id r) (fr_sync_root r) relPath (fr_local_hash r) (fr_remote_hash r)
    (fr_remote_version r) (fromJson (fr_version_vector r)) (negb (fr_deleted r =? 0))
    (fr_modified_local r).

Definition upsertFile (f : LocalFileState) : M Db bool :=
  stmt (set_files (upsert_by (fun r => bool_decide (fr_rel_path r = c_str (f_relPath f)))
    (fun _ => file_row f) (file_row f))).

Definition getFile (relPath : str) : M Db (option LocalFileState) :=
  let* rows := query (fun t => filter (fun r => fr_rel_path r = c_str relPath) (files t)) in
  ret (file_of_row relPath <$> head rows).

Definition allFiles : M Db (list LocalFileState) :=
  query (fun t => map (fun r => file_of_row (fr_rel_path r) r) (files t)).

Definition removeFile (relPath : str) : M Db bool :=
  stmt (set_files (filter (fun r => fr_rel_path r <> c_str relPath))).

(** [UPDATE files SET ... WHERE rel_path=?]. *)
Definition update_file (relPath : str) (upd : FileRow -> FileRow) : M Db bool :=
  stmt (set_files (map (fun r => if bool_decide (fr_rel_path r = c_str relPath) then upd r else r))).

Definition updateRemoteState (relPath remote : str) (version : Z) (vv : VersionVector.t) : M Db bool :=
  update_file relPath (fun r =>
    MkFileRow (fr_rel_path r) (fr_file_id r) (fr_sync_root r) (fr_local_hash r) (c_str remote)
      version (c_str (toJson vv)) (fr_deleted r) (fr_modified_local r)).

Definition updateLocalHash (relPath hash : str) (mtime : Z) : M Db bool :=
  update_file relPath (fun r =>
    MkFileRow (fr_rel_path r) (fr_file_id r) (fr_sync_root r) (c_str hash) (fr_remote_hash r)
      (fr_remote_version r) (fr_version_vector r) (fr_deleted r) mtime).

(** ** pending operations *)

(** [INSERT INTO pending_ops]: AUTOINCREMENT takes the next id, or fails. *)
Definition insert_op (op : PendingOp) (now : Z) (t : Tables) : option Tables :=
  if INT64_MAX <=? seq t then None
  else
    let id := seq t + 1 in
    Some (MkTables (meta t) (sync_roots t) (files t)
      (pending_ops t ++ [MkOp id (c_str (op_kind op)) (c_str (op_relPath op))
                           (c_str (op_newRelPath op)) now 0 []])
      id (conflicts t)).

Definition enqueueOp (op : PendingOp) (now : Z) : M Db bool :=
  stmt (set_ops (filter (fun o =>
    ~ (op_relPath o = c_str (op_relPath op) /\ op_kind o = c_str (op_kind op))))) ;;
  stmt_opt (insert_op op now).

Definition pendingOps : M Db (list PendingOp) := query pending_ops.

Definition removeOp (id : Z) : M Db bool := stmt (set_ops (filter (fun o => op_id o <> id))).

Definition markOpFailed (id : Z) (err : str) : M Db bool :=
  stmt (set_ops (map (fun o =>
    if op_id o =? id
    then MkOp (op_id o) (op_kind o) (op_relPath o) (op_newRelPath o) (op_queuedAt o)
           (op_retryCount o + 1) (c_str err)
    else o))).

Definition pendingOpCount : M Db Z :=
  let* rows := query (fun t => [Z.of_nat (length (pending_ops t))]) in
  ret (default 0 (head rows)).

(** ** conflicts *)

Definition addConflict (c : ConflictState) (now : Z) : M Db bool :=
  stmt (set_conflicts (upsert_by (fun x => bool_decide (c_fileId x = c_str (c_fileId c)))
    (fun x => MkConflict (c_fileId x) (c_relPath x) (c_remoteVersion c) (c_str (c_localCopyPath c))
                (c_str (c_remoteBlobHash c)) now)
    (MkConflict (c_str (c_fileId c)) (c_str (c_relPath c)) (c_remoteVersion c)
       (c_str (c_localCopyPath c)) (c_str (c_remoteBlobHash c)) now))).

Definition newer (x y : ConflictState) : Prop := c_detectedAt y <= c_detectedAt x.

#[export] Instance newer_dec x y : Decision (newer x y).
Proof. unfold newer. apply _. Defined.

(** [ORDER BY detected_at DESC]. *)
Definition list_conflicts : M Db (list ConflictState) :=
  query (fun t => merge_sort newer (conflicts t)).

Definition resolveConflict (id : str) : M Db bool :=
  stmt (set_conflicts (filter (fun c => c_fileId c <> c_str id))).

Definition conflictCount : M Db Z :=
  let* rows := query (fun t => [Z.of_nat (length (conflicts t))]) in
  ret (default 0 (head rows)).

(** ** change sequence *)

Definition key_last_change_seq : str := lit "last_change_seq".

Definition setLastChangeSeq (n : Z) : M Db bool := setMeta key_last_change_seq (to_string n).

Definition lastChangeSeq : M Db Z :=
  let* v := getMeta key_last_change_seq in
  ret (match v with
       | None => 0
       | Some s => match stoll s with Ok n => n | Throw _ => 0 end
       end).

End LocalDb.

(** * Lemmas *)

Module LocalDbFacts.
Import LocalDb.

(** ** Statements *)

Lemma stmt_opt_cases upd d b d' :
  stmt_opt upd d = (b, d') ->
  (exists r, b = Ok r) /\
  (tables d' = tables d \/ upd (tables d) = Some (tables d')).
Proof.
  unfold stmt_opt. destruct (opened d); cbn [negb]; [|intros [= <- <-]; eauto].
  destruct (next_fault d); [intros [= <- <-]; eauto|].
  destruct (upd (tables d)) eqn:E; intros [= <- <-]; eauto.
Qed.

Lemma stmt_opt_true upd d d' :
  stmt_opt upd d = (Ok true, d') <->
  opened d = true /\ next_fault d = None /\
  exists t, upd (tables d) = Some t /\ d' = MkDb true t (drop 1 (faults d)).
Proof.
  unfold stmt_opt. destruct (opened d); cbn [negb]; [|naive_solver].
  destruct (next_fault d); [naive_solver|]. destruct (upd (tables d)); naive_solver.
Qed.

Lemma stmt_true upd d d' :
  stmt upd d = (Ok true, d') <->
  opened d = true /\ next_fault d = None /\ d' = MkDb true (upd (tables d)) (drop 1 (faults d)).
Proof. unfold stmt. rewrite stmt_opt_true. naive_solver. Qed.

Lemma stmt_tables upd d b d' :
  stmt upd d = (b, d') ->
  (exists r, b = Ok r) /\ (tables d' = tables d \/ tables d' = upd (tables d)).
Proof. intros [? H]%stmt_opt_cases. split; [done|]. destruct H as [?|[= ->]]; auto. Qed.

Lemma query_tables {A} (rows : Tables -> list A) d r d' :
  query rows d = (r, d') -> tables d' = tables d.
Proof. unfold query. destruct (opened d); by intros [= <- <-]. Qed.

(** A handle that meets no error. *)
Record healthy (d : Db) : Prop := {
  he_open : opened d = true;
  he_faults : Forall (fun f => f = None) (faults d)
}.

Lemma healthy_next d : healthy d -> next_fault d = None.
Proof. intros [_ Hf]. unfold next_fault. destruct Hf as [|f fs -> _]; done. Qed.

Lemma healthy_step d t : healthy d -> healthy (MkDb true t (drop 1 (faults d))).
Proof. intros [_ Hf]. split; [done|]. simpl. by apply Forall_drop. Qed.

Lemma healthy_stmt d upd :
  healthy d -> stmt upd d = (Ok true, MkDb true (upd (tables d)) (drop 1 (faults d))).
Proof. intros Hd. apply stmt_true. split_and!; [apply Hd|by apply healthy_next|done]. Qed.

Lemma healthy_query {A} d (rows : Tables -> list A) :
  healthy d -> query rows d = (Ok (rows (tables d)), MkDb true (tables d) (drop 1 (faults d))).
Proof. intros Hd. unfold query. by rewrite (he_open _ Hd), (healthy_next _ Hd). Qed.

(** ** [upsert_by] *)

Lemma upsert_by_keys {A K} `{EqDecision K} (key : A -> K) (k : K) upd new rows :
  key new = k -> (forall r, key r = k -> key (upd r) = k) ->
  NoDup (map key rows) ->
  NoDup (map key (upsert_by (fun r => bool_decide (key r = k)) upd new rows)) /\
  (forall x, x ∈ map key (upsert_by (fun r => bool_decide (key r = k)) upd new rows) ->
     x = k \/ x ∈ map key rows).
Proof.
  intros Hn Hu. induction rows as [|r rows IH]; cbn [upsert_by map]; intros Hd.
  - rewrite Hn. split; [apply NoDup_singleton|]. intros x ->%list_elem_of_singleton. by left.
  - apply NoDup_cons in Hd as [Hr Hd]. case_bool_decide as E; cbn [map].
    + rewrite (Hu r E). rewrite E in *. split; [by constructor|].
      intros x [->|?]%elem_of_cons; [by left|right; by right].
    + destruct (IH Hd) as [IH1 IH2]. split.
      * constructor; [|done]. intros Hx. apply IH2 in Hx as [?|?]; done.
      * intros x [->|Hx]%elem_of_cons; [right; by left|].
        apply IH2 in Hx as [->|?]; [by left|right; by right].
Qed.

Lemma NoDup_map_filter {A K} (key : A -> K) (P : A -> Prop) `{forall x, Decision (P x)} rows :
  NoDup (map key rows) -> NoDup (map key (filter P rows)).
Proof.
  induction rows as [|r rows IH]; [done|]. cbn [map]. intros [Hr Hd]%NoDup_cons.
  rewrite filter_cons. case_decide; [|auto]. cbn [map]. constructor; [|auto].
  intros Hx. apply Hr. apply list_elem_of_fmap in Hx as (y&->&Hy).
  apply list_elem_of_filter in Hy as [_ Hy]. by apply list_elem_of_fmap_2.
Qed.

(** The row of a key after an upsert that replaces it. *)
Lemma filter_upsert {A K} `{EqDecision K} (key : A -> K) (k k' : K) new rows :
  key new = k -> NoDup (map key rows) ->
  filter (fun r => key r = k') (upsert_by (fun r => bool_decide (key r = k)) (fun _ => new) new rows) =
  if decide (k' = k) then [new] else filter (fun r => key r = k') rows.
Proof.
  intros Hn. induction rows as [|r rows IH]; cbn [upsert_by map]; intros Hd.
  { rewrite filter_cons, filter_nil, Hn. repeat case_decide; naive_solver. }
  apply NoDup_cons in Hd as [Hr Hd]. case_bool_decide as E.
  - rewrite !filter_cons, Hn. destruct (decide (k' = k)) as [->|Hne].
    + rewrite decide_True by done. f_equal.
      assert (forall l, k ∉ map key l -> filter (fun r => key r = k) l = []) as Hf.
      { clear. induction l as [|x l IH]; [done|]. cbn [map]. intros [? ?]%not_elem_of_cons.
        rewrite filter_cons, decide_False by congruence. auto. }
      apply Hf. by rewrite <- E.
    + by rewrite !decide_False by congruence.
  - rewrite !filter_cons, IH by done. destruct (decide (k' = k)) as [->|Hne]; [|done].
    by rewrite decide_False.
Qed.

(** ** The invariant of the tables *)

Record inv (t : Tables) : Prop := {
  inv_files : NoDup (map fr_rel_path (files t));
  inv_roots : NoDup (map r_id (sync_roots t));
  inv_conflicts : NoDup (map c_fileId (conflicts t));
  inv_ops : StronglySorted Z.lt (map op_id (pending_ops t));
  inv_seq : Forall (fun o => 0 < op_id o <= seq t) (pending_ops t);
  inv_seq_range : 0 <= seq t <= INT64_MAX
}.

Lemma inv_empty : inv empty_tables.
Proof. split; simpl; try constructor; unfold INT64_MAX; lia. Qed.

Lemma StronglySorted_map_filter {A} (key : A -> Z) (P : A -> Prop) `{forall x, Decision (P x)} rows :
  StronglySorted Z.lt (map key rows) -> StronglySorted Z.lt (map key (filter P rows)).
Proof.
  induction rows as [|r rows IH]; [done|]. cbn [map]. intros [Hs Hf]%StronglySorted_inv.
  rewrite filter_cons. case_decide; [|auto]. cbn [map]. constructor; [auto|].
  rewrite Forall_map in *. by apply Forall_filter_sub.
Qed.

Lemma inv_set_ops_filter t (P : PendingOp -> Prop) `{forall x, Decision (P x)} :
  inv t -> inv (set_ops (filter P) t).
Proof.
  intros []. split; simpl; try done; [by apply StronglySorted_map_filter|by apply Forall_filter_sub].
Qed.

Lemma inv_set_ops_map t (f : PendingOp -> PendingOp) :
  (forall o, op_id (f o) = op_id o) -> inv t -> inv (set_ops (map f) t).
Proof.
  intros Hf []. split; simpl; try done.
  - rewrite map_map. by rewrite (map_ext _ op_id Hf).
  - apply Forall_map. eapply Forall_impl; [done|]. intros o. simpl. by rewrite Hf.
Qed.

Lemma StronglySorted_snoc l x :
  StronglySorted Z.lt l -> Forall (fun y => y < x) l -> StronglySorted Z.lt (l ++ [x]).
Proof.
  induction 1 as [|y l Hs IH Hy]; [by repeat constructor|]. intros [Hyx Hf]%Forall_cons.
  cbn [app]. constructor; [auto|]. apply Forall_app. split; [done|by repeat constructor].
Qed.

Lemma inv_insert_op op now t t' : inv t -> insert_op op now t = Some t' -> inv t'.
Proof.
  intros [] H. unfold insert_op in H. destruct (Z.leb_spec INT64_MAX (seq t)) as [|Hs]; [done|].
  injection H as <-. split; simpl; try done.
  - rewrite map_app. apply StronglySorted_snoc; [done|]. apply Forall_map.
    eapply Forall_impl; [exact inv_seq0|]. simpl. lia.
  - apply Forall_app. split; [eapply Forall_impl; [exact inv_seq0|]; simpl; lia|].
    repeat constructor; simpl; lia.
  - lia.
Qed.

Lemma inv_set_files_map t (f : FileRow -> FileRow) :
  (forall r, fr_rel_path (f r) = fr_rel_path r) -> inv t -> inv (set_files (map f) t).
Proof.
  intros Hf []. split; simpl; try done. rewrite map_map. by rewrite (map_ext _ fr_rel_path Hf).
Qed.

(** ** Calls and reachable databases *)

Inductive call :=
  | COpen | CClose
  | CSetMeta (k v : str)
  | CAddSyncRoot (id path : str) (folder : bool) | CRemoveSyncRoot (id : str)
  | CUpsertFile (f : LocalFileState) | CRemoveFile (p : str)
  | CUpdateRemoteState (p h : str) (v : Z) (vv : VersionVector.t) | CUpdateLocalHash (p h : str) (m : Z)
  | CEnqueueOp (op : PendingOp) (now : Z) | CRemoveOp (id : Z) | CMarkOpFailed (id : Z) (e : str)
  | CAddConflict (c : ConflictState) (now : Z) | CResolveConflict (id : str)
  | CSetLastChangeSeq (n : Z)
  | CGetMeta (k : str) | CGetFile (p : str) | CAllFiles | CListSyncRoots | CListSyncFiles
  | CPendingOps | CPendingOpCount | CConflicts | CConflictCount | CLastChangeSeq.

Definition after {A} (m : M Db A) (d : Db) : Db := (m d).2.

(** The database after one call of the public interface. *)
Definition run (c : call) : Db -> Db :=
  match c with
  | COpen => after open
  | CClose => after close
  | CSetMeta k v => after (setMeta k v)
  | CAddSyncRoot i p f => after (addSyncRoot i p f)
  | CRemoveSyncRoot i => after (removeSyncRoot i)
  | CUpsertFile f => after (upsertFile f)
  | CRemoveFile p => after (removeFile p)
  | CUpdateRemoteState p h v vv => after (updateRemoteState p h v vv)
  | CUpdateLocalHash p h m => after (updateLocalHash p h m)
  | CEnqueueOp o n => after (enqueueOp o n)
  | CRemoveOp i => after (removeOp i)
  | CMarkOpFailed i e => after (markOpFailed i e)
  | CAddConflict c n => after (addConflict c n)
  | CResolveConflict i => after (resolveConflict i)
  | CSetLastChangeSeq n => after (setLastChangeSeq n)
  | CGetMeta k => after (getMeta k)
  | CGetFile p => after (getFile p)
  | CAllFiles => after allFiles
  | CListSyncRoots => after listSyncRoots
  | CListSyncFiles => after listSyncFiles
  | CPendingOps => after pendingOps
  | CPendingOpCount => after pendingOpCount
  | CConflicts => after list_conflicts
  | CConflictCount => after conflictCount
  | CLastChangeSeq => after lastChangeSeq
  end.

Inductive reachable : Db -> Prop :=
  | reach_new fs : reachable (MkDb false empty_tables fs)
  | reach_call d c : reachable d -> reachable (run c d).

Definition preserves {A} (m : M Db A) : Prop := forall d, inv (tables d) -> inv (tables (after m d)).

Lemma preserves_stmt_opt upd :
  (forall t t', inv t -> upd t = Some t' -> inv t') -> preserves (stmt_opt upd).
Proof.
  intros Hu d Hd. unfold after. destruct (stmt_opt upd d) as [b d'] eqn:E. simpl.
  apply stmt_opt_cases in E as [_ [->|H]]; [done|]. by eapply Hu.
Qed.

Lemma preserves_stmt upd : (forall t, inv t -> inv (upd t)) -> preserves (stmt upd).
Proof. intros Hu. apply preserves_stmt_opt. intros t t' Ht [= <-]. auto. Qed.

Lemma preserves_query {A} (rows : Tables -> list A) : preserves (query rows).
Proof.
  intros d Hd. unfold after. destruct (query rows d) as [r d'] eqn:E. simpl.
  by rewrite (query_tables _ _ _ _ E).
Qed.

Lemma preserves_bind {A B} (m : M Db A) (k : A -> M Db B) :
  preserves m -> (forall a, preserves (k a)) -> preserves (bind m k).
Proof.
  intros Hm Hk d Hd. specialize (Hm d Hd). unfold after, bind in *.
  destruct (m d) as [[a|e] d1]; [by apply Hk|done].
Qed.

Lemma preserves_ret {A} (a : A) : preserves (ret a).
Proof. intros d Hd. exact Hd. Qed.

Lemma preserves_query_ret {A B} (rows : Tables -> list A) (f : list A -> B) :
  preserves (bind (query rows) (fun l => ret (f l))).
Proof. apply preserves_bind; [apply preserves_query|intros; apply preserves_ret]. Qed.

Lemma preserves_open : preserves open.
Proof.
  intros d Hd. unfold open, close, open_handle, after, bind. simpl.
  destruct (next_fault _); simpl; [done|].
  match goal with |- context [exec ?x] => set (d1 := x) end.
  assert (preserves (exec ;; exec ;; exec ;; migrate)) as Hp.
  { assert (preserves exec) as He by (apply preserves_stmt; auto).
    repeat (apply preserves_bind; [exact He|intros _]). apply preserves_bind; [exact He|].
    intros [|]; [exact He|apply preserves_ret]. }
  apply (Hp d1). done.
Qed.

Lemma run_inv c d : inv (tables d) -> inv (tables (run c d)).
Proof.
  intros Hd. destruct c; cbn [run];
    try (apply preserves_query; exact Hd).
  - by apply preserves_open.
  - done.
  - apply preserves_stmt; [|done]. by intros t [].
  - apply preserves_stmt; [|done]. intros t []. split; simpl; try done.
    by apply (upsert_by_keys r_id (c_str id)).
  - apply preserves_stmt; [|done]. intros t []. split; simpl; try done. by apply NoDup_map_filter.
  - apply preserves_stmt; [|done]. intros t []. split; simpl; try done.
    by apply (upsert_by_keys fr_rel_path (c_str (f_relPath f))).
  - apply preserves_stmt; [|done]. intros t []. split; simpl; try done. by apply NoDup_map_filter.
  - apply preserves_stmt; [|done]. intros t. apply inv_set_files_map. intros r. by case_bool_decide.
  - apply preserves_stmt; [|done]. intros t. apply inv_set_files_map. intros r. by case_bool_decide.
  - apply preserves_bind; [|intros _|done].
    + apply preserves_stmt. intros t. apply inv_set_ops_filter.
    + apply preserves_stmt_opt. intros t t'. apply inv_insert_op.
  - apply preserves_stmt; [|done]. intros t. apply inv_set_ops_filter.
  - apply preserves_stmt; [|done]. intros t. apply inv_set_ops_map. intros o. by destruct (_ =? _).
  - apply preserves_stmt; [|done]. intros t []. split; simpl; try done.
    apply (upsert_by_keys c_fileId (c_str (c_fileId c))); [done|done|done].
  - apply preserves_stmt; [|done]. intros t []. split; simpl; try done. by apply NoDup_map_filter.
  - apply preserves_stmt; [|done]. by intros t [].
  - by apply preserves_query_ret.
  - by apply preserves_query_ret.
  - by apply preserves_query_ret.
  - by apply preserves_query_ret.
  - apply preserves_bind; [by apply preserves_query_ret|intros; apply preserves_ret|done].
Qed.

(** ** NUL-free text survives [c_str] *)

Lemma c_str_id s : NUL ∉ s -> c_str s = s.
Proof.
  induction s as [|c s IH]; [done|]. intros [Hc Hs]%not_elem_of_cons. cbn [c_str].
  rewrite (proj2 (Z.eqb_neq c NUL)) by congruence. by rewrite IH.
Qed.

(** The meta table and the change cursor, on a handle without errors. *)
Lemma getMeta_setMeta d key val :
  healthy d -> NUL ∉ key -> NUL ∉ val -> (getMeta key (after (setMeta key val) d)).1 = Ok (Some val).
Proof.
  intros Hd Hk Hv. unfold after, setMeta. rewrite healthy_stmt by done. cbn [snd].
  unfold getMeta, bind. rewrite healthy_query by (by apply healthy_step). cbn [tables set_meta meta].
  by rewrite !c_str_id, lookup_insert_eq by done.
Qed.

Lemma to_string_NUL n : NUL ∉ to_string n.
Proof.
  assert (Forall (fun c => c <> NUL) (to_string n)) as Hf.
  { assert (forall m, 0 <= m -> Forall (fun c => c <> NUL) (to_string m)) as Hpos.
    { intros m Hm. eapply Forall_impl; [by apply to_string_isdigit|]. intros c Hc ->. done. }
    destruct (Z.ltb_spec n 0).
    - specialize (Hpos (- n) ltac:(lia)). unfold to_string in *.
      rewrite (proj2 (Z.ltb_ge _ _)) in Hpos by lia. rewrite (proj2 (Z.ltb_lt _ _)) by lia. by constructor.
    - by apply Hpos. }
  rewrite Forall_forall in Hf. intros Hx. by apply Hf in Hx.
Qed.

Lemma lastChangeSeq_set d n :
  healthy d -> is_int64 n -> (lastChangeSeq (after (setLastChangeSeq n) d)).1 = Ok n.
Proof.
  intros Hd Hn. unfold setLastChangeSeq, lastChangeSeq, bind at 1.
  assert (NUL ∉ key_last_change_seq) as Hkey by decide_goal.
  pose proof (getMeta_setMeta d key_last_change_seq (to_string n) Hd Hkey (to_string_NUL n)) as Hmeta.
  destruct (getMeta _ _) as [[r|e] d1]; [|done]. cbn [fst] in Hmeta. injection Hmeta as ->.
  cbn [fst ret]. unfold stoll. by rewrite parse_int_to_string.
Qed.

(** A file state SQLite stores without loss. *)
Definition storable (f : LocalFileState) : Prop :=
  Forall (fun s => NUL ∉ s) [f_relPath f; fileId f; syncRoot f; localHash f; remoteHash f;
                             toJson (versionVector f)] /\
  json_safe (versionVector f).

(** [getFile] after [upsertFile], on a handle without errors. *)
Lemma getFile_upsert d f p :
  healthy d -> inv (tables d) ->
  (getFile p (after (upsertFile f) d)).1 = Ok (file_of_row p <$> head
    (if decide (c_str p = c_str (f_relPath f)) then [file_row f]
     else filter (fun r => fr_rel_path r = c_str p) (files (tables d)))).
Proof.
  intros Hd Hi. unfold after, upsertFile. rewrite healthy_stmt by done. cbn [snd].
  unfold getFile, bind. rewrite healthy_query by (by apply healthy_step). cbn [tables set_files files fst ret].
  by rewrite (filter_upsert fr_rel_path (c_str (f_relPath f))) by (done || apply Hi).
Qed.

Lemma getFile_stored d f :
  healthy d -> inv (tables d) -> storable f -> (getFile (f_relPath f) (after (upsertFile f) d)).1 = Ok (Some f).
Proof.
  intros Hd Hi [Hs Hj]. repeat (apply Forall_cons in Hs as [? Hs]).
  rewrite getFile_upsert, decide_True by done. cbn [head fmap option_fmap option_map].
  unfold file_of_row, file_row. cbn [fr_file_id fr_sync_root fr_local_hash fr_remote_hash
    fr_remote_version fr_version_vector fr_deleted fr_modified_local].
  rewrite !c_str_id by done. rewrite (VersionVectorFacts.fromJson_toJson _ Hj).
  destruct f as [a b c e g h i dl j]. simpl. by destruct dl.
Qed.

End LocalDbFacts.

(** * The claims *)

Module LocalDbSpec.
Import LocalDb LocalDbFacts.

(** C29: every database reachable through the public interface, whatever SQLite
    errors occur on the way, has one row per file path, per sync root and per
    conflicting file, and queue entries in strictly increasing id order below
    the sequence counter. *)
Theorem local_db_invariant (d : Db) (Hr : reachable d) : inv (tables d).
Proof. induction Hr as [fs|d c _ IH]; [apply inv_empty|by apply run_inv]. Qed.

Definition op_upload (p : string) : PendingOp := MkOp 0 (lit "upload") (lit p) [] 0 0 [].

(** A short history: two saves of one file, one of another, a failed attempt. *)
Definition toy_db : Db :=
  run (CMarkOpFailed 2 (lit "offline"))
    (run (CEnqueueOp (op_upload "b.md") 12) (run (CEnqueueOp (op_upload "a.md") 11)
      (run (CEnqueueOp (op_upload "a.md") 10) (run COpen (MkDb false empty_tables []))))).

Lemma toy_db_reachable : reachable toy_db.
Proof. repeat apply reach_call. apply reach_new. Qed.

Lemma local_db_invariant_witness :
  map op_id (pending_ops (tables toy_db)) = [2; 3] /\ inv (tables toy_db).
Proof.
  split; [vm_compute; reflexivity|]. exact (local_db_invariant toy_db toy_db_reachable).
Defined.

(** The offline queue never loses a save. A successful [enqueueOp] appends
    an entry whose id is greater than every id handed out before; so the
    removal of any earlier entry, such as the one the worker is just
    finishing, leaves the new entry queued. When the statements succeed it
    replaces exactly the queued entries for the same path and kind and keeps
    all others in order. *)
Theorem enqueued_op_survives (d d' : Db) (op : PendingOp) (now : Z)
    (Hr : reachable d) (He : enqueueOp op now d = (Ok true, d')) :
  let o := MkOp (seq (tables d) + 1) (c_str (op_kind op)) (c_str (op_relPath op))
             (c_str (op_newRelPath op)) now 0 [] in
  last (pending_ops (tables d')) = Some o /\
  Forall (fun x => op_id x < op_id o) (pending_ops (tables d)) /\
  (forall old, old <= seq (tables d) -> o ∈ pending_ops (tables (after (removeOp old) d'))) /\
  (next_fault d = None ->
     pending_ops (tables d') =
     filter (fun x => ~ (op_relPath x = c_str (op_relPath op) /\ op_kind x = c_str (op_kind op)))
       (pending_ops (tables d)) ++ [o]).
Proof.
  intros o. assert (inv (tables d)) as Hi.
  { clear He. induction Hr as [fs|d0 c _ IH]; [apply inv_empty|by apply run_inv]. }
  unfold enqueueOp in He. apply bind_Ok in He as (b&d1&H1&H2).
  apply stmt_opt_true in H2 as (Ho&Hf&t&Ht&->).
  assert (seq (tables d1) = seq (tables d)) as Es by (by apply stmt_tables in H1 as [_ [-> | ->]]).
  unfold insert_op in Ht. destruct (INT64_MAX <=? seq (tables d1)); [done|]. injection Ht as <-.
  rewrite Es. cbn [tables pending_ops]. fold o. split_and!.
  - apply last_snoc.
  - eapply Forall_impl; [apply (inv_seq _ Hi)|]. simpl. lia.
  - intros old Hold. unfold after. destruct (removeOp old _) as [b2 d2] eqn:E2. simpl.
    apply stmt_tables in E2 as [_ [-> | ->]]; cbn [tables pending_ops set_ops].
    + apply elem_of_app. right. by left.
    + apply list_elem_of_filter. split; [simpl; lia|]. apply elem_of_app. right. by left.
  - intros Hn. f_equal. unfold stmt, stmt_opt in H1. destruct (opened d) eqn:Eo; cbn [negb] in H1.
    + rewrite Hn in H1. by injection H1 as _ <-.
    + injection H1 as _ <-. congruence.
Qed.

Lemma enqueued_op_survives_witness :
  let d' := after (enqueueOp (op_upload "b.md") 13) toy_db in
  map op_id (pending_ops (tables d')) = [2; 4] /\
  map op_id (pending_ops (tables (after (removeOp 3) d'))) = [2; 4] /\
  last (pending_ops (tables d')) = Some (MkOp 4 (lit "upload") (lit "b.md") [] 13 0 []).
Proof.
  split; [vm_compute; reflexivity|]. split; [vm_compute; reflexivity|].
  assert (enqueueOp (op_upload "b.md") 13 toy_db =
    (Ok true, after (enqueueOp (op_upload "b.md") 13) toy_db)) as E by decide_goal.
  exact (proj1 (enqueued_op_survives _ _ _ _ toy_db_reachable E)).
Defined.

(** Reads return what was last written. On a handle without errors,
    [getFile] after [upsertFile] gives the stored state back, version vector
    included, and every other path is untouched; so do [getMeta] after
    [setMeta] and the change cursor after [setLastChangeSeq]. A write that
    reports failure has changed nothing. *)
Theorem local_db_read_your_writes (d : Db) (f : LocalFileState) (k v : str) (n : Z)
    (Hr : reachable d) :
  (healthy d ->
   (storable f -> (getFile (f_relPath f) (after (upsertFile f) d)).1 = Ok (Some f)) /\
   (forall p, NUL ∉ p -> NUL ∉ f_relPath f -> p <> f_relPath f ->
      (getFile p (after (upsertFile f) d)).1 = (getFile p d).1) /\
   (NUL ∉ k -> NUL ∉ v -> (getMeta k (after (setMeta k v) d)).1 = Ok (Some v)) /\
   (is_int64 n -> (lastChangeSeq (after (setLastChangeSeq n) d)).1 = Ok n)) /\
  (forall d', upsertFile f d = (Ok false, d') \/ setMeta k v d = (Ok false, d') ->
     tables d' = tables d).
Proof.
  assert (inv (tables d)) as Hi
    by (induction Hr as [fs|d0 c _ IH]; [apply inv_empty|by apply run_inv]).
  split.
  2:{ intros d' [H|H]; unfold upsertFile, setMeta, stmt, stmt_opt in H;
        (destruct (opened d); cbn [negb] in H; [|by injection H as <-]);
        (destruct (next_fault d); [|done]); by injection H as <-. }
  intros Hd.
  split_and!.
  - by apply getFile_stored.
  - intros p Hp Hfp Hne. rewrite getFile_upsert, decide_False by (done || by rewrite !c_str_id).
    unfold getFile, bind. by rewrite healthy_query.
  - by apply getMeta_setMeta.
  - by apply lastChangeSeq_set.
Qed.

Definition toy_file : LocalFileState :=
  MkFile (lit "f-1") (lit "root") (lit "root:a.md") (lit "aa") (lit "bb") 7
    (VV (list_to_map [(lit "dev", 3)])) false 99.

Lemma local_db_read_your_writes_witness :
  (getFile (lit "root:a.md") (after (upsertFile toy_file) toy_db)).1 = Ok (Some toy_file).
Proof.
  refine (proj1 (proj1 (local_db_read_your_writes toy_db toy_file [] [] 0 toy_db_reachable) _) _).
  - split; [vm_compute; reflexivity|decide_goal].
  - split; decide_goal.
Defined.

End LocalDbSpec.
