(* ===== verification/ApiClient.v ===== *)
(** * ApiClient: ApiClient.cpp, the HTTP client of the sync protocol

    WinHTTP is the scripted list of replies the next exchanges get; the state
    keeps the tokens, that script, the requests that went out and the calls of
    [onTokensRotated]. [request] with [retryOn401 = false] never recurses, so
    the code's recursion is unrolled as the code bounds it. *)
From S2P Require Import Prelude Text Platform.

#[local] Open Scope monad_scope.

Module ApiClient.

(** ** URLs and headers *)

Record ParsedUrl := MkUrl { host : str; port : Z; https : bool; basePath : str }.

#[export] Instance ParsedUrl_eq_dec : EqDecision ParsedUrl.
Proof. solve_decision. Defined.

(** Host and port, and the path from the first slash on. *)
Definition split_path (u : str) : str * str :=
  match find_char SLASH u with
  | None => (u, [])
  | Some slash => (take slash u, drop slash u)
  end.

(** The port after the last colon; [std::stoi] may throw. *)
Definition host_port (isHttps : bool) (hostPort : str) : outcome (str * Z) :=
  (match find_last (Z.eqb COLON) hostPort with
   | Some colon =>
       let! p := stoi (drop (S colon) hostPort) in
       Ok (take colon hostPort, wrap_u16 p)
   | None => Ok (hostPort, if isHttps then 443 else 80)
   end)%outcome.

(** [Ok None] is [return false]. The widened host is kept as the text it
    converts: it is empty exactly when that is. *)
Definition parseUrl (url : str) : outcome (option ParsedUrl) :=
  let u := trim_right (Z.eqb SLASH) url in
  let scheme :=
    if starts_with (lit "https://") u then Some (true, drop 8 u)
    else if starts_with (lit "http://") u then Some (false, drop 7 u)
    else None in
  match scheme with
  | None => Ok None
  | Some (isHttps, u) =>
      let '(hostPort, base) := split_path u in
      (let! hp := host_port isHttps hostPort in
       Ok (if bool_decide (hp.1 = []) then None else Some (MkUrl hp.1 hp.2 isHttps base)))%outcome
  end.

Definition crlf : str := [CR; LF].

(** The position arithmetic is on [size_t]. *)
Definition headerValue (allHeaders name : str) : outcome str :=
  let needle := crlf ++ name ++ [COLON] in
  let pos :=
    match find_str needle allHeaders with
    | Some p => Some (Z.of_nat p)
    | None =>
        if starts_with (name ++ [COLON]) allHeaders
        then Some (wrap_u64 (0 - Z.of_nat (length name) - 1))
        else None
    end in
  match pos with
  | None => Ok []
  | Some pos =>
      let start := Z.to_nat (wrap_u64 (pos + Z.of_nat (length needle))) in
      (let! v := match find_str crlf (drop start allHeaders) with
                 | Some n => substr allHeaders start n
                 | None => substr_from allHeaders start
                 end in
       Ok (trim_left (fun c => (c =? SPACE) || (c =? TAB)) v))%outcome
  end.

(** [std::atoi] of the Microsoft runtime: 0 without a digit, saturated at the
    ends of [int]. *)
Definition atoi (s : str) : Z :=
  match stoi s with
  | Ok n => n
  | Throw out_of_range =>
      if bool_decide (head (trim_left isspace s) = Some DASH) then - 2 ^ 31 else 2 ^ 31 - 1
  | Throw _ => 0
  end.

(** ** Exchanges *)

Record ApiResponse := MkResponse {
  status : Z;
  body : json;
  rawBody : str;
  serverProtocol : Z;
  transportOk : bool;
  transportError : str
}.

Definition no_response (err : str) : ApiResponse := MkResponse 0 JNull [] 0 false err.

Record HttpRequest := MkRequest {
  q_method : str; q_url : ParsedUrl; q_path : str; q_bearer : option str; q_payload : str
}.

#[export] Instance HttpRequest_eq_dec : EqDecision HttpRequest.
Proof. solve_decision. Defined.

(** How one exchange ends. *)
Inductive HttpReply :=
  | OpenFailed | ConnectFailed | OpenRequestFailed
  | SendFailed (err : Z)
  | Reply (st : Z) (headers raw : str).

Record Client := MkClient {
  baseUrl : str;
  deviceId : str;
  accessToken : str;
  refreshToken : str;
  net : list HttpReply;
  sent : list HttpRequest;
  rotations : list (str * str)
}.

Definition set_tokens (a r : str) (c : Client) : Client :=
  MkClient (baseUrl c) (deviceId c) a r (net c) (sent c) (rotations c).
Definition set_net (n : list HttpReply) (c : Client) : Client :=
  MkClient (baseUrl c) (deviceId c) (accessToken c) (refreshToken c) n (sent c) (rotations c).
Definition log_request (q : HttpRequest) (c : Client) : Client :=
  MkClient (baseUrl c) (deviceId c) (accessToken c) (refreshToken c) (net c) (sent c ++ [q]) (rotations c).
Definition log_rotation (a r : str) (c : Client) : Client :=
  MkClient (baseUrl c) (deviceId c) (accessToken c) (refreshToken c) (net c) (sent c)
    (rotations c ++ [(a, r)]).

(** A script that ran out is an unreachable server (ERROR_WINHTTP_NAME_NOT_RESOLVED). *)
Definition next_reply : M Client HttpReply := fun c =>
  match net c with
  | [] => (Ok (SendFailed 12007), c)
  | r :: net' => (Ok r, set_net net' c)
  end.

Definition hasTokens (c : Client) : bool := negb (bool_decide (refreshToken c = [])).

Section json.
Context `{Json}.

Definition parse_body (raw : str) : json :=
  if bool_decide (raw = []) then JNull else default JNull (json_parse raw).

Definition dump_body (b : option json) : outcome str :=
  match b with Some j => json_dump j | None => Ok [] end.

(** [request] up to the 401 handling. *)
Definition exchange (method path : str) (b : option json) (authed : bool) : M Client ApiResponse :=
  let* url := gets baseUrl in
  let* pu := lift (parseUrl url) in
  match pu with
  | None => ret (no_response (lit "bad base url"))
  | Some pu =>
      let* reply := next_reply in
      match reply with
      | OpenFailed => ret (no_response (lit "WinHttpOpen failed"))
      | ConnectFailed => ret (no_response (lit "WinHttpConnect failed"))
      | OpenRequestFailed => ret (no_response (lit "WinHttpOpenRequest failed"))
      | SendFailed _ | Reply _ _ _ =>
          let* token := gets accessToken in
          let bearer := if authed && negb (bool_decide (token = [])) then Some token else None in
          let* payload := lift (dump_body b) in
          modify (log_request (MkRequest method pu (basePath pu ++ path) bearer payload)) ;;
          match reply with
          | Reply st headers raw =>
              let* proto := lift (headerValue headers (lit "X-NPSync-Protocol")) in
              ret (MkResponse st (parse_body raw) raw
                     (if bool_decide (proto = []) then 0 else atoi proto) true [])
          | SendFailed err => ret (no_response (lit "send/receive failed: " ++ to_string err))
          | _ => ret (no_response [])
          end
      end
  end.

Definition setTokens (access refresh : str) : M Client unit := modify (set_tokens access refresh).
Definition clearTokens : M Client unit := setTokens [] [].

Definition refreshAccessToken : M Client bool :=
  let* rt := gets refreshToken in
  let* r := exchange (lit "POST") (lit "/auth/refresh")
              (Some (JObj [(lit "refresh_token", JStr rt)])) false in
  if negb (status r =? 200) then ret false
  else
    let* access := lift (value_str (body r) (lit "access_token") []) in
    let* refresh := lift (value_str (body r) (lit "refresh_token") []) in
    if bool_decide (access = [] \/ refresh = []) then ret false
    else
      setTokens access refresh ;;
      modify (log_rotation access refresh) ;;
      ret true.

Definition request (method path : str) (b : option json) (authed : bool) : M Client ApiResponse :=
  let* resp := exchange method path b authed in
  let* rt := gets refreshToken in
  if (status resp =? 401) && authed && negb (bool_decide (rt = [])) then
    let* ok := refreshAccessToken in
    if ok then exchange method path b authed else ret resp
  else ret resp.

(** ** The calls of the protocol *)

Definition store_tokens (r : ApiResponse) : M Client unit :=
  when (status r =? 200)
    (let* a := lift (value_str (body r) (lit "access_token") []) in
     let* f := lift (value_str (body r) (lit "refresh_token") []) in
     setTokens a f).

Definition credentials (email password deviceName : str) : json :=
  JObj [(lit "device_name", JStr deviceName); (lit "email", JStr email); (lit "password", JStr password)].

Definition registerAccount (email password deviceName : str) : M Client ApiResponse :=
  let* r := request (lit "POST") (lit "/auth/register") (Some (credentials email password deviceName)) false in
  store_tokens r ;; ret r.

Definition login (email password deviceName : str) : M Client ApiResponse :=
  let* r := request (lit "POST") (lit "/auth/login") (Some (credentials email password deviceName)) false in
  store_tokens r ;; ret r.

Definition startGoogleLogin (deviceName : str) : M Client ApiResponse :=
  request (lit "POST") (lit "/auth/google/start") (Some (JObj [(lit "device_name", JStr deviceName)])) false.

Definition pollGoogleLogin (state pollSecret : str) : M Client ApiResponse :=
  let* r := request (lit "POST") (lit "/auth/google/poll")
              (Some (JObj [(lit "poll_secret", JStr pollSecret); (lit "state", JStr state)])) false in
  store_tokens r ;; ret r.

Definition logout : M Client ApiResponse :=
  let* r := request (lit "POST") (lit "/auth/logout") (Some (JObj [])) true in
  clearTokens ;; ret r.

Definition listDevices : M Client ApiResponse := request (lit "GET") (lit "/devices") None true.
Definition revokeDevice (id : str) : M Client ApiResponse :=
  request (lit "DELETE") (lit "/devices/" ++ id) None true.
Definition renameDevice (id name : str) : M Client ApiResponse :=
  request (lit "PATCH") (lit "/devices/" ++ id) (Some (JObj [(lit "name", JStr name)])) true.
Definition pairRequest : M Client ApiResponse :=
  request (lit "POST") (lit "/devices/pair") (Some (JObj [(lit "action", JStr (lit "request"))])) true.
Definition pairApprove (code wrapped : str) : M Client ApiResponse :=
  request (lit "POST") (lit "/devices/pair")
    (Some (JObj [(lit "action", JStr (lit "approve")); (lit "pairing_code", JStr code);
                 (lit "wrapped_master_key", JStr wrapped)])) true.
Definition pairPoll (code : str) : M Client ApiResponse :=
  request (lit "POST") (lit "/devices/pair")
    (Some (JObj [(lit "action", JStr (lit "poll")); (lit "pairing_code", JStr code)])) true.

Definition listFiles : M Client ApiResponse := request (lit "GET") (lit "/sync/files") None true.
Definition getFile (id : str) : M Client ApiResponse :=
  request (lit "GET") (lit "/sync/files/" ++ id) None true.
Definition createFile (payload : json) : M Client ApiResponse :=
  request (lit "POST") (lit "/sync/files") (Some payload) true.
Definition updateFile (id : str) (payload : json) : M Client ApiResponse :=
  request (lit "PUT") (lit "/sync/files/" ++ id) (Some payload) true.
Definition deleteFile (id : str) : M Client ApiResponse :=
  request (lit "DELETE") (lit "/sync/files/" ++ id) None true.
Definition listVersions (id : str) : M Client ApiResponse :=
  request (lit "GET") (lit "/sync/files/" ++ id ++ lit "/versions") None true.
Definition restoreVersion (id : str) (version : Z) : M Client ApiResponse :=
  request (lit "POST") (lit "/sync/files/" ++ id ++ lit "/restore")
    (Some (JObj [(lit "version", JInt version)])) true.
Definition changesSince (n : Z) : M Client ApiResponse :=
  request (lit "GET") (lit "/sync/changes?since=" ++ to_string n) None true.
Definition getSession : M Client ApiResponse := request (lit "GET") (lit "/session") None true.
Definition putSession (encryptedStateB64 : str) (version : Z) : M Client ApiResponse :=
  request (lit "PUT") (lit "/session")
    (Some (JObj [(lit "encrypted_state", JStr encryptedStateB64); (lit "version", JInt version)])) true.
End json.

End ApiClient.

(** * Lemmas *)

Module ApiClientFacts.
Import ApiClient.

Section json.
Context `{Json}.

(** What one exchange may change: it logs at most one request, consumes the
    script, and touches nothing else. *)
Record exchanged (m path : str) (b : option json) (authed : bool) (c c' : Client) : Prop := {
  ex_access : accessToken c' = accessToken c;
  ex_refresh : refreshToken c' = refreshToken c;
  ex_url : baseUrl c' = baseUrl c;
  ex_rot : rotations c' = rotations c;
  ex_sent : exists new, sent c' = sent c ++ new /\ (length new <= 1)%nat /\
    Forall (fun q => q_method q = m /\
      q_bearer q = (if authed && negb (bool_decide (accessToken c = [])) then Some (accessToken c) else None)) new
}.

Lemma exchanged_nothing m path b authed c c' :
  accessToken c' = accessToken c -> refreshToken c' = refreshToken c -> baseUrl c' = baseUrl c ->
  rotations c' = rotations c -> sent c' = sent c -> exchanged m path b authed c c'.
Proof.
  intros. split; try done. exists []. rewrite app_nil_r. split_and!; [done|simpl; lia|constructor].
Qed.

Lemma next_reply_run c :
  exists r c1, next_reply c = (Ok r, c1) /\ accessToken c1 = accessToken c /\
    refreshToken c1 = refreshToken c /\ baseUrl c1 = baseUrl c /\ rotations c1 = rotations c /\
    sent c1 = sent c.
Proof. unfold next_reply. destruct (net c) as [|r n]; eexists _, _; split_and!; done. Qed.

Lemma exchange_changes m path b authed c r c' :
  exchange m path b authed c = (r, c') -> exchanged m path b authed c c'.
Proof.
  unfold exchange. unfold bind at 1, gets at 1. unfold bind at 1, lift at 1.
  destruct (parseUrl (baseUrl c)) as [[pu|]|e]; [|intros [= <- <-]; by apply exchanged_nothing..].
  destruct (next_reply_run c) as (rep&c1&Hn&Ea&Er&Eu&Ert&Es).
  rewrite (bind_run _ _ _ _ _ Hn).
  assert (forall x, ret (S:=Client) x c1 = (r, c') -> exchanged m path b authed c c') as Hret
    by (intros x [= <- <-]; by apply exchanged_nothing).
  assert (forall k : M Client ApiResponse,
    (forall c2, (k c2).2 = c2) ->
    (let* token := gets accessToken in
     let bearer := if authed && negb (bool_decide (token = [])) then Some token else None in
     let* payload := lift (dump_body b) in
     modify (log_request (MkRequest m pu (basePath pu ++ path) bearer payload)) ;; k) c1 = (r, c') ->
    exchanged m path b authed c c') as Hsend.
  { intros k Hk. unfold bind, gets, lift. destruct (dump_body b) as [pl|e]; cbn [modify].
    - unfold modify. intros Hx. set (c2 := log_request _ c1) in Hx. pose proof (Hk c2) as E.
      rewrite Hx in E. cbn [snd] in E. subst c'. unfold c2.
      split; cbn [accessToken refreshToken baseUrl rotations sent log_request]; try done.
      rewrite Es, Ea. eexists. split; [done|]. split; [done|]. by repeat constructor.
    - intros [= <- <-]. by apply exchanged_nothing. }
  destruct rep as [| | |err|st headers raw]; try apply Hret.
  - apply Hsend. done.
  - apply Hsend. intros c2. unfold bind, lift. by destruct (headerValue _ _).
Qed.

(** The tokens after [refreshAccessToken]: both replaced, or both kept. *)
Definition rotated (c c' : Client) (a f : str) : Prop :=
  a <> [] /\ f <> [] /\ accessToken c' = a /\ refreshToken c' = f /\
  rotations c' = rotations c ++ [(a, f)].

Definition kept (c c' : Client) : Prop :=
  accessToken c' = accessToken c /\ refreshToken c' = refreshToken c /\ rotations c' = rotations c.

Lemma refresh_changes c r c' :
  refreshAccessToken c = (r, c') ->
  baseUrl c' = baseUrl c /\
  (exists new, sent c' = sent c ++ new /\ (length new <= 1)%nat /\
     Forall (fun q => q_bearer q = None) new) /\
  ((r = Ok true /\ exists a f, rotated c c' a f) \/ (r <> Ok true /\ kept c c')).
Proof.
  unfold refreshAccessToken. unfold bind at 1, gets at 1. unfold bind at 1.
  destruct (exchange _ _ _ false c) as [[x|e] c1] eqn:Ex; apply exchange_changes in Ex as [Ea Er Eu Ert (new&Es&Hl&Hq)].
  2:{ intros [= <- <-]. split_and!; [done| |right; split; [done|by split_and!]].
      exists new. split_and!; [done|done|]. eapply Forall_impl; [exact Hq|]. by intros q [_ ?]. }
  assert (exists new, sent c1 = sent c ++ new /\ (length new <= 1)%nat /\
     Forall (fun q => q_bearer q = None) new) as Hsent.
  { exists new. split_and!; [done|done|]. eapply Forall_impl; [exact Hq|]. by intros q [_ ?]. }
  assert (kept c c1) as Hk by (by split_and!).
  destruct (negb (status x =? 200)); [intros [= <- <-]; auto|].
  unfold bind, lift, ret. destruct (value_str _ _ _) as [a|e]; [|intros [= <- <-]; auto].
  destruct (value_str _ _ _) as [f|e]; [|intros [= <- <-]; auto].
  destruct (bool_decide_reflect (a = [] \/ f = [])) as [Haf|Haf]; [intros [= <- <-]; auto|].
  intros [= <- <-]. split_and!; [done|done|]. left. split; [done|]. exists a, f.
  split_and!; [naive_solver|naive_solver|done|done|]. simpl. by rewrite Ert.
Qed.

(** The whole of [request]. *)
Record requested (authed : bool) (c c' : Client) : Prop := {
  rq_tokens : kept c c' \/ (authed = true /\ refreshToken c <> [] /\ exists a f, rotated c c' a f);
  rq_sent : exists new, sent c' = sent c ++ new /\ (length new <= if authed then 3 else 1)%nat /\
    Forall (fun q => q_bearer q = None \/
      (authed = true /\ q_bearer q <> Some [] /\
       (q_bearer q = Some (accessToken c) \/ q_bearer q = Some (accessToken c')))) new
}.

Lemma bearer_ok authed c c' q m :
  q_method q = m /\ q_bearer q = (if authed && negb (bool_decide (accessToken c = [])) then Some (accessToken c) else None) ->
  q_bearer q = None \/ (authed = true /\ q_bearer q <> Some [] /\
    (q_bearer q = Some (accessToken c) \/ q_bearer q = Some (accessToken c'))).
Proof.
  intros [_ ->]. destruct authed; cbn [andb]; [|by left]. case_bool_decide; cbn [negb]; [by left|].
  right. split_and!; [done|congruence|by left].
Qed.

Lemma request_changes m path b authed c r c' :
  request m path b authed c = (r, c') -> requested authed c c'.
Proof.
  unfold request. unfold bind at 1.
  destruct (exchange m path b authed c) as [[x|e] c1] eqn:E1; apply exchange_changes in E1 as [Ea Er Eu Ert (n1&Es&Hl&Hq)].
  2:{ intros [= <- <-]. split; [by left; split_and!|]. exists n1.
      split_and!; [done|destruct authed; lia|]. eapply Forall_impl; [exact Hq|]. intros q. apply bearer_ok. }
  assert (requested authed c c1) as H1.
  { split; [by left; split_and!|]. exists n1. split_and!; [done|destruct authed; lia|].
    eapply Forall_impl; [exact Hq|]. intros q. apply bearer_ok. }
  unfold bind at 1, gets at 1. destruct (_ && _ && _) eqn:Eg; [|by intros [= <- <-]].
  apply andb_true_iff in Eg as [Eg Ert']. apply andb_true_iff in Eg as [_ ->].
  apply negb_true_iff, bool_decide_eq_false in Ert'. rewrite Er in Ert'.
  unfold bind. destruct (refreshAccessToken c1) as [rr c2] eqn:E2.
  apply refresh_changes in E2 as (Eu2&(n2&Es2&Hl2&Hq2)&Hcase).
  assert (forall P : Client -> Prop, True) as _ by done.
  assert (forall c3 n3, sent c3 = sent c2 ++ n3 -> (length n3 <= 1)%nat ->
    accessToken c3 = accessToken c2 -> refreshToken c3 = refreshToken c2 -> rotations c3 = rotations c2 ->
    Forall (fun q => q_bearer q = None \/ (true = true /\ q_bearer q <> Some [] /\
      (q_bearer q = Some (accessToken c) \/ q_bearer q = Some (accessToken c3)))) n3 ->
    requested true c c3) as Hdone.
  { intros c3 n3 Es3 Hl3 Ea3 Er3 Ert3 Hq3. split.
    - destruct Hcase as [(_&a&f&Ha&Hf&E1&E2&E3)|(_&K1&K2&K3)].
      + right. split_and!; [done|done|]. exists a, f. split_and!; [done|done|congruence|congruence|].
        rewrite Ert3, E3, Ert. done.
      + left. split_and!; congruence.
    - exists (n1 ++ n2 ++ n3). split_and!; [by rewrite Es3, Es2, Es, <- !app_assoc|rewrite !length_app; lia|].
      rewrite !Forall_app. split_and!; [|eapply Forall_impl; [exact Hq2|]; by left|done].
      eapply Forall_impl; [exact Hq|]. intros q Hqq.
      destruct (bearer_ok true c c3 q _ Hqq) as [?|(?&?&?)]; [by left|by right]. }
  destruct rr as [[|]|e].
  - destruct (exchange m path b true c2) as [r3 c3] eqn:E3. intros [= <- <-].
    apply exchange_changes in E3 as [Ea3 Er3 _ Ert3 (n3&Es3&Hl3&Hq3)].
    apply (Hdone c3 n3); try done. eapply Forall_impl; [exact Hq3|]. intros q Hqq.
    destruct (bearer_ok true c2 c3 q _ Hqq) as [?|(?&?&[E|?])]; [by left| |by right; auto].
    right. split_and!; [done|done|right]. congruence.
  - intros [= <- <-]. apply (Hdone c2 []); try done; first [by rewrite app_nil_r | (simpl; lia) | constructor].
  - intros [= <- <-]. apply (Hdone c2 []); try done; first [by rewrite app_nil_r | (simpl; lia) | constructor].
Qed.

(** An unauthenticated request is one exchange. *)
Lemma request_unauthed m path b c : request m path b false c = exchange m path b false c.
Proof.
  unfold request, bind, gets. destruct (exchange m path b false c) as [[x|e] c1]; [|done].
  by rewrite andb_false_r.
Qed.

Lemma store_tokens_other x c : status x <> 200 -> store_tokens x c = (Ok tt, c).
Proof. intros Hs. unfold store_tokens. by rewrite (proj2 (Z.eqb_neq _ _) Hs). Qed.

End json.

End ApiClientFacts.

(** * The claims *)

Module ApiClientSpec.
Import ApiClient ApiClientFacts.

Section json.
Context `{Json}.

(** C28: the token discipline of [request]. One call makes at most three
    exchanges (the request, one refresh, one retry), a single one when it is
    unauthenticated. The access token travels only on authenticated requests,
    it is the one held before the call or the refreshed one, and it is never
    empty. The pair of tokens either stays as it was, or is replaced as a
    whole by two non-empty tokens, which is announced exactly once through
    [onTokensRotated]; that happens only for an authenticated call that holds a
    refresh token. This includes the runs that end in an exception. *)
Theorem request_token_discipline (m path : str) (b : option json) (authed : bool) (c c' : Client)
    (r : outcome ApiResponse) (Hrun : request m path b authed c = (r, c')) :
  (exists new, sent c' = sent c ++ new /\ (length new <= if authed then 3 else 1)%nat /\
     Forall (fun q => q_bearer q = None \/
       (authed = true /\ q_bearer q <> Some [] /\
        (q_bearer q = Some (accessToken c) \/ q_bearer q = Some (accessToken c')))) new) /\
  ((accessToken c' = accessToken c /\ refreshToken c' = refreshToken c /\ rotations c' = rotations c) \/
   (authed = true /\ refreshToken c <> [] /\
    exists a f, a <> [] /\ f <> [] /\ accessToken c' = a /\ refreshToken c' = f /\
      rotations c' = rotations c ++ [(a, f)])).
Proof. destruct (request_changes _ _ _ _ _ _ _ Hrun) as [Ht Hs]. split; [exact Hs|exact Ht]. Qed.

(** Sessions begin with a 200 and end with [logout]. [login] that gets
    another status, or no answer, keeps the stored tokens; one that gets 200
    with a token body stores that pair; a 200 whose body is not a JSON object
    throws type_error 306 out of [login] and stores nothing. [logout] that
    returns has cleared both tokens, whatever the server said. *)
Theorem session_tokens (email password name : str) (c c' : Client) (x : ApiResponse) :
  (login email password name c = (Ok x, c') -> status x <> 200 ->
     accessToken c' = accessToken c /\ refreshToken c' = refreshToken c) /\
  (login email password name c = (Ok x, c') -> status x = 200 ->
     value_str (body x) (lit "access_token") [] = Ok (accessToken c') /\
     value_str (body x) (lit "refresh_token") [] = Ok (refreshToken c')) /\
  (forall x c1, request (lit "POST") (lit "/auth/login") (Some (credentials email password name)) false c
       = (Ok x, c1) -> status x = 200 -> body x = JNull ->
     login email password name c = (Throw (json_type_error 306), c1)) /\
  (logout c = (Ok x, c') -> accessToken c' = [] /\ refreshToken c' = [] /\ hasTokens c' = false).
Proof.
  assert (forall x c1 c2, request (lit "POST") (lit "/auth/login") (Some (credentials email password name)) false c
     = (Ok x, c1) -> accessToken c1 = accessToken c /\ refreshToken c1 = refreshToken c \/ c1 = c2) as Hkeep.
  { intros y c1 c2 Hr. rewrite request_unauthed in Hr. apply exchange_changes in Hr as []. by left. }
  split_and!.
  - intros (y&c1&Hr&Hx)%bind_Ok Hs. apply bind_Ok in Hx as (u&c2&H2&[-> ->]%ret_Ok).
    rewrite store_tokens_other in H2 by done. injection H2 as _ <-.
    rewrite request_unauthed in Hr. by apply exchange_changes in Hr as [].
  - intros (y&c1&Hr&Hx)%bind_Ok Hs. apply bind_Ok in Hx as (u&c2&H2&[-> ->]%ret_Ok).
    unfold store_tokens, when in H2. rewrite (proj2 (Z.eqb_eq _ _) Hs) in H2.
    apply bind_Ok in H2 as (a&c3&Ha&H2). apply bind_Ok in H2 as (f&c4&Hf&H2).
    unfold lift in *. injection Ha as Ha <-. injection Hf as Hf <-. by injection H2 as _ <-.
  - intros y c1 Hr Hs Hb. unfold login, bind at 1. rewrite Hr. unfold store_tokens, when.
    rewrite (proj2 (Z.eqb_eq _ _) Hs), Hb. done.
  - intros (y&c1&Hr&Hx)%bind_Ok. apply bind_Ok in Hx as (u&c2&H2&[-> ->]%ret_Ok).
    by injection H2 as _ <-.
Qed.

End json.

(** A client whose access token has expired. *)
Definition toy_client (replies : list HttpReply) : Client :=
  MkClient (lit "https://sync.example:8443/api/") (lit "dev") (lit "old") (lit "r1") replies [] [].

Definition token_body (a r : string) : str :=
  match @json_dump toy_json (JObj [(lit "access_token", JStr (lit a)); (lit "refresh_token", JStr (lit r))]) with
  | Ok s => s
  | _ => []
  end.

Definition expired : list HttpReply :=
  [Reply 401 [] []; Reply 200 [] (token_body "new" "r2"); Reply 200 [] []].

Lemma request_token_discipline_witness :
  let out := @request toy_json (lit "GET") (lit "/devices") None true (toy_client expired) in
  map q_bearer (sent out.2) = [Some (lit "old"); None; Some (lit "new")] /\
  rotations out.2 = [(lit "new", lit "r2")] /\
  (exists new, sent out.2 = [] ++ new /\ (length new <= 3)%nat).
Proof.
  set (out := @request toy_json (lit "GET") (lit "/devices") None true (toy_client expired)).
  split; [vm_compute; reflexivity|]. split; [vm_compute; reflexivity|].
  destruct (@request_token_discipline toy_json (lit "GET") (lit "/devices") None true
    (toy_client expired) out.2 out.1) as [(new&E&Hl&_) _]; [apply surjective_pairing|].
  exists new. split; [exact E|exact Hl].
Defined.

Lemma session_tokens_witness :
  let c := toy_client [SendFailed 12029] in
  let out := @logout toy_json c in
  (exists x, out.1 = Ok x /\ transportOk x = false) /\ refreshToken out.2 = [].
Proof.
  cbv zeta. split; [eexists; split; vm_compute; reflexivity|].
  refine (proj1 (proj2 (proj2 (proj2 (proj2 (@session_tokens toy_json [] [] []
    (toy_client [SendFailed 12029]) (@logout toy_json (toy_client [SendFailed 12029])).2
    (no_response (lit "send/receive failed: 12029"))))) _))).
  vm_compute. reflexivity.
Defined.

(** ** URLs and headers *)

Definition scheme_text (secure : bool) : str := if secure then lit "https://" else lit "http://".

Definition port_text (p : option Z) : str :=
  match p with Some n => COLON :: to_string n | None => [] end.

Lemma hostport_split h p :
  COLON ∉ h -> (forall n, p = Some n -> 0 <= n) ->
  find_last (Z.eqb COLON) (h ++ port_text p) = match p with Some _ => Some (length h) | None => None end.
Proof.
  intros Hh Hp. destruct p as [n|]; cbn [port_text].
  - apply find_last_app; [done|]. eapply Forall_impl; [apply to_string_isdigit; by apply Hp|].
    intros c Hc. apply Z.eqb_neq. intros <-. done.
  - rewrite app_nil_r. apply find_last_none, Forall_forall. intros c Hc. apply Z.eqb_neq. by intros <-.
Qed.

Lemma no_slash_hostport h p : SLASH ∉ h -> (forall n, p = Some n -> 0 <= n) -> SLASH ∉ h ++ port_text p.
Proof.
  intros Hh Hp [?|Hx]%elem_of_app; [done|]. destruct p as [n|]; cbn [port_text] in Hx.
  - apply elem_of_cons in Hx as [?|Hx]; [done|].
    pose proof (to_string_isdigit n (Hp n eq_refl)) as Hd. rewrite Forall_forall in Hd.
    by apply Hd in Hx.
  - by apply not_elem_of_nil in Hx.
Qed.

(** [parseUrl] past the scheme. *)
Lemma parse_hostport secure h p base :
  h <> [] -> SLASH ∉ h -> COLON ∉ h -> (forall n, p = Some n -> 0 <= n < 2 ^ 31) ->
  (base = [] \/ head base = Some SLASH) ->
  (forall c, last ((h ++ port_text p) ++ base) = Some c -> (SLASH =? c) = false) ->
  parseUrl (scheme_text secure ++ (h ++ port_text p) ++ base) =
  Ok (Some (MkUrl h (match p with Some n => wrap_u16 n | None => if secure then 443 else 80 end) secure base)).
Proof.
  intros Hne Hs Hc Hp Hb Hl. unfold parseUrl.
  assert (forall n, p = Some n -> 0 <= n) as Hp0 by (intros n E; specialize (Hp n E); lia).
  set (hp := h ++ port_text p) in *.
  assert (hp <> []) as Hhp by (unfold hp; by destruct h).
  rewrite trim_right_id.
  2:{ intros c Hx. rewrite last_app in Hx. destruct (last (hp ++ base)) as [d|] eqn:E.
      - injection Hx as <-. by apply Hl.
      - apply last_None in E. apply app_nil in E as [? _]. done. }
  assert (split_path (hp ++ base) = (hp, base)) as Esplit.
  { pose proof (no_slash_hostport h p Hs Hp0) as Hns. fold hp in Hns. unfold split_path.
    destruct base as [|c base].
    - rewrite app_nil_r. by rewrite (proj2 (find_char_None SLASH hp)).
    - destruct Hb as [?|Hb]; [done|]. cbn [head] in Hb.
      assert (c = SLASH) as -> by congruence.
      by rewrite find_char_app, take_app_length, drop_app_length. }
  assert (host_port secure hp = Ok (h, match p with Some n => wrap_u16 n | None => if secure then 443 else 80 end))
    as Ehp.
  { unfold host_port, hp. rewrite hostport_split by done. destruct p as [n|]; cbn [port_text].
    - replace (S (length h)) with (length h + 1)%nat by lia.
      rewrite <- drop_drop, drop_app_length, take_app_length. cbn [drop]. rewrite drop_0.
      unfold stoi. by rewrite parse_int_to_string by (specialize (Hp n eq_refl); lia).
    - by rewrite app_nil_r. }
  destruct secure; cbn [scheme_text].
  - rewrite starts_with_app, (drop_app_length (lit "https://")), Esplit, Ehp. cbn [obind fst snd].
    by rewrite bool_decide_false.
  - assert (starts_with (lit "https://") (lit "http://" ++ hp ++ base) = false) as -> by done.
    rewrite starts_with_app, (drop_app_length (lit "http://")), Esplit, Ehp. cbn [obind fst snd].
    by rewrite bool_decide_false.
Qed.

(** [parseUrl] takes a server URL apart. For a scheme, a host without
    slash or colon, an optional port and an optional path, followed by any
    number of slashes, it returns exactly those parts, with the default port
    of the scheme when none is given; any other scheme is refused. A port is
    cut to 16 bits instead of being refused (65616 becomes 80), and a port that
    is not a number throws instead of returning false. *)
Theorem parseUrl_parts (secure : bool) (h base slashes : str) (p : option Z)
    (Hne : h <> []) (Hs : SLASH ∉ h) (Hc : COLON ∉ h)
    (Hp : forall n, p = Some n -> 0 <= n < 2 ^ 31)
    (Hb : base = [] \/ (head base = Some SLASH /\ last base <> Some SLASH))
    (Hsl : Forall (fun c => c = SLASH) slashes) :
  parseUrl (scheme_text secure ++ (h ++ port_text p) ++ base ++ slashes) =
    Ok (Some (MkUrl h (match p with Some n => wrap_u16 n | None => if secure then 443 else 80 end) secure base)) /\
  parseUrl (lit "ftp://" ++ h) = Ok None /\
  parseUrl (lit "http://h:65616") = Ok (Some (MkUrl (lit "h") 80 false [])) /\
  parseUrl (lit "http://h:http") = Throw invalid_argument.
Proof.
  split_and!; [| |vm_compute; reflexivity|vm_compute; reflexivity].
  - assert (parseUrl (scheme_text secure ++ (h ++ port_text p) ++ base ++ slashes) =
      parseUrl (scheme_text secure ++ (h ++ port_text p) ++ base)) as ->.
    { unfold parseUrl. rewrite (app_assoc _ base slashes), (app_assoc (scheme_text secure) (_ ++ base) slashes).
      rewrite trim_right_suffix; [done|]. eapply Forall_impl; [exact Hsl|]. by intros c ->. }
    apply parse_hostport; try done; [tauto|]. intros c Hx. apply Z.eqb_neq. intros <-.
    rewrite last_app in Hx. destruct Hb as [->|[Hh Hlb]].
    + cbn [last] in Hx. rewrite last_app in Hx. destruct p as [n|]; cbn [port_text] in Hx.
      * pose proof (to_string_nonempty n) as Hn. rewrite last_cons in Hx.
        pose proof (to_string_isdigit n ltac:(specialize (Hp n eq_refl); lia)) as Hd.
        destruct (last (to_string n)) as [e|] eqn:E; [|by apply last_None in E].
        injection Hx as ->. apply last_Some_elem_of in E. rewrite Forall_forall in Hd. by apply Hd in E.
      * cbn [last] in Hx. by apply last_Some_elem_of in Hx.
    + destruct (last base) as [e|] eqn:E; [congruence|]. apply last_None in E. by subst.
  - unfold parseUrl. set (u := trim_right _ _).
    assert (exists r, u = lit "ftp:" ++ r) as [r ->]; [|done].
    unfold u. exists (trim_right (Z.eqb SLASH) (lit "//" ++ h)).
    change (lit "ftp://" ++ h) with (lit "ftp:" ++ (lit "//" ++ h)).
    by apply trim_right_app.
Qed.

Lemma parseUrl_parts_witness :
  parseUrl (lit "https://sync.example:8443/api//") =
  Ok (Some (MkUrl (lit "sync.example") 8443 true (lit "/api"))).
Proof.
  refine (proj1 (parseUrl_parts true (lit "sync.example") (lit "/api") (lit "//") (Some 8443) _ _ _ _ _ _)).
  - decide_goal.
  - decide_goal.
  - decide_goal.
  - intros n [= <-]. lia.
  - right. split; decide_goal.
  - decide_goal.
Defined.

Definition blank (c : Z) : bool := (c =? SPACE) || (c =? TAB).

(** [headerValue] finds a header past the first line: when the first
    occurrence of CRLF name colon is followed by blanks, a value and CRLF, it
    returns the value without the blanks; without any occurrence, and not at
    the start, it returns the empty text. At the very start of the block its
    offset is wrong: it returns the text from the third character of the name
    on instead of the value. *)
Theorem headerValue_spec (all pre name ws v post : str)
    (Hall : all = pre ++ crlf ++ name ++ [COLON] ++ ws ++ v ++ crlf ++ post)
    (Hfirst : find_str (crlf ++ name ++ [COLON]) all = Some (length pre))
    (Hws : Forall (fun c => blank c = true) ws) (Hcr : CR ∉ ws ++ v)
    (Hv : forall c, head v = Some c -> blank c = false)
    (Hlen : Z.of_nat (length all) < 2 ^ 63) :
  headerValue all name = Ok v /\
  (forall text key, find_str (crlf ++ key ++ [COLON]) text = None ->
     starts_with (key ++ [COLON]) text = false -> headerValue text key = Ok []) /\
  headerValue (lit "X-NPSync-Protocol: 1" ++ crlf) (lit "X-NPSync-Protocol")
    = Ok (lit "NPSync-Protocol: 1").
Proof.
  split_and!; [| |vm_compute; reflexivity].
  - unfold headerValue. rewrite Hfirst.
    assert (length (crlf ++ name ++ [COLON]) = (length name + 3)%nat) as Ln
      by (rewrite !length_app; simpl; lia).
    assert (length all = (length pre + (length name + 3) + length (ws ++ v ++ crlf ++ post))%nat) as La.
    { rewrite Hall, !length_app. simpl. lia. }
    rewrite wrap_u64_id by (rewrite Ln; lia).
    replace (Z.to_nat (Z.of_nat (length pre) + Z.of_nat (length (crlf ++ name ++ [COLON]))))
      with (length pre + length (crlf ++ name ++ [COLON]))%nat by lia.
    assert (drop (length pre + length (crlf ++ name ++ [COLON])) all = ws ++ v ++ crlf ++ post) as Ed.
    { rewrite Hall, <- drop_drop, drop_app_length.
      change (crlf ++ name ++ [COLON] ++ ws ++ v ++ crlf ++ post)
        with (crlf ++ name ++ [COLON] ++ (ws ++ v ++ crlf ++ post)).
      by rewrite !(app_assoc _ _ (ws ++ _)), drop_app_length. }
    rewrite Ed. assert (find_str crlf (ws ++ v ++ crlf ++ post) = Some (length (ws ++ v))) as ->.
    { rewrite app_assoc. apply (find_str_first CR [LF] (ws ++ v) post Hcr). }
    unfold substr. rewrite decide_False by (rewrite Ln; lia). cbn [obind].
    rewrite Ed, app_assoc, take_app_length. f_equal. fold blank.
    rewrite trim_left_app_stop, (trim_left_all blank ws), bool_decide_true by done.
    by apply trim_left_id.
  - intros text key Hn Hs. unfold headerValue. by rewrite Hn, Hs.
Qed.

Lemma headerValue_spec_witness :
  let all := lit "HTTP/1.1 200 OK" ++ crlf ++ lit "X-NPSync-Protocol: 1" ++ crlf ++ crlf in
  headerValue all (lit "X-NPSync-Protocol") = Ok (lit "1").
Proof.
  refine (proj1 (headerValue_spec _ (lit "HTTP/1.1 200 OK") (lit "X-NPSync-Protocol") (lit " ") (lit "1")
    crlf _ _ _ _ _ _)).
  - reflexivity.
  - vm_compute. reflexivity.
  - decide_goal.
  - decide_goal.
  - intros c [= <-]. reflexivity.
  - vm_compute. reflexivity.
Defined.

End ApiClientSpec.
