(* ===== verification/WsClient.v ===== *)
(** * WsClient: ApiClient.cpp, the web socket's receiver thread

    [run] is the thread [start] makes and [stop] joins. What the thread meets
    is scripted: the answers of the token provider, the outcome of each
    connection attempt with the frames that arrive on it, and how many more
    reads of [impl_->running] see [true] before another thread's [stop] is
    seen. What the thread does is its trace: its looks at [running] with what
    they saw, naps of half a second, requests, and calls of the callbacks. *)
From S2P Require Import Prelude Text Platform ApiClient.

#[local] Open Scope monad_scope.

Module WsClient.
Import ApiClient.

(** ** The thread's surroundings *)

(** What [WinHttpWebSocketReceive] comes back with, the data up to [read]. *)
Inductive Frame :=
  | ReceiveError | CloseBuffer
  | Utf8Message (data : Bytes) | Utf8Fragment (data : Bytes)
  | BinaryBuffer (data : Bytes).

(** How far an attempt gets: no session or connection, no request handle, no
    upgrade option, not sent, no response; or a status and, after 101, the
    web socket with the frames it will bring. *)
Inductive Attempt :=
  | NoConnection | NoRequest | NoUpgradeOption | NotSent | NotReceived
  | Answered (st : Z) (upgraded : option (list Frame)).

Inductive Act :=
  | Look (running : bool)
  | Nap
  | AskToken (token : str)
  | Upgrade (u : ParsedUrl) (path : str)
  | OnState (connected : bool)
  | OnEvent (ev : json).

Record Ws := MkWs {
  reads : nat;
  tokens : list str;
  attempts : list Attempt;
  trace : list Act
}.

Definition log (a : Act) : M Ws unit :=
  modify (fun s => MkWs (reads s) (tokens s) (attempts s) (trace s ++ [a])).

(** One read of [impl_->running]. *)
Definition running : M Ws bool := fun s =>
  match reads s with
  | O => (Ok false, MkWs O (tokens s) (attempts s) (trace s ++ [Look false]))
  | S n => (Ok true, MkWs n (tokens s) (attempts s) (trace s ++ [Look true]))
  end.

(** [tokenProvider_()]; a script that ran out is an engine that is signed out. *)
Definition next_token : M Ws str := fun s =>
  let t := default [] (head (tokens s)) in
  (Ok t, MkWs (reads s) (tail (tokens s)) (attempts s) (trace s ++ [AskToken t])).

Definition next_attempt : M Ws Attempt := fun s =>
  match attempts s with
  | [] => (Ok NoConnection, s)
  | a :: l => (Ok a, MkWs (reads s) (tokens s) l (trace s))
  end.

(** ** The thread *)

(** [for (int i = 0; i < n && impl_->running; ++i) Sleep(500);] *)
Fixpoint pause (n : nat) : M Ws unit :=
  match n with
  | O => ret tt
  | S n' =>
      let* go := running in
      if go then log Nap ;; pause n' else ret tt
  end.

Section json.
Context `{Json}.

(** An event for the handler, or text that does not parse, which is dropped. *)
Definition deliver (msg : Bytes) : M Ws unit :=
  match json_parse msg with
  | Some ev => log (OnEvent ev)
  | None => ret tt
  end.

(** The receive loop. Once the script ran out, receiving fails. *)
Fixpoint receive (frames : list Frame) : M Ws unit :=
  let* go := running in
  if negb go then ret tt
  else
    match frames with
    | [] => ret tt
    | ReceiveError :: _ | CloseBuffer :: _ => ret tt
    | Utf8Message msg :: frames' | Utf8Fragment msg :: frames' => deliver msg ;; receive frames'
    | BinaryBuffer _ :: frames' => receive frames'
    end.

(** The [do ... while (false)] of one attempt; [true] when it got as far as the
    reset of the back-off. *)
Definition attempt (pu : ParsedUrl) (token : str) : M Ws bool :=
  let* a := next_attempt in
  let upgrade := log (Upgrade pu (basePath pu ++ lit "/ws?token=" ++ token)) in
  match a with
  | NoConnection | NoRequest | NoUpgradeOption => ret false
  | NotSent | NotReceived => upgrade ;; ret false
  | Answered st upgraded =>
      upgrade ;;
      if negb (st =? 101) then ret false
      else
        match upgraded with
        | None => ret false
        | Some frames => log (OnState true) ;; receive frames ;; log (OnState false) ;; ret true
        end
  end.

Section client.
Context (baseUrl : str).

(** One round of the outer loop, with [backoffSec]; [None] is the end of [run]. *)
Definition round (backoffSec : Z) : M Ws (option Z) :=
  let* go := running in
  if negb go then ret None
  else
    let* token := next_token in
    if bool_decide (token = []) then pause 20 ;; ret (Some backoffSec)
    else
      let* pu := lift (parseUrl baseUrl) in
      match pu with
      | None => ret None
      | Some pu =>
          let* connected := attempt pu token in
          let backoffSec := if connected then 2 else backoffSec in
          let* go := running in
          if negb go then ret None
          else pause (Z.to_nat (backoffSec * 2)) ;; ret (Some (Z.min (backoffSec * 2) 60))
      end.

(** [false] when the fuel ran out. *)
Fixpoint rounds (fuel : nat) (backoffSec : Z) : M Ws bool :=
  match fuel with
  | O => ret false
  | S fuel' =>
      let* next := round backoffSec in
      match next with
      | None => ret true
      | Some backoffSec' => rounds fuel' backoffSec'
      end
  end.

Definition run (fuel : nat) : M Ws bool := rounds fuel 2.
End client.
End json.

End WsClient.

(** ** What the thread may do, step by step *)

Module WsClientFacts.
Import ApiClient WsClient.

(** Where the thread is. [Waiting]: nothing was looked at since the last nap or
    attempt; [Looked]: [running] was just seen [true], and that look was not used
    yet; [Tried], [Sent]: in an attempt, with the token asked for, before and
    after its request; [Online], [Receiving]: in the receive loop, before and
    after a look; [Closing], [Closed]: the loop saw the stop, [onState(false)] to
    come and done; [Dropped]: the connection is gone; [Over]: [running] was seen
    [false]. *)
Inductive Phase :=
  | Waiting | Looked | Tried (token : str) | Sent
  | Online | Receiving | Closing | Closed | Dropped | Over.

(** What may come next, and where it leads. A nap and a question for the token
    each use up a look of their own that saw [true]; an attempt sends at most one
    request, with the token just asked for; [onState] reports changes only; and
    after a look that saw [false] there is at most an [onState(false)] to come. *)
Definition move (p : Phase) (a : Act) : option Phase :=
  match p, a with
  | Waiting, Look go => Some (if go then Looked else Over)
  | Looked, Nap => Some Waiting
  | Looked, AskToken token => Some (if bool_decide (token = []) then Waiting else Tried token)
  | Tried token, Upgrade u path =>
      if bool_decide (path = basePath u ++ lit "/ws?token=" ++ token) then Some Sent else None
  | Sent, OnState true => Some Online
  | (Tried _ | Sent | Dropped), Look go => Some (if go then Waiting else Over)
  | (Online | Receiving), Look go => Some (if go then Receiving else Closing)
  | Receiving, OnEvent _ => Some Online
  | Receiving, OnState false => Some Dropped
  | Closing, OnState false => Some Closed
  | (Closed | Over), Look false => Some Over
  | _, _ => None
  end.

Fixpoint follows (p : Phase) (t : list Act) : option Phase :=
  match t with
  | [] => Some p
  | a :: t' => move p a ≫= fun p' => follows p' t'
  end.

(** The stop was seen. *)
Definition over (p : Phase) : bool :=
  match p with Closing | Closed | Over => true | _ => false end.

Definition count (f : Act -> bool) (t : list Act) : nat := sum_list_with (fun a => Nat.b2n (f a)) t.
Definition naps : list Act -> nat := count (fun a => match a with Nap => true | _ => false end).
(** The looks that saw [true]. *)
Definition looks : list Act -> nat := count (fun a => match a with Look go => go | _ => false end).

Lemma follows_app p t t' : follows p (t ++ t') = follows p t ≫= fun p' => follows p' t'.
Proof. revert p. induction t as [|a t IH]; intros p; [done|]. simpl. destruct (move p a); [apply IH|done]. Qed.

Lemma looks_app t t' : looks (t ++ t') = (looks t + looks t')%nat.
Proof. apply sum_list_with_app. Qed.

Ltac move_cases :=
  repeat match goal with
  | H : move ?p ?a = Some _ |- _ => destruct p; try (is_var a; destruct a); cbn [move] in H; try discriminate H
  | H : context [match ?x with _ => _ end] |- _ => destruct x eqn:?; try discriminate H
  end; simplify_eq.

(** Each nap has a look of its own. *)
Lemma follows_naps p t p' : follows p t = Some p' ->
  (naps t <= looks t + match p with Looked => 1 | _ => 0 end)%nat.
Proof.
  revert p. induction t as [|a t IH]; intros p; simpl; [lia|].
  intros (p1 & Hm & Ht)%bind_Some. specialize (IH _ Ht). unfold naps, looks, count in *.
  move_cases; cbn [sum_list_with Nat.b2n] in *; lia.
Qed.

(** Once the stop was seen: nothing but further looks and [onState(false)]. *)
Lemma over_follows p t p' : over p = true -> follows p t = Some p' ->
  Forall (fun a => a = Look false \/ a = OnState false) t /\ over p' = true.
Proof.
  revert p. induction t as [|a t IH]; intros p; simpl; [by intros ? [= <-]|].
  intros Hp (p1 & Hm & Ht)%bind_Some.
  assert ((a = Look false \/ a = OnState false) /\ over p1 = true) as [Ha H1] by
    (destruct p; try discriminate Hp; move_cases; auto).
  destruct (IH _ H1 Ht). auto.
Qed.

Lemma follows_stop p t1 t2 p' : follows p (t1 ++ Look false :: t2) = Some p' ->
  Forall (fun a => a = Look false \/ a = OnState false) t2 /\ over p' = true.
Proof.
  rewrite follows_app. intros (p1 & _ & (p2 & Hm & Ht)%bind_Some)%bind_Some.
  apply (over_follows p2); [|done]. move_cases; done.
Qed.

(** A nap comes straight after a look that saw [true]. *)
Lemma follows_nap p t1 t2 p' : p <> Looked -> follows p (t1 ++ Nap :: t2) = Some p' ->
  exists t0, t1 = t0 ++ [Look true].
Proof.
  intros Hp. rewrite follows_app. intros (p1 & H1 & (p2 & Hm & _)%bind_Some)%bind_Some.
  assert (p1 = Looked) as -> by (move_cases; done). clear Hm.
  destruct t1 as [|a t0 _] using rev_ind; [by simplify_eq/=|].
  rewrite follows_app in H1. apply bind_Some in H1 as (p3 & _ & (p4 & Hm & [= ->])%bind_Some).
  exists t0. move_cases; done.
Qed.

Section performs.
(** The exceptions a step may throw. *)
Context (E : exn -> Prop).

(** From [p] the step adds to the trace what may come next, and ends in a phase
    the postcondition allows; it uses up one read per look that saw [true]. *)
Definition performs {A} (p : Phase) (m : M Ws A) (post : A -> Phase -> Prop) : Prop :=
  forall s, (over p = true -> reads s = O) -> exists t p',
  trace (m s).2 = trace s ++ t /\ (reads (m s).2 + looks t = reads s)%nat /\ follows p t = Some p' /\
  (over p' = true -> reads (m s).2 = O) /\
  match (m s).1 with
  | Ok a => post a p'
  | Throw e => E e /\ exists token, p' = Tried token
  end.

Lemma performs_ret {A} p (a : A) (post : A -> Phase -> Prop) : post a p -> performs p (ret a) post.
Proof. intros Hp s Hs. exists [], p. rewrite app_nil_r. unfold looks, count. simpl. split_and!; auto with lia. Qed.

Lemma performs_bind {A B} p (m : M Ws A) (k : A -> M Ws B) mid post :
  performs p m mid -> (forall a p', mid a p' -> performs p' (k a) post) -> performs p (bind m k) post.
Proof.
  intros Hm Hk s Hs. destruct (Hm s Hs) as (t & p1 & Ht & Hn & Hf & Ho & Hr). unfold bind.
  destruct (m s) as [[a|e] s1]; simpl in *; [|by exists t, p1].
  destruct (Hk a p1 Hr s1 Ho) as (t' & p' & Ht' & Hn' & Hf' & Ho' & Hr'). exists (t ++ t'), p'.
  rewrite Ht', Ht, app_assoc, looks_app, follows_app, Hf. simpl. split_and!; [done|lia|done..].
Qed.

Lemma performs_log p p' a : (forall go, a <> Look go) -> move p a = Some p' ->
  over p' = over p -> performs p (log a) (fun _ => eq p').
Proof.
  intros Ha Hm Ho s Hs. exists [a], p'. cbn. rewrite Hm, Ho. split_and!; auto.
  destruct a; try (unfold looks, count; simpl; lia). by destruct (Ha _ eq_refl).
Qed.

(** A look, from a phase that allows one. *)
Lemma performs_running p p1 p0 :
  move p (Look true) = Some p1 \/ over p = true -> move p (Look false) = Some p0 ->
  over p1 = false ->
  performs p running (fun go p' => p' = if go then p1 else p0).
Proof.
  intros H1 H0 Ho s Hs. unfold running. destruct (reads s) as [|n] eqn:R.
  - exists [Look false], p0. cbn. rewrite H0, ?R. auto.
  - destruct H1 as [H1|H1]; [|by specialize (Hs H1)].
    exists [Look true], p1. cbn. rewrite H1, Ho, ?R. split_and!; [done|unfold looks, count; simpl; lia|done..].
Qed.

Lemma performs_next_token :
  performs Looked next_token (fun t p' => p' = if bool_decide (t = []) then Waiting else Tried t).
Proof.
  intros s Hs. unfold next_token. eexists [_], _. cbn. split_and!; [done|unfold looks, count; simpl; lia|done| |done].
  by case_bool_decide.
Qed.

Lemma performs_next_attempt p : performs p next_attempt (fun _ => eq p).
Proof.
  intros s Hs. exists [], p. rewrite app_nil_r. unfold next_attempt, looks, count.
  destruct (attempts s); simpl; split_and!; auto with lia.
Qed.

Lemma performs_lift {A} (o : outcome A) token :
  (forall e, o = Throw e -> E e) -> performs (Tried token) (lift o) (fun a p => o = Ok a /\ p = Tried token).
Proof.
  intros He s Hs. exists [], (Tried token). rewrite app_nil_r. unfold looks, count. simpl.
  split_and!; auto with lia. destruct o; simpl; eauto.
Qed.

(** Between two attempts: what the pauses may leave. *)
Definition rest (p : Phase) : Prop := p = Waiting \/ p = Over.

Lemma performs_pause n p : rest p -> performs p (pause n) (fun _ => rest).
Proof.
  revert p. induction n as [|n IH]; intros p Hp; simpl; [by apply performs_ret|].
  eapply performs_bind; [apply (performs_running _ Looked Over)|].
  { destruct Hp as [-> | ->]; simpl; auto. }
  { by destruct Hp as [-> | ->]. }
  { done. }
  intros [] p' ->; [|apply performs_ret; by right].
  eapply performs_bind; [by apply (performs_log Looked Waiting)|]. intros [] ? <-. apply IH. by left.
Qed.

Context `{Json}.

(** In the receive loop, and how it is left. *)
Definition connected (p : Phase) : Prop := p = Online \/ p = Receiving.
Definition left (p : Phase) : Prop := p = Receiving \/ p = Closing.

Lemma performs_deliver msg : performs Receiving (deliver msg) (fun _ => connected).
Proof.
  unfold deliver, connected. destruct (json_parse msg) as [ev|]; [|apply performs_ret; auto].
  intros s Hs. destruct (performs_log Receiving Online (OnEvent ev) ltac:(done) eq_refl eq_refl s Hs)
    as (t & p' & ? & ? & ? & ? & Hr). exists t, p'. simpl in *. subst p'. by split_and!; auto.
Qed.

Lemma performs_receive frames p : connected p -> performs p (receive frames) (fun _ => left).
Proof.
  revert p. induction frames as [|f frames IH]; intros p Hp; simpl;
    (eapply performs_bind; [apply (performs_running _ Receiving Closing); [|by destruct Hp as [-> | ->]|done];
      by left; destruct Hp as [-> | ->]|]); intros [] p' ->;
    try (apply performs_ret; unfold left; by auto).
  assert (connected Receiving) by (unfold connected; auto).
  destruct f; simpl; try (apply performs_ret; unfold left; by auto); auto;
    (eapply performs_bind; [apply performs_deliver|]; intros [] p1 Hp1; auto).
Qed.

(** An attempt is over; after a stop that it saw only [onState(false)] came. *)
Definition tried (p : Phase) : Prop := (exists t, p = Tried t) \/ p = Sent \/ p = Dropped \/ p = Closed.

Lemma performs_attempt pu token : performs (Tried token) (attempt pu token) (fun _ => tried).
Proof.
  unfold attempt. eapply performs_bind; [apply performs_next_attempt|]. intros a ? <-.
  assert (performs (Tried token) (log (Upgrade pu (basePath pu ++ lit "/ws?token=" ++ token))) (fun _ => eq Sent))
    as Hup by (apply performs_log; [done|simpl; by rewrite bool_decide_eq_true_2|done]).
  destruct a as [| | | | |st up]; try (apply performs_ret; unfold tried; by eauto);
    (eapply performs_bind; [apply Hup|]; intros [] ? <-); try (apply performs_ret; unfold tried; by auto).
  destruct (negb _); [apply performs_ret; unfold tried; by auto|].
  destruct up as [frames|]; [|apply performs_ret; unfold tried; by auto].
  eapply performs_bind; [by apply (performs_log Sent Online)|]. intros [] ? <-.
  eapply performs_bind; [apply performs_receive; by left|]. intros [] p [-> | ->].
  - eapply performs_bind; [by apply (performs_log Receiving Dropped)|]. intros [] ? <-. apply performs_ret. unfold tried. auto.
  - eapply performs_bind; [by apply (performs_log Closing Closed)|]. intros [] ? <-. apply performs_ret. unfold tried. auto.
Qed.

(** How a round ends: it goes on, or the stop was seen, or there is no server. *)
Definition round_post (url : str) (next : option Z) (p : Phase) : Prop :=
  match next with
  | Some _ => rest p
  | None => p = Over \/ (exists t, p = Tried t) /\ parseUrl url = Ok None
  end.

(** A round looks at [running] first. *)
Lemma performs_round_looked url backoff : (forall e, parseUrl url = Throw e -> E e) ->
  exists k, round url backoff = (let* go := running in if negb go then ret None else k) /\
    performs Looked k (round_post url).
Proof.
  intros He. eexists. split; [reflexivity|].
  eapply performs_bind; [apply performs_next_token|]. intros token p' ->.
  case_bool_decide.
  { eapply performs_bind; [apply performs_pause; by left|]. intros [] p' Hp'. by apply performs_ret. }
  eapply performs_bind; [by apply performs_lift|]. intros pu ? [Hpu ->].
  destruct pu as [pu|]; [|apply performs_ret; right; by eauto].
  eapply performs_bind; [apply performs_attempt|]. intros up p' Hp'.
  eapply performs_bind; [apply (performs_running _ Waiting Over)|].
  { destruct Hp' as [(t & ->)|[->|[->| ->]]]; simpl; auto. }
  { by destruct Hp' as [(t & ->)|[->|[->| ->]]]. }
  { done. }
  intros [] ? ->; [|apply performs_ret; by left]. cbn [negb].
  eapply performs_bind; [apply performs_pause; by left|]. intros [] p1 Hp1. by apply performs_ret.
Qed.

Lemma performs_round url backoff p :
  rest p -> (forall e, parseUrl url = Throw e -> E e) -> performs p (round url backoff) (round_post url).
Proof.
  intros Hp He. destruct (performs_round_looked url backoff He) as (k & -> & Hk).
  eapply performs_bind; [apply (performs_running _ Looked Over)|].
  { destruct Hp as [-> | ->]; simpl; auto. }
  { by destruct Hp as [-> | ->]. }
  { done. }
  intros [] p' ->; [done|]. apply performs_ret. by left.
Qed.
End performs.

(** The thread looks at [running] at least once per round. *)
Lemma round_reads `{Json} url backoff s next s' :
  round url backoff s = (Ok (Some next), s') -> (reads s' < reads s)%nat.
Proof.
  intros Hr. destruct (performs_round_looked (fun _ => True) url backoff ltac:(done)) as (k & Hround & Hk).
  rewrite Hround in Hr. destruct s as [[|n] ts l tr]; [done|]. unfold bind in Hr. cbn [running reads negb] in Hr.
  destruct (Hk (MkWs n ts l (tr ++ [Look true])) ltac:(done)) as (t & p' & _ & Hn & _).
  simpl in Hr. rewrite Hr in Hn. simpl in *. lia.
Qed.

End WsClientFacts.

(** ** The thread's life, its events and its delays *)

Module WsClientSpec.
Import ApiClient WsClient WsClientFacts.

(** The text of a frame the loop hands to the parser. *)
Definition frame_text (f : Frame) : option Bytes :=
  match f with Utf8Message d | Utf8Fragment d => Some d | _ => None end.

(** The frames received before the connection ends. *)
Fixpoint live (frames : list Frame) : list Frame :=
  match frames with
  | [] | ReceiveError :: _ | CloseBuffer :: _ => []
  | f :: frames' => f :: live frames'
  end.

(** [backoffSec] after so many failed attempts in a row. *)
Definition delay (i : nat) : Z := Z.min (2 ^ (Z.of_nat i + 1)) 60.

(** The attempt ends without a web socket. *)
Definition fails (a : Attempt) : Prop :=
  match a with Answered st upgraded => st <> 101 \/ upgraded = None | _ => True end.

Definition upgrade (pu : ParsedUrl) (token : str) : Act :=
  Upgrade pu (basePath pu ++ lit "/ws?token=" ++ token).

Definition requests (pu : ParsedUrl) (token : str) (a : Attempt) : list Act :=
  match a with NoConnection | NoRequest | NoUpgradeOption => [] | _ => [upgrade pu token] end.

(** A delay: a look before each nap. *)
Definition waits (n : nat) : list Act := concat (replicate n [Look true; Nap]).

(** What failed attempts leave in the trace, and the reads of [running] they take. *)
Fixpoint schedule (pu : ParsedUrl) (i : nat) (l : list (Attempt * str)) : list Act :=
  match l with
  | [] => []
  | (a, token) :: l' =>
      [Look true; AskToken token] ++ requests pu token a ++ [Look true] ++
      waits (Z.to_nat (delay i * 2)) ++ schedule pu (S i) l'
  end.

Fixpoint cost (i n : nat) : nat :=
  match n with O => 0 | S n' => 2 + Z.to_nat (delay i * 2) + cost (S i) n' end.

Lemma delay_S i : Z.min (delay i * 2) 60 = delay (S i).
Proof.
  unfold delay. replace (Z.of_nat (S i) + 1) with (Z.succ (Z.of_nat i + 1)) by lia.
  rewrite (Z.pow_succ_r 2 (Z.of_nat i + 1)) by lia. lia.
Qed.

Lemma delay_range i : 2 <= delay i <= 60.
Proof.
  unfold delay. rewrite Z.add_comm, Z.pow_add_r by lia.
  pose proof (Z.pow_pos_nonneg 2 (Z.of_nat i) ltac:(lia) ltac:(lia)). lia.
Qed.

Lemma next_token_run n token ts l tr :
  next_token (MkWs n (token :: ts) l tr) = (Ok token, MkWs n ts l (tr ++ [AskToken token])).
Proof. done. Qed.

Lemma pause_run n s : (n <= reads s)%nat ->
  pause n s = (Ok tt, MkWs (reads s - n) (tokens s) (attempts s) (trace s ++ waits n)).
Proof.
  revert s. induction n as [|n IH]; intros [k ts l tr] Hn; cbn in Hn.
  { cbn. by rewrite Nat.sub_0_r, app_nil_r. }
  destruct k as [|k]; [lia|].
  change (pause (S n) _) with (pause n (MkWs k ts l ((tr ++ [Look true]) ++ [Nap]))).
  rewrite IH by (cbn; lia). cbn. by rewrite <- !app_assoc.
Qed.

Section json.
Context `{Json}.

Definition events_of (frames : list Frame) : list json :=
  omap (fun f => frame_text f ≫= json_parse) (live frames).

Lemma events_of_cons f frames :
  events_of (f :: frames) =
    match f with
    | ReceiveError | CloseBuffer => []
    | _ => option_list (frame_text f ≫= json_parse) ++ events_of frames
    end.
Proof. by destruct f; unfold events_of; cbn; try destruct (json_parse _). Qed.

(** The receive loop's looks and events, up to the end of the connection. *)
Fixpoint listened (frames : list Frame) : list Act :=
  Look true ::
  match frames with
  | [] | ReceiveError :: _ | CloseBuffer :: _ => []
  | f :: frames' => map OnEvent (option_list (frame_text f ≫= json_parse)) ++ listened frames'
  end.

Definition event (a : Act) : option json := match a with OnEvent ev => Some ev | _ => None end.

Lemma listened_events frames : omap event (listened frames) = events_of frames.
Proof.
  induction frames as [|f frames IH]; [done|].
  destruct f as [| |d|d|d]; unfold events_of in *; cbn; try done; try apply IH;
    destruct (json_parse d); cbn; by rewrite IH.
Qed.

(** One frame: the loop ends, or its text is delivered and the loop goes on. *)
Lemma receive_step f frames k ts l tr :
  receive (f :: frames) (MkWs (S k) ts l tr) =
    match f with
    | ReceiveError | CloseBuffer => (Ok tt, MkWs k ts l (tr ++ [Look true]))
    | _ => receive frames
        (MkWs k ts l ((tr ++ [Look true]) ++ map OnEvent (option_list (frame_text f ≫= json_parse))))
    end.
Proof.
  destruct f as [| |d|d|d]; [done..| | |cbn; by rewrite app_nil_r];
    cbn [receive frame_text mbind option_bind]; unfold bind, deliver;
    destruct (json_parse d); cbn; by rewrite ?app_nil_r.
Qed.

Lemma receive_run frames s : (length frames < reads s)%nat -> exists k,
  (reads s <= k + S (length frames))%nat /\
  receive frames s = (Ok tt, MkWs k (tokens s) (attempts s) (trace s ++ listened frames)).
Proof.
  revert s. induction frames as [|f frames IH]; intros [[|k] ts l tr] Hn; simpl in Hn; try lia.
  { exists k. cbn. auto with lia. }
  rewrite receive_step. cbn [reads tokens attempts trace length].
  assert (forall evs, exists k', (S k <= k' + S (S (length frames)))%nat /\
    receive frames (MkWs k ts l ((tr ++ [Look true]) ++ map OnEvent evs)) =
      (Ok tt, MkWs k' ts l (tr ++ Look true :: map OnEvent evs ++ listened frames))) as Hrec.
  { intros evs. destruct (IH (MkWs k ts l ((tr ++ [Look true]) ++ map OnEvent evs))) as (k' & Hk & ->); [simpl; lia|].
    exists k'. simpl in *. rewrite <- !app_assoc. split; [lia|done]. }
  destruct f; [exists k; split; [lia|done]..| | |]; apply Hrec.
Qed.

Lemma attempt_connects pu token frames n ts l tr :
  attempt pu token (MkWs n ts (Answered 101 (Some frames) :: l) tr) =
    (receive frames ;; log (OnState false) ;; ret true)
      (MkWs n ts l (tr ++ [upgrade pu token; OnState true])).
Proof.
  change (tr ++ [upgrade pu token; OnState true]) with (tr ++ [upgrade pu token] ++ [OnState true]).
  by rewrite app_assoc.
Qed.

(** One failed attempt, from the read of [running] to the end of its delay. *)
Lemma round_fails url pu i a token ts l s :
  parseUrl url = Ok (Some pu) -> token <> [] -> fails a ->
  tokens s = token :: ts -> attempts s = a :: l -> (2 + Z.to_nat (delay i * 2) <= reads s)%nat ->
  round url (delay i) s =
    (Ok (Some (delay (S i))),
     MkWs (reads s - (2 + Z.to_nat (delay i * 2))) ts l
       (trace s ++ [Look true; AskToken token] ++ requests pu token a ++ [Look true] ++
        waits (Z.to_nat (delay i * 2)))).
Proof.
  intros Hurl Htok Ha. destruct s as [n ts' l' tr]. cbn [tokens attempts reads trace]. intros -> -> Hn.
  destruct n as [|[|n]]; [lia..|]. unfold round. unfold bind at 1. cbn [running reads tokens attempts trace negb].
  erewrite bind_run; [|apply next_token_run]. rewrite bool_decide_eq_false_2 by done.
  unfold lift. rewrite Hurl. unfold bind at 1.
  set (s1 := MkWs (S n) ts (a :: l) ((tr ++ [Look true]) ++ [AskToken token])).
  assert (attempt pu token s1 = (Ok false, MkWs (S n) ts l (tr ++ [Look true; AskToken token] ++ requests pu token a))) as Hatt.
  { unfold attempt, s1. destruct a as [| | | | |st up]; cbn; rewrite <- ?app_assoc; cbn; try done.
    destruct Ha as [Ha|Ha]; [by rewrite (proj2 (Z.eqb_neq _ _) Ha)|]. subst up. by destruct (st =? 101). }
  unfold bind at 1. rewrite Hatt. unfold bind at 1. cbn [running reads tokens attempts trace negb].
  erewrite bind_run; [|apply pause_run; cbn [reads]]. 2: lia.
  unfold ret. rewrite delay_S.
  cbn [reads tokens attempts trace]. by rewrite <- !app_assoc.
Qed.

(** ** The claims *)

(** How [run] may end: its last look saw the stop, or there is no server to ask. *)
Definition ended (url : str) (r : outcome bool) (p : Phase) (left : nat) : Prop :=
  (r = Ok true /\ p = Over /\ left = O) \/
  (exists token, p = Tried token) /\
  ((r = Ok true /\ parseUrl url = Ok None) \/ exists e, r = Throw e /\ parseUrl url = Throw e).

Lemma rounds_end url fuel backoff s p : (reads s < fuel)%nat -> rest p -> (over p = true -> reads s = O) ->
  let (r, s') := rounds url fuel backoff s in
  (exists t p', trace s' = trace s ++ t /\ follows p t = Some p' /\ (reads s' + looks t = reads s)%nat /\
     ended url r p' (reads s')) /\
  (forall fuel', (reads s < fuel')%nat -> rounds url fuel' backoff s = (r, s')).
Proof.
  revert backoff s p. induction fuel as [|fuel IH]; intros backoff s p Hf Hp Hs; [lia|].
  pose proof (performs_round (fun e => parseUrl url = Throw e) url backoff p Hp ltac:(done) s Hs)
    as (t & p1 & Ht & Hn & Hl & Ho & Hpost).
  cbn [rounds]. unfold bind at 1.
  destruct (round url backoff s) as [[[next|]|e] s1] eqn:R; cbn [fst snd] in *.
  - pose proof (round_reads _ _ _ _ _ R) as Hless.
    specialize (IH next s1 p1 ltac:(lia) Hpost Ho). destruct (rounds url fuel next s1) as [r s'] eqn:R'.
    destruct IH as ((t' & p' & Ht' & Hl' & Hn' & Hr) & Hfuel). split.
    + exists (t ++ t'), p'. rewrite Ht', Ht, app_assoc, looks_app, follows_app, Hl. split_and!; [done|done|lia|done].
    + intros [|fuel'] Hf'; [lia|]. cbn [rounds]. unfold bind. rewrite R. apply Hfuel. lia.
  - split.
    + exists t, p1. split_and!; [done..|]. destruct Hpost as [-> | [Hp1 Hurl]]; [left|right]; auto.
    + intros [|fuel'] Hf'; [lia|]. cbn [rounds]. unfold bind. by rewrite R.
  - split.
    + exists t, p1. split_and!; [done..|]. destruct Hpost as [Hurl Hp1]. right. eauto.
    + intros [|fuel'] Hf'; [lia|]. cbn [rounds]. unfold bind. by rewrite R.
Qed.

(** C21: the thread ends once it was asked to: however the connections go, when
    [running] is seen [true] [n] more times, [run] is over within [n + 1] rounds
    (more fuel changes nothing), and it uses up every one of those [n] looks: it
    ends only when it saw the stop, or when the base URL is no URL with a host or
    its port is no number. Its trace follows the protocol of [move]: each nap
    comes straight after a look at [running] that saw [true] and that serves this
    nap alone (the look at the head of a round serves the question for the token,
    the one after an attempt serves none), so the thread does not sleep again once the stop
    was seen: after a look that saw [false] there is no nap, no request, no event
    and no question for a token any more, at most one [onState(false)]. [onState]
    reports changes of the connection only, events arrive while connected, and
    an attempt sends at most one request, with the token it just asked for. *)
Theorem ws_run_ends url fuel s : (reads s < fuel)%nat ->
  let (r, s') := run url fuel s in
  (exists t p, trace s' = trace s ++ t /\ follows Waiting t = Some p /\ ended url r p (reads s') /\
     (reads s' + looks t = reads s)%nat /\ (naps t <= looks t)%nat /\
     (forall t1 t2, t = t1 ++ Nap :: t2 -> exists t0, t1 = t0 ++ [Look true]) /\
     (forall t1 t2, t = t1 ++ Look false :: t2 -> Forall (fun a => a = Look false \/ a = OnState false) t2)) /\
  (forall fuel', (reads s < fuel')%nat -> run url fuel' s = (r, s')).
Proof.
  intros Hf. pose proof (rounds_end url fuel 2 s Waiting Hf ltac:(by left) ltac:(done)) as Hend.
  unfold run. destruct (rounds url fuel 2 s) as [r s'].
  destruct Hend as ((t & p & Ht & Hl & Hn & Hr) & Hfuel). split; [|done]. exists t, p. split_and!; try done.
  - pose proof (follows_naps _ _ _ Hl). simpl in *. lia.
  - intros t1 t2 ->. by apply (follows_nap Waiting t1 t2 p).
  - intros t1 t2 ->. by apply (follows_stop Waiting t1 t2 p).
Qed.

(** A connection delivers to [onEvent] the frames of text that parse, each
    buffer on its own, in order, up to the first error or close frame, between
    [onState(true)] and [onState(false)]; then the thread waits two seconds and
    the next delay is four, whatever the delay was before. A message that WinHTTP
    hands over in pieces is therefore lost: when no piece parses on its own the
    rest is delivered as if it had not come, whatever the whole message says. *)
Theorem ws_connection_events url pu backoff token ts frames l s :
  parseUrl url = Ok (Some pu) -> token <> [] ->
  tokens s = token :: ts -> attempts s = Answered 101 (Some frames) :: l ->
  (length frames + 7 <= reads s)%nat ->
  (exists k, round url backoff s =
    (Ok (Some 4),
     MkWs k ts l (trace s ++ [Look true; AskToken token; upgrade pu token; OnState true] ++ listened frames ++
                  [OnState false; Look true] ++ waits 4))) /\
  omap event (listened frames) = events_of frames /\
  (forall pieces last rest, Forall (fun m => json_parse m = None) (pieces ++ [last]) ->
     frames = map Utf8Fragment pieces ++ Utf8Message last :: rest -> events_of frames = events_of rest).
Proof.
  intros Hurl Htok. destruct s as [n ts' l' tr]. cbn [tokens attempts reads trace]. intros -> -> Hn.
  split_and!.
  - destruct n as [|n]; [lia|]. unfold round. unfold bind at 1. cbn [running reads tokens attempts trace negb].
    erewrite bind_run; [|apply next_token_run]. rewrite bool_decide_eq_false_2 by done.
    unfold lift. rewrite Hurl. unfold bind at 1.
    set (s1 := MkWs n ts l (((tr ++ [Look true]) ++ [AskToken token]) ++ [upgrade pu token; OnState true])).
    destruct (receive_run frames s1) as (k & Hk & Hr); [cbn; lia|].
    set (s2 := MkWs k ts l (trace s1 ++ listened frames ++ [OnState false])).
    erewrite (bind_run (attempt pu token) _ _ true s2).
    2: { rewrite attempt_connects. fold s1. unfold bind at 1. rewrite Hr. unfold s2. cbn.
         by rewrite <- !app_assoc. }
    unfold s2. cbn [s1 reads] in Hk. unfold bind at 1, running. cbn [reads tokens attempts trace].
    destruct k as [|k]; [lia|]. exists (k - 4)%nat. cbn [negb].
    erewrite bind_run; [|apply pause_run; cbn; lia]. cbn. by rewrite <- !app_assoc.
  - apply listened_events.
  - intros pieces last rest Hp ->. clear Hn. induction pieces as [|m pieces IH]; cbn [map app] in *;
      apply Forall_cons in Hp as [Hm Hp]; rewrite events_of_cons; cbn; rewrite Hm; auto.
Qed.

(** The delays of failed attempts in a row are 2, 4, 8, 16, 32, 60, 60, ...
    seconds, taken in naps of half a second: each attempt sends at most one
    upgrade request, with the token asked for at that time, and [run] goes on
    with the next delay, between 2 and 60 seconds. *)
Theorem ws_backoff url pu bad toks ts l fuel s :
  parseUrl url = Ok (Some pu) -> Forall fails bad -> Forall (fun t => t <> []) toks -> length toks = length bad ->
  tokens s = toks ++ ts -> attempts s = bad ++ l -> (cost 0 (length bad) <= reads s)%nat ->
  run url (length bad + fuel) s =
    rounds url fuel (delay (length bad))
      (MkWs (reads s - cost 0 (length bad)) ts l (trace s ++ schedule pu 0 (zip bad toks))) /\
  2 <= delay (length bad) <= 60 /\
  map delay (seq 0 7) = [2; 4; 8; 16; 32; 60; 60].
Proof.
  intros Hurl Hbad Htoks Hlen Ht Ha Hc. split_and!; [|apply delay_range..|done].
  unfold run. change 2 with (delay 0). replace (delay (length bad)) with (delay (0 + length bad)) by done.
  revert toks s Htoks Hlen Ht Ha Hc. generalize 0%nat as i.
  induction Hbad as [|a bad Hbad _ IH]; intros i [|token toks] [n ts' l' tr] Htoks [=];
    cbn [tokens attempts reads trace app length]; intros -> -> Hc.
  { cbn. by rewrite Nat.add_0_r, Nat.sub_0_r, app_nil_r. }
  inversion_clear Htoks as [|? ? Htok Htoks']. cbn [cost] in Hc.
  cbn [rounds Nat.add zip schedule cost]. erewrite bind_run.
  2: { eapply round_fails; try done. cbn [reads]. lia. }
  cbn [zip_with schedule].
  rewrite (IH (S i) toks); cbn [reads tokens attempts trace]; [|done||lia..].
  rewrite <- Nat.add_succ_comm, <- !app_assoc. by rewrite <- Nat.sub_add_distr.
Qed.
End json.

(** Concrete runs: a server that refuses, then one event in two pieces, one
    whole, and a close frame; the thread is stopped in its fourteenth look. *)
Definition toy_url : ParsedUrl := MkUrl (lit "host") 8080 false (lit "/v1").
Definition toy_event : json := JObj [(lit "t", JNull)].
Definition toy_text : Bytes :=
  match @json_dump toy_json toy_event with Ok t => t | Throw _ => [] end.
Definition toy_frames : list Frame :=
  [Utf8Fragment (take 4 toy_text); Utf8Message (drop 4 toy_text); Utf8Message toy_text; CloseBuffer].
Definition toy_ws (n : nat) : Ws :=
  MkWs n [lit "t1"; lit "t2"] [Answered 503 None; Answered 101 (Some toy_frames)] [].


Lemma ws_run_ends_witness :
  let out := @run toy_json (lit "http://host:8080/v1") 15 (toy_ws 14) in
  (reads (toy_ws 14) < 15)%nat /\
  out.1 = Ok true /\ reads out.2 = O /\ looks (trace out.2) = 14%nat /\
  follows Waiting (trace out.2) = Some Over.
Proof.
  assert ((reads (toy_ws 14) < 15)%nat) as Hf by (simpl; lia).
  pose proof (@ws_run_ends toy_json (lit "http://host:8080/v1") 15 (toy_ws 14) Hf) as Hend.
  assert ((@run toy_json (lit "http://host:8080/v1") 15 (toy_ws 14)).1 = Ok true) as Hr by (by vm_compute).
  revert Hend Hr. generalize (@run toy_json (lit "http://host:8080/v1") 15 (toy_ws 14)).
  intros [r s'] ((t & p & Ht & Hl & He & Hn & _) & _) Hr.
  change (trace (toy_ws 14)) with (@nil Act) in Ht. change (reads (toy_ws 14)) with 14%nat in Hn.
  cbn [fst snd] in *. cbn [app] in Ht. subst t.
  destruct He as [(_ & -> & H0)|(_ & [[_ Hurl]|(e & -> & _)])]; [|by vm_compute in Hurl|done].
  rewrite H0 in *. split_and!; [done|done|done|lia|done].
Defined.
Lemma ws_connection_events_witness :
  let s := MkWs 20 [lit "t2"] [Answered 101 (Some toy_frames)] [] in
  (exists k, @round toy_json (lit "http://host:8080/v1") 32 s =
    (Ok (Some 4), MkWs k [] [] ([Look true; AskToken (lit "t2"); upgrade toy_url (lit "t2"); OnState true] ++
        [Look true; Look true; Look true; OnEvent toy_event; Look true] ++ [OnState false; Look true] ++ waits 4))) /\
  @events_of toy_json toy_frames = [toy_event].
Proof.
  intros s.
  destruct (@ws_connection_events toy_json (lit "http://host:8080/v1") toy_url 32 (lit "t2") [] toy_frames [] s
    ltac:(by vm_compute) ltac:(done) ltac:(done) ltac:(done) ltac:(simpl; lia)) as ((k & Hk) & _ & Hlost).
  split; [exists k; rewrite Hk; by vm_compute|].
  rewrite (Hlost [take 4 toy_text] (drop 4 toy_text) [Utf8Message toy_text; CloseBuffer]); [by vm_compute|..|done].
  repeat constructor.
Defined.
Lemma ws_backoff_witness :
  @run toy_json (lit "http://host:8080/v1") 3 (MkWs 30 [lit "t1"; lit "t2"] [NotSent; Answered 503 None] []) =
    @rounds toy_json (lit "http://host:8080/v1") 1 8
      (MkWs 14 [] [] ([Look true; AskToken (lit "t1"); upgrade toy_url (lit "t1"); Look true] ++ waits 4 ++
                      [Look true; AskToken (lit "t2"); upgrade toy_url (lit "t2"); Look true] ++ waits 8)).
Proof.
  refine (proj1 (@ws_backoff toy_json (lit "http://host:8080/v1") toy_url [NotSent; Answered 503 None]
    [lit "t1"; lit "t2"] [] [] 1 (MkWs 30 [lit "t1"; lit "t2"] [NotSent; Answered 503 None] [])
    _ _ _ _ _ _ _)); [by vm_compute|repeat constructor; done..|done|done|done|].
  vm_compute. lia.
Defined.

End WsClientSpec.
