(* ===== verification/FolderWatcher.v ===== *)
(** * FolderWatcher: FolderWatcher.cpp, change notifications of the sync roots

    A round of [pump] is what the asynchronous read of the directory comes back
    with; a completed one hands over the buffer of FILE_NOTIFY_INFORMATION
    records, which the loop decodes from its bytes. Callbacks are collected in
    order. *)
From S2P Require Import Prelude Text.

Module FolderWatcher.

Inductive Kind := Created | Modified | Deleted | RenamedFrom | RenamedTo.

Record FsEvent := MkEvent { kind : Kind; absPath : wstr; oldAbsPath : wstr }.

#[export] Instance Kind_eq_dec : EqDecision Kind.
Proof. solve_decision. Defined.
#[export] Instance FsEvent_eq_dec : EqDecision FsEvent.
Proof. solve_decision. Defined.

(** ** Roots and threads *)

Record Watcher := MkWatcher { roots_ : list wstr; dirHandles_ : list wstr; running_ : bool }.

Definition addRoot (absDir : wstr) (w : Watcher) : Watcher :=
  MkWatcher (roots_ w ++ [absDir]) (dirHandles_ w) (running_ w).

Definition clearRoots (w : Watcher) : Watcher := MkWatcher [] (dirHandles_ w) (running_ w).

(** The threads are joined: nothing is watched any more. *)
Definition stop (w : Watcher) : Watcher := MkWatcher (roots_ w) [] false.

(** [opens] tells which directories CreateFileW opens; the others are skipped. *)
Definition start (opens : wstr -> bool) (w : Watcher) : Watcher :=
  let w := stop w in
  MkWatcher (roots_ w) (filter (fun r => opens r = true) (roots_ w)) true.

(** ** The notification buffer *)

Definition byte_at (buf : Bytes) (i : nat) : Z := default 0 (buf !! i).
Definition u16_at (buf : Bytes) (i : nat) : Z := byte_at buf i + byte_at buf (i + 1) * 256.
Definition u32_at (buf : Bytes) (i : nat) : Z := u16_at buf i + u16_at buf (i + 2) * 65536.

(** [info->FileName], [FileNameLength / sizeof(wchar_t)] units. *)
Definition name_at (buf : Bytes) (offset : nat) : wstr :=
  map (fun k => u16_at buf (offset + 12 + 2 * k)) (seq 0 (Z.to_nat (u32_at buf (offset + 8) / 2))).

Definition kind_of (action : Z) : option Kind :=
  if action =? 1 then Some Created
  else if action =? 2 then Some Deleted
  else if action =? 3 then Some Modified
  else if action =? 4 then Some RenamedFrom
  else if action =? 5 then Some RenamedTo
  else None.

(** The event of one record, and [pendingOldName] afterwards. *)
Definition make_event (dir : wstr) (action : Z) (name pendingOldName : wstr) : option FsEvent * wstr :=
  let full := dir ++ [BSLASH] ++ name in
  match kind_of action with
  | None => (None, pendingOldName)
  | Some RenamedFrom => (Some (MkEvent RenamedFrom full []), full)
  | Some RenamedTo =>
      if bool_decide (pendingOldName = [])
      then (Some (MkEvent RenamedTo full []), pendingOldName)
      else (Some (MkEvent RenamedTo full pendingOldName), [])
  | Some k => (Some (MkEvent k full []), pendingOldName)
  end.

(** The [for (;;)] loop; [None] is out of fuel. *)
Fixpoint decode (fuel : nat) (dir : wstr) (buf : Bytes) (offset : nat) (pendingOldName : wstr)
    : option (list FsEvent * wstr) :=
  match fuel with
  | O => None
  | S fuel' =>
      let '(ev, pend) := make_event dir (u32_at buf (offset + 4)) (name_at buf offset) pendingOldName in
      let next := u32_at buf offset in
      if next =? 0 then Some (option_list ev, pend)
      else
        match decode fuel' dir buf (offset + Z.to_nat next) pend with
        | None => None
        | Some (evs, pend') => Some (option_list ev ++ evs, pend')
        end
  end.

(** ** The pump *)

Inductive Round :=
  | ReadFailed                 (* ReadDirectoryChangesW returns FALSE *)
  | TimedOut                   (* no event within 500 ms: the read is cancelled *)
  | ResultFailed (stopped : bool)
  | Completed (buf : Bytes) (transferred : Z).

(** The rounds until the loop leaves; a round is preceded by the value of
    [running_]. *)
Fixpoint pump (dir : wstr) (rounds : list (bool * Round)) (pendingOldName : wstr) : list FsEvent :=
  match rounds with
  | [] => []
  | (false, _) :: _ => []
  | (true, ReadFailed) :: _ => []
  | (true, TimedOut) :: rounds' => pump dir rounds' pendingOldName
  | (true, ResultFailed stopped) :: rounds' =>
      if stopped then [] else pump dir rounds' pendingOldName
  | (true, Completed buf transferred) :: rounds' =>
      if transferred =? 0 then pump dir rounds' pendingOldName
      else
        match decode (S (length buf)) dir buf 0 pendingOldName with
        | None => []
        | Some (evs, pend) => evs ++ pump dir rounds' pend
        end
  end.

End FolderWatcher.

(** * The layout Windows fills the buffer with, and its decoding *)

Module FolderWatcherFacts.
Import FolderWatcher.

(** A notification: its action and the name relative to the directory. *)
Abbreviation note := (Z * wstr)%type.

Definition le16 (n : Z) : Bytes := [n mod 256; n / 256].
Definition le32 (n : Z) : Bytes := le16 (n mod 65536) ++ le16 (n / 65536).

Definition pad (n : nat) : nat := (4 - n mod 4) mod 4.
Definition record_size (name : wstr) : nat := 12 + 2 * length name + pad (2 * length name).

(** One record, its names in UTF-16LE, aligned to four bytes. *)
Definition record (next : Z) (n : note) : Bytes :=
  le32 next ++ le32 n.1 ++ le32 (2 * Z.of_nat (length n.2)) ++ mbind le16 n.2
  ++ replicate (pad (2 * length n.2)) 0.

Fixpoint encode (ns : list note) : Bytes :=
  match ns with
  | [] => []
  | [n] => record 0 n
  | n :: ns' => record (Z.of_nat (record_size n.2)) n ++ encode ns'
  end.

Definition note_ok (n : note) : Prop :=
  0 <= n.1 < 2 ^ 32 /\ Forall (fun c => 0 <= c < 65536) n.2 /\ Z.of_nat (record_size n.2) < 2 ^ 32.

(** The events of a sequence of notifications. *)
Fixpoint events_of (dir : wstr) (ns : list note) (pend : wstr) : list FsEvent * wstr :=
  match ns with
  | [] => ([], pend)
  | n :: ns' =>
      let '(ev, pend) := make_event dir n.1 n.2 pend in
      let '(evs, pend) := events_of dir ns' pend in
      (option_list ev ++ evs, pend)
  end.

Lemma length_mbind_le16 (w : wstr) : length (mbind le16 w) = (2 * length w)%nat.
Proof. induction w as [|c w IH]; [done|]. cbn in *. lia. Qed.

Lemma length_record next n : length (record next n) = record_size n.2.
Proof.
  unfold record, record_size. rewrite !length_app, length_mbind_le16, length_replicate.
  unfold le32. simpl. lia.
Qed.

Lemma record_size_ge name : (12 <= record_size name)%nat.
Proof. unfold record_size. lia. Qed.

Lemma byte_at_app (pre l : Bytes) i : byte_at (pre ++ l) (length pre + i) = byte_at l i.
Proof. unfold byte_at. rewrite lookup_app_r by lia. do 2 f_equal. lia. Qed.

Lemma u16_at_app (pre l : Bytes) i : u16_at (pre ++ l) (length pre + i) = u16_at l i.
Proof. unfold u16_at. rewrite <- Nat.add_assoc, !byte_at_app. done. Qed.

Lemma u32_at_app (pre l : Bytes) i : u32_at (pre ++ l) (length pre + i) = u32_at l i.
Proof. unfold u32_at. rewrite <- Nat.add_assoc, !u16_at_app. done. Qed.

Lemma u16_le16 n l : 0 <= n < 65536 -> u16_at (le16 n ++ l) 0 = n.
Proof. intros Hn. unfold u16_at, byte_at, le16. cbn. pose proof (Z.div_mod n 256). lia. Qed.

Lemma u32_le32 n l : 0 <= n < 2 ^ 32 -> u32_at (le32 n ++ l) 0 = n.
Proof.
  intros Hn. unfold u32_at, le32. rewrite <- app_assoc.
  rewrite u16_le16 by (apply Z.mod_pos_bound; lia).
  change (0 + 2)%nat with (length (le16 (n mod 65536)) + 0)%nat. rewrite u16_at_app, u16_le16.
  - pose proof (Z.div_mod n 65536). lia.
  - split; [apply Z.div_pos; lia|apply Z.div_lt_upper_bound; lia].
Qed.

Lemma names_at (name : wstr) l :
  Forall (fun c => 0 <= c < 65536) name ->
  map (fun k => u16_at (mbind le16 name ++ l) (2 * k)) (seq 0 (length name)) = name.
Proof.
  induction name as [|c name IH]; intros Hf; [done|]. apply Forall_cons in Hf as [Hc Hf].
  cbn [mbind list_bind length seq map]. rewrite <- app_assoc. f_equal; [by apply u16_le16|].
  rewrite <- seq_shift, map_map. rewrite <- (IH Hf) at 2. apply map_ext. intros k.
  replace (2 * S k)%nat with (length (le16 c) + 2 * k)%nat by (simpl; lia). apply u16_at_app.
Qed.

(** The fields of a record that starts at [length pre]. *)
Lemma record_fields pre next n post :
  note_ok n -> 0 <= next < 2 ^ 32 ->
  let buf := pre ++ record next n ++ post in
  u32_at buf (length pre) = next /\ u32_at buf (length pre + 4) = n.1 /\
  name_at buf (length pre) = n.2.
Proof.
  intros (Ha&Hc&Hs) Hn buf. destruct n as [a name]. cbn [fst snd] in *.
  assert (buf = pre ++ le32 next ++ le32 a ++ le32 (2 * Z.of_nat (length name)) ++ mbind le16 name
    ++ replicate (pad (2 * length name)) 0 ++ post) as -> by (unfold buf, record; by rewrite <- !app_assoc).
  set (tl := replicate (pad (2 * length name)) 0 ++ post).
  assert (0 <= 2 * Z.of_nat (length name) < 2 ^ 32) as Hl by (unfold record_size in Hs; lia).
  assert (forall l, u32_at (pre ++ le32 next ++ le32 a ++ l) (length pre + 4) = a) as Hact.
  { intros l. rewrite u32_at_app. change 4%nat with (length (le32 next) + 0)%nat.
    by rewrite u32_at_app, u32_le32. }
  split_and!.
  - replace (length pre) with (length pre + 0)%nat by lia. by rewrite u32_at_app, u32_le32.
  - apply Hact.
  - unfold name_at.
    assert (forall l, u32_at (pre ++ le32 next ++ le32 a ++ le32 (2 * Z.of_nat (length name)) ++ l)
      (length pre + 8) = 2 * Z.of_nat (length name)) as Hlen.
    { intros l. rewrite u32_at_app. change 8%nat with (length (le32 next) + (length (le32 a) + 0))%nat.
      by rewrite !u32_at_app, u32_le32. }
    rewrite Hlen. rewrite (Z.mul_comm 2), Z.div_mul, Nat2Z.id by lia.
    transitivity (map (fun k => u16_at (mbind le16 name ++ tl) (2 * k)) (seq 0 (length name)));
      [|by apply names_at]. apply map_ext. intros k.
    replace (length pre + 12 + 2 * k)%nat with (length pre + (length (le32 next) + (length (le32 a)
      + (length (le32 (2 * Z.of_nat (length name))) + 2 * k))))%nat by (unfold le32; simpl; lia).
    rewrite (Z.mul_comm _ 2). by rewrite !u16_at_app.
Qed.

Lemma decode_encode fuel dir pre ns pend :
  ns <> [] -> Forall note_ok ns -> (length ns <= fuel)%nat ->
  decode fuel dir (pre ++ encode ns) (length pre) pend = Some (events_of dir ns pend).
Proof.
  revert fuel pre pend. induction ns as [|n ns IH]; intros fuel pre pend Hne Hf Hfuel; [done|].
  apply Forall_cons in Hf as [Hn Hf]. destruct fuel as [|fuel]; [simpl in Hfuel; lia|].
  destruct ns as [|n2 ns].
  - cbn [encode decode events_of].
    destruct (record_fields pre 0 n [] Hn ltac:(lia)) as (E1&E2&E3). rewrite app_nil_r in *.
    rewrite E1, E2, E3. cbn [Z.eqb]. destruct (make_event _ _ _ _) as [ev p]. by rewrite app_nil_r.
  - change (encode (n :: n2 :: ns)) with (record (Z.of_nat (record_size n.2)) n ++ encode (n2 :: ns)).
    cbn [decode]. pose proof (record_size_ge n.2) as Hge.
    destruct (record_fields pre (Z.of_nat (record_size n.2)) n (encode (n2 :: ns)) Hn) as (E1&E2&E3);
      [destruct Hn as (_&_&?); lia|].
    rewrite E1, E2, E3. rewrite (proj2 (Z.eqb_neq _ _)) by lia.
    change (events_of dir (n :: n2 :: ns) pend) with
      (let '(ev, p) := make_event dir n.1 n.2 pend in
       let '(evs, p) := events_of dir (n2 :: ns) p in (option_list ev ++ evs, p)).
    destruct (make_event _ _ _ _) as [ev p]. rewrite Nat2Z.id.
    set (r := record (Z.of_nat (record_size n.2)) n).
    replace (length pre + record_size n.2)%nat with (length (pre ++ r))
      by (rewrite length_app; unfold r; by rewrite length_record).
    rewrite (app_assoc pre), IH; [by destruct (events_of _ _ _)|done|done|simpl in *; lia].
Qed.

Lemma notifications_length ns : (length ns <= length (encode ns))%nat.
Proof.
  induction ns as [|n [|n2 ns] IH]; [done| |].
  - cbn [encode length]. rewrite length_record. pose proof (record_size_ge n.2). lia.
  - change (encode (n :: n2 :: ns)) with (record (Z.of_nat (record_size n.2)) n ++ encode (n2 :: ns)).
    rewrite length_app, length_record. pose proof (record_size_ge n.2). cbn [length] in *. lia.
Qed.

End FolderWatcherFacts.

(** * The claims *)

Module FolderWatcherSpec.
Import FolderWatcher FolderWatcherFacts.

(** The watcher reports every notification, in order. From any sequence of
    completed reads whose buffers are laid out as Windows documents, the pump
    calls back with exactly the events of the concatenated notifications; so
    the two halves of a rename are paired even when they arrive in two
    buffers, the event of the new name then carrying the old path. A read that
    overflowed (nothing transferred) or timed out reports nothing at all. *)
Theorem pump_reports_notifications (dir : wstr) (bufs : list (list (Z * wstr))) (pend : wstr)
    (Hok : Forall (fun ns => ns <> [] /\ Forall note_ok ns) bufs) :
  pump dir (map (fun ns => (true, Completed (encode ns) (Z.of_nat (length (encode ns))))) bufs) pend
    = (events_of dir (concat bufs) pend).1 /\
  (forall a b rest, note_ok (4, a) -> note_ok (5, b) ->
     pump dir ((true, Completed (encode [(4, a)]) 1) :: (true, TimedOut)
               :: (true, Completed (encode [(5, b)]) 1) :: rest) [] =
     MkEvent RenamedFrom (dir ++ [BSLASH] ++ a) []
       :: MkEvent RenamedTo (dir ++ [BSLASH] ++ b) (dir ++ [BSLASH] ++ a) :: pump dir rest []) /\
  (forall buf rest, pump dir ((true, Completed buf 0) :: rest) pend = pump dir rest pend).
Proof.
  assert (forall ns p, ns <> [] -> Forall note_ok ns ->
    decode (S (length (encode ns))) dir (encode ns) 0 p = Some (events_of dir ns p)) as Hdec.
  { intros ns p Hne Hf. apply (decode_encode _ dir []); [done|done|]. pose proof (notifications_length ns). lia. }
  split_and!.
  - revert pend. induction Hok as [|ns bufs [Hne Hf] _ IH]; intros pend; [done|].
    cbn [map pump concat]. assert (Z.of_nat (length (encode ns)) =? 0 = false) as ->.
    { apply Z.eqb_neq. pose proof (notifications_length ns). destruct ns; [done|]. simpl in *. lia. }
    rewrite Hdec by done.
    assert (forall l1 l2 p, events_of dir (l1 ++ l2) p =
      let '(e1, p1) := events_of dir l1 p in let '(e2, p2) := events_of dir l2 p1 in (e1 ++ e2, p2)) as Happ.
    { induction l1 as [|n l1 IHl]; intros l2 p; [by simpl; destruct (events_of _ _ _)|].
      cbn [app events_of]. destruct (make_event _ _ _ _) as [ev p1]. rewrite IHl.
      destruct (events_of dir l1 p1) as [e1 p2]. destruct (events_of dir l2 p2) as [e2 p3].
      by rewrite app_assoc. }
    rewrite Happ. destruct (events_of dir ns pend) as [e1 p1]. rewrite IH.
    by destruct (events_of dir (concat bufs) p1).
  - intros a b rest Ha Hb.
    cbn [pump]. rewrite !Hdec by (done || by apply Forall_singleton).
    cbn [events_of make_event kind_of Z.eqb Pos.eqb fst snd option_list app].
    rewrite Hdec by (done || by apply Forall_singleton).
    cbn [events_of make_event kind_of Z.eqb Pos.eqb fst snd option_list app].
    rewrite bool_decide_false by (by destruct dir). done.
  - done.
Qed.

Definition toy_bufs : list (list (Z * wstr)) :=
  [[(1, lit "a.md"); (4, lit "b")]; [(5, lit "c.md"); (3, lit "a.md")]].

Lemma pump_reports_notifications_witness :
  pump (lit "C:\n") (map (fun ns => (true, Completed (encode ns) (Z.of_nat (length (encode ns))))) toy_bufs) []
  = [MkEvent Created (lit "C:\n\a.md") []; MkEvent RenamedFrom (lit "C:\n\b") [];
     MkEvent RenamedTo (lit "C:\n\c.md") (lit "C:\n\b"); MkEvent Modified (lit "C:\n\a.md") []].
Proof.
  rewrite (proj1 (pump_reports_notifications (lit "C:\n") toy_bufs [] ltac:(
    unfold toy_bufs, note_ok; repeat constructor; try done; vm_compute; intuition congruence))).
  vm_compute. reflexivity.
Defined.
End FolderWatcherSpec.
