(* ===== verification/FileSystem.v ===== *)
(** * FileSystem: the Win32 file operations and the streams the sources use

    The disk is a map from path to content. Every operation meets the next
    event of a script: it works, it is refused (access denied, sharing
    violation, disk full, no such directory), or a transfer ends early or
    wrong, with whatever bytes arrived, and the stream notices or, when the
    error comes with the flush of a closing stream, does not. A script that
    ran out means that everything works. Paths are compared exactly. *)
From S2P Require Import Prelude Text.

#[local] Open Scope monad_scope.

Module FileSystem.

Inductive io :=
  | Works
  | Refused
  | Partial (arrived : Bytes) (seen : bool).

Record Fs := MkFs { disk : gmap wstr Bytes; dirs : gset wstr; events : list io }.

#[export] Instance io_eq_dec : EqDecision io.
Proof. solve_decision. Defined.
#[export] Instance Fs_eq_dec : EqDecision Fs.
Proof. solve_decision. Defined.

Definition set_disk (f : gmap wstr Bytes -> gmap wstr Bytes) (s : Fs) : Fs :=
  MkFs (f (disk s)) (dirs s) (events s).

Definition next_io : M Fs io := fun s =>
  (Ok (default Works (head (events s))), MkFs (disk s) (dirs s) (drop 1 (events s))).

(** [std::ifstream f(p, std::ios::binary)] and reading it to its end; [None] is
    [!f]. *)
Definition read_file (p : wstr) : M Fs (option Bytes) :=
  let* e := next_io in
  let* content := gets (fun s => disk s !! p) in
  ret (match e, content with
       | Works, Some d => Some d
       | Partial d _, Some _ => Some d
       | _, _ => None
       end).

(** [std::ofstream f(p, std::ios::binary | std::ios::trunc)]; false is [!f]. *)
Definition ofstream_open (p : wstr) : M Fs bool :=
  let* e := next_io in
  match e with
  | Works => modify (set_disk <[p := []]>) ;; ret true
  | _ => ret false
  end.

(** [f.write(d)] or [f << d], and the close of the stream: what is on disk
    afterwards; the result is [f.good()] before the close. *)
Definition ofstream_write (p : wstr) (d : Bytes) : M Fs bool :=
  let* e := next_io in
  match e with
  | Works => modify (set_disk <[p := d]>) ;; ret true
  | Refused => ret false
  | Partial arrived seen => modify (set_disk <[p := arrived]>) ;; ret seen
  end.

(** [MoveFileExW(src, dst, MOVEFILE_REPLACE_EXISTING)]. *)
Definition MoveFileExW (src dst : wstr) : M Fs bool :=
  let* e := next_io in
  let* content := gets (fun s => disk s !! src) in
  match e, content with
  | Works, Some d => modify (set_disk (fun m => <[dst := d]> (delete src m))) ;; ret true
  | _, _ => ret false
  end.

Inductive deletion := Deleted | NotFound | Denied.

(** [DeleteFileW] with [GetLastError]. *)
Definition DeleteFileW (p : wstr) : M Fs deletion :=
  let* e := next_io in
  let* content := gets (fun s => disk s !! p) in
  match e, content with
  | Works, Some _ => modify (set_disk (delete p)) ;; ret Deleted
  | Works, None => ret NotFound
  | _, _ => ret Denied
  end.

(** [CopyFileW(src, dst, TRUE)]: fails when [dst] exists. *)
Definition CopyFileW (src dst : wstr) : M Fs bool :=
  let* e := next_io in
  let* content := gets (fun s => disk s !! src) in
  let* there := gets (fun s => disk s !! dst) in
  match e, content, there with
  | Works, Some d, None => modify (set_disk <[dst := d]>) ;; ret true
  | _, _, _ => ret false
  end.

Definition CreateDirectoryW (d : wstr) : M Fs unit :=
  let* e := next_io in
  match e with
  | Works => modify (fun s => MkFs (disk s) ({[d]} ∪ dirs s) (events s))
  | _ => ret tt
  end.

(** [GetFileAttributesW]: [None] is INVALID_FILE_ATTRIBUTES, otherwise the
    directory bit. *)
Definition GetFileAttributesW (p : wstr) : M Fs (option bool) :=
  let* e := next_io in
  let* there := gets (fun s => disk s !! p) in
  let* isdir := gets (fun s => bool_decide (p ∈ dirs s)) in
  ret (match e, there with
       | Works, Some _ => Some false
       | Works, None => if isdir then Some true else None
       | _, _ => None
       end).

(** The name of an entry directly in the directory [d]. *)
Definition name_in (d p : wstr) : option wstr :=
  let prefix := d ++ [BSLASH] in
  if starts_with prefix p then
    let rest := drop (length prefix) p in
    if bool_decide (rest = [] \/ BSLASH ∈ rest) then None else Some rest
  else None.

(** The names [FindFirstFileW] and [FindNextFileW] enumerate in [d], each with its
    directory bit. *)
Definition list_dir (d : wstr) : M Fs (list (wstr * bool)) :=
  let* e := next_io in
  let* fs := gets (fun s => omap (fun p => name_in d p) (map fst (map_to_list (disk s)))) in
  let* ds := gets (fun s => omap (fun p => name_in d p) (elements (dirs s))) in
  ret (match e with
       | Works => map (fun n => (n, false)) fs ++ map (fun n => (n, true)) ds
       | _ => []
       end).

End FileSystem.

(** * Lemmas *)

Module FileSystemFacts.
Import FileSystem.

(** [m] may change the files that satisfy [P] only, and not by an exception's
    detour either. *)
Definition touches {A} (P : wstr -> Prop) (m : M Fs A) : Prop :=
  forall s p, ~ P p -> disk (m s).2 !! p = disk s !! p.

Lemma touches_bind {A B} P (m : M Fs A) (k : A -> M Fs B) :
  touches P m -> (forall a, touches P (k a)) -> touches P (bind m k).
Proof.
  intros Hm Hk s p Hp. specialize (Hm s p Hp). unfold bind.
  destruct (m s) as [[a|e] s1]; cbn [snd] in *; [|done]. by rewrite (Hk a s1 p Hp).
Qed.

Lemma touches_ret {A} P (a : A) : touches P (ret a).
Proof. done. Qed.
Lemma touches_lift {A} P (o : outcome A) : touches P (lift o).
Proof. done. Qed.
Lemma touches_gets {A} P (f : Fs -> A) : touches P (gets f).
Proof. done. Qed.
Lemma touches_next_io P : touches P next_io.
Proof. done. Qed.

Lemma touches_insert (P : wstr -> Prop) p d : P p -> touches P (modify (set_disk <[p := d]>)).
Proof. intros Hp s q Hq. cbn. apply lookup_insert_ne. by intros ->. Qed.

Lemma touches_delete (P : wstr -> Prop) p : P p -> touches P (modify (set_disk (delete p))).
Proof. intros Hp s q Hq. cbn. apply lookup_delete_ne. by intros ->. Qed.

Lemma touches_move (P : wstr -> Prop) a b d :
  P a -> P b -> touches P (modify (set_disk (fun m => <[b := d]> (delete a m)))).
Proof.
  intros Ha Hb s q Hq. cbn. rewrite lookup_insert_ne by (by intros ->).
  apply lookup_delete_ne. by intros ->.
Qed.

Lemma touches_weaken {A} (P Q : wstr -> Prop) (m : M Fs A) :
  (forall p, P p -> Q p) -> touches P m -> touches Q m.
Proof. intros HPQ Hm s p Hp. apply Hm. auto. Qed.

Create HintDb touches discriminated.
#[export] Hint Resolve touches_ret touches_lift touches_gets touches_next_io touches_insert
  touches_delete touches_move : touches.

(** Split a composition into the operations it is made of. *)
Ltac touches_steps :=
  repeat first
    [ progress auto with touches
    | apply touches_bind; [|intros ?]
    | match goal with |- touches _ (match ?x with _ => _ end) => destruct x end
    | match goal with |- touches _ (match ?x with _ => _ end _) => destruct x; cbv beta end
    | match goal with |- touches _ (match ?x with _ => _ end _ _) => destruct x; cbv beta end ].

Lemma touches_read P p : touches P (read_file p).
Proof. unfold read_file. touches_steps. Qed.
Lemma touches_open (P : wstr -> Prop) p : P p -> touches P (ofstream_open p).
Proof. intros. unfold ofstream_open. touches_steps. Qed.
Lemma touches_write (P : wstr -> Prop) p d : P p -> touches P (ofstream_write p d).
Proof. intros. unfold ofstream_write. touches_steps. Qed.
Lemma touches_MoveFileExW (P : wstr -> Prop) a b : P a -> P b -> touches P (MoveFileExW a b).
Proof. intros. unfold MoveFileExW. touches_steps. Qed.
Lemma touches_DeleteFileW (P : wstr -> Prop) p : P p -> touches P (DeleteFileW p).
Proof. intros. unfold DeleteFileW. touches_steps. Qed.
Lemma touches_CopyFileW (P : wstr -> Prop) a b : P b -> touches P (CopyFileW a b).
Proof. intros. unfold CopyFileW. touches_steps. Qed.
Lemma touches_CreateDirectoryW P d : touches P (CreateDirectoryW d).
Proof. unfold CreateDirectoryW. touches_steps. done. Qed.
Lemma touches_GetFileAttributesW P d : touches P (GetFileAttributesW d).
Proof. unfold GetFileAttributesW. touches_steps. Qed.
Lemma touches_list_dir P d : touches P (list_dir d).
Proof. unfold list_dir. touches_steps. Qed.

#[export] Hint Resolve touches_read touches_open touches_write touches_MoveFileExW
  touches_DeleteFileW touches_CopyFileW touches_CreateDirectoryW touches_GetFileAttributesW
  touches_list_dir : touches.

(** A disk on which everything works. *)
Lemma next_io_works s : events s = [] -> next_io s = (Ok Works, s).
Proof. destruct s as [d r e]. simpl. by intros ->. Qed.

End FileSystemFacts.
