(* ===== verification/Logger.v ===== *)
(** * Logger: Logger.cpp, the log files

    The static members [dir_] and [level_] are a record; [log] works on the
    disk of [FileSystem]. The stream is in text mode, so a line feed is written
    as two bytes, and opened for appending: [ofstream_app]. *)
From S2P Require Import Prelude Text Platform FileSystem.
Import FileSystem.

#[local] Open Scope monad_scope.

Module Logger.

Inductive LogLevel := LError | LWarning | LInfo | LDebug.

Definition level_int (l : LogLevel) : Z :=
  match l with LError => 0 | LWarning => 1 | LInfo => 2 | LDebug => 3 end.

Record State := MkLogger { dir_ : wstr; level_ : LogLevel }.

Definition initial : State := MkLogger [] LInfo.

(** Text mode writes a line feed as carriage return and line feed. *)
Definition text_mode (s : str) : Bytes := mbind (fun c => if c =? LF then [CR; LF] else [c]) s.

(** [std::ofstream f(p, std::ios::app); if (f) f << line;] and its close. *)
Definition ofstream_app (p : wstr) (line : str) : M Fs unit :=
  let* opened := next_io in
  match opened with
  | Works =>
      modify (set_disk (fun d => <[p := default [] (d !! p)]> d)) ;;
      let* e := next_io in
      match e with
      | Works => modify (set_disk (fun d => <[p := default [] (d !! p) ++ text_mode line]> d))
      | Refused => ret tt
      | Partial arrived _ => modify (set_disk (fun d => <[p := default [] (d !! p) ++ arrived]> d))
      end
  | _ => ret tt
  end.

Definition init (logDir : wstr) (level : LogLevel) : M Fs State :=
  CreateDirectoryW logDir ;; ret (MkLogger logDir level).

Definition setLevel (level : LogLevel) (l : State) : State := MkLogger (dir_ l) level.

(** The names of the levels, five characters each. *)
Definition lvl (l : LogLevel) : str :=
  match l with
  | LError => lit "ERROR" | LWarning => lit "WARN " | LInfo => lit "INFO " | LDebug => lit "DEBUG"
  end.

Section time.
Context `{LocalTime}.

(** [wchar_t name[64]]. *)
Definition file_name (now : Z) : wstr :=
  let lt := localtime now in
  take 63 (lit "npsync-" ++ pad_int 4 (tm_year lt + 1900) ++ pad_int 2 (tm_mon lt + 1) ++ lit ".log").

(** [char line[2048]]; [%s] prints the message up to its first NUL. *)
Definition line (now : Z) (level : LogLevel) (msg : str) : str :=
  let lt := localtime now in
  take 2047 (pad_int 2 (tm_hour lt) ++ [COLON] ++ pad_int 2 (tm_min lt) ++ [COLON] ++
             pad_int 2 (tm_sec lt) ++ lit " [" ++ lvl level ++ lit "] " ++ c_str msg ++ [LF]).

Definition log (l : State) (now : Z) (level : LogLevel) (msg : str) : M Fs unit :=
  if (level_int (level_ l) <? level_int level) || bool_decide (dir_ l = []) then ret tt
  else ofstream_app (dir_ l ++ [BSLASH] ++ file_name now) (line now level msg).

Definition info (l : State) (now : Z) (msg : str) : M Fs unit := log l now LInfo msg.
End time.

End Logger.

(** * What a call of [log] leaves on disk *)

Module LoggerSpec.
Import Logger.

Definition two_digits (z : Z) : Prop := length (pad_int 2 z) = 2%nat.

#[export] Instance two_digits_dec z : Decision (two_digits z).
Proof. unfold two_digits. apply _. Defined.

Lemma pad_int_2 z : 0 <= z < 100 -> two_digits z.
Proof.
  assert (Forall two_digits (seqZ 0 100)) as Hall by decide_goal.
  intros Hz. apply (Forall_seqZ _ _ _ _ Hall). lia.
Qed.

Section time.
Context `{LocalTime}.

(** [localtime_s] gives a time of day. *)
Definition clock_ok (now : Z) : Prop :=
  let lt := localtime now in
  0 <= tm_hour lt < 100 /\ 0 <= tm_min lt < 100 /\ 0 <= tm_sec lt < 100.

(** What precedes the message. *)
Definition stamp (now : Z) (level : LogLevel) : str :=
  let lt := localtime now in
  pad_int 2 (tm_hour lt) ++ [COLON] ++ pad_int 2 (tm_min lt) ++ [COLON] ++
  pad_int 2 (tm_sec lt) ++ lit " [" ++ lvl level ++ lit "] ".

Lemma stamp_length now level : clock_ok now -> length (stamp now level) = 17%nat.
Proof.
  intros (Hh & Hm & Hs). unfold stamp. rewrite !length_app.
  rewrite (pad_int_2 _ Hh), (pad_int_2 _ Hm), (pad_int_2 _ Hs). by destruct level.
Qed.

Lemma line_stamp now level msg : line now level msg = take 2047 (stamp now level ++ c_str msg ++ [LF]).
Proof. unfold line, stamp. by rewrite <- !app_assoc. Qed.

(** On a working disk a call at an enabled level appends one line to the
    log file of the month and changes nothing else; a call above the level, or
    before [init], changes nothing. The line is whole, and ends in a line feed,
    exactly when the message has at most 2029 characters; a longer one is cut
    to 2047 characters without its line feed, so the next line continues it. *)
Theorem log_appends_line l now level msg s :
  FileSystem.events s = [] -> clock_ok now -> LF ∉ c_str msg ->
  log l now level msg s =
    (Ok tt,
     if decide (level_int level <= level_int (level_ l) /\ dir_ l <> [])
     then set_disk (fun d => let p := dir_ l ++ [BSLASH] ++ file_name now in
                             <[p := default [] (d !! p) ++ text_mode (line now level msg)]> d) s
     else s) /\
  (last (line now level msg) = Some LF <-> (length (c_str msg) <= 2029)%nat) /\
  (line now level msg = stamp now level ++ c_str msg ++ [LF] <-> (length (c_str msg) <= 2029)%nat).
Proof.
  intros He Hclock Hlf. destruct s as [d ds ev]. cbn in He. subst ev. split; [|].
  - unfold log. destruct (decide _) as [[Hl Hd]|Hn].
    + rewrite (proj2 (Z.ltb_ge _ _)) by done. rewrite bool_decide_eq_false_2 by done. cbn [orb].
      unfold ofstream_app, bind, next_io, modify, set_disk. cbn. rewrite lookup_insert_eq, insert_insert_eq. done.
    + destruct (Z.ltb_spec (level_int (level_ l)) (level_int level)); [done|].
      by rewrite bool_decide_eq_true_2 by (apply dec_stable; intros Hd; apply Hn; auto).
  - rewrite line_stamp. set (text := stamp now level ++ c_str msg ++ [LF]).
    assert (length text = 18 + length (c_str msg))%nat as Hlen.
    { unfold text. rewrite !length_app, stamp_length by done. simpl. lia. }
    assert (take 2047 text = text <-> (length (c_str msg) <= 2029)%nat) as Hwhole.
    { split; [|intros; apply take_ge; lia]. intros Ht%(f_equal length). rewrite length_take in Ht. lia. }
    split; [|done]. rewrite <- Hwhole. split; [|].
    + intros Hlast. apply Hwhole. apply Nat.nlt_ge. intros Hlong.
      apply last_Some in Hlast as [pre Hpre].
      assert (text !! 2046%nat = Some LF) as Hin.
      { assert (length (take 2047 text) = 2047%nat) as Hl by (rewrite length_take; lia).
        rewrite Hpre, length_app in Hl. simpl in Hl.
        rewrite <- (lookup_take_lt text 2047) by lia. rewrite Hpre, lookup_app_r by lia.
        by replace (2046 - length pre)%nat with 0%nat by lia. }
      unfold text in Hin. rewrite lookup_app_r in Hin by (rewrite stamp_length by done; lia).
      rewrite stamp_length, lookup_app_l in Hin by (done || lia).
      by apply list_elem_of_lookup_2 in Hin.
    + intros ->. unfold text. by rewrite app_assoc, last_snoc.
Qed.
End time.

Definition toy_logger : State := MkLogger (lit "C:\data\logs") LInfo.

Lemma log_appends_line_witness :
  (@log toy_time toy_logger 0 LInfo (lit "plugin starting") (MkFs ∅ ∅ [])).2 =
    MkFs {[lit "C:\data\logs\npsync-202601.log" :=
             lit "23:59:58 [INFO ] plugin starting" ++ [CR; LF]]} ∅ [].
Proof.
  rewrite (proj1 (@log_appends_line toy_time toy_logger 0 LInfo (lit "plugin starting") (MkFs ∅ ∅ []) eq_refl
    ltac:(decide_goal) ltac:(decide_goal))).
  vm_compute. reflexivity.
Defined.

End LoggerSpec.
