(* ===== verification/Settings.v ===== *)
(** * Settings: Settings.h and Settings.cpp, the settings file and the secrets

    [SettingsStore] is its directory [dir_]; its operations work on the disk
    of [FileSystem]. Secrets go through DPAPI, a parameter. *)
From S2P Require Import Prelude Text Platform PathUtil FileSystem.
Import PathUtil FileSystem.

#[local] Open Scope monad_scope.

Module Settings.

Definition kDefaultBackendUrl : str := lit "https://sync.berkkarabacak.com".

Definition resolveBackendUrl (stored : str) (keyPresent : bool) : str :=
  if negb keyPresent || bool_decide (stored = []) || bool_decide (stored = lit "https://sync.example.com")
  then kDefaultBackendUrl
  else stored.

(** [enum class SessionSyncMode] is an int; [load] casts any int to it. *)
Abbreviation SessionSyncMode := Z.

Record Settings := MkSettings {
  startSyncAutomatically : bool;
  pauseSync : bool;
  syncIntervalFallbackSec : Z;
  webSocketEnabled : bool;
  notificationsEnabled : bool;
  syncRoots : list wstr;
  syncFiles : list wstr;
  extraIgnorePatterns : list str;
  maxFileBytes : Z;
  sessionMode : SessionSyncMode;
  syncUnsavedNotes : bool;
  deviceName : str;
  deviceId : str;
  accountId : str;
  backendUrl : str;
  debugLogging : bool;
  databaseLocation : wstr;
  versionRetention : Z
}.

#[export] Instance Settings_eq_dec : EqDecision Settings.
Proof. solve_decision. Defined.

Definition default_settings : Settings :=
  MkSettings true false 30 true true [] [] [] (100 * 1024 * 1024) 0 false [] [] []
    kDefaultBackendUrl false [] 30.

(** ** The store *)

Definition SettingsStore (appDataDir : wstr) : M Fs unit := CreateDirectoryW appDataDir.

Definition settingsPath (dir : wstr) : wstr := dir ++ lit "\settings.json".

Definition secretPath (dir name : wstr) : wstr := dir ++ lit "\secrets\" ++ name ++ lit ".bin".

Definition tmp_of (p : wstr) : wstr := p ++ lit ".tmp".

Section platform.
Context `{Win32Text} `{Json}.

(** [for (auto& v : ...) out.push_back(utf8ToWide(v.get<std::string>()))]. *)
Fixpoint wide_list (l : list json) : outcome (list wstr) :=
  match l with
  | [] => Ok []
  | v :: l' => (let! s := get_str v in let! r := wide_list l' in Ok (utf8ToWide s :: r))%outcome
  end.

(** [load] past the parse. (An exception leaves the out-parameter half
    assigned, here it has no value.) *)
Definition read_settings (j : json) : outcome Settings :=
  (let! startSync := value_bool j (lit "start_sync_automatically") true in
   let! pause := value_bool j (lit "pause_sync") false in
   let! interval := value_int j (lit "sync_interval_fallback_sec") 30 in
   let! websocket := value_bool j (lit "websocket_enabled") true in
   let! notifications := value_bool j (lit "notifications_enabled") true in
   let! maxBytes := value_int64 j (lit "max_file_bytes") (100 * 1024 * 1024) in
   let! mode := value_int j (lit "session_mode") 0 in
   let! unsaved := value_bool j (lit "sync_unsaved_notes") false in
   let! devName := value_str j (lit "device_name") [] in
   let! devId := value_str j (lit "device_id") [] in
   let! account := value_str j (lit "account_id") [] in
   let hasBackendUrl := contains j (lit "backend_url") in
   let! url := if hasBackendUrl then value_str j (lit "backend_url") [] else Ok [] in
   let! debug := value_bool j (lit "debug_logging") false in
   let! retention := value_int j (lit "version_retention") 30 in
   let! dbLoc := value_str j (lit "database_location") [] in
   let! roots := value_json j (lit "sync_roots") (JArr []) in
   let! roots := wide_list (json_elements roots) in
   let! files := value_json j (lit "sync_files") (JArr []) in
   let! files := wide_list (json_elements files) in
   let! patterns := value get_str_list j (lit "ignore_patterns") [] in
   Ok (MkSettings startSync pause interval websocket notifications roots files patterns maxBytes mode
         unsaved devName devId account (resolveBackendUrl url hasBackendUrl) debug
         (if bool_decide (dbLoc = []) then [] else utf8ToWide dbLoc) retention))%outcome.

(** [None] is [return false]: the out-parameter keeps its defaults. *)
Definition load (dir : wstr) : M Fs (option Settings) :=
  let* text := read_file (settingsPath dir) in
  match text with
  | None => ret None
  | Some text =>
      match json_read text with
      | None => ret None
      | Some j => let* s := lift (read_settings j) in ret (Some s)
      end
  end.

(** The assignments [j["..."] = ...] of [save]. *)
Definition settings_json (s : Settings) : json :=
  let j := JNull in
  let j := json_set (lit "start_sync_automatically") (JBool (startSyncAutomatically s)) j in
  let j := json_set (lit "pause_sync") (JBool (pauseSync s)) j in
  let j := json_set (lit "sync_interval_fallback_sec") (JInt (syncIntervalFallbackSec s)) j in
  let j := json_set (lit "websocket_enabled") (JBool (webSocketEnabled s)) j in
  let j := json_set (lit "notifications_enabled") (JBool (notificationsEnabled s)) j in
  let j := json_set (lit "max_file_bytes") (JInt (maxFileBytes s)) j in
  let j := json_set (lit "session_mode") (JInt (sessionMode s)) j in
  let j := json_set (lit "sync_unsaved_notes") (JBool (syncUnsavedNotes s)) j in
  let j := json_set (lit "device_name") (JStr (deviceName s)) j in
  let j := json_set (lit "device_id") (JStr (deviceId s)) j in
  let j := json_set (lit "account_id") (JStr (accountId s)) j in
  let j := json_set (lit "backend_url") (JStr (backendUrl s)) j in
  let j := json_set (lit "debug_logging") (JBool (debugLogging s)) j in
  let j := json_set (lit "version_retention") (JInt (versionRetention s)) j in
  let j := json_set (lit "database_location") (JStr (wideToUtf8 (databaseLocation s))) j in
  let j := json_set (lit "sync_roots") (JArr (map (fun r => JStr (wideToUtf8 r)) (syncRoots s))) j in
  let j := json_set (lit "sync_files") (JArr (map (fun r => JStr (wideToUtf8 r)) (syncFiles s))) j in
  json_set (lit "ignore_patterns") (JArr (map JStr (extraIgnorePatterns s))) j.

Definition save (dir : wstr) (s : Settings) : M Fs bool :=
  let tmp := tmp_of (settingsPath dir) in
  let* f := ofstream_open tmp in
  if negb f then ret false
  else
    let* text := lift (json_dump_pretty (settings_json s)) in
    ofstream_write tmp text ;;
    MoveFileExW tmp (settingsPath dir).
End platform.

Section dpapi.
Context `{DPAPI}.

(** [static_cast<DWORD>(value.size())]. *)
Definition data_blob (value : Bytes) : Bytes :=
  take (Z.to_nat (wrap_u32 (Z.of_nat (length value)))) value.

Definition saveSecret (dir name : wstr) (value : str) : M Fs bool :=
  CreateDirectoryW (dir ++ lit "\secrets") ;;
  match CryptProtectData (data_blob value) with
  | None => ret false
  | Some out =>
      let path := secretPath dir name in
      let tmp := tmp_of path in
      let* f := ofstream_open tmp in
      let* ok := if f then ofstream_write tmp out else ret false in
      if negb ok then ret false else MoveFileExW tmp path
  end.

Definition loadSecret (dir name : wstr) : M Fs (option str) :=
  let* enc := read_file (secretPath dir name) in
  match enc with
  | None => ret None
  | Some enc =>
      if bool_decide (enc = []) then ret None
      else ret (CryptUnprotectData (data_blob enc))
  end.

Definition deleteSecret (dir name : wstr) : M Fs bool :=
  let* r := DeleteFileW (secretPath dir name) in
  ret (match r with Deleted | NotFound => true | Denied => false end).
End dpapi.

End Settings.

(** * Lemmas *)

Module SettingsFacts.
Import Settings FileSystemFacts.

Section platform.
Context `{Win32TextLaws} `{JsonLaws}.

Definition wide_ok (w : wstr) : Prop := exists u, MultiByteToWideChar u = Some w.

Lemma wide_round_trip w : wide_ok w -> utf8ToWide (wideToUtf8 w) = w.
Proof.
  intros [u Hu]. unfold wideToUtf8. case_bool_decide as Hw; [by subst|].
  rewrite (wctomb_mbtowc _ _ Hu). cbn [default from_option id]. unfold utf8ToWide.
  case_bool_decide as E; [|by rewrite Hu]. subst u.
  rewrite mbtowc_ascii in Hu by constructor. by injection Hu.
Qed.

Lemma wide_list_round_trip l :
  Forall wide_ok l -> wide_list (map (fun r => JStr (wideToUtf8 r)) l) = Ok l.
Proof.
  induction 1 as [|w l Hw Hl IH]; [done|]. cbn [map wide_list get_str obind].
  rewrite IH. cbn [obind]. by rewrite wide_round_trip.
Qed.

Lemma get_strs_map l : get_strs (map JStr l) = Ok l.
Proof. induction l as [|s l IH]; [done|]. cbn [map get_strs get_str obind]. by rewrite IH. Qed.

Lemma sorted_arr_str {A} (f : A -> str) l : sorted_json (JArr (map (fun x => JStr (f x)) l)).
Proof. induction l; [done|]. by split. Qed.

(** Settings the file stores without loss. *)
Record storable (s : Settings) : Prop := {
  st_interval : - 2 ^ 31 <= syncIntervalFallbackSec s < 2 ^ 31;
  st_mode : - 2 ^ 31 <= sessionMode s < 2 ^ 31;
  st_retention : - 2 ^ 31 <= versionRetention s < 2 ^ 31;
  st_bytes : is_int64 (maxFileBytes s);
  st_url : resolveBackendUrl (backendUrl s) true = backendUrl s;
  st_roots : Forall wide_ok (syncRoots s);
  st_files : Forall wide_ok (syncFiles s);
  st_db : wide_ok (databaseLocation s)
}.

(** What [save] writes, in key order. *)
Definition saved (s : Settings) : list (str * json) :=
  [(lit "account_id", JStr (accountId s));
   (lit "backend_url", JStr (backendUrl s));
   (lit "database_location", JStr (wideToUtf8 (databaseLocation s)));
   (lit "debug_logging", JBool (debugLogging s));
   (lit "device_id", JStr (deviceId s));
   (lit "device_name", JStr (deviceName s));
   (lit "ignore_patterns", JArr (map JStr (extraIgnorePatterns s)));
   (lit "max_file_bytes", JInt (maxFileBytes s));
   (lit "notifications_enabled", JBool (notificationsEnabled s));
   (lit "pause_sync", JBool (pauseSync s));
   (lit "session_mode", JInt (sessionMode s));
   (lit "start_sync_automatically", JBool (startSyncAutomatically s));
   (lit "sync_files", JArr (map (fun r => JStr (wideToUtf8 r)) (syncFiles s)));
   (lit "sync_interval_fallback_sec", JInt (syncIntervalFallbackSec s));
   (lit "sync_roots", JArr (map (fun r => JStr (wideToUtf8 r)) (syncRoots s)));
   (lit "sync_unsaved_notes", JBool (syncUnsavedNotes s));
   (lit "version_retention", JInt (versionRetention s));
   (lit "websocket_enabled", JBool (webSocketEnabled s))].

Lemma settings_json_saved s : settings_json s = JObj (saved s).
Proof. vm_compute. reflexivity. Qed.

Lemma settings_json_sorted s : sorted_json (settings_json s).
Proof.
  rewrite settings_json_saved. unfold saved. cbn [sorted_json]. split_and!; try done.
  - by apply (sorted_arr_str (fun x => x)).
  - apply sorted_arr_str.
  - apply sorted_arr_str.
Qed.

Lemma value_member {A} (get : json -> outcome A) m key v d :
  member key m = Some v -> value get (JObj m) key d = get v.
Proof. intros E. cbn [value]. by rewrite E. Qed.

Ltac saved_key key v :=
  rewrite (value_member _ _ (lit key) v) by (vm_compute; reflexivity).

Lemma read_settings_json s : storable s -> read_settings (settings_json s) = Ok s.
Proof.
  intros []. rewrite settings_json_saved.
  unfold read_settings, value_bool, value_int, value_int64, value_str, value_json. cbv zeta.
  replace (contains (JObj (saved s)) (lit "backend_url")) with true by (vm_compute; reflexivity).
  saved_key "start_sync_automatically"%string (JBool (startSyncAutomatically s)). cbn [get_bool obind].
  saved_key "pause_sync"%string (JBool (pauseSync s)). cbn [get_bool obind].
  saved_key "sync_interval_fallback_sec"%string (JInt (syncIntervalFallbackSec s)). cbn [get_int get_int64 obind].
  saved_key "websocket_enabled"%string (JBool (webSocketEnabled s)). cbn [get_bool obind].
  saved_key "notifications_enabled"%string (JBool (notificationsEnabled s)). cbn [get_bool obind].
  saved_key "max_file_bytes"%string (JInt (maxFileBytes s)). cbn [get_int get_int64 obind].
  saved_key "session_mode"%string (JInt (sessionMode s)). cbn [get_int get_int64 obind].
  saved_key "sync_unsaved_notes"%string (JBool (syncUnsavedNotes s)). cbn [get_bool obind].
  saved_key "device_name"%string (JStr (deviceName s)). cbn [get_str obind].
  saved_key "device_id"%string (JStr (deviceId s)). cbn [get_str obind].
  saved_key "account_id"%string (JStr (accountId s)). cbn [get_str obind].
  saved_key "backend_url"%string (JStr (backendUrl s)). cbn [get_str obind].
  saved_key "debug_logging"%string (JBool (debugLogging s)). cbn [get_bool obind].
  saved_key "version_retention"%string (JInt (versionRetention s)). cbn [get_int get_int64 obind].
  saved_key "database_location"%string (JStr (wideToUtf8 (databaseLocation s))). cbn [get_str obind].
  saved_key "sync_roots"%string (JArr (map (fun r => JStr (wideToUtf8 r)) (syncRoots s))). cbn [get_json json_elements get_str_list obind].
  saved_key "sync_files"%string (JArr (map (fun r => JStr (wideToUtf8 r)) (syncFiles s))). cbn [get_json json_elements get_str_list obind].
  saved_key "ignore_patterns"%string (JArr (map JStr (extraIgnorePatterns s))). cbn [get_json json_elements get_str_list obind].
  rewrite !wrap_i32_id, wrap_i64_id, !wide_list_round_trip, get_strs_map by done. cbn [obind].
  rewrite st_url0. rewrite wide_round_trip by done.
  assert ((if bool_decide (wideToUtf8 (databaseLocation s) = []) then [] else databaseLocation s)
    = databaseLocation s) as ->; [|by destruct s].
  case_bool_decide as E; [|done]. rewrite <- (wide_round_trip (databaseLocation s)) by done. by rewrite E.
Qed.

(** ** The temporary file and its replacement *)

Lemma tmp_ne p : tmp_of p <> p.
Proof. unfold tmp_of. intros E. apply (f_equal length) in E. rewrite length_app in E. simpl in E. lia. Qed.

Lemma touches_save dir s : touches (fun p => p = settingsPath dir \/ p = tmp_of (settingsPath dir)) (save dir s).
Proof. unfold save. touches_steps; auto with touches. Qed.
End platform.

(** A temporary file that is not moved leaves its target alone. *)
Lemma move_false_keeps src dst s r s' q :
  MoveFileExW src dst s = (r, s') -> r <> Ok true -> disk s' !! q = disk s !! q.
Proof.
  unfold MoveFileExW, bind, gets, next_io, modify, ret. cbn [disk].
  destruct (default Works _), (disk s !! src); intros [= <- <-] Hr; done.
Qed.

Section dpapi.
Context `{DPAPI}.

Lemma touches_saveSecret dir name value :
  touches (fun p => p = secretPath dir name \/ p = tmp_of (secretPath dir name)) (saveSecret dir name value).
Proof. unfold saveSecret. touches_steps; auto with touches. Qed.

Lemma touches_deleteSecret dir name : touches (fun p => p = secretPath dir name) (deleteSecret dir name).
Proof. unfold deleteSecret. touches_steps; auto with touches. Qed.
End dpapi.

Lemma data_blob_id (d : Bytes) : Z.of_nat (length d) < 2 ^ 32 -> data_blob d = d.
Proof.
  intros Hd. unfold data_blob. rewrite wrap_u32_id by lia. rewrite Nat2Z.id. by apply firstn_all.
Qed.

Section working_disk.
Context `{DPAPI}.

(** A disk that works: what [loadSecret] reads, and the disk after [saveSecret]. *)
Definition stored_secret (dir name : wstr) (f : Fs) : option str :=
  disk f !! secretPath dir name ≫= fun e =>
    if bool_decide (e = []) then None else CryptUnprotectData (data_blob e).

Lemma loadSecret_works dir name f :
  events f = [] -> loadSecret dir name f = (Ok (stored_secret dir name f), f).
Proof.
  destruct f as [d r ev]. cbn [events]. intros ->. unfold loadSecret, read_file, bind, gets, next_io, ret, stored_secret.
  cbn [disk dirs events head default drop snd fst from_option id].
  destruct (d !! secretPath dir name) as [e|]; cbn [mbind option_bind]; [|done]. by case_bool_decide.
Qed.

Lemma saveSecret_works dir name value e f :
  events f = [] -> CryptProtectData (data_blob value) = Some e ->
  saveSecret dir name value f = (Ok true, MkFs (<[secretPath dir name := e]>
    (delete (tmp_of (secretPath dir name)) (<[tmp_of (secretPath dir name) := e]>
      (<[tmp_of (secretPath dir name) := []]> (disk f))))) ({[dir ++ lit "\secrets"]} ∪ dirs f) []).
Proof.
  destruct f as [d r ev]. cbn [events]. intros -> He.
  unfold saveSecret, CreateDirectoryW, ofstream_open, ofstream_write, MoveFileExW, bind, lift, gets,
    modify, next_io, ret.
  rewrite He. cbn [disk dirs events head default set_disk negb drop from_option id].
  by rewrite lookup_insert_eq.
Qed.
End working_disk.

Lemma secretPath_inj dir n n' : secretPath dir n = secretPath dir n' -> n = n'.
Proof. unfold secretPath. intros E. by apply app_inv_head, app_inv_head, app_inv_tail in E. Qed.

Lemma secretPath_tmp dir n n' : secretPath dir n <> tmp_of (secretPath dir n').
Proof.
  intros E. apply (f_equal reverse) in E. unfold tmp_of, secretPath in E.
  rewrite !reverse_app in E. discriminate E.
Qed.

Lemma saveSecret_others `{DPAPI} dir name value f :
  events f = [] -> events (saveSecret dir name value f).2 = [] /\
  forall other, other <> name -> stored_secret dir other (saveSecret dir name value f).2 = stored_secret dir other f.
Proof.
  intros Hev. split.
  - destruct (CryptProtectData (data_blob value)) as [e|] eqn:He; [by rewrite (saveSecret_works _ _ _ e)|].
    unfold saveSecret. rewrite He. unfold CreateDirectoryW, bind, next_io, modify, ret.
    destruct f as [d r ev]. simpl in *. by rewrite Hev.
  - intros other Ho. unfold stored_secret. rewrite (touches_saveSecret dir name value f); [done|].
    intros [E|E]; [by apply secretPath_inj in E|by apply secretPath_tmp in E].
Qed.

(** On a disk that works a secret that DPAPI can protect is stored, and only it. *)
Lemma saveSecret_stored `{DPAPILaws} dir name value e f :
  events f = [] -> CryptProtectData value = Some e ->
  Z.of_nat (length value) < 2 ^ 32 -> Z.of_nat (length e) < 2 ^ 32 ->
  exists f', saveSecret dir name value f = (Ok true, f') /\ events f' = [] /\
    stored_secret dir name f' = Some value /\
    forall other, other <> name -> stored_secret dir other f' = stored_secret dir other f.
Proof.
  intros Hev He Hv Hl. destruct (unprotect_protect _ _ He) as [Hne Hun].
  eexists. split; [by apply saveSecret_works; [|rewrite data_blob_id]|]. split; [done|].
  unfold stored_secret. cbn [disk]. split.
  - rewrite lookup_insert_eq. cbn [mbind option_bind]. rewrite bool_decide_false by done.
    by rewrite data_blob_id.
  - intros other Ho. rewrite lookup_insert_ne by (by intros ?%secretPath_inj).
    by rewrite lookup_delete_ne, !lookup_insert_ne by (apply not_eq_sym, secretPath_tmp).
Qed.

(** On a disk that works a secret is deleted, and only it. *)
Lemma deleteSecret_stored `{DPAPI} dir name f :
  events f = [] -> exists f', deleteSecret dir name f = (Ok true, f') /\ events f' = [] /\
    stored_secret dir name f' = None /\
    forall other, other <> name -> stored_secret dir other f' = stored_secret dir other f.
Proof.
  destruct f as [d r ev]. cbn [events]. intros ->.
  unfold deleteSecret, DeleteFileW, bind, gets, modify, next_io, ret, stored_secret.
  cbn [disk dirs events head default drop from_option id].
  destruct (d !! secretPath dir name) as [e|] eqn:El; eexists; (split; [reflexivity|]); cbn [disk events set_disk];
    (split; [done|]).
  - rewrite lookup_delete_eq. split; [done|]. intros other Ho.
    by rewrite lookup_delete_ne by (by intros ?%secretPath_inj).
  - rewrite El. split; [done|]. by intros other _.
Qed.
End SettingsFacts.

(** * The claims *)

Module SettingsSpec.
Import Settings SettingsFacts FileSystemFacts.

Section platform.
Context `{Win32TextLaws} `{JsonLaws}.

(** C38: the settings file. On a disk that works, [load] after [save] gives
    every field back, for settings whose numbers fit an int, whose paths come
    from UTF-8, and whose server URL is neither empty nor the retired
    placeholder. [save] touches nothing but the file and its temporary, and
    one that does not return true keeps the previous file. The replacement is
    not safe against a short write, however: the stream is not checked after
    writing, so whatever arrived in the temporary file replaces the settings
    and [save] reports success. *)
Theorem settings_round_trip (dir : wstr) (s : Settings) (text : str)
    (Hs : storable s) (Hd : json_dump_pretty (settings_json s) = Ok text) :
  (forall f, events f = [] ->
     (save dir s f).1 = Ok true /\ (load dir (save dir s f).2).1 = Ok (Some s)) /\
  (forall f p, p <> settingsPath dir -> p <> tmp_of (settingsPath dir) ->
     disk (save dir s f).2 !! p = disk f !! p) /\
  (forall f, (save dir s f).1 <> Ok true ->
     disk (save dir s f).2 !! settingsPath dir = disk f !! settingsPath dir) /\
  (forall f b seen, events f = [Works; Partial b seen] ->
     (save dir s f).1 = Ok true /\ disk (save dir s f).2 !! settingsPath dir = Some b).
Proof.
  assert (settingsPath dir <> tmp_of (settingsPath dir)) as Hne by (apply not_eq_sym, tmp_ne).
  split_and!.
  - intros [d r e] He. simpl in He. subst e.
    assert (save dir s (MkFs d r []) = (Ok true, MkFs (<[settingsPath dir := text]>
      (delete (tmp_of (settingsPath dir)) (<[tmp_of (settingsPath dir) := text]>
        (<[tmp_of (settingsPath dir) := []]> d)))) r [])) as E.
    { unfold save, ofstream_open, ofstream_write, MoveFileExW, bind, lift, gets, modify, next_io, ret.
      cbn [disk dirs events head default set_disk negb drop from_option id]. rewrite Hd.
      cbn [disk dirs events head default set_disk negb drop from_option id].
      by rewrite lookup_insert_eq. }
    rewrite E. split; [done|]. unfold load, read_file, bind, lift, gets, next_io, ret.
    cbn [disk dirs events head default drop snd fst from_option id]. rewrite lookup_insert_eq.
    destruct (json_pretty_round_trip _ _ (settings_json_sorted s) Hd) as [_ ->].
    by rewrite read_settings_json.
  - intros f p Hp1 Hp2. apply touches_save. tauto.
  - intros f Hf. unfold save in *. unfold bind at 1. unfold bind at 1 in Hf.
    pose proof (touches_open (fun p => p = tmp_of (settingsPath dir)) _ eq_refl f (settingsPath dir) Hne) as Ho.
    destruct (ofstream_open _ f) as [[[|]|e] f1]; cbn [negb snd fst] in *; try done.
    rewrite Hd in *. unfold bind, lift in *.
    pose proof (touches_write (fun p => p = tmp_of (settingsPath dir)) _ text eq_refl f1 (settingsPath dir) Hne) as Hw.
    destruct (ofstream_write _ _ f1) as [[b|e] f2]; cbn [snd fst] in *; [|congruence].
    destruct (MoveFileExW _ _ f2) as [r f3] eqn:Em. cbn [fst snd] in *.
    rewrite (move_false_keeps _ _ _ _ _ _ Em Hf). congruence.
  - intros [d r e] b seen He. simpl in He. subst e.
    unfold save, ofstream_open, ofstream_write, MoveFileExW, bind, lift, gets, modify, next_io, ret.
    cbn [disk dirs events head default set_disk negb drop from_option id]. rewrite Hd.
    cbn [disk dirs events head default set_disk negb drop from_option id].
    rewrite lookup_insert_eq. cbn [fst snd disk set_disk]. split; [done|]. apply lookup_insert_eq.
Qed.
End platform.

Definition toy_settings : Settings :=
  MkSettings false true 45 true false [lit "C:\notes"] [lit "D:\todo.md"] [lit "*.tmp"] 1000 1 false
    (lit "laptop") (lit "dev-1") (lit "acc-1") (lit "http://localhost:8080") true [] 7.

Lemma settings_round_trip_witness :
  let dir := lit "C:\data" in
  let text := match @json_dump_pretty toy_json (@settings_json ascii_text toy_settings) with
              | Ok t => t | Throw _ => [] end in
  (@load ascii_text toy_json dir (@save ascii_text toy_json dir toy_settings (MkFs empty empty [])).2).1
    = Ok (Some toy_settings).
Proof.
  cbv zeta.
  refine (proj2 (proj1 (@settings_round_trip ascii_text ascii_text_laws toy_json toy_json_laws
    (lit "C:\data") toy_settings _ _ eq_refl) (MkFs empty empty []) eq_refl)).
  assert (forall w, ascii_str w -> @wide_ok ascii_text w) as Hw
    by (intros w Hw; exists w; simpl; by rewrite bool_decide_true).
  split; simpl; try lia; try (apply Forall_cons; split; [|apply Forall_nil; exact I]); try (apply Hw; decide_goal).
  - unfold is_int64, INT64_MIN, INT64_MAX. lia.
  - vm_compute. reflexivity.
Defined.

(** The secret store. On a disk that works a saved secret is read back.
    Saving or deleting one secret leaves every other one alone, whatever the
    disk does; a save that does not return true keeps the previous value; after
    a successful delete there is nothing to load. *)
Theorem secret_store `{DPAPILaws} (dir name : wstr) (value : str) (e : Bytes)
    (He : CryptProtectData value = Some e)
    (Hlen : Z.of_nat (length value) < 2 ^ 32 /\ Z.of_nat (length e) < 2 ^ 32) :
  (forall f, events f = [] ->
     (saveSecret dir name value f).1 = Ok true /\
     (loadSecret dir name (saveSecret dir name value f).2).1 = Ok (Some value)) /\
  (forall f other, other <> name ->
     disk (saveSecret dir name value f).2 !! secretPath dir other = disk f !! secretPath dir other /\
     disk (deleteSecret dir name f).2 !! secretPath dir other = disk f !! secretPath dir other) /\
  (forall f, (saveSecret dir name value f).1 <> Ok true ->
     disk (saveSecret dir name value f).2 !! secretPath dir name = disk f !! secretPath dir name) /\
  (forall f, (deleteSecret dir name f).1 = Ok true -> events f = [] ->
     (loadSecret dir name (deleteSecret dir name f).2).1 = Ok None).
Proof.
  destruct Hlen as [Hl1 Hl2]. pose proof data_blob_id as Hblob. destruct (unprotect_protect _ _ He) as [Hne Hun].
  split_and!.
  - intros f Hev. rewrite (saveSecret_works _ _ _ e) by (by rewrite ?Hblob). split; [done|]. cbn [snd].
    rewrite loadSecret_works by done. unfold stored_secret. cbn [disk fst]. rewrite lookup_insert_eq.
    cbn [mbind option_bind]. rewrite bool_decide_false by done. by rewrite Hblob, Hun.
  - intros f other Ho. split.
    + apply touches_saveSecret. intros [E|E]; [by apply secretPath_inj in E|by apply secretPath_tmp in E].
    + apply touches_deleteSecret. intros E. by apply secretPath_inj in E.
  - intros f Hf. assert (secretPath dir name <> tmp_of (secretPath dir name)) as Hn by (apply not_eq_sym, tmp_ne).
    set (P := fun p => p = tmp_of (secretPath dir name)).
    unfold saveSecret in *. rewrite (Hblob value), He in * by done. unfold bind at 1. unfold bind at 1 in Hf.
    pose proof (touches_CreateDirectoryW P (dir ++ lit "\secrets") f (secretPath dir name) Hn) as Hcd.
    destruct (CreateDirectoryW _ f) as [[[]|x] f0]; cbn [snd fst] in *; [|done].
    unfold bind at 1. unfold bind at 1 in Hf.
    pose proof (touches_open P _ eq_refl f0 (secretPath dir name) Hn) as Hop.
    destruct (ofstream_open _ f0) as [[[|]|x] f1]; cbn [snd fst] in *; [|unfold bind, ret in *; cbn [fst snd negb] in *; congruence..].
    unfold bind, lift in *.
    pose proof (touches_write P _ e eq_refl f1 (secretPath dir name) Hn) as Hw.
    destruct (ofstream_write _ _ f1) as [[[|]|x] f2]; cbn [snd fst negb ret] in *; [|congruence..].
    destruct (MoveFileExW _ _ f2) as [r f3] eqn:Em. cbn [fst snd] in *.
    rewrite (move_false_keeps _ _ _ _ _ _ Em Hf). congruence.
  - intros [d r ev] Hf Hev. simpl in Hev. subst ev.
    unfold deleteSecret, DeleteFileW, bind, gets, modify, next_io, ret in *.
    cbn [disk dirs events head default drop snd fst from_option id] in *.
    destruct (d !! secretPath dir name) eqn:E; rewrite loadSecret_works by done;
      unfold stored_secret; cbn [disk set_disk snd fst]; [by rewrite lookup_delete_eq|by rewrite E].
Qed.

Lemma secret_store_witness :
  let f := MkFs empty empty [] in
  (@loadSecret toy_dpapi (lit "C:\data") (lit "master_key")
     (@saveSecret toy_dpapi (lit "C:\data") (lit "master_key") (lit "c2VjcmV0") f).2).1
  = Ok (Some (lit "c2VjcmV0")).
Proof.
  cbv zeta.
  refine (proj2 (proj1 (@secret_store toy_dpapi toy_dpapi_laws (lit "C:\data") (lit "master_key")
    (lit "c2VjcmV0") (1 :: lit "c2VjcmV0") eq_refl _) (MkFs empty empty []) eq_refl)).
  split; vm_compute; reflexivity.
Defined.

End SettingsSpec.
