(* ===== verification/DialogLayout.v ===== *)
(** * DialogLayout: DialogLayout.h, from pixels to dialog units

    [int] arithmetic; the property bounds the sizes for which no intermediate
    value leaves the 32-bit range. *)
From S2P Require Import Prelude Text.

Module DialogLayout.

Definition kBaseX : Z := 6.
Definition kBaseY : Z := 13.
Definition kPadX : Z := 8.
Definition kPadY : Z := 8.
Definition kCharPx : Z := 9.
Definition kPushChromePx : Z := 32.
Definition kCheckChromePx : Z := 24.
Definition kMinPushPx : Z := 88.
Definition kCheckHeight : Z := 22.

Definition textChars (s : wstr) : Z := Z.of_nat (length s).

Definition isAscii (s : wstr) : bool := forallb (fun c => c <=? 127) s.

Definition toDlgX (pixelW : Z) : Z :=
  let pixelW := if pixelW <? 0 then 0 else pixelW in
  Z.quot (pixelW * 4 + kBaseX - 1) kBaseX + kPadX.

Definition toDlgY (pixelH : Z) : Z :=
  let pixelH := if pixelH <? 0 then 0 else pixelH in
  Z.quot (pixelH * 8 + kBaseY - 1) kBaseY + kPadY.

Definition fromDlgX (dlu : Z) : Z := Z.quot (dlu * kBaseX) 4.
Definition fromDlgY (dlu : Z) : Z := Z.quot (dlu * kBaseY) 8.

Definition pushButtonPx (text : wstr) : Z :=
  let w := textChars text * kCharPx + kPushChromePx in
  if w <? kMinPushPx then kMinPushPx else w.

Definition checkBoxPx (text : wstr) : Z := textChars text * kCharPx + kCheckChromePx.
Definition labelPx (text : wstr) : Z := textChars text * kCharPx + 4.
Definition legacyClientPx (pixelW : Z) : Z := Z.quot (Z.quot pixelW 2 * kBaseX) 4.

Record DialogSize := MkSize { pixelW : Z; pixelH : Z; contentRight : Z; contentBottom : Z }.

Definition kPrompt := MkSize 560 150 544 124.
Definition kSignIn := MkSize 640 320 624 288.
Definition kStatus := MkSize 440 360 424 344.
Definition kPair := MkSize 600 240 584 216.
Definition kDevices := MkSize 600 380 584 332.
Definition kSyncedFiles := MkSize 640 460 624 424.
Definition kConflicts := MkSize 660 340 644 300.
Definition kSettings := MkSize 680 350 672 324.

Definition frameFits (d : DialogSize) : bool :=
  (contentRight d <=? pixelW d) && (contentBottom d <=? pixelH d) &&
  (pixelW d <=? fromDlgX (toDlgX (pixelW d))) && (pixelH d <=? fromDlgY (toDlgY (pixelH d))) &&
  (contentRight d <=? fromDlgX (toDlgX (pixelW d))) && (contentBottom d <=? fromDlgY (toDlgY (pixelH d))).

Definition kTitleSignIn : wstr := lit "Notepad++ Sync - Sign In".
Definition kTitleStatus : wstr := lit "Notepad++ Sync - Status".
Definition kTitlePair : wstr := lit "Notepad++ Sync - Other computer".
Definition kTitleDevices : wstr := lit "Notepad++ Sync - Manage Devices".
Definition kTitleSyncedFiles : wstr := lit "Notepad++ Sync - Synced Files/Folders".
Definition kTitleConflicts : wstr := lit "Notepad++ Sync - Conflicts".
Definition kTitleSettings : wstr := lit "Notepad++ Sync - Settings".
Definition kTitleRecovery : wstr := lit "Notepad++ Sync - Recovery Key".
Definition kTitleSetup : wstr := lit "Notepad++ Sync - Setup".
Definition kSignInLead : wstr := lit "Sign in with Google. This only identifies your account -".
Definition kCreateAccount : wstr := lit "Create a new account (instead of signing in)".
Definition kAddFolder : wstr := lit "Add Folder...".
Definition kAddFile : wstr := lit "Add File...".
Definition kRemoveSelected : wstr := lit "Remove Selected".
Definition kSavePatterns : wstr := lit "Save Patterns".
Definition kPairLead : wstr := lit "On the computer that already has your notes, open Notepad++.".
Definition kPairMenu : wstr := lit "Choose Plugins -> Notepad++ Sync -> Allow another computer.".

(** The [static_assert]s of the header. *)
Definition static_asserts : list bool :=
  map isAscii [kTitleSignIn; kTitleStatus; kTitlePair; kTitleDevices; kTitleSyncedFiles; kTitleConflicts;
               kTitleSettings; kTitleRecovery; kTitleSetup; kSignInLead; kCreateAccount; kAddFolder;
               kAddFile; kRemoveSelected; kSavePatterns; kPairLead; kPairMenu]
  ++ map frameFits [kPrompt; kSignIn; kStatus; kPair; kDevices; kSyncedFiles; kConflicts; kSettings]
  ++ [labelPx kTitleSignIn + 96 <=? pixelW kSignIn;
      labelPx kTitleSyncedFiles + 96 <=? pixelW kSyncedFiles;
      labelPx kTitleRecovery <? 400; labelPx kTitleSetup <? 400;
      16 + labelPx kSignInLead <=? pixelW kSignIn - 16;
      16 + labelPx kPairLead <=? pixelW kPair - 16;
      16 + labelPx kPairMenu <=? pixelW kPair - 16;
      labelPx (lit "Type the code shown on the other computer (ABCD-EFGH):") <=? pixelW kPrompt - 32;
      130 <? pushButtonPx kRemoveSelected; 110 <? pushButtonPx kAddFolder; 110 <? pushButtonPx kAddFile;
      110 <? pushButtonPx kSavePatterns; 314 <? checkBoxPx kCreateAccount;
      legacyClientPx (pixelW kSignIn) <? 16 + labelPx kSignInLead;
      16 + labelPx kSignInLead <=? fromDlgX (toDlgX (pixelW kSignIn));
      legacyClientPx (pixelW kSignIn) <? 124 + checkBoxPx kCreateAccount;
      124 + checkBoxPx kCreateAccount <=? fromDlgX (toDlgX (pixelW kSignIn))].

End DialogLayout.

(** * The claims *)

Module DialogLayoutSpec.
Import DialogLayout.

Definition is_int (z : Z) : Prop := - 2 ^ 31 <= z < 2 ^ 31.

(** The dialog-unit conversion covers the pixel frame for every size, not
    only the eight of the header: the client that comes back is at least as
    large as the frame and at most 14 pixels wider and 15 higher; the former
    division by two always came back narrower. So a dialog fits as soon as its
    controls lie inside its frame. The values stay within 32 bits for sizes up to 2^27 pixels, and all
    static assertions of the header hold. *)
Theorem dialog_frame_covered (w h : Z) (Hw : 0 < w <= 2 ^ 27) (Hh : 0 < h <= 2 ^ 27) :
  w <= fromDlgX (toDlgX w) <= w + 14 /\
  h <= fromDlgY (toDlgY h) <= h + 15 /\
  legacyClientPx w < w /\
  is_int (w * 4 + kBaseX - 1) /\ is_int (toDlgX w * kBaseX) /\
  is_int (h * 8 + kBaseY - 1) /\ is_int (toDlgY h * kBaseY) /\
  (forall d, pixelW d = w -> pixelH d = h ->
     frameFits d = (contentRight d <=? w) && (contentBottom d <=? h)) /\
  forallb id static_asserts = true.
Proof.
  assert (w <= fromDlgX (toDlgX w) <= w + 14) as HX.
  { unfold fromDlgX, toDlgX, kBaseX, kPadX. rewrite (proj2 (Z.ltb_ge w 0)) by lia.
    Z.to_euclidean_division_equations; lia. }
  assert (h <= fromDlgY (toDlgY h) <= h + 15) as HY.
  { unfold fromDlgY, toDlgY, kBaseY, kPadY. rewrite (proj2 (Z.ltb_ge h 0)) by lia.
    Z.to_euclidean_division_equations; lia. }
  split_and!; [lia..| | | | | | |vm_compute; reflexivity].
  - unfold legacyClientPx, kBaseX. Z.to_euclidean_division_equations; lia.
  - unfold is_int, kBaseX. lia.
  - unfold is_int, toDlgX, kBaseX, kPadX. rewrite (proj2 (Z.ltb_ge w 0)) by lia.
    Z.to_euclidean_division_equations; lia.
  - unfold is_int, kBaseY. lia.
  - unfold is_int, toDlgY, kBaseY, kPadY. rewrite (proj2 (Z.ltb_ge h 0)) by lia.
    Z.to_euclidean_division_equations; lia.
  - intros d Ew Eh. unfold frameFits. rewrite Ew, Eh.
    rewrite (proj2 (Z.leb_le w _)), (proj2 (Z.leb_le h _)), !andb_true_r by lia.
    destruct (Z.leb_spec (contentRight d) w), (Z.leb_spec (contentBottom d) h); cbn [andb]; try done.
    by rewrite !(proj2 (Z.leb_le _ _)) by lia.
Qed.

Lemma dialog_frame_covered_witness :
  640 <= fromDlgX (toDlgX 640) <= 640 + 14 /\ legacyClientPx 640 = 480.
Proof. split; [exact (proj1 (dialog_frame_covered 640 320 ltac:(lia) ltac:(lia)))|reflexivity]. Defined.

End DialogLayoutSpec.
