(* ===== verification/EngineState.v ===== *)
(** * EngineState: SyncEngine.cpp, the engine's state and its parts

    [World] is the engine object with everything its operations reach: the
    disk, the database, the HTTP client, the random generator, the clock, the
    watcher, and the calls of [onRemoteFileApplied] ([applied]). The data
    directory of the settings store is the parameter [dir]. Operations are
    [M World]; an operation is one atomic step, the threads interleave whole
    operations. [api_] is null while [has_api] is false: dereferencing it is
    [access_violation]. *)
From S2P Require Import Prelude Text VersionVector Platform PathUtil IgnoreRules Crypto.
From S2P Require Import KeySetup LocalDb ApiClient FolderWatcher FileSystem Settings.
Import FileSystem.
Import PathUtil(utf8ToWide, wideToUtf8).
Import LocalDb(Db).
Import ApiClient(Client, ApiResponse).
Import IgnoreRules(Rule).
Import FolderWatcher(Watcher).
Import Settings(Settings).

#[local] Open Scope monad_scope.

Module Engine.

Inductive SyncStatus := SignedOut | Synced | Syncing | Paused | Offline | Conflict | Error.

#[export] Instance SyncStatus_eq_dec : EqDecision SyncStatus.
Proof. solve_decision. Defined.

Record StatusInfo := MkStatus {
  status : SyncStatus;
  statusText : str;
  lastSyncTime : str;
  filesSynchronized : Z;
  pendingUploads : Z;
  pendingDownloads : Z;
  n_conflicts : Z
}.

Definition default_status : StatusInfo := MkStatus SignedOut (lit "Signed out") [] 0 0 0 0.

Record World := MkWorld {
  fs : Fs;
  db : Db;
  has_api : bool;
  api : Client;
  rand : rng;
  clock : Z;
  settings_ : Settings;
  masterKey_ : Bytes;
  running_ : bool;
  syncRequested_ : bool;
  fsDirty_ : bool;
  online_ : bool;
  rootRules_ : gmap str (list Rule);
  watcher_ : Watcher;
  status_ : StatusInfo;
  applied : list wstr
}.

Definition put_fs (x : Fs) (w : World) : World :=
  MkWorld x (db w) (has_api w) (api w) (rand w) (clock w) (settings_ w) (masterKey_ w) (running_ w) (syncRequested_ w) (fsDirty_ w) (online_ w) (rootRules_ w) (watcher_ w) (status_ w) (applied w).
Definition put_db (x : Db) (w : World) : World :=
  MkWorld (fs w) x (has_api w) (api w) (rand w) (clock w) (settings_ w) (masterKey_ w) (running_ w) (syncRequested_ w) (fsDirty_ w) (online_ w) (rootRules_ w) (watcher_ w) (status_ w) (applied w).
Definition put_has_api (x : bool) (w : World) : World :=
  MkWorld (fs w) (db w) x (api w) (rand w) (clock w) (settings_ w) (masterKey_ w) (running_ w) (syncRequested_ w) (fsDirty_ w) (online_ w) (rootRules_ w) (watcher_ w) (status_ w) (applied w).
Definition put_api (x : Client) (w : World) : World :=
  MkWorld (fs w) (db w) (has_api w) x (rand w) (clock w) (settings_ w) (masterKey_ w) (running_ w) (syncRequested_ w) (fsDirty_ w) (online_ w) (rootRules_ w) (watcher_ w) (status_ w) (applied w).
Definition put_rand (x : rng) (w : World) : World :=
  MkWorld (fs w) (db w) (has_api w) (api w) x (clock w) (settings_ w) (masterKey_ w) (running_ w) (syncRequested_ w) (fsDirty_ w) (online_ w) (rootRules_ w) (watcher_ w) (status_ w) (applied w).
Definition put_clock (x : Z) (w : World) : World :=
  MkWorld (fs w) (db w) (has_api w) (api w) (rand w) x (settings_ w) (masterKey_ w) (running_ w) (syncRequested_ w) (fsDirty_ w) (online_ w) (rootRules_ w) (watcher_ w) (status_ w) (applied w).
Definition put_settings (x : Settings) (w : World) : World :=
  MkWorld (fs w) (db w) (has_api w) (api w) (rand w) (clock w) x (masterKey_ w) (running_ w) (syncRequested_ w) (fsDirty_ w) (online_ w) (rootRules_ w) (watcher_ w) (status_ w) (applied w).
Definition put_masterKey (x : Bytes) (w : World) : World :=
  MkWorld (fs w) (db w) (has_api w) (api w) (rand w) (clock w) (settings_ w) x (running_ w) (syncRequested_ w) (fsDirty_ w) (online_ w) (rootRules_ w) (watcher_ w) (status_ w) (applied w).
Definition put_running (x : bool) (w : World) : World :=
  MkWorld (fs w) (db w) (has_api w) (api w) (rand w) (clock w) (settings_ w) (masterKey_ w) x (syncRequested_ w) (fsDirty_ w) (online_ w) (rootRules_ w) (watcher_ w) (status_ w) (applied w).
Definition put_syncRequested (x : bool) (w : World) : World :=
  MkWorld (fs w) (db w) (has_api w) (api w) (rand w) (clock w) (settings_ w) (masterKey_ w) (running_ w) x (fsDirty_ w) (online_ w) (rootRules_ w) (watcher_ w) (status_ w) (applied w).
Definition put_fsDirty (x : bool) (w : World) : World :=
  MkWorld (fs w) (db w) (has_api w) (api w) (rand w) (clock w) (settings_ w) (masterKey_ w) (running_ w) (syncRequested_ w) x (online_ w) (rootRules_ w) (watcher_ w) (status_ w) (applied w).
Definition put_online (x : bool) (w : World) : World :=
  MkWorld (fs w) (db w) (has_api w) (api w) (rand w) (clock w) (settings_ w) (masterKey_ w) (running_ w) (syncRequested_ w) (fsDirty_ w) x (rootRules_ w) (watcher_ w) (status_ w) (applied w).
Definition put_rootRules (x : gmap str (list Rule)) (w : World) : World :=
  MkWorld (fs w) (db w) (has_api w) (api w) (rand w) (clock w) (settings_ w) (masterKey_ w) (running_ w) (syncRequested_ w) (fsDirty_ w) (online_ w) x (watcher_ w) (status_ w) (applied w).
Definition put_watcher (x : Watcher) (w : World) : World :=
  MkWorld (fs w) (db w) (has_api w) (api w) (rand w) (clock w) (settings_ w) (masterKey_ w) (running_ w) (syncRequested_ w) (fsDirty_ w) (online_ w) (rootRules_ w) x (status_ w) (applied w).
Definition put_status (x : StatusInfo) (w : World) : World :=
  MkWorld (fs w) (db w) (has_api w) (api w) (rand w) (clock w) (settings_ w) (masterKey_ w) (running_ w) (syncRequested_ w) (fsDirty_ w) (online_ w) (rootRules_ w) (watcher_ w) x (applied w).
Definition put_applied (x : list wstr) (w : World) : World :=
  MkWorld (fs w) (db w) (has_api w) (api w) (rand w) (clock w) (settings_ w) (masterKey_ w) (running_ w) (syncRequested_ w) (fsDirty_ w) (online_ w) (rootRules_ w) (watcher_ w) (status_ w) x.

(** A part of the state is changed by the operations of its component. *)
Definition on_fs {A} (m : M Fs A) : M World A := zoom fs put_fs m.
Definition on_db {A} (m : M Db A) : M World A := zoom db put_db m.
Definition on_rand {A} (m : M rng A) : M World A := zoom rand put_rand m.

Definition set_online (b : bool) : M World unit := modify (put_online b).
Definition request_sync : M World unit := modify (put_syncRequested true).

Section engine.
Context `{Win32Text} `{CNG} `{Json} `{DPAPI} `{LocalTime}.
Context (dir : wstr).

(** ** Calls into the store and the client *)

Definition saveSecret (name value : str) : M World bool := on_fs (Settings.saveSecret dir name value).
Definition loadSecret (name : str) : M World (option str) := on_fs (Settings.loadSecret dir name).
Definition deleteSecret (name : str) : M World bool := on_fs (Settings.deleteSecret dir name).
Definition store_save : M World bool :=
  let* s := gets settings_ in on_fs (Settings.save dir s).

(** [onTokensRotated] of [init]. *)
Definition onTokensRotated (t : str * str) : M World unit :=
  saveSecret (lit "access_token") t.1 ;;
  saveSecret (lit "refresh_token") t.2 ;;
  ret tt.

(** A call of [api_->...]. The client announces a token rotation while it
    runs; the callback touches nothing the client uses, so it runs after. *)
Definition on_api {A} (m : M Client A) : M World A := fun w =>
  if negb (has_api w) then (Throw access_violation, w)
  else
    let (r, c) := m (api w) in
    (for_each (drop (length (ApiClient.rotations (api w))) (ApiClient.rotations c)) onTokensRotated ;;
     lift r) (put_api c w).

(** [r.body.value(key, default)]. *)
Definition body_str (r : ApiResponse) (key dflt : str) : M World str :=
  lift (value_str (ApiClient.body r) key dflt).
Definition body_int (r : ApiResponse) (key : str) (dflt : Z) : M World Z :=
  lift (value_int64 (ApiClient.body r) key dflt).

Definition listSyncRoots : M World (list (str * wstr)) :=
  let* l := on_db LocalDb.listSyncRoots in ret (map (fun '(id, p) => (id, utf8ToWide p)) l).
Definition listSyncFiles : M World (list (str * wstr)) :=
  let* l := on_db LocalDb.listSyncFiles in ret (map (fun '(id, p) => (id, utf8ToWide p)) l).

Definition isOpen (w : World) : bool := LocalDb.opened (db w).
Definition deviceId (w : World) : str := Settings.deviceId (settings_ w).
Definition paused (w : World) : bool := Settings.pauseSync (settings_ w).

(** ** Status *)

Definition nowTimeString (now : Z) : str :=
  let lt := localtime now in
  take 31 (pad_int 2 (tm_hour lt) ++ [COLON] ++ pad_int 2 (tm_min lt) ++ [COLON] ++ pad_int 2 (tm_sec lt)).

Definition setStatus (s : SyncStatus) (text : str) : M World unit :=
  let* isopen := gets isOpen in
  let* pending := if isopen then on_db LocalDb.pendingOpCount else ret 0 in
  let* conf := if isopen then on_db LocalDb.conflictCount else ret 0 in
  let* now := gets clock in
  let* conf := if decide (s = Conflict) then on_db LocalDb.conflictCount else ret conf in
  modify (fun w =>
    put_status (MkStatus s text
      (if decide (s = Synced) then nowTimeString now else lastSyncTime (status_ w))
      (filesSynchronized (status_ w)) pending (pendingDownloads (status_ w)) conf) w).

(** [SyncEngine::status()]. *)
Definition get_status : M World StatusInfo :=
  let* out := gets status_ in
  let* isopen := gets isOpen in
  if isopen then
    let* pending := on_db LocalDb.pendingOpCount in
    let* conf := on_db LocalDb.conflictCount in
    let* files := on_db LocalDb.allFiles in
    ret (MkStatus (status out) (statusText out) (lastSyncTime out) (Z.of_nat (length files)) pending
           (pendingDownloads out) conf)
  else ret out.

(** ** Wiring *)

Definition init (s : Settings) : M World unit :=
  modify (put_settings s) ;;
  let* ok := on_db LocalDb.open in
  if negb ok then setStatus Error (lit "Failed to open local database")
  else
    modify (fun w =>
      put_has_api true
        (put_api (ApiClient.MkClient (Settings.backendUrl s) (Settings.deviceId s) [] []
                    (ApiClient.net (api w)) (ApiClient.sent (api w)) (ApiClient.rotations (api w))) w)) ;;
    let* access := loadSecret (lit "access_token") in
    (match access with
     | None => ret tt
     | Some a =>
         let* refresh := loadSecret (lit "refresh_token") in
         match refresh with
         | None => ret tt
         | Some r => on_api (ApiClient.setTokens a r)
         end
     end) ;;
    let* mk := loadSecret (lit "master_key") in
    match mk with
    | None => ret tt
    | Some b64 => modify (put_masterKey (Crypto.base64UrlDecode_out b64))
    end.

Definition isSignedIn (w : World) : bool := has_api w && ApiClient.hasTokens (api w).
Definition hasMasterKey (w : World) : bool := bool_decide (length (masterKey_ w) = Crypto.kMasterKeyLen).

(** ** Ignore rules *)

Definition refreshIgnoreRules : M World bool :=
  modify (put_rootRules ∅) ;;
  let* patterns := gets (fun w => Settings.extraIgnorePatterns (settings_ w)) in
  let extra := mbind (fun p => p ++ [LF]) patterns in
  let* roots := listSyncRoots in
  for_each roots (fun '(id, path) =>
    let* f := on_fs (read_file (path ++ lit "\.npsyncignore")) in
    let text := extra ++ default [] f in
    modify (fun w => put_rootRules (<[id := IgnoreRules.parse text]> (rootRules_ w)) w)) ;;
  modify (fun w => put_rootRules (<[[] := IgnoreRules.parse extra]> (rootRules_ w)) w) ;;
  ret true.

Definition ignored (w : World) (relPath : str) (isDir : bool) : bool :=
  existsb (fun '(_, rules) => IgnoreRules.ignored rules relPath isDir) (map_to_list (rootRules_ w)).

(** The directories the watcher can open. *)
Definition watch_opens (w : World) (r : wstr) : bool := bool_decide (r ∈ dirs (fs w)).

Definition add_watches : M World unit :=
  let* roots := listSyncRoots in
  for_each roots (fun '(_, path) => modify (fun w => put_watcher (FolderWatcher.addRoot path (watcher_ w)) w)) ;;
  modify (fun w => put_watcher (FolderWatcher.start (watch_opens w) (watcher_ w)) w).

Definition reloadRoots : M World unit :=
  refreshIgnoreRules ;;
  modify (fun w => put_watcher (FolderWatcher.clearRoots (FolderWatcher.stop (watcher_ w))) w) ;;
  add_watches ;;
  modify (put_fsDirty true) ;;
  request_sync.

(** [start], without the WebSocket client: [api_->hasTokens()] is evaluated for
    it when it is enabled. *)
Definition start : M World unit :=
  let* r := gets running_ in
  if r then ret tt
  else
    modify (put_running true) ;;
    refreshIgnoreRules ;;
    add_watches ;;
    let* ws := gets (fun w => Settings.webSocketEnabled (settings_ w)) in
    (if ws then on_api (gets ApiClient.hasTokens) ;; ret tt else ret tt) ;;
    let* tokens := on_api (gets ApiClient.hasTokens) in
    if tokens then setStatus Synced (lit "Ready") else setStatus SignedOut (lit "Signed out").

Definition stop : M World unit :=
  modify (put_running false) ;;
  modify (fun w => put_watcher (FolderWatcher.stop (watcher_ w)) w).

(** ** UI helpers *)

(** [settings_->pauseSync = p]. *)
Definition set_pause (p : bool) (w : World) : World :=
  let s := settings_ w in
  put_settings (Settings.MkSettings (Settings.startSyncAutomatically s) p
    (Settings.syncIntervalFallbackSec s) (Settings.webSocketEnabled s)
    (Settings.notificationsEnabled s) (Settings.syncRoots s) (Settings.syncFiles s)
    (Settings.extraIgnorePatterns s) (Settings.maxFileBytes s) (Settings.sessionMode s)
    (Settings.syncUnsavedNotes s) (Settings.deviceName s) (Settings.deviceId s)
    (Settings.accountId s) (Settings.backendUrl s) (Settings.debugLogging s)
    (Settings.databaseLocation s) (Settings.versionRetention s)) w.

Definition setPaused (p : bool) : M World unit :=
  modify (set_pause p) ;;
  store_save ;;
  setStatus (if p then Paused else Synced) (lit (if p then "Paused" else "Resumed")) ;;
  if p then ret tt else request_sync.

Definition addSyncRootPath (absPath : wstr) (isFolder : bool) : M World unit :=
  let* id := lift (Crypto.sha256Hex (wideToUtf8 absPath)) in
  on_db (LocalDb.addSyncRoot (take 16 id) (wideToUtf8 absPath) isFolder) ;;
  reloadRoots.

Definition removeSyncRootPath (rootId : str) : M World bool :=
  let* ok := on_db (LocalDb.removeSyncRoot rootId) in
  reloadRoots ;;
  ret ok.

Definition saveSettings : M World unit := let* _ := store_save in ret tt.

(** The pause ends in memory only: nothing is saved and the status stays. *)
Definition syncNow : M World unit :=
  modify (set_pause false) ;;
  request_sync ;;
  modify (put_fsDirty true).

End engine.

End Engine.
