(* ===== verification/EngineKeys.v ===== *)
(** * EngineKeys: SyncEngine.cpp, sessions, key management and devices

    The operations the dialogs call. A [bool] result comes with the text left in
    [errorOut], empty when nothing was written to it. *)
From S2P Require Import Prelude Text VersionVector Platform PathUtil Crypto KeySetup LocalDb.
From S2P Require Import ApiClient FileSystem Settings EngineState.
Import EngineState.Engine.
Import ApiClient(ApiResponse).

#[local] Open Scope monad_scope.

Module EngineKeys.

Inductive GoogleSignInStatus := GooglePending | GoogleSuccess | GoogleFailed.
Inductive FirstRunKeyStep := KeptExisting | CreatedNew | RefusedToMint.
Inductive PairingStatus := PairPending | PairInstalled | PairFailed.

#[export] Instance GoogleSignInStatus_eq_dec : EqDecision GoogleSignInStatus.
Proof. solve_decision. Defined.
#[export] Instance FirstRunKeyStep_eq_dec : EqDecision FirstRunKeyStep.
Proof. solve_decision. Defined.
#[export] Instance PairingStatus_eq_dec : EqDecision PairingStatus.
Proof. solve_decision. Defined.

Section engine.
Context `{Win32Text} `{CNG} `{Json} `{DPAPI} `{LocalTime}.
Context (dir : wstr).

Definition cannot_reach (r : ApiResponse) : str := lit "Cannot reach server: " ++ ApiClient.transportError r.
Definition wrong_protocol : str :=
  lit "This server speaks an incompatible protocol version. Update the plugin or the server.".
Definition not_initialized : str := lit "Plugin is not initialized.".

Definition protocol_ok (r : ApiResponse) : bool :=
  (ApiClient.serverProtocol r =? 0) || (ApiClient.serverProtocol r =? 1).

(** ** Sessions *)

Definition set_account (device account : str) (w : World) : World :=
  let s := settings_ w in
  put_settings (Settings.MkSettings (Settings.startSyncAutomatically s) (Settings.pauseSync s)
    (Settings.syncIntervalFallbackSec s) (Settings.webSocketEnabled s)
    (Settings.notificationsEnabled s) (Settings.syncRoots s) (Settings.syncFiles s)
    (Settings.extraIgnorePatterns s) (Settings.maxFileBytes s) (Settings.sessionMode s)
    (Settings.syncUnsavedNotes s) (Settings.deviceName s) device account (Settings.backendUrl s)
    (Settings.debugLogging s) (Settings.databaseLocation s) (Settings.versionRetention s)) w.

Definition acceptTokenResponse (r : ApiResponse) (failLabel : str) : M World (bool * str) :=
  if negb (ApiClient.transportOk r) then ret (false, cannot_reach r)
  else if negb (protocol_ok r) then ret (false, wrong_protocol)
  else if negb (ApiClient.status r =? 200) then
    let* msg := body_str r (lit "message") failLabel in ret (false, msg)
  else
    let* device := body_str r (lit "device_id") [] in
    modify (fun w => set_account device (Settings.accountId (settings_ w)) w) ;;
    let* account := body_str r (lit "account_id") [] in
    modify (fun w => set_account (deviceId w) account w) ;;
    let* access := body_str r (lit "access_token") [] in
    saveSecret dir (lit "access_token") access ;;
    let* refresh := body_str r (lit "refresh_token") [] in
    saveSecret dir (lit "refresh_token") refresh ;;
    store_save dir ;;
    setStatus Synced (lit "Signed in") ;;
    request_sync ;;
    ret (true, []).

Definition signIn (email password : str) (createAccount : bool) : M World (bool * str) :=
  let* ok := gets has_api in
  if negb ok then ret (false, not_initialized)
  else
    let* name := gets (fun w => Settings.deviceName (settings_ w)) in
    let* r := on_api dir (if createAccount then ApiClient.registerAccount email password name
                          else ApiClient.login email password name) in
    acceptTokenResponse r (lit (if createAccount then "Registration failed" else "Sign-in failed")).

(** The three out-parameters with the result: URL, state, poll secret. *)
Definition startGoogleSignIn : M World (bool * str * (str * str * str)) :=
  let none := ([], [], []) in
  let* ok := gets has_api in
  if negb ok then ret (false, not_initialized, none)
  else
    let* name := gets (fun w => Settings.deviceName (settings_ w)) in
    let* r := on_api dir (ApiClient.startGoogleLogin name) in
    if negb (ApiClient.transportOk r) then ret (false, cannot_reach r, none)
    else if negb (protocol_ok r) then ret (false, wrong_protocol, none)
    else if ApiClient.status r =? 503 then
      let* msg := body_str r (lit "message") (lit "Google sign-in is not configured on this server.") in
      ret (false, msg, none)
    else if negb (ApiClient.status r =? 200) then
      let* msg := body_str r (lit "message") (lit "Could not start Google sign-in") in
      ret (false, msg, none)
    else
      let* url := body_str r (lit "authorization_url") [] in
      let* state := body_str r (lit "state") [] in
      let* secret := body_str r (lit "poll_secret") [] in
      if bool_decide (url = [] \/ state = [] \/ secret = [])
      then ret (false, lit "Server returned an incomplete Google sign-in response.", (url, state, secret))
      else ret (true, [], (url, state, secret)).

Definition pollGoogleSignIn (state pollSecret : str) : M World (GoogleSignInStatus * str) :=
  let* ok := gets has_api in
  if negb ok then ret (GoogleFailed, not_initialized)
  else
    let* r := on_api dir (ApiClient.pollGoogleLogin state pollSecret) in
    if negb (ApiClient.transportOk r) then ret (GooglePending, cannot_reach r)
    else if ApiClient.status r =? 202 then ret (GooglePending, [])
    else
      let* a := acceptTokenResponse r (lit "Google sign-in failed") in
      ret (if a.1 then GoogleSuccess else GoogleFailed, a.2).

Definition signOut : M World unit :=
  let* ok := gets isSignedIn in
  (if ok then on_api dir ApiClient.logout ;; ret tt else ret tt) ;;
  deleteSecret dir (lit "access_token") ;;
  deleteSecret dir (lit "refresh_token") ;;
  setStatus SignedOut (lit "Signed out").

(** ** Keys *)

Definition writeLocalRecoveryWrap : M World bool :=
  let* recovery := on_rand Crypto.generateRecoveryKey in
  let* salt := on_rand (Crypto.random 16) in
  let* wk := lift (Crypto.deriveKeyFromCode recovery salt) in
  let* mk := gets masterKey_ in
  let* wrapped := on_rand (Crypto.wrapMasterKey mk wk) in
  let rec := JObj [(lit "salt", JStr (Crypto.base64UrlEncode salt));
                   (lit "wrapped", JStr (Crypto.base64UrlEncode wrapped))] in
  let* text := lift (json_dump rec) in
  let* ok := saveSecret dir (lit "recovery_wrapped") text in
  if negb ok then ret false
  else saveSecret dir (lit "recovery_key_display") recovery.

(** [store_->saveSecret(L"master_key", base64UrlEncode(masterKey_))]. *)
Definition save_master_key : M World bool :=
  let* mk := gets masterKey_ in
  saveSecret dir (lit "master_key") (Crypto.base64UrlEncode mk).

Definition finishFirstRunKeys (createIfMissing : bool) : M World FirstRunKeyStep :=
  let* mk := gets masterKey_ in
  let* (outcome, mk') := on_rand (KeySetup.applyWizardKeyStep mk createIfMissing) in
  modify (put_masterKey mk') ;;
  match outcome with
  | KeySetup.KeptExisting => ret KeptExisting
  | KeySetup.RefusedToMint => ret RefusedToMint
  | KeySetup.CreatedNew =>
      let* saved := save_master_key in
      if negb saved then modify (put_masterKey []) ;; ret RefusedToMint
      else writeLocalRecoveryWrap ;; ret CreatedNew
  end.

Definition generateMasterKeyIfNeeded : M World bool :=
  let* r := finishFirstRunKeys true in
  ret (negb (bool_decide (r = RefusedToMint))).

Definition unlockWithRecoveryKey (recoveryKey : str) : M World bool :=
  match Crypto.normalizeRecoveryKey recoveryKey with
  | None => ret false
  | Some normalized =>
      let* blob := loadSecret dir (lit "recovery_wrapped") in
      match blob ≫= json_parse with
      | None => ret false
      | Some rec =>
          let* salt64 := lift (value_str rec (lit "salt") []) in
          match Crypto.base64UrlDecode salt64 with
          | None => ret false
          | Some salt =>
              let* wrapped64 := lift (value_str rec (lit "wrapped") []) in
              match Crypto.base64UrlDecode wrapped64 with
              | None => ret false
              | Some wrapped =>
                  let* wk := lift (Crypto.deriveKeyFromCode normalized salt) in
                  let* (ok, mk) := lift (Crypto.unwrapMasterKey wrapped wk) in
                  if negb ok then ret false
                  else
                    modify (put_masterKey (default [] mk)) ;;
                    save_master_key
              end
          end
      end
  end.

Definition exportRecoveryKeyWrapped : M World str :=
  let* rk := loadSecret dir (lit "recovery_key_display") in ret (default [] rk).

(** ** Pairing *)

Definition pairNewDevice : M World (bool * str * str) :=
  let* r := on_api dir ApiClient.pairRequest in
  if negb (ApiClient.transportOk r) then ret (false, [], cannot_reach r)
  else if negb (ApiClient.status r =? 200) then
    let* msg := body_str r (lit "message") (lit "Could not start. Try again.") in ret (false, [], msg)
  else
    let* code := body_str r (lit "pairing_code") [] in
    if bool_decide (code = []) then ret (false, code, lit "Could not start. Try again.")
    else ret (true, code, []).

Definition bad_code : str := lit "That code does not look right. It is 8 letters, like ABCD-EFGH.".

Definition own_pairing_text : str :=
  lit "This computer showed that code, so it cannot allow itself. " ++
  lit "Two Notepad++ windows on this Windows user are one device. " ++
  lit "On the computer that already has your notes, choose " ++
  lit "Allow another computer and type the code shown here.".

Definition approvePairing (code : str) : M World (bool * str) :=
  let* has := gets hasMasterKey in
  if negb has then ret (false, lit "This computer does not have the encryption key yet.")
  else
    match KeySetup.normalizePairingCode code with
    | None => ret (false, bad_code)
    | Some normalized =>
        let* mk := gets masterKey_ in
        let* wrapped := on_rand (KeySetup.wrapMasterKeyForPairing mk normalized) in
        if bool_decide (wrapped = [])
        then ret (false, lit "Could not prepare the encryption key for the other computer.")
        else
          let* r := on_api dir (ApiClient.pairApprove normalized wrapped) in
          if negb (ApiClient.transportOk r) then ret (false, cannot_reach r)
          else if negb (ApiClient.status r =? 200) then
            let* msg := body_str r (lit "message") (lit "approval failed") in
            ret (false, if bool_decide (is_Some (find_str (lit "own pairing") msg))
                        then own_pairing_text else msg)
          else ret (true, [])
    end.

Definition completePairing (code : str) : M World (PairingStatus * str) :=
  match KeySetup.normalizePairingCode code with
  | None => ret (PairFailed, bad_code)
  | Some normalized =>
      let* r := on_api dir (ApiClient.pairPoll normalized) in
      if negb (ApiClient.transportOk r) then ret (PairPending, cannot_reach r)
      else if ApiClient.status r =? 410
      then ret (PairFailed, lit "That code expired. Choose Get my notes again.")
      else if negb (ApiClient.status r =? 200) then
        let* msg := body_str r (lit "message") (lit "Could not check the other computer.") in
        ret (PairFailed, msg)
      else
        let* st := body_str r (lit "status") [] in
        if negb (bool_decide (st = lit "approved")) then ret (PairPending, [])
        else
          let* wrapped := body_str r (lit "wrapped_master_key") [] in
          let* (ok, mk) := lift (KeySetup.installWrappedMasterKey wrapped normalized) in
          if negb ok
          then ret (PairFailed, lit "The other computer sent a key this computer could not open.")
          else
            modify (put_masterKey (default [] mk)) ;;
            let* saved := save_master_key in
            if negb saved then
              modify (put_masterKey []) ;;
              ret (PairFailed, lit "The key arrived but could not be saved on this computer.")
            else
              deleteSecret dir (lit "recovery_wrapped") ;;
              deleteSecret dir (lit "recovery_key_display") ;;
              request_sync ;;
              ret (PairInstalled, [])
  end.

(** ** Devices *)

Record DeviceInfo := MkDevice {
  d_id : str; d_name : str; createdAt : str; lastSeenAt : str; revoked : bool; current : bool
}.

(** [d.contains(key) && !d[key].is_null()]. *)
Definition present (d : json) (key : str) : bool :=
  match d with
  | JObj m => match member key m with Some JNull | None => false | Some _ => true end
  | _ => false
  end.

Definition device_info (d : json) : outcome DeviceInfo :=
  (let! i := value_str d (lit "id") [] in
   let! n := value_str d (lit "name") [] in
   let! c := value_str d (lit "created_at") [] in
   let! l := value_str d (lit "last_seen_at") [] in
   let! cur := value_bool d (lit "current") false in
   Ok (MkDevice i n c l (present d (lit "revoked_at")) cur))%outcome.

Fixpoint device_infos (l : list json) : outcome (list DeviceInfo) :=
  match l with
  | [] => Ok []
  | d :: l' => (let! i := device_info d in let! r := device_infos l' in Ok (i :: r))%outcome
  end.

Definition listDevices : M World (option (list DeviceInfo) * str) :=
  let* r := on_api dir ApiClient.listDevices in
  if negb (ApiClient.transportOk r) then ret (None, lit "offline: " ++ ApiClient.transportError r)
  else if negb (ApiClient.status r =? 200) then
    let* msg := body_str r (lit "message") (lit "failed to list devices") in ret (None, msg)
  else
    let* ds := lift (value_json (ApiClient.body r) (lit "devices") (JArr [])) in
    let* out := lift (device_infos (json_elements ds)) in
    ret (Some out, []).

Definition revokeDeviceById (id : str) : M World (bool * str) :=
  let* r := on_api dir (ApiClient.revokeDevice id) in
  if negb (ApiClient.status r =? 200) then
    let* msg := body_str r (lit "message") (lit "revoke failed") in ret (false, msg)
  else ret (true, []).

Definition set_device_name (name : str) (w : World) : World :=
  let s := settings_ w in
  put_settings (Settings.MkSettings (Settings.startSyncAutomatically s) (Settings.pauseSync s)
    (Settings.syncIntervalFallbackSec s) (Settings.webSocketEnabled s)
    (Settings.notificationsEnabled s) (Settings.syncRoots s) (Settings.syncFiles s)
    (Settings.extraIgnorePatterns s) (Settings.maxFileBytes s) (Settings.sessionMode s)
    (Settings.syncUnsavedNotes s) name (Settings.deviceId s) (Settings.accountId s) (Settings.backendUrl s)
    (Settings.debugLogging s) (Settings.databaseLocation s) (Settings.versionRetention s)) w.

Definition renameDeviceById (id name : str) : M World (bool * str) :=
  let* r := on_api dir (ApiClient.renameDevice id name) in
  if negb (ApiClient.status r =? 200) then
    let* msg := body_str r (lit "message") (lit "rename failed") in ret (false, msg)
  else
    let* mine := gets (fun w => bool_decide (id = deviceId w)) in
    (if mine then modify (set_device_name name) ;; store_save dir ;; ret tt else ret tt) ;;
    ret (true, []).

End engine.

End EngineKeys.
