(* ===== verification/EngineSync.v ===== *)
(** * EngineSync: SyncEngine.cpp, paths, files, uploads and conflicts

    The operations the worker, the poller, the scanner and the push events run.
    A [bool] result comes with the text left in [errorOut]. *)
From S2P Require Import Prelude Text VersionVector Merge Platform PathUtil IgnoreRules Crypto.
From S2P Require Import LocalDb ApiClient FolderWatcher FileSystem Settings EngineState.
From S2P Require Import EngineKeys.
Import EngineState.Engine EngineKeys.EngineKeys.
Import FileSystem.
Import PathUtil(utf8ToWide, wideToUtf8).
Import ApiClient(ApiResponse).
Import LocalDb(LocalFileState, PendingOp, ConflictState).

#[local] Open Scope monad_scope.

Module EngineSync.

Definition kMaxBackupsPerFile : nat := 5.

Definition is_slash (c : Z) : bool := (c =? BSLASH) || (c =? SLASH).

Definition dirOf (p : wstr) : wstr :=
  match find_last is_slash p with None => p | Some pos => take pos p end.

Definition fileNameOf (p : wstr) : wstr :=
  match find_last is_slash p with None => p | Some pos => drop (S pos) p end.

(** A default-constructed [LocalFileState]. *)
Definition new_file : LocalFileState := LocalDb.MkFile [] [] [] [] [] 0 VersionVector.empty false 0.

(** ** File I/O *)

Definition readFileBytes (absPath : wstr) : M Fs (option Bytes) := read_file absPath.

Definition tmp_path (absPath : wstr) : wstr := absPath ++ lit ".npsync-tmp".

(** The stream: opened, written, tested, closed; [None] when it did not open. *)
Definition writeFileAtomic (absPath : wstr) (data : Bytes) : M Fs bool :=
  let tmp := tmp_path absPath in
  let* f := ofstream_open tmp in
  if negb f then ret false
  else
    let* good := if bool_decide (data = []) then ret true else ofstream_write tmp data in
    if negb good then DeleteFileW tmp ;; ret false
    else
      let* verify := readFileBytes tmp in
      if negb (bool_decide (length <$> verify = Some (length data))) then DeleteFileW tmp ;; ret false
      else
        let* moved := MoveFileExW tmp absPath in
        if negb moved then DeleteFileW tmp ;; ret false else ret true.

Definition wstr_le (a b : wstr) : Prop := str_ltb b a = false.
#[export] Instance wstr_le_dec a b : Decision (wstr_le a b).
Proof. unfold wstr_le. apply _. Defined.

(** The names that match [name.*.bak]. *)
Definition is_backup_of (name n : wstr) : bool :=
  let prefix := name ++ [DOT] in
  starts_with prefix n && starts_with (reverse (lit ".bak")) (reverse (drop (length prefix) n)).

Definition backupReplaced (dir absPath : wstr) (now : Z) : M Fs unit :=
  let backupDir := dir ++ lit "\backups" in
  CreateDirectoryW backupDir ;;
  let name := fileNameOf absPath in
  CopyFileW absPath (backupDir ++ [BSLASH] ++ name ++ [DOT] ++ to_string now ++ lit ".bak") ;;
  let* entries := list_dir backupDir in
  let found := filter (fun n => is_backup_of name n = true) (map fst entries) in
  if decide (kMaxBackupsPerFile < length found)%nat then
    for_each (take (length found - kMaxBackupsPerFile) (merge_sort wstr_le found))
      (fun n => DeleteFileW (backupDir ++ [BSLASH] ++ n) ;; ret tt)
  else ret tt.

Section engine.
Context `{Win32Text} `{CNG} `{Json} `{DPAPI} `{LocalTime}.
Context (dir : wstr).

(** ** Shadows: the content both sides last agreed on *)

Definition shadowPath (relKey : str) : outcome wstr :=
  (let! h := Crypto.sha256Hex relKey in
   Ok (dir ++ lit "\base\" ++ utf8ToWide h ++ lit ".shadow"))%outcome.

Definition writeShadow (relKey : str) (content : Bytes) : M World unit :=
  on_fs (CreateDirectoryW (dir ++ lit "\base")) ;;
  let* p := lift (shadowPath relKey) in
  on_fs (writeFileAtomic p content) ;;
  ret tt.

Definition readShadow (relKey : str) : M World (option Bytes) :=
  let* p := lift (shadowPath relKey) in on_fs (readFileBytes p).

Definition backup (absPath : wstr) : M World unit :=
  let* now := gets clock in on_fs (backupReplaced dir absPath now).

Definition remote_applied (absPath : wstr) : M World unit :=
  modify (fun w => put_applied (applied w ++ [absPath]) w).

(** ** Path mapping *)

(** The key and the root of a path in the first folder root that contains it. *)
Fixpoint locate_folder (roots : list (str * wstr)) (absPath : wstr)
    : outcome (option (option (str * wstr))) :=
  match roots with
  | [] => Ok None
  | (id, root) :: roots' =>
      if PathUtil.isInsideRoot root absPath then
        (let! rel := substr_from absPath (length root) in
         let rel8 := wideToUtf8 (trim_left is_slash rel) in
         let '(ok, norm) := PathUtil.normalizeRelative rel8 in
         Ok (Some (if ok then Some (id ++ [COLON] ++ norm, root) else None)))%outcome
      else locate_folder roots' absPath
  end.

Fixpoint locate_file (files : list (str * wstr)) (absPath : wstr) : option (str * wstr) :=
  match files with
  | [] => None
  | (_, f) :: files' =>
      if bool_decide (map towlower f = map towlower absPath)
      then Some (lit "file:" ++ wideToUtf8 (fileNameOf f), dirOf f)
      else locate_file files' absPath
  end.

Definition locateInRoots (absPath : wstr) : M World (option (str * wstr)) :=
  let* roots := listSyncRoots in
  let* found := lift (locate_folder roots absPath) in
  match found with
  | Some r => ret r
  | None => let* files := listSyncFiles in ret (locate_file files absPath)
  end.

Fixpoint root_by_id (roots : list (str * wstr)) (rootId : str) : option wstr :=
  match roots with
  | [] => None
  | (id, root) :: roots' => if bool_decide (id = rootId) then Some root else root_by_id roots' rootId
  end.

Fixpoint file_by_name (files : list (str * wstr)) (rel : str) : option wstr :=
  match files with
  | [] => None
  | (_, f) :: files' =>
      if bool_decide (wideToUtf8 (fileNameOf f) = rel) then Some f else file_by_name files' rel
  end.

Definition absPathForRel (relPath : str) : M World (option wstr) :=
  match find_char COLON relPath with
  | None => ret None
  | Some colon =>
      let rootId := take colon relPath in
      let rel := drop (S colon) relPath in
      let* roots := listSyncRoots in
      match root_by_id roots rootId with
      | Some root => ret (PathUtil.joinInsideRoot root rel)
      | None =>
          let* files := listSyncFiles in
          ret (if bool_decide (rootId = lit "file") then file_by_name files rel else None)
      end
  end.

(** ** Upload *)

Definition hex2 (b : Z) : str := [Crypto.hexd (Z.shiftr b 4); Crypto.hexd (Z.land b 15)].

(** [%02x%02x%02x%02x-%02x%02x-...] of a version 4 UUID. *)
Definition uuid_text (uuid : Bytes) : str :=
  let at_ i := default 0 (uuid !! i) in
  let uuid := <[8%nat := Z.lor (Z.land (at_ 8%nat) 63) 128]>
                (<[6%nat := Z.lor (Z.land (at_ 6%nat) 15) 64]> uuid) in
  let hex a b := mbind hex2 (slice a b uuid) in
  hex 0%nat 4%nat ++ [DASH] ++ hex 4%nat 6%nat ++ [DASH] ++ hex 6%nat 8%nat ++ [DASH]
  ++ hex 8%nat 10%nat ++ [DASH] ++ hex 10%nat 16%nat.

Definition json_parse_or_throw (s : str) : outcome json :=
  match json_parse s with Some j => Ok j | None => Throw json_parse_error end.

(** The payload with its version vector and file id, which the callers read
    back out of it. *)
Record Payload := MkPayload { p_json : json; p_vv : json; p_file_id : str }.

Definition buildFilePayload (relPath : str) (plaintext : Bytes) (baseVersion : Z)
    (vv : VersionVector.t) : M World Payload :=
  let* mk := gets masterKey_ in
  let* encContent := on_rand (Crypto.encrypt mk plaintext (lit "file")) in
  let* metaStr := lift (json_dump (JObj [(lit "relative_path", JStr relPath)])) in
  let* encMeta := on_rand (Crypto.encrypt mk metaStr (lit "metadata")) in
  let* st := on_db (LocalDb.getFile relPath) in
  let known := default [] (LocalDb.fileId <$> st) in
  let* fileId := if bool_decide (known = [])
                 then let* uuid := on_rand (Crypto.random 16) in ret (uuid_text uuid)
                 else ret known in
  let* dev := gets deviceId in
  let out := VersionVector.bump vv dev in
  let* contentHash := lift (Crypto.sha256Hex encContent) in
  let* vvJson := lift (json_parse_or_throw (VersionVector.toJson out)) in
  let* plainHash := lift (Crypto.sha256Hex plaintext) in
  let* key := lift (Crypto.sha256Hex (relPath ++ to_string baseVersion ++ plainHash)) in
  ret (MkPayload
    (JObj [(lit "base_version", JInt baseVersion);
           (lit "content_hash", JStr contentHash);
           (lit "encrypted_content", JStr (Crypto.base64UrlEncode encContent));
           (lit "encrypted_metadata", JStr (Crypto.base64UrlEncode encMeta));
           (lit "file_id", JStr fileId);
           (lit "idempotency_key", JStr (take 36 key));
           (lit "modified_at", JStr []);
           (lit "size", JInt (Z.of_nat (length encContent)));
           (lit "version_vector", vvJson)])
    vvJson fileId).

(** [VersionVector::fromJson(j.dump())]. *)
Definition vv_of_json (j : json) : outcome VersionVector.t :=
  (let! s := json_dump j in Ok (VersionVector.fromJson s))%outcome.

Definition enqueue (kind relPath : str) : M World bool :=
  let* now := gets clock in
  on_db (LocalDb.enqueueOp (LocalDb.MkOp 0 kind relPath [] 0 0 []) now).

Definition queueUpload (relPath : str) : M World unit :=
  enqueue (lit "upload") relPath ;;
  setStatus Syncing (lit "Queued upload") ;;
  request_sync.

(** ** Conflicts *)

Definition conflict_copy_path (absPath : wstr) (w : World) : wstr :=
  absPath ++ lit " (conflict - " ++ utf8ToWide (Settings.deviceName (settings_ w)) ++ lit ").bak".

(** [handleConflict] when the merge is not clean or its upload failed. *)
Definition record_conflict (relPath : str) (absPath : wstr) (serverCurrent : json) (fileId : str)
    (localText : str) : M World (bool * str) :=
  let* copy := gets (conflict_copy_path absPath) in
  on_fs (writeFileAtomic copy localText) ;;
  let* version := lift (value_int64 serverCurrent (lit "version") 0) in
  let* hash := lift (value_str serverCurrent (lit "content_hash") []) in
  let* now := gets clock in
  on_db (LocalDb.addConflict (LocalDb.MkConflict fileId relPath version (wideToUtf8 copy) hash 0) now) ;;
  setStatus Conflict (lit "Conflict needs attention") ;;
  ret (true, []).

(** The upload of a clean merge; true when the server took it. *)
Definition upload_merged (relPath : str) (serverCurrent : json) (fileId : str) (mergedText : str)
    : M World bool :=
  let* newBase := lift (value_int64 serverCurrent (lit "version") 0) in
  let* vvj := lift (value_json serverCurrent (lit "version_vector") (JObj [])) in
  let* vv := lift (vv_of_json vvj) in
  let* payload := buildFilePayload relPath mergedText newBase vv in
  let* r := on_api dir (ApiClient.updateFile fileId (p_json payload)) in
  if negb (ApiClient.status r =? 200) then ret false
  else
    let* st := on_db (LocalDb.getFile relPath) in
    let f := default new_file st in
    let* hash := lift (Crypto.sha256Hex mergedText) in
    let* version := body_int r (lit "version") (wrap_i64 (newBase + 1)) in
    let* newVv := lift (vv_of_json (p_vv payload)) in
    on_db (LocalDb.upsertFile (LocalDb.MkFile fileId (LocalDb.syncRoot f) relPath hash hash version newVv
             (LocalDb.deleted f) (LocalDb.modifiedAtLocal f))) ;;
    writeShadow relPath mergedText ;;
    setStatus Synced (lit "Auto-merged") ;;
    ret true.

Definition handleConflict (relPath : str) (absPath : wstr) (serverCurrent : json) : M World (bool * str) :=
  let* fileId := lift (value_str serverCurrent (lit "file_id") []) in
  if bool_decide (fileId = []) then ret (false, lit "conflict without file id")
  else
    let* full := on_api dir (ApiClient.getFile fileId) in
    if negb (ApiClient.status full =? 200) then ret (false, lit "cannot fetch remote version")
    else
      let* enc64 := body_str full (lit "encrypted_content") [] in
      match Crypto.base64UrlDecode enc64 with
      | None => ret (false, lit "bad remote payload")
      | Some encRemote =>
          let* mk := gets masterKey_ in
          let* remotePlain := lift (Crypto.decrypt mk encRemote (lit "file")) in
          match remotePlain with
          | None => ret (false, lit "cannot decrypt remote version")
          | Some remoteText =>
              let* localPlain := on_fs (readFileBytes absPath) in
              let localText := default [] localPlain in
              let* base := readShadow relPath in
              let m := Merge.merge (default [] base) localText remoteText in
              if negb (Merge.clean m) then record_conflict relPath absPath serverCurrent fileId localText
              else
                let* written := on_fs (writeFileAtomic absPath (Merge.merged m)) in
                if negb written then ret (false, lit "cannot write merged file")
                else
                  backup absPath ;;
                  remote_applied absPath ;;
                  let* ok := upload_merged relPath serverCurrent fileId (Merge.merged m) in
                  if ok then ret (true, [])
                  else record_conflict relPath absPath serverCurrent fileId localText
          end
      end.

Definition upload_unchanged (st : option LocalFileState) (hash : str) : bool :=
  match st with
  | Some f => bool_decide (LocalDb.localHash f = hash) && bool_decide (LocalDb.remoteHash f = hash)
  | None => false
  end.

Definition uploadFile (relPath : str) (absPath : wstr) : M World (bool * str) :=
  let* has := gets hasMasterKey in
  if negb has then ret (false, lit "encryption not set up")
  else
    let* content := on_fs (readFileBytes absPath) in
    match content with
    | None => ret (false, lit "cannot read file")
    | Some plaintext =>
        let* maxBytes := gets (fun w => Settings.maxFileBytes (settings_ w)) in
        if maxBytes <? Z.of_nat (length plaintext) then ret (false, lit "file exceeds max size")
        else
          let* plainHash := lift (Crypto.sha256Hex plaintext) in
          let* st := on_db (LocalDb.getFile relPath) in
          if upload_unchanged st plainHash then ret (true, [])
          else
            let baseVersion := default 0 (LocalDb.f_remoteVersion <$> st) in
            let vv := default VersionVector.empty (LocalDb.versionVector <$> st) in
            let* payload := buildFilePayload relPath plaintext baseVersion vv in
            let fileId := p_file_id payload in
            let* r := on_api dir (if baseVersion =? 0 then ApiClient.createFile (p_json payload)
                                  else ApiClient.updateFile fileId (p_json payload)) in
            if negb (ApiClient.transportOk r) then set_online false ;; ret (false, lit "offline")
            else
              set_online true ;;
              if (ApiClient.status r =? 200) || (ApiClient.status r =? 201) then
                let* newVersion := body_int r (lit "version") 1 in
                let* newVv := lift (vv_of_json (p_vv payload)) in
                on_db (LocalDb.upsertFile (LocalDb.MkFile fileId (default [] (LocalDb.syncRoot <$> st)) relPath
                         plainHash plainHash newVersion newVv false 0)) ;;
                writeShadow relPath plaintext ;;
                ret (true, [])
              else if ApiClient.status r =? 409 then
                let* cur := lift (value_json (ApiClient.body r) (lit "current") (JObj [])) in
                handleConflict relPath absPath cur
              else
                let* msg := body_str r (lit "message") (lit "upload failed") in ret (false, msg)
    end.

Definition deleteRemote (relPath : str) : M World (bool * str) :=
  let* st := on_db (LocalDb.getFile relPath) in
  match st with
  | None => on_db (LocalDb.removeFile relPath) ;; ret (true, [])
  | Some f =>
      if bool_decide (LocalDb.fileId f = []) then on_db (LocalDb.removeFile relPath) ;; ret (true, [])
      else
        let* r := on_api dir (ApiClient.deleteFile (LocalDb.fileId f)) in
        if negb (ApiClient.transportOk r) then set_online false ;; ret (false, lit "offline")
        else
          set_online true ;;
          if (ApiClient.status r =? 200) || (ApiClient.status r =? 404)
          then on_db (LocalDb.removeFile relPath) ;; ret (true, [])
          else let* msg := body_str r (lit "message") (lit "delete failed") in ret (false, msg)
  end.

(** ** Resolving a conflict *)

(** The head of the server, fetched and decrypted; [inl] is an error text. *)
Definition fetch_remote (fileId : str) : M World (str + Bytes * ApiResponse) :=
  let* full := on_api dir (ApiClient.getFile fileId) in
  if negb (ApiClient.status full =? 200) then ret (inl (lit "cannot fetch remote"))
  else
    let* enc64 := body_str full (lit "encrypted_content") [] in
    match Crypto.base64UrlDecode enc64 with
    | None => ret (inl (lit "cannot decrypt remote"))
    | Some enc =>
        let* mk := gets masterKey_ in
        let* plain := lift (Crypto.decrypt mk enc (lit "file")) in
        ret (match plain with
             | None => inl (lit "cannot decrypt remote")
             | Some p => inr (p, full)
             end)
    end.

Definition with_hash (f : LocalFileState) (hash : str) (version : Z) (vv : VersionVector.t) : LocalFileState :=
  LocalDb.MkFile (LocalDb.fileId f) (LocalDb.syncRoot f) (LocalDb.f_relPath f) hash hash version vv
    (LocalDb.deleted f) (LocalDb.modifiedAtLocal f).

Definition keep_local (target : ConflictState) (abs : wstr) : M World (bool * str) :=
  let rel := LocalDb.c_relPath target in
  let* content := on_fs (readFileBytes (utf8ToWide (LocalDb.c_localCopyPath target))) in
  match content with
  | None => ret (false, lit "local copy missing")
  | Some data =>
      on_fs (writeFileAtomic abs data) ;;
      let* st := on_db (LocalDb.getFile rel) in
      let vv := default VersionVector.empty (LocalDb.versionVector <$> st) in
      let* payload := buildFilePayload rel data (LocalDb.c_remoteVersion target) vv in
      let* r := on_api dir (ApiClient.updateFile (LocalDb.c_fileId target) (p_json payload)) in
      if negb (ApiClient.status r =? 200) then
        let* msg := body_str r (lit "message") (lit "upload failed") in ret (false, msg)
      else
        match st with
        | None => ret (true, [])
        | Some f =>
            let* hash := lift (Crypto.sha256Hex data) in
            let* version := body_int r (lit "version") (wrap_i64 (LocalDb.c_remoteVersion target + 1)) in
            on_db (LocalDb.upsertFile (with_hash f hash version (LocalDb.versionVector f))) ;;
            writeShadow rel data ;;
            ret (true, [])
        end
  end.

(** [backupReplaced], [writeFileAtomic] and the bookkeeping that [keepRemote] and [keepBoth]
    share; [setVv] tells whether the version vector is stored. *)
Definition take_remote (target : ConflictState) (abs : wstr) (plain : Bytes) (full : ApiResponse)
    (setVv : bool) : M World (bool * str) :=
  let rel := LocalDb.c_relPath target in
  backup abs ;;
  let* written := on_fs (writeFileAtomic abs plain) in
  if negb written then ret (false, lit "write failed")
  else
    remote_applied abs ;;
    let* st := on_db (LocalDb.getFile rel) in
    match st with
    | None => ret (true, [])
    | Some f =>
        let* hash := lift (Crypto.sha256Hex plain) in
        let* version := body_int full (lit "version") (LocalDb.c_remoteVersion target) in
        let* vv := if setVv then
                     let* j := lift (value_json (ApiClient.body full) (lit "version_vector") (JObj [])) in
                     lift (vv_of_json j)
                   else ret (LocalDb.versionVector f) in
        on_db (LocalDb.upsertFile (with_hash f hash version vv)) ;;
        writeShadow rel plain ;;
        ret (true, [])
    end.

Definition keep_remote (target : ConflictState) (abs : wstr) : M World (bool * str) :=
  let* got := fetch_remote (LocalDb.c_fileId target) in
  match got with
  | inl err => ret (false, err)
  | inr (plain, full) => take_remote target abs plain full true
  end.

Definition date_text (now : Z) : str :=
  let lt := localtime now in
  take 15 (pad_int 4 (tm_year lt + 1900) ++ [DASH] ++ pad_int 2 (tm_mon lt + 1) ++ [DASH] ++ pad_int 2 (tm_mday lt)).

(** The name of the copy that [keepBoth] leaves next to the file. *)
Definition both_name (abs : wstr) (w : World) : wstr :=
  let name := fileNameOf abs in
  let dot := find_last (Z.eqb DOT) name in
  let stem := match dot with Some d => take d name | None => name end in
  let ext := match dot with Some d => drop d name | None => [] end in
  dirOf abs ++ [BSLASH] ++ stem ++ lit " (conflict - " ++ utf8ToWide (Settings.deviceName (settings_ w))
  ++ lit " - " ++ utf8ToWide (date_text (clock w)) ++ lit ")" ++ ext.

Definition keep_both (target : ConflictState) (abs : wstr) : M World (bool * str) :=
  let* got := fetch_remote (LocalDb.c_fileId target) in
  match got with
  | inl err => ret (false, err)
  | inr (plain, full) =>
      let* bothName := gets (both_name abs) in
      on_fs (MoveFileExW (utf8ToWide (LocalDb.c_localCopyPath target)) bothName) ;;
      take_remote target abs plain full false
  end.

Definition resolveConflict (fileId strategy : str) : M World (bool * str) :=
  let* conflicts := on_db LocalDb.list_conflicts in
  match head (filter (fun c => LocalDb.c_fileId c = fileId) conflicts) with
  | None => ret (false, lit "conflict not found")
  | Some target =>
      let* absOpt := absPathForRel (LocalDb.c_relPath target) in
      match absOpt with
      | None => ret (false, lit "cannot map path")
      | Some abs =>
          let* (ok, err) :=
            if bool_decide (strategy = lit "keepLocal") then keep_local target abs
            else if bool_decide (strategy = lit "keepRemote") then keep_remote target abs
            else if bool_decide (strategy = lit "keepBoth") then keep_both target abs
            else ret (false, lit "unknown strategy") in
          if negb ok then ret (false, err)
          else
            on_db (LocalDb.resolveConflict fileId) ;;
            let* n := on_db LocalDb.conflictCount in
            setStatus (if 0 <? n then Conflict else Synced) (lit "Conflict resolved") ;;
            ret (true, [])
      end
  end.
End engine.

End EngineSync.
