(* ===== verification/EngineRun.v ===== *)
(** * EngineRun: SyncEngine.cpp, download, notifications and the worker passes

    The loops of the worker, the poller and the scanner are given by one pass
    each and by the pieces of it; EngineThreads has the loops around them. *)
From S2P Require Import Prelude Text VersionVector Platform PathUtil IgnoreRules Crypto.
From S2P Require Import LocalDb ApiClient FolderWatcher FileSystem Settings EngineState.
From S2P Require Import EngineKeys EngineSync.
Import EngineState.Engine EngineKeys.EngineKeys EngineSync.EngineSync.
Import FileSystem.
Import PathUtil(utf8ToWide, wideToUtf8).
Import ApiClient(ApiResponse).
Import LocalDb(LocalFileState, PendingOp, ConflictState).
Import FolderWatcher(FsEvent).

#[local] Open Scope monad_scope.

Module EngineRun.

#[local] Existing Instance FolderWatcher.Kind_eq_dec.

Section engine.
Context `{Win32Text} `{CNG} `{Json} `{DPAPI} `{LocalTime}.
Context (dir : wstr).

(** ** Download *)

(** The part of a key after its first colon. *)
Definition after_colon (key : str) : option str :=
  match find_char COLON key with Some colon => Some (drop (S colon) key) | None => None end.

(** The first known file whose key ends in the remote path. *)
Fixpoint known_key (all : list LocalFileState) (norm : str) : str :=
  match all with
  | [] => []
  | lf :: all' =>
      if bool_decide (after_colon (LocalDb.f_relPath lf) = Some norm) then LocalDb.f_relPath lf
      else known_key all' norm
  end.

Fixpoint choose_root (roots : list (str * wstr)) (norm : str) : str :=
  match roots with
  | [] => []
  | (id, root) :: roots' =>
      match PathUtil.joinInsideRoot root norm with
      | Some _ => id
      | None => choose_root roots' norm
      end
  end.

(** The local key of a remote path; [None] is "no sync roots". *)
Definition local_key (norm : str) : M World (option str) :=
  let* all := on_db LocalDb.allFiles in
  let key := known_key all norm in
  if negb (bool_decide (key = [])) then ret (Some key)
  else
    let* roots := listSyncRoots in
    match roots with
    | [] => ret None
    | (id0, _) :: _ =>
        let chosen := choose_root roots norm in
        ret (Some ((if bool_decide (chosen = []) then id0 else chosen) ++ [COLON] ++ norm))
    end.

(** The path in the metadata, decrypted and normalized; [inl] is an error text. *)
Definition remote_path (f : json) : M World (str + str) :=
  let* enc64 := lift (value_str f (lit "encrypted_metadata") []) in
  match Crypto.base64UrlDecode enc64 with
  | None => ret (inl (lit "cannot decrypt metadata"))
  | Some encMeta =>
      let* mk := gets masterKey_ in
      let* metaPlain := lift (Crypto.decrypt mk encMeta (lit "metadata")) in
      match metaPlain with
      | None => ret (inl (lit "cannot decrypt metadata"))
      | Some text =>
          match json_parse text with
          | None => ret (inl (lit "bad metadata"))
          | Some meta =>
              let* relPath := lift (value_str meta (lit "relative_path") []) in
              let '(ok, norm) := PathUtil.normalizeRelative relPath in
              ret (if ok then inr norm else inl (lit "remote path rejected"))
          end
      end
  end.

(** The content, verified and decrypted; [inl] is an error text. *)
Definition remote_content (f : json) : M World (str + Bytes) :=
  let* enc64 := lift (value_str f (lit "encrypted_content") []) in
  match Crypto.base64UrlDecode enc64 with
  | None => ret (inl (lit "bad content"))
  | Some encContent =>
      let* h := lift (Crypto.sha256Hex encContent) in
      let* claimed := lift (value_str f (lit "content_hash") []) in
      if negb (bool_decide (h = claimed)) then ret (inl (lit "hash mismatch"))
      else
        let* mk := gets masterKey_ in
        let* plain := lift (Crypto.decrypt mk encContent (lit "file")) in
        ret (match plain with None => inl (lit "decrypt failed") | Some p => inr p end)
  end.

(** Whether the local file has edits that were never synchronized. *)
Definition unsynced_edits (st : option LocalFileState) (local : option Bytes) : M World bool :=
  match local, st with
  | Some currentLocal, Some f =>
      let* curHash := lift (Crypto.sha256Hex currentLocal) in
      ret (negb (bool_decide (LocalDb.localHash f = [])) &&
           negb (bool_decide (curHash = LocalDb.localHash f)) &&
           negb (bool_decide (curHash = LocalDb.remoteHash f)))
  | _, _ => ret false
  end.

Definition unsaved_copy_path (abs : wstr) : wstr :=
  dirOf abs ++ [BSLASH] ++ fileNameOf abs ++ lit " (conflict - local unsaved).bak".

Definition keep_unsynced (fileId localKey : str) (abs : wstr) (remoteVersion : Z) (f : json)
    (currentLocal : Bytes) : M World (bool * str) :=
  let copy := unsaved_copy_path abs in
  on_fs (writeFileAtomic copy currentLocal) ;;
  let* hash := lift (value_str f (lit "content_hash") []) in
  let* now := gets clock in
  on_db (LocalDb.addConflict
    (LocalDb.MkConflict fileId localKey remoteVersion (wideToUtf8 copy) hash 0) now) ;;
  setStatus Conflict (lit "Conflict needs attention") ;;
  ret (true, []).

(** The directories created before a write: every prefix of [d] that ends
    before a backslash at index 3 or later, and [d]. *)
Definition parents (d : wstr) : list wstr :=
  map (fun i => take i d)
    (filter (fun i => d !! i = Some BSLASH) (seq 3 (length d - 3))) ++ [d].

Definition install_remote (fileId localKey : str) (abs : wstr) (remoteVersion : Z) (f : json)
    (st : option LocalFileState) (plain : Bytes) : M World (bool * str) :=
  on_fs (for_each (parents (dirOf abs)) CreateDirectoryW) ;;
  let* attr := on_fs (GetFileAttributesW abs) in
  (match attr with Some _ => backup dir abs | None => ret tt end) ;;
  let* written := on_fs (writeFileAtomic abs plain) in
  if negb written then ret (false, lit "write failed")
  else
    remote_applied abs ;;
    let* hash := lift (Crypto.sha256Hex plain) in
    let* vvj := lift (value_json f (lit "version_vector") (JObj [])) in
    let* vv := lift (vv_of_json vvj) in
    let old := default new_file st in
    on_db (LocalDb.upsertFile (LocalDb.MkFile fileId (LocalDb.syncRoot old) localKey hash hash
             remoteVersion vv false (LocalDb.modifiedAtLocal old))) ;;
    writeShadow dir localKey plain ;;
    ret (true, []).

(** A verified content arrives: local edits that were never synchronized are a
    conflict, anything else is replaced. *)
Definition receive_content (fileId localKey : str) (abs : wstr) (remoteVersion : Z) (f : json)
    (st : option LocalFileState) (plain : Bytes) : M World (bool * str) :=
  let* local := on_fs (readFileBytes abs) in
  let* dirty := unsynced_edits st local in
  if dirty then keep_unsynced fileId localKey abs remoteVersion f (default [] local)
  else install_remote fileId localKey abs remoteVersion f st plain.

Definition delete_local (abs : wstr) (remoteVersion : Z) (st : option LocalFileState) : M World (bool * str) :=
  backup dir abs ;;
  on_fs (DeleteFileW abs) ;;
  (match st with
   | None => ret tt
   | Some f =>
       on_db (LocalDb.upsertFile (LocalDb.MkFile (LocalDb.fileId f) (LocalDb.syncRoot f)
         (LocalDb.f_relPath f) (LocalDb.localHash f) (LocalDb.remoteHash f) remoteVersion
         (LocalDb.versionVector f) true (LocalDb.modifiedAtLocal f))) ;; ret tt
   end) ;;
  ret (true, []).

Definition applyRemoteFile (fileId : str) : M World (bool * str) :=
  let* r := on_api dir (ApiClient.getFile fileId) in
  if negb (ApiClient.transportOk r) then set_online false ;; ret (false, lit "offline")
  else
    set_online true ;;
    if negb (ApiClient.status r =? 200) then ret (false, lit "fetch failed")
    else
      let f := ApiClient.body r in
      let* remoteVersion := lift (value_int64 f (lit "version") 0) in
      let* isDeleted := lift (value_bool f (lit "deleted") false) in
      let* path := remote_path f in
      match path with
      | inl err => ret (false, err)
      | inr norm =>
          let* key := local_key norm in
          match key with
          | None => ret (false, lit "no sync roots")
          | Some localKey =>
              let* absOpt := absPathForRel localKey in
              match absOpt with
              | None => ret (false, lit "path mapping failed")
              | Some abs =>
                  let* ign := gets (fun w => ignored w norm false) in
                  if ign then ret (true, [])
                  else
                    let* st := on_db (LocalDb.getFile localKey) in
                    if match st with Some s => remoteVersion <=? LocalDb.f_remoteVersion s | None => false end
                    then ret (true, [])
                    else if isDeleted then delete_local abs remoteVersion st
                    else
                      let* content := remote_content f in
                      match content with
                      | inl err => ret (false, err)
                      | inr plain => receive_content fileId localKey abs remoteVersion f st plain
                      end
              end
          end
      end.

Definition apply_change (ch : json) : M World unit :=
  let* origin := lift (value_str ch (lit "origin_device_id") []) in
  let* mine := gets (fun w => bool_decide (origin = deviceId w)) in
  if mine then ret tt
  else
    let* fileId := lift (value_str ch (lit "file_id") []) in
    applyRemoteFile fileId ;;
    ret tt.

Definition pullChanges : M World unit :=
  let* tokens := on_api dir (gets ApiClient.hasTokens) in
  let* has := gets hasMasterKey in
  if negb tokens || negb has then ret tt
  else
    let* since := on_db LocalDb.lastChangeSeq in
    let* r := on_api dir (ApiClient.changesSince since) in
    if negb (ApiClient.transportOk r) then set_online false ;; setStatus Offline (lit "Offline")
    else
      set_online true ;;
      if negb (ApiClient.status r =? 200) then ret tt
      else
        let* latest := body_int r (lit "latest_seq") 0 in
        let* changes := lift (value_json (ApiClient.body r) (lit "changes") (JArr [])) in
        for_each (json_elements changes) apply_change ;;
        if 0 <? latest then on_db (LocalDb.setLastChangeSeq latest) ;; ret tt else ret tt.

(** ** Notifications of the editor, the watcher and the server *)

Definition onFileSaved (absPath : wstr) : M World unit :=
  let* skip := gets (fun w => paused w || negb (isSignedIn w)) in
  if skip then ret tt
  else
    let* loc := locateInRoots absPath in
    match loc with None => ret tt | Some (rel, _) => queueUpload rel end.

Definition onFileOpened (absPath : wstr) : M World unit :=
  let* ok := gets isSignedIn in
  if negb ok then ret tt
  else
    let* loc := locateInRoots absPath in
    match loc with
    | None => ret tt
    | Some (rel, _) =>
        let* st := on_db (LocalDb.getFile rel) in
        match st with
        | Some _ => ret tt
        | None =>
            let root := match find_char COLON rel with Some c => take c rel | None => rel end in
            on_db (LocalDb.upsertFile (LocalDb.MkFile [] root rel [] [] 0 VersionVector.empty false 0)) ;;
            ret tt
        end
    end.

Definition onFsEvent (ev : FsEvent) : M World unit :=
  let* skip := gets (fun w => paused w || negb (isSignedIn w)) in
  if skip then ret tt
  else
    let* loc := locateInRoots (FolderWatcher.absPath ev) in
    match loc with
    | None =>
        if bool_decide (FolderWatcher.kind ev = FolderWatcher.RenamedTo)
           && negb (bool_decide (FolderWatcher.oldAbsPath ev = []))
        then
          let* oldLoc := locateInRoots (FolderWatcher.oldAbsPath ev) in
          match oldLoc with
          | None => ret tt
          | Some (rel, _) => enqueue (lit "delete") rel ;; ret tt
          end
        else ret tt
    | Some (rel, _) =>
        match FolderWatcher.kind ev with
        | FolderWatcher.Created | FolderWatcher.Modified =>
            let* attr := on_fs (GetFileAttributesW (FolderWatcher.absPath ev)) in
            if bool_decide (attr = Some true) then ret tt else queueUpload rel
        | FolderWatcher.Deleted => enqueue (lit "delete") rel ;; request_sync
        | FolderWatcher.RenamedFrom => ret tt
        | FolderWatcher.RenamedTo => queueUpload rel
        end
    end.

Definition onWsEvent (ev : json) : M World unit :=
  let* type := lift (value_str ev (lit "type") []) in
  if bool_decide (type = lit "file_changed" \/ type = lit "file_deleted") then
    let* origin := lift (value_str ev (lit "origin_device_id") []) in
    let* mine := gets (fun w => bool_decide (origin = deviceId w)) in
    if mine then ret tt
    else
      let* fileId := lift (value_str ev (lit "file_id") []) in
      if bool_decide (fileId = []) then ret tt
      else
        let* (ok, _) := applyRemoteFile fileId in
        (if ok then ret tt else pullChanges) ;;
        setStatus Synced (lit "Updated")
  else if bool_decide (type = lit "device_revoked") then
    let* device := lift (value_str ev (lit "device_id") []) in
    let* mine := gets (fun w => bool_decide (device = deviceId w)) in
    if mine then signOut dir else ret tt
  else ret tt.

(** ** The queue *)

(** The rest of [processPendingOp] after an attempt: the operation is done, or
    its error is handled. *)
Definition finish_op (op : PendingOp) (r : bool * str) : M World bool :=
  if r.1 then on_db (LocalDb.removeOp (LocalDb.op_id op)) ;; ret true
  else if bool_decide (r.2 = lit "offline") then set_online false ;; ret false
  else
    on_db (LocalDb.markOpFailed (LocalDb.op_id op) r.2) ;;
    (if 25 <? LocalDb.op_retryCount op then on_db (LocalDb.removeOp (LocalDb.op_id op)) ;; ret tt else ret tt) ;;
    ret false.

Definition processPendingOp (op : PendingOp) : M World bool :=
  let drop_op := on_db (LocalDb.removeOp (LocalDb.op_id op)) ;; ret true in
  if bool_decide (LocalDb.op_kind op = lit "upload") then
    let* abs := absPathForRel (LocalDb.op_relPath op) in
    match abs with
    | None => drop_op
    | Some abs => let* r := uploadFile dir (LocalDb.op_relPath op) abs in finish_op op r
    end
  else if bool_decide (LocalDb.op_kind op = lit "delete") then
    let* r := deleteRemote dir (LocalDb.op_relPath op) in finish_op op r
  else drop_op.

(** The [for] loop of the worker; the result is [didWork]. *)
Fixpoint work_through (ops : list PendingOp) (didWork : bool) : M World bool :=
  match ops with
  | [] => ret didWork
  | op :: ops' =>
      let* go := gets (fun w => running_ w && online_ w) in
      if negb go then ret didWork
      else
        setStatus Syncing (lit "Syncing") ;;
        processPendingOp op ;;
        work_through ops' true
  end.

(** One round of it. *)
Definition work_one (op : PendingOp) : M World unit :=
  setStatus Syncing (lit "Syncing") ;; processPendingOp op ;; ret tt.

(** [!settings_->pauseSync && isSignedIn() && hasMasterKey()]. *)
Definition may_sync (w : World) : bool := negb (paused w) && isSignedIn w && hasMasterKey w.

(** The status after the loop. *)
Definition finish_pass (didWork : bool) : M World unit :=
  let* idle :=
    (if didWork then
       let* n := on_db LocalDb.pendingOpCount in
       if n =? 0 then let* c := on_db LocalDb.conflictCount in ret (c =? 0) else ret false
     else ret false) in
  if idle then setStatus Synced (lit "Synced")
  else
    let* c := on_db LocalDb.conflictCount in
    if 0 <? c then setStatus Conflict (lit "Conflict needs attention") else ret tt.

Definition worker_pass : M World unit :=
  let* go := gets may_sync in
  if negb go then ret tt
  else
    let* ops := on_db LocalDb.pendingOps in
    let* didWork := work_through ops false in
    finish_pass didWork.

Definition poller_pass : M World unit :=
  let* go := gets may_sync in
  if negb go then ret tt
  else
    pullChanges ;;
    let* on := gets online_ in
    if negb on then ret tt
    else
      let* c := on_db LocalDb.conflictCount in
      if negb (c =? 0) then ret tt
      else
        let* n := on_db LocalDb.pendingOpCount in
        if n =? 0 then setStatus Synced (lit "Synced") else ret tt.

(** One entry of a directory; the result is the directory to push. *)
Definition scan_entry (d : wstr) (e : wstr * bool) : M World (list wstr) :=
  let full := d ++ [BSLASH] ++ e.1 in
  if e.2 then ret [full]
  else
    let* loc := locateInRoots full in
    match loc with
    | None => ret []
    | Some (rel, _) =>
        let norm := match find_char COLON rel with Some c => drop (S c) rel | None => rel end in
        let* ign := gets (fun w => ignored w norm false) in
        if ign then ret []
        else
          let* st := on_db (LocalDb.getFile rel) in
          match st with
          | Some _ => ret []
          | None => queueUpload rel ;; ret []
          end
    end.

Fixpoint scan_entries (d : wstr) (es : list (wstr * bool)) : M World (list wstr) :=
  match es with
  | [] => ret []
  | e :: es' =>
      let* a := scan_entry d e in
      let* b := scan_entries d es' in
      ret (a ++ b)
  end.

(** One directory off the stack; the result is what goes onto it. *)
Definition scan_dir (d : wstr) : M World (list wstr) :=
  let* es := on_fs (list_dir d) in scan_entries d es.

(** The stack of directories, its top last; false is out of fuel. *)
Fixpoint scan_stack (fuel : nat) (stack : list wstr) : M World bool :=
  match fuel with
  | O => ret false
  | S fuel' =>
      match last stack with
      | None => ret true
      | Some d =>
          let* go := gets running_ in
          if negb go then ret true
          else
            let* pushed := scan_dir d in
            scan_stack fuel' (removelast stack ++ pushed)
      end
  end.

Fixpoint scan_roots (fuel : nat) (roots : list (str * wstr)) : M World bool :=
  match roots with
  | [] => ret true
  | (_, root) :: roots' =>
      let* go := gets running_ in
      if negb go then ret true
      else
        let* a := scan_stack fuel [root] in
        let* b := scan_roots fuel roots' in
        ret (a && b)
  end.

Definition scanner_pass (fuel : nat) : M World bool :=
  let* go := gets may_sync in
  if negb go then ret true
  else let* roots := listSyncRoots in scan_roots fuel roots.

(** The web socket's connection callback, given to it by [start]. *)
Definition onWsConnected (connected : bool) : M World unit :=
  when connected (set_online true ;; request_sync).

(** ** The system: any operation of any thread, one after the other

    A pass of a thread is an operation; so are its parts between two looks at
    [running_], for the runs in which other threads work in the midst of it. *)

Inductive op :=
  | OInit (s : Settings.Settings) | OStart | OStop
  | OSignIn (email password : str) (create : bool) | OSignOut
  | OStartGoogle | OPollGoogle (state secret : str)
  | OFinishFirstRun (create : bool) | OUnlock (key : str)
  | OPairNew | OApprovePairing (code : str) | OCompletePairing (code : str)
  | OSetPaused (p : bool) | OSyncNow | OSaveSettings
  | OListDevices | ORevokeDevice (id : str) | ORenameDevice (id name : str)
  | OAddRoot (p : wstr) (folder : bool) | ORemoveRoot (id : str) | OReloadRoots
  | OResolveConflict (fileId strategy : str)
  | OFileSaved (p : wstr) | OFileOpened (p : wstr) | OFsEvent (ev : FsEvent) | OWsEvent (ev : json)
  | OWsConnected (connected : bool)
  | OWorker | OPoller | OScanner (fuel : nat)
  | OWorkOne (op : PendingOp) | OFinishPass (didWork : bool) | OScanDir (d : wstr).

Definition exec {A} (m : M World A) (w : World) : World := (m w).2.

Definition run (o : op) : World -> World :=
  match o with
  | OInit s => exec (init dir s)
  | OStart => exec (start dir)
  | OStop => exec stop
  | OSignIn e p c => exec (signIn dir e p c)
  | OSignOut => exec (signOut dir)
  | OStartGoogle => exec (startGoogleSignIn dir)
  | OPollGoogle s p => exec (pollGoogleSignIn dir s p)
  | OFinishFirstRun c => exec (finishFirstRunKeys dir c)
  | OUnlock k => exec (unlockWithRecoveryKey dir k)
  | OPairNew => exec (pairNewDevice dir)
  | OApprovePairing c => exec (approvePairing dir c)
  | OCompletePairing c => exec (completePairing dir c)
  | OSetPaused p => exec (setPaused dir p)
  | OSyncNow => exec syncNow
  | OSaveSettings => exec (saveSettings dir)
  | OListDevices => exec (listDevices dir)
  | ORevokeDevice i => exec (revokeDeviceById dir i)
  | ORenameDevice i n => exec (renameDeviceById dir i n)
  | OAddRoot p f => exec (addSyncRootPath p f)
  | ORemoveRoot i => exec (removeSyncRootPath i)
  | OReloadRoots => exec reloadRoots
  | OResolveConflict f s => exec (resolveConflict dir f s)
  | OFileSaved p => exec (onFileSaved p)
  | OFileOpened p => exec (onFileOpened p)
  | OFsEvent ev => exec (onFsEvent ev)
  | OWsEvent ev => exec (onWsEvent ev)
  | OWsConnected c => exec (onWsConnected c)
  | OWorker => exec worker_pass
  | OPoller => exec poller_pass
  | OScanner n => exec (scanner_pass n)
  | OWorkOne p => exec (work_one p)
  | OFinishPass b => exec (finish_pass b)
  | OScanDir d => exec (scan_dir d)
  end.

(** The life cycle of the engine is its owner's business; everything else runs
    while it is started. *)
Definition from_within (o : op) : bool :=
  match o with OInit _ | OStart | OStop => false | _ => true end.

(** Between two operations the world moves on: files change, the network
    answers, time passes, randomness is drawn, SQLite meets errors, the settings
    dialog edits the settings. *)
Definition environment (w w' : World) : Prop :=
  LocalDb.tables (db w') = LocalDb.tables (db w) /\ LocalDb.opened (db w') = LocalDb.opened (db w) /\
  masterKey_ w' = masterKey_ w /\ has_api w' = has_api w /\
  ApiClient.accessToken (api w') = ApiClient.accessToken (api w) /\
  ApiClient.refreshToken (api w') = ApiClient.refreshToken (api w).

Inductive steps : World -> list op -> World -> Prop :=
  | steps_nil w : steps w [] w
  | steps_env w w1 os w' : environment w w1 -> steps w1 os w' -> steps w os w'
  | steps_op w o os w' : steps (run o w) os w' -> steps w (o :: os) w'.
End engine.

End EngineRun.
