(* ===== verification/EngineThreads.v ===== *)
(** * EngineThreads: SyncEngine.cpp, the three loops and their interleaving

    [workerLoop], [pollerLoop] and [scannerLoop] cut at every look at [running_]
    and at every call between two looks: a thread is the place where its loop
    stands, with the loop's variables, and a step of it runs to the next place.
    A system is the engine with its three threads; between their steps the
    other threads of the process call the engine, and the world moves on. An
    exception that leaves a loop ends the process ([std::thread]). *)
From S2P Require Import Prelude Text Platform FileSystem FolderWatcher LocalDb ApiClient Settings.
From S2P Require Import EngineState EngineKeys EngineSync EngineRun.
Import Engine EngineRun.
Import LocalDb(PendingOp).

#[local] Open Scope monad_scope.

Module EngineThreads.

(** ** Where a loop stands *)

(** [workerLoop]: at the [while]; before the [if]; in the [for] with the
    operations that are left and [didWork]; with one operation in hand; after
    the [for]; with so many naps to go; returned. *)
Inductive Worker :=
  | WTop
  | WTest
  | WLoop (ops : list PendingOp) (didWork : bool)
  | WOne (op : PendingOp) (ops : list PendingOp)
  | WEnd (didWork : bool)
  | WNap (n : nat)
  | WDone.

Inductive Poller := PTop | PBody | PPause | PNap (n : nat) | PDone.

(** [scannerLoop] has the delay before its [while], the [for] over the folders
    and the [while] over the stack. *)
Inductive Scanner :=
  | SDelay (n : nat)
  | STop
  | STest
  | SRoots (roots : list (str * wstr))
  | SStack (stack : list wstr) (roots : list (str * wstr))
  | SDir (d : wstr) (stack : list wstr) (roots : list (str * wstr))
  | SNap (n : nat)
  | SDone.

(** [for (int i = 0; i < n && running_; ++i) Sleep(...)]: one round of it, with
    [next] after the last. *)
Definition nap {A} (n : nat) (again : nat -> A) (next : A) : M World A :=
  match n with
  | O => ret next
  | S n' => let* go := gets running_ in ret (if go then again n' else next)
  end.

(** [while (running_)]. *)
Definition while_running {A} (body done : A) : M World A :=
  let* go := gets running_ in ret (if go then body else done).

(** [interval * 2] is an [int]. *)
Definition poll_naps (s : Settings.Settings) : Z := wrap_i32 (Z.max 5 (Settings.syncIntervalFallbackSec s) * 2).

Section threads.
Context `{Win32Text} `{CNG} `{Json} `{DPAPI} `{LocalTime}.
Context (dir : wstr).

Definition worker_step (t : Worker) : M World Worker :=
  match t with
  | WTop => while_running WTest WDone
  | WTest =>
      let* go := gets may_sync in
      if negb go then ret (WNap 10)
      else let* ops := on_db LocalDb.pendingOps in ret (WLoop ops false)
  | WLoop [] didWork => ret (WEnd didWork)
  | WLoop (op :: ops) didWork =>
      let* go := gets (fun w => running_ w && online_ w) in
      ret (if go then WOne op ops else WEnd didWork)
  | WOne op ops => work_one dir op ;; ret (WLoop ops true)
  | WEnd didWork => finish_pass didWork ;; ret (WNap 10)
  | WNap n => nap n WNap WTop
  | WDone => ret WDone
  end.

Definition poller_step (t : Poller) : M World Poller :=
  match t with
  | PTop => while_running PBody PDone
  | PBody => poller_pass dir ;; ret PPause
  | PPause => let* n := gets (fun w => poll_naps (settings_ w)) in ret (PNap (Z.to_nat n))
  | PNap n => nap n PNap PTop
  | PDone => ret PDone
  end.

Definition scanner_step (t : Scanner) : M World Scanner :=
  match t with
  | SDelay n => nap n SDelay STop
  | STop => while_running STest SDone
  | STest =>
      let* go := gets may_sync in
      if negb go then ret (SNap 1200)
      else let* roots := listSyncRoots in ret (SRoots roots)
  | SRoots [] => ret (SNap 1200)
  | SRoots ((_, root) :: roots) => while_running (SStack [root] roots) (SNap 1200)
  | SStack stack roots =>
      match last stack with
      | None => ret (SRoots roots)
      | Some d => while_running (SDir d (removelast stack) roots) (SRoots roots)
      end
  | SDir d stack roots => let* pushed := scan_dir d in ret (SStack (stack ++ pushed) roots)
  | SNap n => nap n SNap STop
  | SDone => ret SDone
  end.

(** ** The system *)

Record Sys := MkSys {
  engine : World;
  workerThread_ : Worker;
  pollerThread_ : Poller;
  scannerThread_ : Scanner;
  joining : bool;
  crashed : bool
}.

(** The threads as [start] makes them. *)
Definition launched (w : World) : Sys := MkSys w WTop PTop (SDelay 30) false false.

(** A step of a thread, and the process's end when it throws. *)
Definition moved {A} (put : A -> Sys -> Sys) (s : Sys) (o : outcome A * World) : Sys :=
  match o.1 with
  | Ok t => put t (MkSys o.2 (workerThread_ s) (pollerThread_ s) (scannerThread_ s) (joining s) (crashed s))
  | Throw _ => MkSys o.2 (workerThread_ s) (pollerThread_ s) (scannerThread_ s) (joining s) true
  end.

Definition put_worker (t : Worker) (s : Sys) : Sys :=
  MkSys (engine s) t (pollerThread_ s) (scannerThread_ s) (joining s) (crashed s).
Definition put_poller (t : Poller) (s : Sys) : Sys :=
  MkSys (engine s) (workerThread_ s) t (scannerThread_ s) (joining s) (crashed s).
Definition put_scanner (t : Scanner) (s : Sys) : Sys :=
  MkSys (engine s) (workerThread_ s) (pollerThread_ s) t (joining s) (crashed s).

Inductive Event :=
  | EWorker | EPoller | EScanner
  | ECall (o : op)
  | EStop
  | EOutside.

(** The threads' own operations. *)
Definition thread_op (o : op) : bool :=
  match o with
  | OWorker | OPoller | OScanner _ | OWorkOne _ | OFinishPass _ | OScanDir _ => true
  | _ => false
  end.

(** What still reaches the engine while the caller of [stop] waits in it: the
    watcher and the web socket until they are joined. *)
Definition notification (o : op) : bool :=
  match o with OFsEvent _ | OWsEvent _ | OWsConnected _ => true | _ => false end.

(** The world outside moves; it does not stop the engine. *)
Definition outside (w w' : World) : Prop := environment w w' /\ running_ w' = running_ w.

Inductive sys_step (s : Sys) : Event -> Sys -> Prop :=
  | step_worker : crashed s = false -> workerThread_ s <> WDone ->
      sys_step s EWorker (moved put_worker s (worker_step (workerThread_ s) (engine s)))
  | step_poller : crashed s = false -> pollerThread_ s <> PDone ->
      sys_step s EPoller (moved put_poller s (poller_step (pollerThread_ s) (engine s)))
  | step_scanner : crashed s = false -> scannerThread_ s <> SDone ->
      sys_step s EScanner (moved put_scanner s (scanner_step (scannerThread_ s) (engine s)))
  | step_call o : crashed s = false -> from_within o = true -> thread_op o = false ->
      (joining s = true -> notification o = true) ->
      sys_step s (ECall o)
        (MkSys (run dir o (engine s)) (workerThread_ s) (pollerThread_ s) (scannerThread_ s) (joining s) false)
  | step_stop : crashed s = false ->
      sys_step s EStop
        (MkSys (run dir OStop (engine s)) (workerThread_ s) (pollerThread_ s) (scannerThread_ s) true false)
  | step_outside w' : crashed s = false -> outside (engine s) w' ->
      sys_step s EOutside (MkSys w' (workerThread_ s) (pollerThread_ s) (scannerThread_ s) (joining s) false).

Inductive sys_run : Sys -> list Event -> Sys -> Prop :=
  | run_nil s : sys_run s [] s
  | run_cons s e s1 l s' : sys_step s e s1 -> sys_run s1 l s' -> sys_run s (e :: l) s'.

(** The joins of [stop] return when the threads have. *)
Definition joined (s : Sys) : Prop :=
  workerThread_ s = WDone /\ pollerThread_ s = PDone /\ scannerThread_ s = SDone.

End threads.
End EngineThreads.
