(* ===== verification/EngineFacts.v ===== *)
(** * EngineFacts: what the engine's operations may change

    A small program logic for the state monad of the engine: [spec] says that
    an operation keeps a frame, whether it returns or throws, and that a result
    it returns satisfies a postcondition. The frame is given by the paths that
    may change and by a preorder on the database. [keeps] is its special case
    for one component of the state. *)
From S2P Require Import Prelude Text VersionVector Merge Platform PathUtil IgnoreRules Crypto.
From S2P Require Import KeySetup LocalDb ApiClient FolderWatcher FileSystem Settings.
From S2P Require Import EngineState EngineKeys EngineSync EngineRun.
Import EngineState.Engine EngineKeys.EngineKeys EngineSync.EngineSync EngineRun.EngineRun.
Import FileSystem FileSystemFacts.
Import PathUtil(utf8ToWide, wideToUtf8, wlower).
Import LocalDb(Db, RootRow).

#[local] Open Scope monad_scope.

Module EngineFacts.

Lemma zoom_Ok {S W A} (get : W -> S) put (m : M S A) w a w' :
  zoom get put m w = (Ok a, w') <-> exists s, m (get w) = (Ok a, s) /\ w' = put s w.
Proof. unfold zoom. destruct (m (get w)) as [r s]. naive_solver. Qed.

Lemma lift_Ok {S A} (o : outcome A) (s : S) a s' : lift o s = (Ok a, s') <-> o = Ok a /\ s' = s.
Proof. unfold lift. naive_solver. Qed.

Lemma gets_Ok {S A} (f : S -> A) (s : S) a s' : gets f s = (Ok a, s') <-> a = f s /\ s' = s.
Proof. unfold gets. naive_solver. Qed.

(** ** Single components *)

Definition keeps {X A} (f : World -> X) (m : M World A) : Prop := forall w, f (m w).2 = f w.

Lemma keeps_bind {X A B} (f : World -> X) (m : M World A) (k : A -> M World B) :
  keeps f m -> (forall a, keeps f (k a)) -> keeps f (bind m k).
Proof.
  intros Hm Hk w. specialize (Hm w). unfold bind. destruct (m w) as [[a|e] w1]; cbn [snd] in *; [|done].
  by rewrite (Hk a w1).
Qed.

Lemma keeps_ret {X A} (f : World -> X) (a : A) : keeps f (ret a).
Proof. done. Qed.
Lemma keeps_lift {X A} (f : World -> X) (o : outcome A) : keeps f (lift o).
Proof. done. Qed.
Lemma keeps_gets {X A} (f : World -> X) (g : World -> A) : keeps f (gets g).
Proof. done. Qed.
Lemma keeps_modify {X} (f : World -> X) g : (forall w, f (g w) = f w) -> keeps f (modify g).
Proof. intros Hg w. apply Hg. Qed.
Lemma keeps_zoom {X S A} (f : World -> X) (get : World -> S) put (m : M S A) :
  (forall s w, f (put s w) = f w) -> keeps f (zoom get put m).
Proof. intros Hp w. unfold zoom. destruct (m (get w)) as [r s]. apply Hp. Qed.

Lemma keeps_Ok {X A} (f : World -> X) (m : M World A) w r w' : keeps f m -> m w = (r, w') -> f w' = f w.
Proof. intros Hk E. specialize (Hk w). by rewrite E in Hk. Qed.

Lemma keeps_for_each {X A} (f : World -> X) (l : list A) body :
  (forall x, keeps f (body x)) -> keeps f (for_each l body).
Proof.
  intros Hb. induction l as [|x l IH]; [done|]. cbn [for_each]. apply keeps_bind; [apply Hb|done].
Qed.

Lemma keeps_rotations {X} `{DPAPI} (f : World -> X) dir l :
  (forall s w, f (put_fs s w) = f w) -> keeps f (for_each l (onTokensRotated dir)).
Proof.
  intros Hf. apply keeps_for_each. intros t. unfold onTokensRotated, saveSecret, on_fs.
  apply keeps_bind; [by apply keeps_zoom|intros _].
  apply keeps_bind; [by apply keeps_zoom|intros _]. apply keeps_ret.
Qed.

Lemma keeps_on_api {X A} `{DPAPI} (f : World -> X) dir (m : M ApiClient.Client A) :
  (forall c w, f (put_api c w) = f w) -> (forall s w, f (put_fs s w) = f w) -> keeps f (on_api dir m).
Proof.
  intros Ha Hf w. unfold on_api. destruct (negb (has_api w)); [done|].
  destruct (m (api w)) as [r c]. rewrite <- (Ha c w). generalize (put_api c w). intros w1.
  revert w1. change (keeps f (for_each (drop (length (ApiClient.rotations (api w))) (ApiClient.rotations c))
    (onTokensRotated dir) ;; lift r)).
  apply keeps_bind; [by apply keeps_rotations|by intros].
Qed.

Lemma keeps_image {X Y A} (g : X -> Y) (f : World -> X) (m : M World A) : keeps f m -> keeps (fun w => g (f w)) m.
Proof. intros Hk w. by rewrite Hk. Qed.

(** Walk through an operation; every step keeps the component. *)
Ltac keeps_steps :=
  repeat first
    [ apply keeps_ret | apply keeps_lift | apply keeps_gets
    | apply keeps_bind; [|intros ?]
    | apply keeps_for_each; intros ?
    | apply keeps_zoom; done
    | apply keeps_on_api; done
    | apply keeps_modify; done
    | match goal with |- keeps _ (match ?x with _ => _ end) => destruct x end
    | assumption ].

(** ** Who may change the master key *)

Section master_key.
Context `{Win32Text} `{CNG} `{Json} `{DPAPI} `{LocalTime}.
Context (dir : wstr).

(** What operations leave alone unless it is their purpose: the client's
    existence, the master key and whether the engine runs. *)
Definition core (w : World) : bool * Bytes * bool := (has_api w, masterKey_ w, running_ w).
Abbreviation keeps_key := (keeps core).

Lemma key_saveSecret n v : keeps_key (saveSecret dir n v).
Proof. by apply keeps_zoom. Qed.
Lemma key_on_fs {A} (m : M Fs A) : keeps_key (on_fs m).
Proof. by apply keeps_zoom. Qed.
Lemma key_on_db {A} (m : M Db A) : keeps_key (on_db m).
Proof. by apply keeps_zoom. Qed.
Lemma key_on_rand {A} (m : M rng A) : keeps_key (on_rand m).
Proof. by apply keeps_zoom. Qed.
Lemma key_on_api {A} (m : M ApiClient.Client A) : keeps_key (on_api dir m).
Proof. by apply keeps_on_api. Qed.

(** One step, or a lemma about a called operation. *)
Ltac key_steps :=
  repeat first
    [ solve [auto with keeps]
    | apply keeps_bind; [|intros ?]
    | apply keeps_for_each; intros ?
    | apply keeps_modify; done
    | match goal with |- keeps _ (match ?x with _ => _ end) => destruct x end ].

#[local] Hint Resolve keeps_ret keeps_lift keeps_gets key_on_fs key_on_db key_on_rand key_on_api
  key_saveSecret : keeps.

Lemma key_store_save : keeps_key (store_save dir).
Proof. unfold store_save. key_steps. Qed.

Lemma key_deleteSecret n : keeps_key (deleteSecret dir n).
Proof. unfold deleteSecret. key_steps. Qed.

Lemma key_loadSecret n : keeps_key (loadSecret dir n).
Proof. unfold loadSecret. key_steps. Qed.

Lemma key_listSyncRoots : keeps_key (listSyncRoots).
Proof. unfold listSyncRoots. key_steps. Qed.

Lemma key_listSyncFiles : keeps_key (listSyncFiles).
Proof. unfold listSyncFiles. key_steps. Qed.

Lemma key_setStatus st t : keeps_key (setStatus st t).
Proof. unfold setStatus. key_steps. Qed.

Lemma key_set_online b : keeps_key (set_online b).
Proof. unfold set_online. key_steps. Qed.

Lemma key_request_sync : keeps_key (request_sync).
Proof. unfold request_sync. key_steps. Qed.

Lemma key_body_str r k d : keeps_key (body_str r k d).
Proof. unfold body_str. key_steps. Qed.

Lemma key_body_int r k d : keeps_key (body_int r k d).
Proof. unfold body_int. key_steps. Qed.

#[local] Hint Resolve key_store_save key_deleteSecret key_loadSecret key_listSyncRoots key_listSyncFiles
  key_setStatus key_set_online key_request_sync key_body_str key_body_int : keeps.

Lemma key_refreshIgnoreRules : keeps_key (refreshIgnoreRules).
Proof. unfold refreshIgnoreRules. key_steps. Qed.

Lemma key_add_watches : keeps_key (add_watches).
Proof. unfold add_watches. key_steps. Qed.

#[local] Hint Resolve key_refreshIgnoreRules key_add_watches : keeps.

Lemma key_reloadRoots : keeps_key (reloadRoots).
Proof. unfold reloadRoots. key_steps. Qed.

#[local] Hint Resolve key_reloadRoots : keeps.

Lemma key_acceptTokenResponse r l : keeps_key (acceptTokenResponse dir r l).
Proof. unfold acceptTokenResponse. key_steps. Qed.

Lemma key_signOut : keeps_key (signOut dir).
Proof. unfold signOut. key_steps. Qed.

Lemma key_locateInRoots p : keeps_key (locateInRoots p).
Proof. unfold locateInRoots. key_steps. Qed.

Lemma key_absPathForRel p : keeps_key (absPathForRel p).
Proof. unfold absPathForRel. key_steps. Qed.

Lemma key_readShadow k : keeps_key (readShadow dir k).
Proof. unfold readShadow. key_steps. Qed.

Lemma key_writeShadow k c : keeps_key (writeShadow dir k c).
Proof. unfold writeShadow. key_steps. Qed.

Lemma key_backup p : keeps_key (backup dir p).
Proof. unfold backup. key_steps. Qed.

Lemma key_remote_applied p : keeps_key (remote_applied p).
Proof. unfold remote_applied. key_steps. Qed.

Lemma key_enqueue k p : keeps_key (enqueue k p).
Proof. unfold enqueue. key_steps. Qed.

Lemma key_buildFilePayload p c v vv : keeps_key (buildFilePayload p c v vv).
Proof. unfold buildFilePayload. key_steps. Qed.

#[local] Hint Resolve key_acceptTokenResponse key_signOut key_locateInRoots key_absPathForRel key_readShadow
  key_writeShadow key_backup key_remote_applied key_enqueue key_buildFilePayload : keeps.

Lemma key_queueUpload p : keeps_key (queueUpload p).
Proof. unfold queueUpload. key_steps. Qed.

Lemma key_record_conflict p a j f t : keeps_key (record_conflict p a j f t).
Proof. unfold record_conflict. key_steps. Qed.

Lemma key_upload_merged p j f t : keeps_key (upload_merged dir p j f t).
Proof. unfold upload_merged. key_steps. Qed.

#[local] Hint Resolve key_queueUpload key_record_conflict key_upload_merged : keeps.

Lemma key_handleConflict p a j : keeps_key (handleConflict dir p a j).
Proof. unfold handleConflict. key_steps. Qed.

#[local] Hint Resolve key_handleConflict : keeps.

Lemma key_uploadFile p a : keeps_key (uploadFile dir p a).
Proof. unfold uploadFile. key_steps. Qed.

Lemma key_deleteRemote p : keeps_key (deleteRemote dir p).
Proof. unfold deleteRemote. key_steps. Qed.

Lemma key_fetch_remote f : keeps_key (fetch_remote dir f).
Proof. unfold fetch_remote. key_steps. Qed.

Lemma key_take_remote t a p f b : keeps_key (take_remote dir t a p f b).
Proof. unfold take_remote. key_steps. Qed.

#[local] Hint Resolve key_uploadFile key_deleteRemote key_fetch_remote key_take_remote : keeps.

Lemma key_keep_local t a : keeps_key (keep_local dir t a).
Proof. unfold keep_local. key_steps. Qed.

Lemma key_keep_remote t a : keeps_key (keep_remote dir t a).
Proof. unfold keep_remote. key_steps. Qed.

Lemma key_keep_both t a : keeps_key (keep_both dir t a).
Proof. unfold keep_both. key_steps. Qed.

#[local] Hint Resolve key_keep_local key_keep_remote key_keep_both : keeps.

Lemma key_resolveConflict f st : keeps_key (resolveConflict dir f st).
Proof. unfold resolveConflict. key_steps. Qed.

Lemma key_local_key n : keeps_key (local_key n).
Proof. unfold local_key. key_steps. Qed.

Lemma key_remote_path f : keeps_key (remote_path f).
Proof. unfold remote_path. key_steps. Qed.

Lemma key_remote_content f : keeps_key (remote_content f).
Proof. unfold remote_content. key_steps. Qed.

Lemma key_unsynced_edits a b : keeps_key (unsynced_edits a b).
Proof. unfold unsynced_edits. key_steps. Qed.

Lemma key_keep_unsynced a b c d e f : keeps_key (keep_unsynced a b c d e f).
Proof. unfold keep_unsynced. key_steps. Qed.

Lemma key_install_remote a b c d e f g : keeps_key (install_remote dir a b c d e f g).
Proof. unfold install_remote. key_steps. Qed.

Lemma key_delete_local a b c : keeps_key (delete_local dir a b c).
Proof. unfold delete_local. key_steps. Qed.

#[local] Hint Resolve key_resolveConflict key_local_key key_remote_path key_remote_content key_unsynced_edits
  key_keep_unsynced key_install_remote key_delete_local : keeps.

Lemma key_applyRemoteFile f : keeps_key (applyRemoteFile dir f).
Proof. unfold applyRemoteFile, receive_content. key_steps. Qed.

#[local] Hint Resolve key_applyRemoteFile : keeps.

Lemma key_apply_change f : keeps_key (apply_change dir f).
Proof. unfold apply_change. key_steps. Qed.

#[local] Hint Resolve key_apply_change : keeps.

Lemma key_pullChanges : keeps_key (pullChanges dir).
Proof. unfold pullChanges. key_steps. Qed.

Lemma key_finish_op o r : keeps_key (finish_op o r).
Proof. unfold finish_op. key_steps. Qed.

#[local] Hint Resolve key_pullChanges key_finish_op : keeps.

Lemma key_processPendingOp o : keeps_key (processPendingOp dir o).
Proof. unfold processPendingOp. key_steps. Qed.

#[local] Hint Resolve key_processPendingOp : keeps.

Lemma key_work_through ops b : keeps_key (work_through dir ops b).
Proof. revert b. induction ops as [|o ops IH]; intros b; cbn [work_through]; key_steps. Qed.

Lemma key_scan_entry d e : keeps_key (scan_entry d e).
Proof. unfold scan_entry. key_steps. Qed.

#[local] Hint Resolve key_work_through key_scan_entry : keeps.

Lemma key_scan_entries d es : keeps_key (scan_entries d es).
Proof. induction es as [|e es IH]; cbn [scan_entries]; key_steps. Qed.
#[local] Hint Resolve key_scan_entries : keeps.
Lemma key_scan_dir d : keeps_key (scan_dir d).
Proof. unfold scan_dir. key_steps. Qed.
Lemma key_finish_pass b : keeps_key (finish_pass b).
Proof. unfold finish_pass. key_steps. Qed.
#[local] Hint Resolve key_scan_dir key_finish_pass : keeps.
Lemma key_worker_pass : keeps_key (worker_pass dir).
Proof. unfold worker_pass. key_steps. Qed.
#[local] Hint Resolve key_worker_pass : keeps.
Lemma key_scan_stack fuel st : keeps_key (scan_stack fuel st).
Proof. revert st. induction fuel as [|n IH]; intros st; cbn [scan_stack]; key_steps. Qed.
#[local] Hint Resolve key_scan_stack : keeps.
Lemma key_scan_roots fuel l : keeps_key (scan_roots fuel l).
Proof. induction l as [|[i r] l IH]; cbn [scan_roots]; key_steps. Qed.
#[local] Hint Resolve key_scan_roots : keeps.

(** The operations that may install, replace or drop the master key. *)
Definition key_op (o : op) : bool :=
  match o with
  | OInit _ | OFinishFirstRun _ | OUnlock _ | OCompletePairing _ => true
  | _ => false
  end.

(** The life cycle apart, nothing but those operations changes the core. *)
Lemma run_keeps_core (o : op) (w : World) : key_op o = false -> from_within o = true -> core (run dir o w) = core w.
Proof.
  intros Ho Hi. destruct o; try discriminate Ho; try discriminate Hi; unfold run, exec; revert w;
    match goal with |- forall w, core (?m w).2 = _ => change (keeps_key m) end;
    unfold signIn, signOut, startGoogleSignIn, pollGoogleSignIn, pairNewDevice, approvePairing,
      setPaused, syncNow, saveSettings, listDevices, revokeDeviceById, renameDeviceById, addSyncRootPath, removeSyncRootPath,
      onFileSaved, onFileOpened, onFsEvent, onWsEvent, onWsConnected, when, poller_pass, scanner_pass, work_one; key_steps.
Qed.

Lemma core_key {A} (m : M World A) : keeps_key m -> keeps masterKey_ m.
Proof. apply (keeps_image (fun c => c.1.2)). Qed.

Lemma run_keeps_key (o : op) (w : World) : key_op o = false -> masterKey_ (run dir o w) = masterKey_ w.
Proof.
  intros Ho. destruct (from_within o) eqn:Hi; [exact (f_equal (fun c => c.1.2) (run_keeps_core o w Ho Hi))|].
  destruct o; try discriminate Ho; try discriminate Hi; unfold run, exec; revert w;
    match goal with |- forall w, masterKey_ (?m w).2 = _ => change (keeps masterKey_ m) end; unfold start, stop.
  - apply keeps_bind; [apply keeps_gets|intros [|]]; [apply keeps_ret|].
    apply keeps_bind; [by apply keeps_modify|intros _]. apply core_key. key_steps.
  - keeps_steps.
Qed.

(** Only the operations that are meant to change the key do. *)
Lemma steps_keep_key w os w' :
  steps dir w os w' -> Forall (fun o => key_op o = false) os -> masterKey_ w' = masterKey_ w.
Proof.
  induction 1 as [w|w w1 os w' (_ & _ & Ek & _) _ IH|w o os w' _ IH]; intros Hos; [done|by rewrite IH|].
  apply Forall_cons in Hos as [Ho Hos]. by rewrite IH, run_keeps_key.
Qed.

(** Only the life cycle decides whether the engine runs. *)
Lemma run_keeps_running (o : op) (w : World) : from_within o = true -> running_ (run dir o w) = running_ w.
Proof.
  intros Hi. destruct (key_op o) eqn:Ho; [|exact (f_equal snd (run_keeps_core o w Ho Hi))].
  assert (forall A (m : M World A), keeps_key m -> keeps running_ m) as Hcore by (intros A m; apply (keeps_image snd)).
  destruct o; try discriminate Ho; try discriminate Hi; unfold run, exec; revert w;
    match goal with |- forall w, running_ (?m w).2 = _ => change (keeps running_ m) end;
    unfold finishFirstRunKeys, unlockWithRecoveryKey, completePairing, save_master_key, writeLocalRecoveryWrap;
    repeat first
      [ apply Hcore; solve [auto with keeps]
      | apply keeps_bind; [|intros ?]
      | apply keeps_modify; done
      | match goal with |- keeps _ (match ?x with _ => _ end) => destruct x end ]; apply Hcore; key_steps.
Qed.

Lemma steps_app w os w1 os' w2 :
  steps dir w os w1 -> steps dir w1 os' w2 -> steps dir w (os ++ os') w2.
Proof. induction 1; intros Hs; [done|eapply steps_env; eauto|cbn [app]; apply steps_op; auto]. Qed.

(** What the environment of a run may not change. *)
Definition env_of (w : World) :=
  (LocalDb.tables (db w), LocalDb.opened (db w), masterKey_ w, has_api w,
   ApiClient.accessToken (api w), ApiClient.refreshToken (api w)).

Lemma env_steps w w' : env_of w' = env_of w -> steps dir w [] w'.
Proof. unfold env_of. intros [=]. eapply steps_env; [|constructor]. by split_and!. Qed.


(** ** Calls that only read the database *)

Lemma env_query {A} (rows : LocalDb.Tables -> list A) : keeps env_of (on_db (LocalDb.query rows)).
Proof.
  intros w. unfold on_db, zoom, LocalDb.query, env_of. destruct (LocalDb.opened (db w)) eqn:E; cbn; by rewrite ?E.
Qed.

Lemma keeps_on_db_bind {A B X} (f : World -> X) (m : M LocalDb.Db A) (k : A -> M LocalDb.Db B) :
  keeps f (on_db m) -> (forall a, keeps f (on_db (k a))) -> keeps f (on_db (bind m k)).
Proof.
  intros Hm Hk w. specialize (Hm w). unfold on_db, zoom, bind in *.
  destruct (m (db w)) as [[a|e] d]; cbn [snd] in *; [|exact Hm].
  specialize (Hk a (put_db d w)). cbn [db put_db] in Hk.
  destruct (k a d) as [r d']. cbn [snd] in *. by rewrite <- Hm, <- Hk.
Qed.
Lemma env_pendingOpCount : keeps env_of (on_db LocalDb.pendingOpCount).
Proof. apply keeps_on_db_bind; [apply env_query|]. by intros a w. Qed.
Lemma env_conflictCount : keeps env_of (on_db LocalDb.conflictCount).
Proof. apply keeps_on_db_bind; [apply env_query|]. by intros a w. Qed.
Lemma env_listSyncRoots : keeps env_of listSyncRoots.
Proof. unfold listSyncRoots. apply keeps_bind; [apply env_query|done]. Qed.
Lemma env_listSyncFiles : keeps env_of listSyncFiles.
Proof. unfold listSyncFiles. apply keeps_bind; [apply env_query|done]. Qed.
Lemma env_get_status : keeps env_of get_status.
Proof.
  unfold get_status. apply keeps_bind; [done|intros out]. apply keeps_bind; [done|intros []]; [|done].
  apply keeps_bind; [apply env_pendingOpCount|intros p]. apply keeps_bind; [apply env_conflictCount|intros c].
  apply keeps_bind; [apply env_query|done].
Qed.
End master_key.

End EngineFacts.
