(* ===== verification/EngineWire.v ===== *)
(** * EngineWire: what a call of the engine puts on the wire

    The requests of a call, and what it means that the server answered one:
    [answered] ties a response to the request it is the reply to and to the
    place of both in the client's log. On top of it, [fetched] says that a
    content is what the server sent for a file, and [uploaded] that the server
    accepted a content for one; [adds] says that an operation only adds to the
    log. *)
From S2P Require Import Prelude Text VersionVector Platform PathUtil Crypto.
From S2P Require Import KeySetup LocalDb ApiClient FolderWatcher FileSystem Settings.
From S2P Require Import EngineState EngineKeys EngineSync EngineRun EngineFacts.
Import EngineState.Engine EngineKeys.EngineKeys EngineSync.EngineSync EngineRun.EngineRun.
Import EngineFacts.EngineFacts.
Import ApiClient.ApiClient ApiClientFacts.
Import FileSystem FileSystemFacts.

#[local] Open Scope monad_scope.

Module EngineWire.

(** ** What a request puts on the wire *)

Section wire.
Context `{Json}.

(** [q] is the request for [path] with body [b]. *)
Definition asks (path : str) (b : option json) (c : Client) (q : HttpRequest) : Prop :=
  exists pu, parseUrl (baseUrl c) = Ok (Some pu) /\ q_path q = basePath pu ++ path /\ dump_body b = Ok (q_payload q).

Lemma exchange_asks m path b authed c r c' :
  exchange m path b authed c = (r, c') -> exists new, sent c' = sent c ++ new /\ Forall (asks path b c) new /\
    (forall x, r = Ok x -> transportOk x = true -> new <> []).
Proof.
  unfold exchange. unfold bind at 1, gets at 1. unfold bind at 1, lift at 1.
  assert (forall o x, (Ok x, c) = (o, c') -> transportOk x = false -> exists new, sent c' = sent c ++ new /\
    Forall (asks path b c) new /\ (forall x, o = Ok x -> transportOk x = true -> new <> [])) as Hnone.
  { intros o x [= <- <-] Hx. exists []. rewrite app_nil_r. split_and!; [done|constructor|]. intros x' [= <-]. congruence. }
  destruct (parseUrl (baseUrl c)) as [[pu|]|e] eqn:Epu.
  2:{ intros E. by eapply Hnone. }
  2:{ intros [= <- <-]. exists []. rewrite app_nil_r. by split_and!. }
  destruct (next_reply_run c) as (rep & c1 & Hn & Ea & _ & Eu & _ & Es). rewrite (bind_run _ _ _ _ _ Hn).
  assert (forall (x : ApiResponse), transportOk x = false -> ret x c1 = (r, c') -> exists new, sent c' = sent c ++ new /\
    Forall (asks path b c) new /\ (forall x, r = Ok x -> transportOk x = true -> new <> [])) as Hret.
  { intros x Hx [= <- <-]. exists []. rewrite app_nil_r. split_and!; [done|constructor|]. intros x' [= <-]. congruence. }
  destruct rep as [| | |err|st headers raw]; try (by apply Hret);
    unfold bind, gets, lift; (destruct (dump_body b) as [pl|e] eqn:Ed;
      [|intros [= <- <-]; exists []; rewrite app_nil_r; by split_and!]); unfold modify.
  - intros [= <- <-]. cbn [sent log_request]. rewrite Es. eexists. split; [done|]. split; [|done].
    constructor; [|constructor]. by exists pu.
  - destruct (headerValue headers _) as [proto|e]; intros [= <- <-]; cbn [sent log_request]; rewrite Es; eexists;
      (split; [done|]); (split; [|done]); (constructor; [by exists pu|constructor]).
Qed.

Lemma asks_url path b c c1 q : baseUrl c1 = baseUrl c -> asks path b c1 q -> asks path b c q.
Proof. unfold asks. by intros ->. Qed.

(** Renewing the token puts one request on the wire. *)
Lemma refresh_asks c r c' :
  refreshAccessToken c = (r, c') -> baseUrl c' = baseUrl c /\ exists new body, sent c' = sent c ++ new /\
    Forall (asks (lit "/auth/refresh") body c) new.
Proof.
  unfold refreshAccessToken. unfold bind at 1, gets at 1. unfold bind at 1.
  destruct (exchange _ _ _ _ c) as [rx c1] eqn:E1. pose proof (exchange_changes _ _ _ _ _ _ _ E1) as X.
  apply exchange_asks in E1 as (new & Es & Hq & _). intros E.
  assert (sent c' = sent c1 /\ baseUrl c' = baseUrl c1) as [-> ->].
  { destruct rx as [x|]; [|by injection E as _ <-]. destruct (negb _); [by injection E as _ <-|].
    unfold bind, lift, setTokens, modify in E. destruct (value_str _ _ _); [|by injection E as _ <-].
    destruct (value_str _ _ _); [|by injection E as _ <-]. case_bool_decide; by injection E as _ <-. }
  split; [apply (ex_url _ _ _ _ _ _ X)|]. by eexists _, _.
Qed.

(** The requests of an authenticated call: its own, and those for a new token. *)
Definition calls (path : str) (b : option json) (c : Client) (new : list HttpRequest) : Prop :=
  Forall (fun q => asks path b c q \/ exists body, asks (lit "/auth/refresh") body c q) new.

Lemma calls_own path b c c1 new : baseUrl c1 = baseUrl c -> Forall (asks path b c1) new -> calls path b c new.
Proof. intros Hu Hf. eapply Forall_impl; [exact Hf|]. intros q Hq. left. by eapply asks_url. Qed.

(** A reply comes with the call's own request. *)
Lemma request_asks m path b c r c' :
  request m path b true c = (r, c') -> exists new, sent c' = sent c ++ new /\ calls path b c new /\
    (forall x, r = Ok x -> transportOk x = true -> exists q, q ∈ new /\ asks path b c q).
Proof.
  unfold request. unfold bind at 1. destruct (exchange m path b true c) as [rx c1] eqn:E1.
  pose proof (ex_url _ _ _ _ _ _ (exchange_changes _ _ _ _ _ _ _ E1)) as U1.
  apply exchange_asks in E1 as (n1 & Es1 & Hq1 & Hne1).
  pose proof (calls_own path b c c n1 eq_refl Hq1) as C1.
  assert (forall x, rx = Ok x -> transportOk x = true -> exists q, q ∈ n1 /\ asks path b c q) as W1.
  { intros x Hx Ht. destruct n1 as [|q n1]; [by destruct (Hne1 x Hx Ht)|]. apply Forall_cons in Hq1 as [Hq _].
    exists q. by split; [left|]. }
  destruct rx as [x|e]; [|intros [= <- <-]; by exists n1].
  unfold bind at 1, gets at 1. destruct (_ && _ && _); [|intros [= <- <-]; by exists n1].
  unfold bind at 1. destruct (refreshAccessToken c1) as [rr c2] eqn:E2. apply refresh_asks in E2 as (U2 & n2 & body & Es2 & Hq2).
  assert (calls path b c (n1 ++ n2)) as C2.
  { apply Forall_app. split; [done|]. eapply Forall_impl; [exact Hq2|]. intros q Hq. right. exists body. by eapply asks_url. }
  assert (sent c2 = sent c ++ (n1 ++ n2)) as Es by (by rewrite Es2, Es1, <- app_assoc).
  destruct rr as [[]|e].
  - intros E3. apply exchange_asks in E3 as (n3 & Es3 & Hq3 & Hne3). exists ((n1 ++ n2) ++ n3).
    assert (baseUrl c2 = baseUrl c) as U by congruence.
    split_and!; [by rewrite Es3, Es, <- app_assoc|apply Forall_app; split; [done|by eapply calls_own]|].
    intros x' Hx Ht. destruct n3 as [|q n3]; [by destruct (Hne3 x' Hx Ht)|]. apply Forall_cons in Hq3 as [Hq _].
    exists q. split; [apply elem_of_app; right; left|by eapply asks_url].
  - intros [= <- <-]. exists (n1 ++ n2). split_and!; [done|done|]. intros x' [= <-] Ht.
    destruct (W1 x eq_refl Ht) as (q & Hq & Ha). exists q. by rewrite elem_of_app; auto.
  - intros [= <- <-]. by exists (n1 ++ n2).
Qed.

(** *** Answers *)

(** From [c] to [c'] the request [m path b] was made, as the last one, and the
    server's reply to it, the last one taken off the script, is [x]. *)
Definition answered (m path : str) (b : option json) (c : Client) (x : ApiResponse) (c' : Client) : Prop :=
  exists pu before q, parseUrl (baseUrl c) = Ok (Some pu) /\ sent c' = sent c ++ before ++ [q] /\
    q_method q = m /\ q_path q = basePath pu ++ path /\ dump_body b = Ok (q_payload q) /\
    exists earlier headers raw, net c = earlier ++ Reply (status x) headers raw :: net c' /\ body x = parse_body raw.

Lemma next_reply_net c rep c1 : next_reply c = (Ok rep, c1) ->
  baseUrl c1 = baseUrl c /\ sent c1 = sent c /\ (net c = rep :: net c1 \/ rep = SendFailed 12007).
Proof. unfold next_reply. destruct (net c) as [|r n] eqn:E; intros [= <- <-]; simpl; auto. Qed.

Lemma exchange_answered m path b authed c x c' :
  exchange m path b authed c = (Ok x, c') -> transportOk x = true -> answered m path b c x c'.
Proof.
  unfold exchange. intros (url & c0 & [-> ->]%gets_Ok & E)%bind_Ok.
  apply bind_Ok in E as (pu & c0 & [Hpu ->]%lift_Ok & E). destruct pu as [pu|]; [|by injection E as <- _].
  apply bind_Ok in E as (rep & c1 & Hn & E). apply next_reply_net in Hn as (Eu & Es & Hnet).
  destruct rep as [| | |err|st headers raw]; try (by injection E as <- _);
    apply bind_Ok in E as (tok & c2 & [-> ->]%gets_Ok & E); apply bind_Ok in E as (pl & c2 & [Hpl ->]%lift_Ok & E);
    apply bind_Ok in E as ([] & c2 & [= <-] & E); [by injection E as <- _|].
  destruct Hnet as [Hnet|]; [|done]. apply bind_Ok in E as (proto & c3 & [_ ->]%lift_Ok & E).
  injection E as <- <-. intros _. eexists pu, [], _. cbn [sent log_request net app]. rewrite Es.
  split_and!; [done|reflexivity|done|done|done|]. exists [], headers, raw. done.
Qed.

Lemma exchange_net m path b authed c r c' : exchange m path b authed c = (r, c') ->
  exists earlier, net c = earlier ++ net c'.
Proof.
  unfold exchange, bind, gets, lift, ret, modify. destruct (parseUrl _) as [[pu|]|e]; [|intros [= _ <-]; by exists []..].
  unfold next_reply. destruct (net c) as [|rep n] eqn:En.
  - destruct (dump_body b); intros [= _ <-]; exists []; cbn; by rewrite ?En.
  - assert (forall c1 : Client, net c1 = n -> exists earlier, rep :: n = earlier ++ net c1) as Hn
      by (intros c1 <-; by exists [rep]).
    destruct rep; try (intros [= _ <-]; by apply Hn); destruct (dump_body b); try (intros [= _ <-]; by apply Hn).
    destruct (headerValue _ _); intros [= _ <-]; by apply Hn.
Qed.

Lemma refresh_net c r c' : refreshAccessToken c = (r, c') -> exists earlier, net c = earlier ++ net c'.
Proof.
  unfold refreshAccessToken. unfold bind at 1, gets at 1. unfold bind at 1.
  destruct (exchange _ _ _ _ c) as [rx c1] eqn:E1. apply exchange_net in E1 as [l El]. intros E. exists l. rewrite El.
  f_equal. destruct rx as [x|]; [|by injection E as _ <-]. destruct (negb _); [by injection E as _ <-|].
  unfold bind, lift, setTokens, modify in E. destruct (value_str _ _ _); [|by injection E as _ <-].
  destruct (value_str _ _ _); [|by injection E as _ <-]. case_bool_decide; by injection E as _ <-.
Qed.

(** A success comes from the call's own request, not from a token's renewal. *)
Lemma request_answered m path b c x c' :
  request m path b true c = (Ok x, c') -> status x = 200 -> answered m path b c x c'.
Proof.
  intros E Hx. unfold request in E. apply bind_Ok in E as (x1 & c1 & E1 & E).
  assert (forall c0 c2, exchange m path b true c0 = (Ok x, c2) -> transportOk x = true) as Ht.
  { intros c0 c2 E0. unfold exchange in E0. apply bind_Ok in E0 as (? & ? & _ & E0).
    apply bind_Ok in E0 as (pu & ? & _ & E0). destruct pu; [|injection E0 as <- _; done].
    apply bind_Ok in E0 as (rep & ? & _ & E0). destruct rep; try (injection E0 as <- _; done);
      apply bind_Ok in E0 as (? & ? & _ & E0); apply bind_Ok in E0 as (? & ? & _ & E0);
      apply bind_Ok in E0 as (? & ? & _ & E0); [injection E0 as <- _; done|].
    apply bind_Ok in E0 as (? & ? & _ & E0). by injection E0 as <- _. }
  apply bind_Ok in E as (rt & c1' & [-> ->]%gets_Ok & E).
  destruct (_ && _ && _) eqn:Eg.
  2:{ injection E as -> <-. apply (exchange_answered _ _ _ true); [done|by eapply Ht]. }
  apply bind_Ok in E as (ok & c2 & E2 & E). destruct ok.
  - pose proof (exchange_answered _ _ _ _ _ _ _ E (Ht _ _ E)) as (pu & before & q & Hu & Es & Hm & Hp & Hb & l3 & h & raw & En & Hbody).
    pose proof (ex_url _ _ _ _ _ _ (exchange_changes _ _ _ _ _ _ _ E1)) as U1.
    apply refresh_asks in E2 as E2'. destruct E2' as (U2 & n2 & body2 & Es2 & _).
    apply exchange_asks in E1 as E1'. destruct E1' as (n1 & Es1 & _).
    apply exchange_net in E1 as [l1 El1]. apply refresh_net in E2 as [l2 El2].
    exists pu, (n1 ++ n2 ++ before), q. split_and!; [congruence| |done|done|done|].
    + rewrite Es, Es2, Es1. by rewrite <- !app_assoc.
    + exists (l1 ++ l2 ++ l3), h, raw. split; [|done]. rewrite El1, El2, En. by rewrite <- !app_assoc.
  - injection E as -> <-. apply andb_true_iff in Eg as [[Eg _]%andb_true_iff _]. rewrite Hx in Eg. done.
Qed.

Lemma request_url m path b c r c' : request m path b true c = (r, c') -> baseUrl c' = baseUrl c.
Proof.
  unfold request. unfold bind at 1. destruct (exchange m path b true c) as [rx c1] eqn:E1.
  pose proof (ex_url _ _ _ _ _ _ (exchange_changes _ _ _ _ _ _ _ E1)) as U1.
  destruct rx as [x|e]; [|by intros [= _ <-]]. unfold bind at 1, gets at 1. destruct (_ && _ && _); [|by intros [= _ <-]].
  unfold bind at 1. destruct (refreshAccessToken c1) as [rr c2] eqn:E2. apply refresh_asks in E2 as (U2 & _).
  destruct rr as [[]|e]; [|intros [= _ <-]; congruence..].
  intros E3. pose proof (ex_url _ _ _ _ _ _ (exchange_changes _ _ _ _ _ _ _ E3)). congruence.
Qed.

Lemma request_adds m path b c : sent c `prefix_of` sent (request m path b true c).2.
Proof.
  destruct (request m path b true c) as [r c'] eqn:E. apply request_asks in E as (new & Es & _). exists new. exact Es.
Qed.
End wire.


Section engine.
Context `{Win32Text} `{CNG} `{Json} `{DPAPI} `{LocalTime}.
Context (dir : wstr).

Lemma on_api_client {A} (m : M Client A) w (a : A) w' :
  on_api dir m w = (Ok a, w') -> exists c, m (api w) = (Ok a, c) /\ api w' = c.
Proof.
  unfold on_api. destruct (has_api w); cbn [negb]; [|done]. destruct (m (api w)) as [r c].
  intros ([] & w1 & E1 & E2)%bind_Ok. apply (keeps_Ok api) in E1; [|by apply keeps_rotations]. unfold lift in E2.
  injection E2 as -> <-. by exists c.
Qed.

(** ** The log only grows *)

Definition adds {A} (m : M World A) : Prop := forall w, sent (api w) `prefix_of` sent (api (m w).2).

Lemma adds_keeps {A} (m : M World A) : keeps api m -> adds m.
Proof. intros Hm w. by rewrite Hm. Qed.

Lemma adds_bind {A B} (m : M World A) (k : A -> M World B) : adds m -> (forall a, adds (k a)) -> adds (bind m k).
Proof.
  intros Hm Hk w. specialize (Hm w). unfold bind. destruct (m w) as [[a|e] w1]; cbn [snd] in *; [|done].
  etransitivity; [exact Hm|apply Hk].
Qed.

Lemma adds_on_api {A} (m : M Client A) : (forall c, sent c `prefix_of` sent (m c).2) -> adds (on_api dir m).
Proof.
  intros Hm w. unfold on_api. destruct (negb (has_api w)); [done|]. specialize (Hm (api w)).
  destruct (m (api w)) as [r c]. cbn [snd] in Hm.
  match goal with |- context [(?f (put_api c w)).2] => assert (keeps api f) as Hk end.
  { apply keeps_bind; [by apply keeps_rotations|by intros]. }
  by rewrite Hk.
Qed.

Lemma adds_run {A} (m : M World A) w r w' : adds m -> m w = (r, w') -> sent (api w) `prefix_of` sent (api w').
Proof. intros Hm E. specialize (Hm w). by rewrite E in Hm. Qed.

(** ** Contents that came from the server, and that it took *)

(** Between [w] and [w'] the client of [w] asked the server for the file [id],
    and [plain] is what the answer's content opens to under the key of [w]. *)
Definition fetched (w w' : World) (id : str) (plain : Bytes) : Prop :=
  exists x c enc64 enc,
    answered (lit "GET") (lit "/sync/files/" ++ id) None (api w) x c /\ sent c `prefix_of` sent (api w') /\
    status x = 200 /\ value_str (body x) (lit "encrypted_content") [] = Ok enc64 /\
    Crypto.base64UrlDecode enc64 = Some enc /\ Crypto.decrypt (masterKey_ w) enc (lit "file") = Ok (Some plain).

(** Between [w] and [w'] the server accepted [text], encrypted under the key of
    [w], as the content of the file [id]. *)
Definition uploaded (w w' : World) (id rel : str) (text : Bytes) : Prop :=
  exists bv vv w1 pl w2 x c0 c,
    buildFilePayload rel text bv vv w1 = (Ok pl, w2) /\ masterKey_ w1 = masterKey_ w /\
    sent (api w) `prefix_of` sent c0 /\ baseUrl c0 = baseUrl (api w) /\
    answered (lit "PUT") (lit "/sync/files/" ++ id) (Some (p_json pl)) c0 x c /\ status x = 200 /\
    sent c `prefix_of` sent (api w').

Lemma fetched_later w w' w2 id plain :
  sent (api w') `prefix_of` sent (api w2) -> fetched w w' id plain -> fetched w w2 id plain.
Proof. intros Hp (x & c & enc64 & enc & Ha & Hs & Hr). exists x, c, enc64, enc. split_and!; [done|by etransitivity|by destruct Hr as (?&?&?&?)..]. Qed.

Lemma fetched_from w0 w w' id plain :
  api w = api w0 -> masterKey_ w = masterKey_ w0 -> fetched w w' id plain -> fetched w0 w' id plain.
Proof. intros Ea Ek (x & c & enc64 & enc & Hr). exists x, c, enc64, enc. by rewrite <- Ea, <- Ek. Qed.

Lemma uploaded_later w w' w2 id rel text :
  sent (api w') `prefix_of` sent (api w2) -> uploaded w w' id rel text -> uploaded w w2 id rel text.
Proof.
  intros Hp (bv & vv & w1 & pl & w1' & x & c0 & c & Hr). exists bv, vv, w1, pl, w1', x, c0, c.
  destruct Hr as (?&?&?&?&?&?&?). split_and!; [done..|by etransitivity].
Qed.

Lemma uploaded_from w0 w w' id rel text :
  sent (api w0) `prefix_of` sent (api w) -> baseUrl (api w) = baseUrl (api w0) -> masterKey_ w = masterKey_ w0 ->
  uploaded w w' id rel text -> uploaded w0 w' id rel text.
Proof.
  intros Hp Eu Ek (bv & vv & w1 & pl & w1' & x & c0 & c & Hr). exists bv, vv, w1, pl, w1', x, c0, c.
  destruct Hr as (?&?&?&?&?&?&?). split_and!; [done|congruence|by etransitivity|congruence|done..].
Qed.

(** What [fetch_remote] returns is a content of the file it was asked for. *)
Lemma fetch_remote_fetched id w plain full w' :
  fetch_remote dir id w = (Ok (inr (plain, full)), w') -> fetched w w' id plain /\ masterKey_ w' = masterKey_ w.
Proof.
  unfold fetch_remote. intros (x & w1 & Ea & E)%bind_Ok.
  assert (masterKey_ w1 = masterKey_ w) as Ek by (by eapply (keeps_Ok masterKey_); [|exact Ea]; apply keeps_on_api).
  apply on_api_client in Ea as (c & Ec & Eapi).
  destruct (Z.eqb_spec (status x) 200) as [Hx|]; cbn [negb] in E; [|by apply ret_Ok in E as [[=] _]].
  apply bind_Ok in E as (enc64 & w2 & [He ->]%lift_Ok & E).
  destruct (Crypto.base64UrlDecode enc64) as [enc|] eqn:Ed; [|by apply ret_Ok in E as [[=] _]].
  apply bind_Ok in E as (mk & w2 & [-> ->]%gets_Ok & E). apply bind_Ok in E as (p & w2 & [Hp ->]%lift_Ok & E).
  apply ret_Ok in E as [E ->]. destruct p as [p|]; [|done]. injection E as -> ->. split; [|done].
  exists x, c, enc64, enc. rewrite <- Ek. split_and!; [|by rewrite Eapi|done..].
  by apply request_answered in Ec.
Qed.
End engine.

Ltac adds_steps :=
  repeat first
    [ apply adds_on_api; intros ?; apply request_adds
    | apply adds_keeps; solve [keeps_steps]
    | apply adds_bind; [|intros ?]
    | match goal with |- adds (match ?x with _ => _ end) => destruct x end ].

End EngineWire.
