(* ===== verification/EngineFrame.v ===== *)
(** * EngineFrame: the files and tables the background operations may change

    [spec] is a Hoare-style judgement for the engine's monad. Its frame has two
    parameters: [P], the paths that may change, and [T], what a database call
    may change. The lemmas go through every operation of the background threads
    once; the properties instantiate the frame. *)
From S2P Require Import Prelude Text VersionVector Merge Platform PathUtil IgnoreRules Crypto.
From S2P Require Import KeySetup LocalDb ApiClient FolderWatcher FileSystem Settings.
From S2P Require Import EngineState EngineKeys EngineSync EngineRun EngineFacts.
Import EngineState.Engine EngineKeys.EngineKeys EngineSync.EngineSync EngineRun.EngineRun.
Import FileSystem FileSystemFacts.
Import PathUtil(utf8ToWide, wideToUtf8, wlower).
Import LocalDb(Db, RootRow).

#[local] Open Scope monad_scope.

Module EngineFrame.

(** ** Paths below a root *)

Section paths.
Context `{Win32Text}.

(** [p] continues [pre], up to case and the direction of slashes. *)
Definition prefixed (pre p : wstr) : Prop := exists rest, wlower p = pre ++ rest.

Lemma prefixed_app pre p s : prefixed pre p -> prefixed pre (p ++ s).
Proof.
  intros [rest E]. exists (rest ++ wlower s).
  by rewrite PathUtilFacts.wlower_app, E, app_assoc.
Qed.

(** What a row of the table of sync roots covers: the files below a folder; a
    single file and the names it is the beginning of. *)
Definition row_prefix (r : RootRow) : wstr :=
  let path := utf8ToWide (LocalDb.r_abs_path r) in
  if LocalDb.r_is_folder r then PathUtilFacts.key path ++ [BSLASH] else wlower path.

Definition covered (rows : list RootRow) (p : wstr) : Prop :=
  exists r, r ∈ rows /\ prefixed (row_prefix r) p.
End paths.

(** ** The judgement *)

Section frame.
Context `{Win32TextLaws} `{CNG} `{Json} `{DPAPI} `{LocalTime}.
Context (dir : wstr) (P : wstr -> Prop) (T : Db -> Db -> Prop).
Context `{T_pre : !PreOrder T}.

Definition roots_of (w : World) : list RootRow := LocalDb.sync_roots (LocalDb.tables (db w)).

Record kept (w w' : World) : Prop := {
  kept_roots : roots_of w' = roots_of w;
  kept_files : forall p, ~ P p -> disk (fs w') !! p = disk (fs w) !! p;
  kept_db : T (db w) (db w')
}.

(** Every path the table of sync roots covers may change. *)
Definition rows_ok (w : World) : Prop := forall p, covered (roots_of w) p -> P p.

Definition spec {A} (Q : A -> Prop) (m : M World A) : Prop := forall w, rows_ok w ->
  kept w (m w).2 /\ forall a, (m w).1 = Ok a -> Q a.

Abbreviation safe m := (spec (fun _ => True) m).

Lemma kept_refl w : kept w w.
Proof. split; [done|done|reflexivity]. Qed.

Lemma kept_trans w1 w2 w3 : kept w1 w2 -> kept w2 w3 -> kept w1 w3.
Proof.
  intros [A1 B1 C1] [A2 B2 C2]. split; [congruence| |by etransitivity].
  intros p Hp. by rewrite B2, B1.
Qed.

Lemma rows_ok_kept w w' : kept w w' -> rows_ok w -> rows_ok w'.
Proof. intros [E _ _] Hw p. unfold rows_ok in *. rewrite E. apply Hw. Qed.

Lemma spec_bind {A B} (Q : A -> Prop) (Q' : B -> Prop) (m : M World A) (k : A -> M World B) :
  spec Q m -> (forall a, Q a -> spec Q' (k a)) -> spec Q' (bind m k).
Proof.
  intros Hm Hk w Hw. destruct (Hm w Hw) as [Hk1 Hq]. unfold bind.
  destruct (m w) as [[a|e] w1]; cbn [fst snd] in *; [|done].
  destruct (Hk a (Hq a eq_refl) w1 (rows_ok_kept _ _ Hk1 Hw)) as [Hk2 Hq2].
  split; [by eapply kept_trans|done].
Qed.

Lemma spec_weaken {A} (Q Q' : A -> Prop) m : (forall a, Q a -> Q' a) -> spec Q m -> spec Q' m.
Proof. intros HQ Hm w Hw. destruct (Hm w Hw) as [? Hq]. split; [done|]. auto. Qed.

Lemma safe_spec {A} (Q : A -> Prop) m : spec Q m -> safe m.
Proof. by apply spec_weaken. Qed.

Lemma spec_ret {A} (Q : A -> Prop) a : Q a -> spec Q (ret a).
Proof. intros Ha w _. split; [apply kept_refl|]. by intros b [= <-]. Qed.

Lemma safe_ret {A} (a : A) : safe (ret a).
Proof. by apply spec_ret. Qed.

Lemma spec_lift {A} (Q : A -> Prop) (o : outcome A) : (forall a, o = Ok a -> Q a) -> spec Q (lift o).
Proof. intros Ho w _. split; [apply kept_refl|done]. Qed.

Lemma safe_lift {A} (o : outcome A) : safe (lift o).
Proof. by apply spec_lift. Qed.

Lemma safe_gets {A} (g : World -> A) : safe (gets g).
Proof. intros w _. split; [apply kept_refl|done]. Qed.

Lemma safe_modify g :
  (forall w, fs (g w) = fs w) -> (forall w, db (g w) = db w) -> safe (modify g).
Proof.
  intros Hf Hd w _. split; [|done]. unfold modify. cbn [snd].
  split; unfold roots_of; rewrite ?Hf, ?Hd; [done..|reflexivity].
Qed.

Lemma safe_on_fs {A} (m : M Fs A) : touches P m -> safe (on_fs m).
Proof.
  intros Hm w _. split; [|done]. unfold on_fs, zoom. specialize (Hm (fs w)).
  destruct (m (fs w)) as [r s]. cbn [snd] in *. split; [done|exact Hm|reflexivity].
Qed.

Lemma safe_on_rand {A} (m : M rng A) : safe (on_rand m).
Proof.
  intros w _. split; [|done]. unfold on_rand, zoom. destruct (m (rand w)) as [r s]. by split.
Qed.

(** A database call within the frame. *)
Definition db_ok {A} (m : M Db A) : Prop := forall d,
  LocalDb.sync_roots (LocalDb.tables (m d).2) = LocalDb.sync_roots (LocalDb.tables d) /\ T d (m d).2.

Lemma safe_on_db {A} (m : M Db A) : db_ok m -> safe (on_db m).
Proof.
  intros Hm w _. split; [|done]. unfold on_db, zoom. destruct (Hm (db w)) as [Hr Ht].
  destruct (m (db w)) as [r s]. cbn [snd] in *. by split.
Qed.

Lemma db_ok_bind {A B} (m : M Db A) (k : A -> M Db B) : db_ok m -> (forall a, db_ok (k a)) -> db_ok (bind m k).
Proof.
  intros Hm Hk d. destruct (Hm d) as [E1 T1]. unfold bind. destruct (m d) as [[a|e] d1]; cbn [snd] in *; [|done].
  destruct (Hk a d1) as [E2 T2]. split; [congruence|by etransitivity].
Qed.

Lemma db_ok_ret {A} (a : A) : db_ok (ret a).
Proof. intros d. split; [done|reflexivity]. Qed.

(** ** The frame's assumptions *)

(** The plugin's own directory may change. *)
Context (Hdir : forall s, P (dir ++ BSLASH :: s)).

(** Queries, and the calls that every background operation makes. *)
Context (T_query : forall A (rows : LocalDb.Tables -> list A), db_ok (LocalDb.query rows)).
Context (T_files : forall f, db_ok (LocalDb.stmt (LocalDb.set_files f))).
Context (T_conflicts : forall f, db_ok (LocalDb.stmt (LocalDb.set_conflicts f))).
Context (T_meta : forall f, db_ok (LocalDb.stmt (LocalDb.set_meta f))).

Ltac db_steps :=
  repeat first [ apply T_query | apply T_files | apply T_conflicts | apply T_meta | apply db_ok_ret
               | apply db_ok_bind; [|intros ?] ].

Lemma db_getFile p : db_ok (LocalDb.getFile p).
Proof. unfold LocalDb.getFile. db_steps. Qed.
Lemma db_pendingOpCount : db_ok LocalDb.pendingOpCount.
Proof. unfold LocalDb.pendingOpCount. db_steps. Qed.
Lemma db_conflictCount : db_ok LocalDb.conflictCount.
Proof. unfold LocalDb.conflictCount. db_steps. Qed.
Lemma db_lastChangeSeq : db_ok LocalDb.lastChangeSeq.
Proof. unfold LocalDb.lastChangeSeq, LocalDb.getMeta. db_steps. Qed.
Lemma db_setLastChangeSeq n : db_ok (LocalDb.setLastChangeSeq n).
Proof. apply T_meta. Qed.
Lemma db_upsertFile f : db_ok (LocalDb.upsertFile f).
Proof. apply T_files. Qed.
Lemma db_removeFile f : db_ok (LocalDb.removeFile f).
Proof. apply T_files. Qed.
Lemma db_addConflict c n : db_ok (LocalDb.addConflict c n).
Proof. apply T_conflicts. Qed.
Lemma db_allFiles : db_ok LocalDb.allFiles.
Proof. apply T_query. Qed.
Lemma db_pendingOps : db_ok LocalDb.pendingOps.
Proof. apply T_query. Qed.

Create HintDb frame discriminated.
#[local] Hint Resolve safe_ret safe_lift safe_gets safe_on_rand safe_on_fs safe_on_db db_getFile
  db_pendingOpCount db_conflictCount db_lastChangeSeq db_setLastChangeSeq db_upsertFile db_removeFile
  db_addConflict db_allFiles db_pendingOps T_query Hdir touches_read touches_open touches_write
  touches_MoveFileExW touches_DeleteFileW touches_CopyFileW touches_CreateDirectoryW
  touches_GetFileAttributesW touches_list_dir : frame.

(** Walk through an operation, with trivial postconditions. *)
Ltac safe_steps :=
  repeat first
    [ solve [auto with frame]
    | apply (spec_bind (fun _ => True)); [|intros ? _]
    | apply safe_modify; done
    | match goal with |- spec _ (match ?x with _ => _ end) => destruct x end ].

Lemma safe_for_each {A} (l : list A) body : (forall x, safe (body x)) -> safe (for_each l body).
Proof.
  intros Hb. induction l as [|x l IH]; [apply safe_ret|]. cbn [for_each].
  apply (spec_bind (fun _ => True)); [apply Hb|done].
Qed.

(** ** Files of the data directory *)

Lemma P_secret n : P (Settings.secretPath dir n).
Proof. unfold Settings.secretPath. apply (Hdir (lit "secrets\" ++ n ++ lit ".bin")). Qed.

Lemma safe_saveSecret n v : safe (saveSecret dir n v).
Proof.
  apply safe_on_fs. eapply touches_weaken; [|apply SettingsFacts.touches_saveSecret].
  intros p [->| ->]; [apply P_secret|]. unfold Settings.tmp_of, Settings.secretPath.
  rewrite <- app_assoc. apply (Hdir ((lit "secrets\" ++ n ++ lit ".bin") ++ lit ".tmp")).
Qed.

Lemma safe_deleteSecret n : safe (deleteSecret dir n).
Proof.
  apply safe_on_fs. eapply touches_weaken; [|apply SettingsFacts.touches_deleteSecret].
  intros p ->. apply P_secret.
Qed.

Lemma safe_on_api {A} (m : M ApiClient.Client A) : safe (on_api dir m).
Proof.
  intros w Hw. split; [|done]. unfold on_api. destruct (negb (has_api w)); [apply kept_refl|].
  destruct (m (api w)) as [r c]. set (w1 := put_api c w).
  assert (kept w w1) as Hk by (split; [done|done|reflexivity]).
  eapply kept_trans; [exact Hk|]. apply (rows_ok_kept _ _ Hk) in Hw. generalize w1 Hw.
  enough (safe (for_each (drop (length (ApiClient.rotations (api w))) (ApiClient.rotations c))
    (onTokensRotated dir) ;; lift r)) as Hs by (intros w2 Hw2; by apply Hs).
  apply (spec_bind (fun _ => True)); [|auto with frame]. apply safe_for_each. intros t. unfold onTokensRotated.
  apply (spec_bind (fun _ => True)); [apply safe_saveSecret|intros _ _].
  apply (spec_bind (fun _ => True)); [apply safe_saveSecret|intros _ _]. apply safe_ret.
Qed.

#[local] Hint Resolve safe_on_api safe_saveSecret safe_deleteSecret : frame.

Lemma safe_setStatus s t : safe (setStatus s t).
Proof. unfold setStatus. safe_steps. Qed.
Lemma safe_set_online b : safe (set_online b).
Proof. unfold set_online. safe_steps. Qed.
Lemma safe_request_sync : safe request_sync.
Proof. unfold request_sync. safe_steps. Qed.
Lemma safe_body_str r k d : safe (body_str r k d).
Proof. unfold body_str. safe_steps. Qed.
Lemma safe_body_int r k d : safe (body_int r k d).
Proof. unfold body_int. safe_steps. Qed.
Lemma safe_remote_applied p : safe (remote_applied p).
Proof. unfold remote_applied. safe_steps. Qed.

#[local] Hint Resolve safe_setStatus safe_set_online safe_request_sync safe_body_str safe_body_int
  safe_remote_applied : frame.

Lemma touches_writeFileAtomic p d : (forall s, P (p ++ s)) -> touches P (writeFileAtomic p d).
Proof.
  intros Hp. assert (P p) as Hp0 by (specialize (Hp []); by rewrite app_nil_r in Hp).
  unfold writeFileAtomic, readFileBytes, tmp_path. touches_steps; auto with touches.
Qed.

Lemma touches_for_each {A} (l : list A) body : (forall x, touches P (body x)) -> touches P (for_each l body).
Proof.
  intros Hb. induction l as [|x l IH]; [apply touches_ret|]. cbn [for_each].
  apply touches_bind; [apply Hb|done].
Qed.

Lemma touches_backupReplaced p now : touches P (backupReplaced dir p now).
Proof.
  unfold backupReplaced. cbv zeta.
  apply touches_bind; [apply touches_CreateDirectoryW|intros _].
  apply touches_bind.
  { apply touches_CopyFileW. rewrite <- app_assoc. apply (Hdir (lit "backups" ++ [BSLASH] ++ fileNameOf p
      ++ [DOT] ++ to_string now ++ lit ".bak")). }
  intros _. apply touches_bind; [apply touches_list_dir|intros entries].
  destruct (decide _); [|apply touches_ret]. apply touches_for_each. intros n.
  apply touches_bind; [|intros; apply touches_ret]. apply touches_DeleteFileW. rewrite <- app_assoc.
  apply (Hdir (lit "backups" ++ [BSLASH] ++ n)).
Qed.

Lemma safe_backup p : safe (backup dir p).
Proof. unfold backup. apply (spec_bind (fun _ => True)); [apply safe_gets|intros now _].
  apply safe_on_fs, touches_backupReplaced. Qed.

Lemma safe_writeShadow k c : safe (writeShadow dir k c).
Proof.
  unfold writeShadow. apply (spec_bind (fun _ => True)); [auto with frame|intros _ _].
  apply (spec_bind (fun p => forall s, P (p ++ s))).
  - apply spec_lift. intros p E s. unfold shadowPath in E. apply obind_Ok in E as (h&_&E). injection E as <-.
    rewrite <- app_assoc. apply (Hdir ((lit "base\" ++ utf8ToWide h ++ lit ".shadow") ++ s)).
  - intros p Hp. apply (spec_bind (fun _ => True)); [by apply safe_on_fs, touches_writeFileAtomic|].
    intros _ _. apply safe_ret.
Qed.

Lemma safe_readShadow k : safe (readShadow dir k).
Proof. unfold readShadow, readFileBytes. safe_steps. Qed.

#[local] Hint Resolve safe_backup safe_writeShadow safe_readShadow : frame.

(** ** Paths *)

(** A path whose extensions, and the copies made next to it, may change. *)
Definition safe_path (abs : wstr) : Prop :=
  exists pre, prefixed pre abs /\ forall p, prefixed pre p -> P p.

Lemma safe_path_app abs s : safe_path abs -> P (abs ++ s).
Proof. intros (pre&Hpre&HP). by apply HP, prefixed_app. Qed.

Lemma safe_path_P abs : safe_path abs -> P abs.
Proof. intros Hs. rewrite <- (app_nil_r abs). by apply safe_path_app. Qed.

Lemma find_last_slash p i : find_last is_slash p = Some i ->
  exists c, p = take i p ++ c :: drop (S i) p /\ is_slash c = true.
Proof.
  revert i. induction p as [|x p IH]; intros i; [done|]. cbn [find_last].
  destruct (find_last is_slash p) as [j|]; [|destruct (is_slash x) eqn:Ex; [|done]]; intros [= <-].
  - destruct (IH j eq_refl) as (c&E&Hc). exists c. split; [|done]. cbn [take drop app]. by rewrite <- E.
  - exists x. by split.
Qed.

Lemma wlower_slash c : is_slash c = true -> wlower [c] = [BSLASH].
Proof.
  intros Hc. rewrite PathUtilFacts.wlower_map. cbn [map]. f_equal.
  pose proof (PathUtilFacts.wlower_char_sep c) as E. fold (is_slash c) in E. rewrite Hc in E.
  apply Z.eqb_eq in E. congruence.
Qed.

(** The directory and the name of a path, put together again. *)
Lemma dir_name_prefixed pre abs s : prefixed pre abs -> prefixed pre (dirOf abs ++ [BSLASH] ++ fileNameOf abs ++ s).
Proof.
  intros Hp. unfold dirOf, fileNameOf. destruct (find_last is_slash abs) as [i|] eqn:E.
  - destruct (find_last_slash _ _ E) as (c&Eabs&Hc). destruct Hp as [rest Hp].
    exists (rest ++ wlower s). rewrite (app_assoc pre), <- Hp. rewrite Eabs at 3.
    change (c :: drop (S i) abs) with ([c] ++ drop (S i) abs).
    rewrite !PathUtilFacts.wlower_app, (wlower_slash c Hc), PathUtilFacts.wlower_sep.
    by rewrite <- !app_assoc.
  - by apply prefixed_app.
Qed.

Lemma query_sub {A} (rows : LocalDb.Tables -> list A) d l d' :
  LocalDb.query rows d = (Ok l, d') -> forall x, x ∈ l -> x ∈ rows (LocalDb.tables d).
Proof.
  unfold LocalDb.query. destruct (LocalDb.opened d); cbn [negb]; intros [= <- <-] x.
  - destruct (LocalDb.next_fault d) as [k|]; [|done]. apply subseteq_take.
  - by intros ?%elem_of_nil.
Qed.

Definition safe_root (root : wstr) : Prop := forall p, prefixed (PathUtilFacts.key root ++ [BSLASH]) p -> P p.
Definition safe_file (f : wstr) : Prop := forall p, prefixed (wlower f) p -> P p.

Lemma list_roots_rows folder w l d' :
  LocalDb.list_roots folder (db w) = (Ok l, d') -> forall id p, (id, p) ∈ l ->
  exists r, r ∈ roots_of w /\ LocalDb.r_is_folder r = folder /\ p = LocalDb.r_abs_path r.
Proof.
  intros E id p Hin. eapply query_sub in E; [|exact Hin].
  apply list_elem_of_fmap in E as (r&[= -> ->]&Hr). apply list_elem_of_filter in Hr as [Hf Hr]. eauto.
Qed.

Lemma db_list_roots b : db_ok (LocalDb.list_roots b).
Proof. apply T_query. Qed.

Lemma safe_listSyncRoots : safe listSyncRoots.
Proof. unfold listSyncRoots, LocalDb.listSyncRoots. pose proof (db_list_roots true). safe_steps. Qed.
Lemma safe_listSyncFiles : safe listSyncFiles.
Proof. unfold listSyncFiles, LocalDb.listSyncFiles. pose proof (db_list_roots false). safe_steps. Qed.

Lemma spec_listSyncRoots : spec (Forall (fun ip => safe_root ip.2)) listSyncRoots.
Proof.
  intros w Hw. split; [by apply safe_listSyncRoots|].
  intros l E. unfold listSyncRoots, bind, on_db, zoom in E.
  destruct (LocalDb.listSyncRoots (db w)) as [[rows|e] d'] eqn:Eq; [|done]. injection E as <-.
  apply Forall_map, Forall_forall. intros [id p] Hin. simpl. intros q Hq.
  destruct (list_roots_rows _ _ _ _ Eq _ _ Hin) as (r&Hr&Hf&->). apply Hw. exists r. split; [done|].
  unfold row_prefix. by rewrite Hf.
Qed.

Lemma spec_listSyncFiles : spec (Forall (fun ip => safe_file ip.2)) listSyncFiles.
Proof.
  intros w Hw. split; [by apply safe_listSyncFiles|].
  intros l E. unfold listSyncFiles, bind, on_db, zoom in E.
  destruct (LocalDb.listSyncFiles (db w)) as [[rows|e] d'] eqn:Eq; [|done]. injection E as <-.
  apply Forall_map, Forall_forall. intros [id p] Hin. simpl. intros q Hq.
  destruct (list_roots_rows _ _ _ _ Eq _ _ Hin) as (r&Hr&Hf&->). apply Hw. exists r. split; [done|].
  unfold row_prefix. by rewrite Hf.
Qed.

Lemma root_by_id_in roots id root : root_by_id roots id = Some root -> exists i, (i, root) ∈ roots.
Proof.
  induction roots as [|[i r] roots IH]; [done|]. cbn [root_by_id]. case_bool_decide.
  - intros [= <-]. exists i. by left.
  - intros E. destruct (IH E) as [j ?]. exists j. by right.
Qed.

Lemma file_by_name_in files rel f : file_by_name files rel = Some f -> exists i, (i, f) ∈ files.
Proof.
  induction files as [|[i r] files IH]; [done|]. cbn [file_by_name]. case_bool_decide.
  - intros [= <-]. exists i. by left.
  - intros E. destruct (IH E) as [j ?]. exists j. by right.
Qed.

Lemma joinInsideRoot_prefixed root rel abs :
  PathUtil.joinInsideRoot root rel = Some abs -> prefixed (PathUtilFacts.key root ++ [BSLASH]) abs.
Proof.
  unfold PathUtil.joinInsideRoot. destruct (PathUtil.normalizeRelative rel) as [[|] out]; [|done].
  cbn [negb]. destruct (PathUtil.isInsideRoot _ _); [|done]. intros E.
  assert (abs = trim_right PathUtilFacts.is_sep root ++ [BSLASH] ++ replace_char SLASH BSLASH (utf8ToWide out)) as ->
    by (by injection E).
  eexists. rewrite PathUtilFacts.key_trim.
  by rewrite !PathUtilFacts.wlower_app, PathUtilFacts.wlower_sep, <- app_assoc.
Qed.

Lemma spec_absPathForRel rel : spec (fun o => forall abs, o = Some abs -> safe_path abs) (absPathForRel rel).
Proof.
  unfold absPathForRel. destruct (find_char COLON rel) as [c|]; [|by apply spec_ret].
  eapply spec_bind; [apply spec_listSyncRoots|]. intros roots Hroots. rewrite Forall_forall in Hroots.
  destruct (root_by_id roots _) as [root|] eqn:Er.
  - apply spec_ret. intros abs E. apply joinInsideRoot_prefixed in E.
    apply root_by_id_in in Er as [i Hi]. eexists. split; [exact E|]. apply (Hroots _ Hi).
  - eapply spec_bind; [apply spec_listSyncFiles|]. intros files Hfiles. rewrite Forall_forall in Hfiles.
    apply spec_ret. intros abs. case_bool_decide; [|done]. intros E.
    apply file_by_name_in in E as [i Hi]. exists (wlower abs). split; [|apply (Hfiles _ Hi)].
    exists []. by rewrite app_nil_r.
Qed.

Lemma safe_absPathForRel rel : safe (absPathForRel rel).
Proof. eapply safe_spec, spec_absPathForRel. Qed.

#[local] Hint Resolve safe_listSyncRoots safe_listSyncFiles safe_path_app safe_path_P : frame.

Lemma safe_locateInRoots p : safe (locateInRoots p).
Proof. unfold locateInRoots. safe_steps. Qed.

Lemma safe_write abs d : safe_path abs -> safe (on_fs (writeFileAtomic abs d)).
Proof. intros Ha. apply safe_on_fs, touches_writeFileAtomic. intros s. by apply safe_path_app. Qed.

Lemma safe_write_copy abs t d : safe_path abs -> safe (on_fs (writeFileAtomic (abs ++ t) d)).
Proof.
  intros Ha. apply safe_on_fs, touches_writeFileAtomic. intros s. rewrite <- app_assoc. by apply safe_path_app.
Qed.

#[local] Hint Resolve safe_locateInRoots safe_write : frame.

(** ** Upload and conflicts *)

Lemma safe_buildFilePayload p c v vv : safe (buildFilePayload p c v vv).
Proof. unfold buildFilePayload. safe_steps. Qed.
#[local] Hint Resolve safe_buildFilePayload : frame.

Lemma safe_record_conflict p a j f t : safe_path a -> safe (record_conflict p a j f t).
Proof.
  intros Ha. unfold record_conflict.
  apply (spec_bind (fun c => exists t, c = a ++ t)).
  { intros w _. split; [apply kept_refl|]. intros c [= <-]. by eexists. }
  intros copy [t' ->]. apply (spec_bind (fun _ => True)); [by apply safe_write_copy|intros _ _].
  safe_steps.
Qed.

Lemma safe_upload_merged p j f t : safe (upload_merged dir p j f t).
Proof. unfold upload_merged. safe_steps. Qed.
#[local] Hint Resolve safe_record_conflict safe_upload_merged : frame.

Lemma safe_handleConflict p a j : safe_path a -> safe (handleConflict dir p a j).
Proof. intros Ha. unfold handleConflict, readFileBytes. safe_steps. Qed.
#[local] Hint Resolve safe_handleConflict : frame.

Lemma safe_uploadFile p a : safe_path a -> safe (uploadFile dir p a).
Proof. intros Ha. unfold uploadFile, readFileBytes. safe_steps. Qed.

Lemma safe_deleteRemote p : safe (deleteRemote dir p).
Proof. unfold deleteRemote. safe_steps. Qed.

(** ** Download *)

Lemma safe_local_key n : safe (local_key n).
Proof. unfold local_key. safe_steps. Qed.
Lemma safe_remote_path f : safe (remote_path f).
Proof. unfold remote_path. safe_steps. Qed.
Lemma safe_remote_content f : safe (remote_content f).
Proof. unfold remote_content. safe_steps. Qed.
Lemma safe_unsynced_edits a b : safe (unsynced_edits a b).
Proof. unfold unsynced_edits. safe_steps. Qed.
#[local] Hint Resolve safe_local_key safe_remote_path safe_remote_content safe_unsynced_edits : frame.

Lemma safe_keep_unsynced a b abs d e f : safe_path abs -> safe (keep_unsynced a b abs d e f).
Proof.
  intros (pre&Hpre&HP). unfold keep_unsynced. cbv zeta.
  apply (spec_bind (fun _ => True)); [|intros _ _; safe_steps].
  apply safe_on_fs, touches_writeFileAtomic. intros s. apply HP. unfold unsaved_copy_path.
  rewrite <- !app_assoc. by apply dir_name_prefixed.
Qed.

Lemma safe_install_remote a b abs d e f g : safe_path abs -> safe (install_remote dir a b abs d e f g).
Proof.
  intros Ha. unfold install_remote. apply (spec_bind (fun _ => True)).
  { apply safe_on_fs, touches_for_each. intros x. apply touches_CreateDirectoryW. }
  intros _ _. safe_steps.
Qed.

Lemma safe_delete_local abs b c : safe_path abs -> safe (delete_local dir abs b c).
Proof. intros Ha. unfold delete_local. safe_steps. Qed.
#[local] Hint Resolve safe_keep_unsynced safe_install_remote safe_delete_local : frame.

Lemma safe_receive_content a b abs d e f g : safe_path abs -> safe (receive_content dir a b abs d e f g).
Proof. intros Ha. unfold receive_content, readFileBytes. safe_steps. Qed.
#[local] Hint Resolve safe_receive_content : frame.

Lemma safe_applyRemoteFile f : safe (applyRemoteFile dir f).
Proof.
  unfold applyRemoteFile, readFileBytes.
  repeat first
    [ solve [auto with frame]
    | match goal with |- spec _ (bind (absPathForRel _) _) =>
        eapply spec_bind; [apply spec_absPathForRel|intros [abs|] Habs;
          [specialize (Habs abs eq_refl)|clear Habs]] end
    | apply (spec_bind (fun _ => True)); [|intros ? _]
    | match goal with |- spec _ (match ?x with _ => _ end) => destruct x end ].
Qed.
#[local] Hint Resolve safe_applyRemoteFile : frame.

Lemma safe_apply_change c : safe (apply_change dir c).
Proof. unfold apply_change. safe_steps. Qed.

Lemma safe_pullChanges : safe (pullChanges dir).
Proof.
  unfold pullChanges. safe_steps. apply safe_for_each. intros c. apply safe_apply_change.
Qed.
#[local] Hint Resolve safe_pullChanges : frame.

Lemma safe_signOut : safe (signOut dir).
Proof. unfold signOut. safe_steps. Qed.
#[local] Hint Resolve safe_signOut : frame.

Lemma safe_onWsEvent ev : safe (onWsEvent dir ev).
Proof. unfold onWsEvent. safe_steps. Qed.

Lemma safe_onWsConnected b : safe (onWsConnected b).
Proof. unfold onWsConnected, when. safe_steps. Qed.

Lemma safe_onFileOpened p : safe (onFileOpened p).
Proof. unfold onFileOpened. safe_steps. Qed.

Lemma safe_poller_pass : safe (poller_pass dir).
Proof. unfold poller_pass. safe_steps. Qed.

(** ** Operations on the queue *)

Section queue.
Context (T_ops : forall f, db_ok (LocalDb.stmt (LocalDb.set_ops f))).
Context (T_insert : forall op now, db_ok (LocalDb.stmt_opt (LocalDb.insert_op op now))).

Lemma db_enqueueOp op now : db_ok (LocalDb.enqueueOp op now).
Proof. apply db_ok_bind; [apply T_ops|intros _; apply T_insert]. Qed.
Lemma db_removeOp i : db_ok (LocalDb.removeOp i).
Proof. apply T_ops. Qed.
Lemma db_markOpFailed i e : db_ok (LocalDb.markOpFailed i e).
Proof. apply T_ops. Qed.
#[local] Hint Resolve db_enqueueOp db_removeOp db_markOpFailed : frame.

Lemma safe_enqueue k p : safe (enqueue k p).
Proof. unfold enqueue. safe_steps. Qed.
#[local] Hint Resolve safe_enqueue : frame.

Lemma safe_queueUpload p : safe (queueUpload p).
Proof. unfold queueUpload. safe_steps. Qed.
#[local] Hint Resolve safe_queueUpload : frame.

Lemma safe_onFileSaved p : safe (onFileSaved p).
Proof. unfold onFileSaved. safe_steps. Qed.

Lemma safe_onFsEvent ev : safe (onFsEvent ev).
Proof. unfold onFsEvent. safe_steps. Qed.

Lemma safe_finish_op o r : safe (finish_op o r).
Proof. unfold finish_op. safe_steps. Qed.
#[local] Hint Resolve safe_finish_op safe_deleteRemote : frame.

Lemma safe_processPendingOp o : safe (processPendingOp dir o).
Proof.
  unfold processPendingOp. cbv zeta. destruct (bool_decide _); [|safe_steps].
  eapply spec_bind; [apply spec_absPathForRel|]. intros [abs|] Habs; [|safe_steps].
  apply (spec_bind (fun _ => True)); [|intros; safe_steps]. by apply safe_uploadFile, Habs.
Qed.
#[local] Hint Resolve safe_processPendingOp : frame.

Lemma safe_work_through ops b : safe (work_through dir ops b).
Proof. revert b. induction ops as [|o ops IH]; intros b; cbn [work_through]; safe_steps. Qed.
#[local] Hint Resolve safe_work_through : frame.

Lemma safe_finish_pass b : safe (finish_pass b).
Proof. unfold finish_pass. safe_steps. Qed.
Lemma safe_work_one o : safe (work_one dir o).
Proof. unfold work_one. safe_steps. Qed.
#[local] Hint Resolve safe_finish_pass : frame.

Lemma safe_worker_pass : safe (worker_pass dir).
Proof. unfold worker_pass. safe_steps. Qed.

Lemma safe_scan_entry d e : safe (scan_entry d e).
Proof. unfold scan_entry. safe_steps. Qed.
#[local] Hint Resolve safe_scan_entry : frame.

Lemma safe_scan_entries d es : safe (scan_entries d es).
Proof. induction es as [|e es IH]; cbn [scan_entries]; safe_steps. Qed.
#[local] Hint Resolve safe_scan_entries : frame.

Lemma safe_scan_dir d : safe (scan_dir d).
Proof. unfold scan_dir. safe_steps. Qed.
#[local] Hint Resolve safe_scan_dir : frame.

Lemma safe_scan_stack fuel st : safe (scan_stack fuel st).
Proof. revert st. induction fuel as [|n IH]; intros st; cbn [scan_stack]; safe_steps. Qed.
#[local] Hint Resolve safe_scan_stack : frame.

Lemma safe_scan_roots fuel l : safe (scan_roots fuel l).
Proof. induction l as [|[i r] l IH]; cbn [scan_roots]; safe_steps. Qed.
#[local] Hint Resolve safe_scan_roots : frame.

Lemma safe_scanner_pass fuel : safe (scanner_pass fuel).
Proof. unfold scanner_pass. safe_steps. Qed.
End queue.

End frame.
End EngineFrame.
