(* ===== verification/EngineSpec.v ===== *)
(** * EngineSpec: the claims about the engine's safety

    Confinement of the background operations, and the small concrete engine
    (module [Toy]) in which the witnesses of all claims are evaluated. *)
From S2P Require Import Prelude Text VersionVector Merge Platform PathUtil IgnoreRules Crypto.
From S2P Require Import KeySetup LocalDb ApiClient FolderWatcher FileSystem Settings.
From S2P Require Import EngineState EngineKeys EngineSync EngineRun EngineFacts EngineFrame.
Import EngineState.Engine EngineKeys.EngineKeys EngineSync.EngineSync EngineRun.EngineRun.
Import EngineFacts.EngineFacts EngineFrame.EngineFrame.
Import FileSystem FileSystemFacts.
Import PathUtil(utf8ToWide, wideToUtf8, wlower).

#[local] Open Scope monad_scope.

(** ** A concrete engine, for the witnesses *)

Module Toy.
#[export] Existing Instance ascii_text.
#[export] Existing Instance toy_cng.
#[export] Existing Instance toy_dpapi.
#[export] Existing Instance toy_time.

(** [toy_json], which also reads the text of a version vector. *)
Definition wire_json : Json := {|
  json_parse s :=
    if bool_decide (head s = Some LBRACE)
    then Some (JObj (map (fun kv => (kv.1, JInt kv.2)) (VersionVector.listing (VersionVector.fromJson s))))
    else @json_parse toy_json s;
  json_read := @json_read toy_json;
  json_dump := @json_dump toy_json;
  json_dump_pretty := @json_dump_pretty toy_json
|}.

Lemma wire_json_laws : @JsonLaws wire_json.
Proof.
  destruct toy_json_laws as [L1 L2]. split.
  - intros j Ha Hs. destruct (L1 j Ha Hs) as (s&Hd&Hb&Hne&Hp). exists s. split_and!; [done..|].
    unfold json_parse. cbn [wire_json]. rewrite bool_decide_false; [exact Hp|].
    assert (s = to_bits (encode (to_tree j))) as -> by (by injection Hd).
    by destruct (encode (to_tree j)).
  - exact L2.
Qed.
#[export] Existing Instance wire_json.

Definition data_dir : wstr := lit "C:\data".
Definition note_key : str := lit "r1:a.md".
Definition note_path : wstr := lit "C:\notes\a.md".

Definition settings : Settings.Settings :=
  Settings.MkSettings true false 30 false true [] [] [] 1000 0 false (lit "laptop") (lit "dev-1")
    (lit "acc-1") (lit "http://h") false [] 30.

Definition tables : LocalDb.Tables :=
  LocalDb.MkTables ∅ [LocalDb.MkRoot (lit "r1") (lit "C:\notes") true] [] [] 0 [].

Definition client (replies : list ApiClient.HttpReply) : ApiClient.Client :=
  ApiClient.MkClient (lit "http://h") (lit "dev-1") (lit "at") (lit "rt") replies [] [].

Definition key : Bytes := map Z.of_nat (seq 100 32).

Definition world (files : list (wstr * Bytes)) (t : LocalDb.Tables) (mk : Bytes)
    (replies : list ApiClient.HttpReply) : World :=
  MkWorld (MkFs (list_to_map files) {[lit "C:\notes"]} []) (LocalDb.MkDb true t []) true (client replies)
    (map Z.of_nat (seq 0 200)) 1000 settings mk true false false true ∅
    (FolderWatcher.MkWatcher [] [] false) default_status [].

Definition reply (j : json) : ApiClient.HttpReply :=
  ApiClient.Reply 200 [] (match json_dump j with Ok s => s | Throw _ => [] end).

(** What another device would send for a file, under [key]. *)
Definition envelope (p : Bytes) (aad : str) : Bytes :=
  match (Crypto.encrypt key p aad (map Z.of_nat (seq 7 12))).1 with Ok e => e | Throw _ => [] end.

Definition remote_file (rel : string) (content : str) (version : Z) : json :=
  let meta := match json_dump (JObj [(lit "relative_path", JStr (lit rel))]) with Ok s => s | Throw _ => [] end in
  let env := envelope content (lit "file") in
  JObj [(lit "content_hash", JStr (match Crypto.sha256Hex env with Ok h => h | Throw _ => [] end));
        (lit "encrypted_content", JStr (Crypto.base64UrlEncode env));
        (lit "encrypted_metadata", JStr (Crypto.base64UrlEncode (envelope meta (lit "metadata"))));
        (lit "version", JInt version);
        (lit "version_vector", JObj [])].
End Toy.

Module EngineSpec.

Section engine.
Context `{Win32TextLaws} `{CNG} `{Json} `{DPAPI} `{LocalTime}.
Context (dir : wstr).

(** ** Confinement *)

(** The operations that run without a user's decision: the editor's and the
    watcher's notifications, push events, and the three threads. *)
Definition background (o : op) : bool :=
  match o with
  | OFileSaved _ | OFileOpened _ | OFsEvent _ | OWsEvent _ | OWsConnected _ | OWorker | OPoller | OScanner _
  | OWorkOne _ | OFinishPass _ | OScanDir _ => true
  | _ => false
  end.

Lemma background_frame (P : wstr -> Prop) (o : op) (w : World) :
  (forall s, P (dir ++ BSLASH :: s)) -> background o = true -> rows_ok P w ->
  kept P (fun _ _ => True) w (run dir o w).
Proof.
  intros Hdir Ho Hw. set (T := fun _ _ : LocalDb.Db => True).
  assert (PreOrder T) as HT by (split; done).
  assert (forall A (m : M LocalDb.Db A), (forall d, LocalDb.sync_roots (LocalDb.tables (m d).2) =
    LocalDb.sync_roots (LocalDb.tables d)) -> db_ok T m) as Hok by (intros A m Hm d; split; [apply Hm|done]).
  assert (forall upd : LocalDb.Tables -> option LocalDb.Tables,
    (forall t t', upd t = Some t' -> LocalDb.sync_roots t' = LocalDb.sync_roots t) ->
    db_ok T (LocalDb.stmt_opt upd)) as Hstmt.
  { intros upd Hu. apply Hok. intros d. destruct (LocalDb.stmt_opt upd d) as [b d'] eqn:E.
    apply LocalDbFacts.stmt_opt_cases in E as [_ [E|E]]; cbn [snd]; [by rewrite E|]. by apply Hu in E. }
  assert (forall A (rows : LocalDb.Tables -> list A), db_ok T (LocalDb.query rows)) as Hq.
  { intros A rows. apply Hok. intros d. destruct (LocalDb.query rows d) as [r d'] eqn:E.
    apply LocalDbFacts.query_tables in E. cbn [snd]. by rewrite E. }
  assert (forall f, db_ok T (LocalDb.stmt (LocalDb.set_files f))) as Hf by (intros f; apply Hstmt; by intros t ? [= <-]).
  assert (forall f, db_ok T (LocalDb.stmt (LocalDb.set_conflicts f))) as Hc by (intros f; apply Hstmt; by intros t ? [= <-]).
  assert (forall f, db_ok T (LocalDb.stmt (LocalDb.set_meta f))) as Hm by (intros f; apply Hstmt; by intros t ? [= <-]).
  assert (forall f, db_ok T (LocalDb.stmt (LocalDb.set_ops f))) as Hops by (intros f; apply Hstmt; by intros t ? [= <-]).
  assert (forall op now, db_ok T (LocalDb.stmt_opt (LocalDb.insert_op op now))) as Hi.
  { intros op now. apply Hstmt. intros t t'. unfold LocalDb.insert_op. destruct (_ <=? _); [done|]. by intros [= <-]. }
  destruct o; try discriminate Ho; unfold run, exec;
    match goal with |- kept _ _ _ (?m w).2 => enough (spec P T (fun _ => True) m) as Hs by (by apply Hs) end.
  - by apply safe_onFileSaved.
  - by apply safe_onFileOpened.
  - by apply safe_onFsEvent.
  - by apply safe_onWsEvent.
  - by apply safe_onWsConnected.
  - by apply safe_worker_pass.
  - by apply safe_poller_pass.
  - by apply safe_scanner_pass.
  - by apply safe_work_one.
  - by apply safe_finish_pass.
  - by apply safe_scan_dir.
Qed.

(** C2: confinement. Whatever the server sends, whatever the other devices
    have put into it, and whatever the disk and the database fail to do, an
    operation that runs in the background (notifications of the editor and of
    the watcher, push events, worker, poller, scanner) changes no file outside
    the folders the user added, other than a single file the user added (and
    the copies named after it) and the plugin's own data directory; and it
    never changes which folders and files those are. *)
Theorem background_confined (o : op) (w : World) (p : wstr)
    (Ho : background o = true)
    (Hfolder : forall r, r ∈ roots_of w -> LocalDb.r_is_folder r = true ->
       PathUtil.isInsideRoot (utf8ToWide (LocalDb.r_abs_path r)) p = false)
    (Hfile : forall r, r ∈ roots_of w -> LocalDb.r_is_folder r = false ->
       ~ (wlower (utf8ToWide (LocalDb.r_abs_path r)) `prefix_of` wlower p))
    (Hdata : ~ ((dir ++ [BSLASH]) `prefix_of` p)) :
  disk (fs (run dir o w)) !! p = disk (fs w) !! p /\ roots_of (run dir o w) = roots_of w.
Proof.
  set (P := fun p => covered (roots_of w) p \/ exists s, p = dir ++ BSLASH :: s).
  destruct (background_frame P o w) as [Hr Hk _]; [|done| |].
  - intros s. right. by eexists.
  - intros q Hq. by left.
  - split; [|exact Hr]. apply Hk. intros [(r&Hin&Hp)|[s ->]].
    + unfold row_prefix in Hp. destruct (LocalDb.r_is_folder r) eqn:Ef.
      * assert (PathUtil.isInsideRoot (utf8ToWide (LocalDb.r_abs_path r)) p = true) as Ht; [|by rewrite Hfolder in Ht].
        apply PathUtilFacts.isInsideRoot_spec. right. destruct Hp as [rest E]. exists rest.
        by rewrite E, <- app_assoc.
      * by apply (Hfile r Hin Ef).
    + apply Hdata. exists s. by rewrite <- app_assoc.
Qed.

End engine.

Import Toy.

(** A remote file that is installed, and a file elsewhere that is not touched. *)
Definition push_event : json :=
  JObj [(lit "file_id", JStr (lit "f-1")); (lit "origin_device_id", JStr (lit "dev-2"));
        (lit "type", JStr (lit "file_changed"))].

Definition other_file : wstr := lit "C:\other\a.md".

Definition push_world : World :=
  world [(other_file, lit "mine")] Toy.tables key [reply (remote_file "sub/b.md" (lit "hello") 3)].

Lemma background_confined_witness :
  let w' := run data_dir (OWsEvent push_event) push_world in
  disk (fs w') !! lit "C:\notes\sub\b.md" = Some (lit "hello") /\
  disk (fs w') !! other_file = Some (lit "mine").
Proof.
  cbv zeta. split; [vm_compute; reflexivity|].
  assert (disk (fs push_world) !! other_file = Some (lit "mine")) as <- by (vm_compute; reflexivity).
  refine (proj1 (@background_confined ascii_text ascii_text_laws toy_cng wire_json toy_dpapi toy_time data_dir
    (OWsEvent push_event) push_world other_file eq_refl _ _ _)).
  - intros r Hr _. assert (roots_of push_world = [LocalDb.MkRoot (lit "r1") (lit "C:\notes") true]) as E by reflexivity.
    rewrite E in Hr. apply list_elem_of_singleton in Hr as ->. vm_compute. reflexivity.
  - intros r Hr Hf. assert (roots_of push_world = [LocalDb.MkRoot (lit "r1") (lit "C:\notes") true]) as E by reflexivity.
    rewrite E in Hr. apply list_elem_of_singleton in Hr as ->. discriminate Hf.
  - decide_goal.
Defined.

End EngineSpec.
