(* ===== verification/EngineKeySpec.v ===== *)
(** * EngineKeySpec: the claims about the master key

    Who may change it in any run of the engine, and that a key made at first run
    is loaded again by the next start. *)
From S2P Require Import Prelude Text VersionVector Platform PathUtil Crypto KeySetup LocalDb.
From S2P Require Import ApiClient FolderWatcher FileSystem Settings EngineState EngineKeys.
From S2P Require Import EngineSync EngineRun EngineFacts EngineFrame EngineSpec.
Import EngineState.Engine EngineKeys.EngineKeys EngineSync.EngineSync EngineRun.EngineRun.
Import EngineFacts.EngineFacts.
Import FileSystem FileSystemFacts.

#[local] Open Scope monad_scope.

Module EngineKeyFacts.

Section engine.
Context `{Win32Text} `{CNG} `{Json} `{DPAPI} `{LocalTime}.
Context (dir : wstr).

(** A key on the device: the first-run step changes nothing at all. *)
Lemma first_run_kept (c : bool) (w : World) :
  hasMasterKey w = true -> finishFirstRunKeys dir c w = (Ok KeptExisting, w).
Proof.
  unfold hasMasterKey. intros Hk. unfold finishFirstRunKeys, KeySetup.applyWizardKeyStep.
  unfold bind at 1, gets at 1. rewrite Hk. by destruct w.
Qed.

Lemma first_run_refused (w : World) :
  hasMasterKey w = false -> finishFirstRunKeys dir false w = (Ok RefusedToMint, w).
Proof.
  unfold hasMasterKey. intros Hk. unfold finishFirstRunKeys, KeySetup.applyWizardKeyStep.
  unfold bind at 1, gets at 1. rewrite Hk. by destruct w.
Qed.

(** The stages of a run that mints a key. *)
Lemma first_run_minted (w w' : World) (r : FirstRunKeyStep) :
  hasMasterKey w = false -> finishFirstRunKeys dir true w = (Ok r, w') ->
  exists mk rest saved w2, rand w = mk ++ rest /\
    length mk = Crypto.kMasterKeyLen /\
    save_master_key dir (put_masterKey mk (put_rand rest w)) = (Ok saved, w2) /\
    (if saved then r = CreatedNew /\ exists b, writeLocalRecoveryWrap dir w2 = (Ok b, w')
     else r = RefusedToMint /\ w' = put_masterKey [] w2).
Proof.
  unfold hasMasterKey. intros Hk He. unfold finishFirstRunKeys in He.
  apply bind_Ok in He as (m0&w0&[= <- <-]&He).
  apply bind_Ok in He as ([o mk]&w1&Hz1&He). apply zoom_Ok in Hz1 as (rest&Hz1&->).
  apply bind_Ok in He as ([]&w1&[= <-]&He).
  assert (o = KeySetup.CreatedNew /\ length mk = Crypto.kMasterKeyLen /\ rand w = mk ++ rest) as (->&Hl&Hr).
  { unfold KeySetup.applyWizardKeyStep in Hz1. rewrite Hk in Hz1. cbn [negb] in Hz1.
    apply bind_Ok in Hz1 as (key&r1&Hr&Hz1). apply ret_Ok in Hz1 as [E1 ->]. injection E1 as -> ->.
    apply CryptoFacts.random_Ok in Hr as (?&?&_). done. }
  apply bind_Ok in He as (saved&w2&Hz2&He). exists mk, rest, saved, w2. split_and!; [done..|].
  destruct saved; cbn [negb] in He.
  - apply bind_Ok in He as (b&w3&Hz3&He). apply ret_Ok in He as [-> ->]. eauto.
  - apply bind_Ok in He as ([]&w3&[= <-]&He). by apply ret_Ok in He as [-> ->].
Qed.

Lemma save_master_key_keeps : keeps masterKey_ (save_master_key dir).
Proof. apply keeps_bind; [done|]. intros mk. apply keeps_zoom. done. Qed.

Lemma recovery_wrap_keeps : keeps masterKey_ (writeLocalRecoveryWrap dir).
Proof.
  unfold writeLocalRecoveryWrap, on_rand, saveSecret, on_fs.
  repeat first [ apply keeps_zoom; done | apply keeps_lift | apply keeps_gets | apply keeps_ret
               | apply keeps_bind; [|intros ?]
               | match goal with |- keeps _ (match ?x with _ => _ end) => destruct x end ].
Qed.

(** What [completePairing] may do to the key. *)
Lemma pairing_key code (w w' : World) st err :
  completePairing dir code w = (Ok (st, err), w') ->
  if decide (st = PairInstalled) then length (masterKey_ w') = Crypto.kMasterKeyLen
  else masterKey_ w' = masterKey_ w \/ masterKey_ w' = [].
Proof.
  unfold completePairing. destruct (KeySetup.normalizePairingCode code) as [n|] eqn:En.
  2:{ intros [[= -> ->] ->]%ret_Ok. by left. }
  intros (r&w1&Hz1&He)%bind_Ok.
  assert (masterKey_ w1 = masterKey_ w) as E1.
  { eapply (keeps_Ok masterKey_); [|exact Hz1]. by apply keeps_on_api. }
  destruct (negb _). { apply ret_Ok in He as [[= -> ->] ->]. by left. }
  destruct (_ =? 410). { apply ret_Ok in He as [[= -> ->] ->]. by left. }
  destruct (negb _).
  { apply bind_Ok in He as (msg&w2&Hz2&He). injection Hz2 as _ <-. apply ret_Ok in He as [[= -> ->] ->]. by left. }
  apply bind_Ok in He as (s&w2&Hz2&He). injection Hz2 as _ <-.
  destruct (negb _). { apply ret_Ok in He as [[= -> ->] ->]. by left. }
  apply bind_Ok in He as (wr&w2&Hz2&He). injection Hz2 as _ <-.
  apply bind_Ok in He as ([ok mk]&w2&Hz2&He). injection Hz2 as Hi <-.
  destruct ok; cbn [negb] in He; [|apply ret_Ok in He as [[= -> ->] ->]; by left].
  apply bind_Ok in He as ([]&w2&[= <-]&He). apply bind_Ok in He as (saved&w3&Hz3&He).
  apply (keeps_Ok masterKey_ _ _ _ _ save_master_key_keeps) in Hz3. cbn [masterKey_ put_masterKey] in Hz3.
  destruct saved; cbn [negb] in He.
  - apply bind_Ok in He as (b1&w4&Hz4&He). apply (keeps_Ok masterKey_) in Hz4; [|by apply keeps_zoom].
    apply bind_Ok in He as (b2&w5&Hz5&He). apply (keeps_Ok masterKey_) in Hz5; [|by apply keeps_zoom].
    apply bind_Ok in He as ([]&w6&[= <-]&He). apply ret_Ok in He as [[= -> ->] ->]. simpl.
    apply KeySetupFacts.install_true in Hi as (m&n'&salt&wrapped&wk&->&Hl&_). cbn [from_option id] in Hz3. congruence.
  - apply bind_Ok in He as ([]&w4&[= <-]&He). apply ret_Ok in He as [[= -> ->] ->]. by right.
Qed.

(** ** Starting again *)

Definition secret (name : string) (w : World) : option str := Settings.SettingsFacts.stored_secret dir (lit name) (fs w).

(** [init] on a working disk with a database that opens. *)
Lemma init_works (s : Settings.Settings.Settings) (w : World) (d : LocalDb.Db) :
  events (fs w) = [] -> LocalDb.open (db w) = (Ok true, d) ->
  exists w', init dir s w = (Ok tt, w') /\ fs w' = fs w /\ db w' = d /\
    masterKey_ w' = (match secret "master_key" w with
                     | Some b64 => Crypto.base64UrlDecode_out b64 | None => masterKey_ w end) /\
    (ApiClient.accessToken (api w'), ApiClient.refreshToken (api w')) =
      (match secret "access_token" w, secret "refresh_token" w with
       | Some a, Some r => (a, r) | _, _ => ([], []) end).
Proof.
  intros Hev Hop. unfold init, loadSecret, on_fs.
  unfold bind at 1, modify at 1. erewrite bind_run.
  2:{ unfold on_db, zoom. cbn [db put_settings]. rewrite Hop. reflexivity. }
  cbn [negb]. unfold bind at 1, modify at 1.
  set (w0 := put_has_api true _). assert (fs w0 = fs w) as Hfs by done.
  assert (forall n (w1 : World), fs w1 = fs w ->
    zoom fs put_fs (Settings.Settings.loadSecret dir (lit n)) w1 = (Ok (secret n w), w1)) as Hload.
  { intros n w1 E. unfold zoom. rewrite E, Settings.SettingsFacts.loadSecret_works by done. cbn [fst snd].
    unfold secret. rewrite <- E. by destruct w1. }
  erewrite bind_run by (by apply (Hload "access_token"%string)).
  assert (forall w1 : World, fs w1 = fs w ->
    exists w', (let* mk := zoom fs put_fs (Settings.Settings.loadSecret dir (lit "master_key")) in
       match mk with
       | None => ret tt
       | Some b64 => modify (put_masterKey (Crypto.base64UrlDecode_out b64))
       end) w1 = (Ok tt, w') /\ fs w' = fs w1 /\ db w' = db w1 /\ api w' = api w1 /\
      masterKey_ w' = (match secret "master_key" w with
                     | Some b64 => Crypto.base64UrlDecode_out b64 | None => masterKey_ w1 end)) as Hkey.
  { intros w1 E. erewrite bind_run by (by apply (Hload "master_key"%string)).
    destruct (secret "master_key" w); eexists; by split_and!. }
  destruct (secret "access_token" w) as [a|].
  2:{ unfold bind at 1, ret at 1. destruct (Hkey w0 Hfs) as (w'&E&Ef&Ed&Ea&Em).
      exists w'. rewrite E, Ef, Ed, Ea, Em. by split_and!. }
  unfold bind at 1. erewrite bind_run by (by apply (Hload "refresh_token"%string)).
  destruct (secret "refresh_token" w) as [r|].
  2:{ unfold ret at 1. destruct (Hkey w0 Hfs) as (w'&E&Ef&Ed&Ea&Em).
      exists w'. rewrite E, Ef, Ed, Ea, Em. by split_and!. }
  assert (on_api dir (ApiClient.setTokens a r) w0 =
    (Ok tt, put_api (ApiClient.set_tokens a r (api w0)) w0)) as ->.
  { unfold on_api. cbn [has_api w0 put_has_api negb]. unfold ApiClient.setTokens, modify.
    cbn [ApiClient.set_tokens ApiClient.rotations]. by rewrite drop_all. }
  destruct (Hkey (put_api (ApiClient.set_tokens a r (api w0)) w0) Hfs) as (w'&E&Ef&Ed&Ea&Em).
  exists w'. rewrite E, Ef, Ed, Ea, Em. by split_and!.
Qed.
(** On a working disk, writing one secret leaves the others. *)
Lemma saveSecret_other (n : string) (v : str) (w w' : World) (x : outcome bool) :
  lit n <> lit "master_key" -> events (fs w) = [] -> saveSecret dir (lit n) v w = (x, w') ->
  events (fs w') = [] /\ secret "master_key" w' = secret "master_key" w.
Proof.
  intros Hn Hev E. unfold saveSecret, on_fs, zoom in E.
  destruct (Settings.SettingsFacts.saveSecret_others dir (lit n) v (fs w) Hev) as [Ha Hb].
  destruct (Settings.Settings.saveSecret dir (lit n) v (fs w)) as [r f]. injection E as <- <-.
  split; [done|]. by apply Hb.
Qed.

Lemma recovery_wrap_secret (w w' : World) (b : bool) :
  events (fs w) = [] -> writeLocalRecoveryWrap dir w = (Ok b, w') ->
  events (fs w') = [] /\ secret "master_key" w' = secret "master_key" w.
Proof.
  intros Hev Hb. unfold writeLocalRecoveryWrap in Hb.
  apply bind_Ok in Hb as (rec&w4&Hz1&Hb). apply zoom_Ok in Hz1 as (r4&_&->).
  apply bind_Ok in Hb as (salt&w5&Hz2&Hb). apply zoom_Ok in Hz2 as (r5&_&->).
  apply bind_Ok in Hb as (wk&w6&Hz3&Hb). injection Hz3 as _ <-.
  apply bind_Ok in Hb as (k&w6&Hz3&Hb). injection Hz3 as _ <-.
  apply bind_Ok in Hb as (wr&w6&Hz3&Hb). apply zoom_Ok in Hz3 as (r6&_&->).
  apply bind_Ok in Hb as (tx&w6&Hz3&Hb). injection Hz3 as _ <-.
  apply bind_Ok in Hb as (ok&w6&Hz3&Hb).
  apply saveSecret_other in Hz3 as [Hev3 Hs3]; [|vm_compute; congruence|exact Hev].
  destruct ok; cbn [negb] in Hb; [|by apply ret_Ok in Hb as [_ ->]].
  apply saveSecret_other in Hb as [? Hs4]; [by rewrite Hs4, Hs3|vm_compute; congruence|done].
Qed.

(** DPAPI accepts the text of a key. *)
Definition protects_keys : Prop := forall v, (length v <= 43)%nat ->
  exists e, CryptProtectData v = Some e /\ Z.of_nat (length e) < 2 ^ 32.

(** On a disk that works the key in memory is stored, and only it. *)
Lemma save_master_key_works `{!DPAPILaws} (w : World) :
  protects_keys -> events (fs w) = [] -> bytes_ok (masterKey_ w) -> length (masterKey_ w) = Crypto.kMasterKeyLen ->
  exists f', save_master_key dir w = (Ok true, put_fs f' w) /\ events f' = [] /\
    Settings.SettingsFacts.stored_secret dir (lit "master_key") f' = Some (Crypto.base64UrlEncode (masterKey_ w)).
Proof.
  intros Hprot Hdisk Hmk Hl.
  assert (length (Crypto.base64UrlEncode (masterKey_ w)) = 43%nat) as Hb43
    by (rewrite (CryptoFacts.encode_length (length (masterKey_ w))) by done; rewrite Hl; vm_compute; done).
  destruct (Hprot (Crypto.base64UrlEncode (masterKey_ w))) as (e&Hp&Hle); [by rewrite Hb43|].
  destruct (Settings.SettingsFacts.saveSecret_stored dir (lit "master_key") (Crypto.base64UrlEncode (masterKey_ w)) e (fs w))
    as (f'&Ef&Hev'&Hst&_); [done|done|by rewrite Hb43|done|].
  exists f'. split; [|done]. unfold save_master_key, bind, gets, saveSecret, on_fs, zoom. by rewrite Ef.
Qed.

(** The key that a successful first-run step leaves is the key it saved. *)
Lemma first_run_stored `{!DPAPILaws} (w w' : World) :
  protects_keys ->
  events (fs w) = [] -> hasMasterKey w = false -> bytes_ok (rand w) ->
  finishFirstRunKeys dir true w = (Ok CreatedNew, w') ->
  events (fs w') = [] /\ bytes_ok (masterKey_ w') /\ length (masterKey_ w') = Crypto.kMasterKeyLen /\
  secret "master_key" w' = Some (Crypto.base64UrlEncode (masterKey_ w')).
Proof.
  intros Hprot Hdisk Hk Hr Hrun.
  destruct (first_run_minted _ _ _ Hk Hrun) as (mk&rest&saved&w1&Erand&Hl&Hs&He).
  destruct saved; [|by destruct He]. destruct He as [_ [b Hb]].
  assert (bytes_ok mk) as Hmk by (unfold bytes_ok in Hr; rewrite Erand in Hr; by apply Forall_app in Hr as [? _]).
  assert (masterKey_ w1 = mk) as E1 by (by apply (keeps_Ok masterKey_ _ _ _ _ save_master_key_keeps) in Hs).
  assert (masterKey_ w' = mk) as ->.
  { apply (keeps_Ok masterKey_ _ _ _ _ recovery_wrap_keeps) in Hb. congruence. }
  destruct (save_master_key_works (put_masterKey mk (put_rand rest w))) as (f'&Ef&Hev'&Hst); [done..|].
  rewrite Ef in Hs. injection Hs as <-. cbn [masterKey_ put_masterKey] in Hst.
  apply recovery_wrap_secret in Hb as [? Hb]; [|done]. by rewrite Hb.
Qed.

(** [init] reads a stored key back. *)
Lemma init_reads_key (s : Settings.Settings.Settings) (w : World) (d : LocalDb.Db) (mk : Bytes) :
  events (fs w) = [] -> LocalDb.open (db w) = (Ok true, d) -> bytes_ok mk ->
  secret "master_key" w = Some (Crypto.base64UrlEncode mk) ->
  exists w', init dir s w = (Ok tt, w') /\ masterKey_ w' = mk.
Proof.
  intros Hev Hop Hmk Hsec. destruct (init_works s w d Hev Hop) as (w3&E3&_&_&Em&_).
  exists w3. split; [done|]. rewrite Em, Hsec. unfold Crypto.base64UrlDecode_out.
  rewrite CryptoFacts.valid_prefix_id by (by apply (CryptoFacts.encode_tbl (length mk))).
  by rewrite CryptoFacts.base64_round_trip.
Qed.

(** [init] with a database that does not open stops before the HTTP client exists. *)
Lemma init_closed (s : Settings.Settings.Settings) (w : World) (d : LocalDb.Db) :
  has_api w = false -> running_ w = false ->
  LocalDb.open (db w) = (Ok false, d) -> LocalDb.opened d = false ->
  exists w', init dir s w = (Ok tt, w') /\ has_api w' = false /\ running_ w' = false /\
    LocalDb.opened (db w') = false.
Proof.
  intros Ha Hru Hop Hcl. unfold init. unfold bind at 1, modify at 1. erewrite bind_run.
  2:{ unfold on_db, zoom. cbn [db put_settings]. rewrite Hop. reflexivity. }
  cbn [negb]. unfold setStatus, bind, gets, isOpen, ret, modify. cbn [db put_db]. rewrite Hcl.
  destruct (decide _) as [E|_]; [discriminate E|]. eexists. split; [reflexivity|]. by split_and!.
Qed.

Lemma listSyncRoots_closed (w : World) :
  LocalDb.opened (db w) = false -> listSyncRoots w = (Ok [], w).
Proof.
  intros Hc. unfold listSyncRoots, bind, on_db, zoom, LocalDb.listSyncRoots, LocalDb.list_roots, LocalDb.query.
  rewrite Hc. cbn [negb]. by destruct w.
Qed.

Lemma on_api_null A (m : M ApiClient.ApiClient.Client A) (w : World) :
  has_api w = false -> on_api dir m w = (Throw access_violation, w).
Proof. intros E. unfold on_api. by rewrite E. Qed.

Lemma start_null (w : World) :
  has_api w = false -> running_ w = false -> LocalDb.opened (db w) = false ->
  (start dir w).1 = Throw access_violation.
Proof.
  intros Ha Hr Hd. unfold start. unfold bind at 1, gets at 1. rewrite Hr.
  unfold bind at 1, modify at 1. unfold refreshIgnoreRules. unfold bind at 1.
  unfold bind at 1, modify at 1. unfold bind at 1, gets at 1.
  erewrite bind_run by (by apply listSyncRoots_closed). cbn [for_each]. unfold bind at 1, ret at 1.
  unfold bind at 1, modify at 1. unfold ret at 1.
  unfold add_watches. unfold bind at 1. erewrite bind_run by (by apply listSyncRoots_closed). cbn [for_each].
  unfold bind at 1, ret at 1. unfold modify at 1. unfold bind at 1, gets at 1.
  destruct (Settings.Settings.webSocketEnabled _).
  - unfold bind at 1, bind at 1. by rewrite on_api_null.
  - unfold bind at 1, ret at 1, bind at 1. by rewrite on_api_null.
Qed.
End engine.
End EngineKeyFacts.

(** * The claims *)

Module EngineKeySpec.
Import EngineKeyFacts.

Section engine.
Context `{Win32Text} `{CNG} `{Json} `{DPAPI} `{LocalTime}.
Context (dir : wstr).

(** C1: only four operations can change the master key: initialization, the
    first-run step, the recovery key and a completed pairing; no sequence of
    other operations does, whatever happens between them. The first-run step
    never replaces a key and mints one only when asked to; when the new key
    cannot be stored, no key stays in memory, so nothing is ever encrypted
    under a key that the next start would not have. A pairing that does not
    report the key as installed leaves the old key or none. *)
Theorem master_key_safety (w w' : World) (os : list op) (code err : str) (st : PairingStatus)
    (r : FirstRunKeyStep) :
  (steps dir w os w' -> Forall (fun o => key_op o = false) os -> masterKey_ w' = masterKey_ w) /\
  (hasMasterKey w = true -> forall c, finishFirstRunKeys dir c w = (Ok KeptExisting, w)) /\
  (hasMasterKey w = false -> finishFirstRunKeys dir false w = (Ok RefusedToMint, w)) /\
  (hasMasterKey w = false -> finishFirstRunKeys dir true w = (Ok r, w') ->
     if decide (r = CreatedNew) then hasMasterKey w' = true else masterKey_ w' = []) /\
  (completePairing dir code w = (Ok (st, err), w') ->
     if decide (st = PairInstalled) then hasMasterKey w' = true
     else masterKey_ w' = masterKey_ w \/ masterKey_ w' = []).
Proof.
  split_and!.
  - by apply steps_keep_key.
  - intros Hk c. by apply first_run_kept.
  - apply first_run_refused.
  - intros Hk (mk&rest&saved&w2&_&Hl&Hs&He)%first_run_minted; [|done].
    apply (keeps_Ok masterKey_ _ _ _ _ (save_master_key_keeps dir)) in Hs. cbn [masterKey_ put_masterKey] in Hs.
    destruct saved.
    + destruct He as [-> [b Hb]]. apply (keeps_Ok masterKey_ _ _ _ _ (recovery_wrap_keeps dir)) in Hb. simpl.
      unfold hasMasterKey. apply bool_decide_eq_true. congruence.
    + by destruct He as [-> ->].
  - intros Hp. apply pairing_key in Hp. destruct (decide _); [|done]. by apply bool_decide_eq_true.
Qed.

(** C20: a key that was created is there after a restart. On a disk that works,
    with a DPAPI that accepts, the key that a successful first-run step leaves
    in memory is the key that [init] loads from that disk, byte for byte. When
    the database does not open, [init] gives up before it creates the HTTP
    client, and the [start] that the plugin calls next dereferences a null
    pointer. *)
Theorem restart_keeps_key `{!DPAPILaws} (w w' : World)
    (Hprot : forall v, (length v <= 43)%nat ->
       exists e, CryptProtectData v = Some e /\ Z.of_nat (length e) < 2 ^ 32)
    (Hdisk : events (fs w) = []) (Hk : hasMasterKey w = false) (Hr : bytes_ok (rand w))
    (Hrun : finishFirstRunKeys dir true w = (Ok CreatedNew, w')) :
  (forall w2 s d, fs w2 = fs w' -> LocalDb.open (db w2) = (Ok true, d) ->
     exists w3, init dir s w2 = (Ok tt, w3) /\ masterKey_ w3 = masterKey_ w' /\ hasMasterKey w3 = true) /\
  (forall w2 s d, has_api w2 = false -> running_ w2 = false ->
     LocalDb.open (db w2) = (Ok false, d) -> LocalDb.opened d = false ->
     (start dir (exec (init dir s) w2)).1 = Throw access_violation).
Proof.
  destruct (first_run_stored dir w w' Hprot Hdisk Hk Hr Hrun) as (Hev&Hmk&Hl&Hsec). split.
  - intros w2 s d Hfs Hop. unfold secret in Hsec. rewrite <- Hfs in Hsec, Hev.
    destruct (init_reads_key dir s w2 d (masterKey_ w') Hev Hop Hmk Hsec) as (w3&E3&Em).
    exists w3. split_and!; [done..|]. unfold hasMasterKey. apply bool_decide_eq_true. congruence.
  - intros w2 s d Ha Hru Hop Hcl.
    destruct (init_closed dir s w2 d Ha Hru Hop Hcl) as (w3&Ei&Ha3&Hr3&Hd3).
    unfold exec. rewrite Ei. by apply start_null.
Qed.
End engine.

Import Toy.

Definition fresh_world : World := world [] Toy.tables [] [].

Lemma master_key_safety_witness :
  let w1 := exec (finishFirstRunKeys data_dir true) fresh_world in
  hasMasterKey w1 = true /\
  masterKey_ (run data_dir OSignOut (run data_dir OWorker w1)) = masterKey_ w1.
Proof.
  cbv zeta. set (w1 := exec (finishFirstRunKeys data_dir true) fresh_world).
  split; [vm_compute; reflexivity|].
  refine (proj1 (master_key_safety data_dir w1 _ [OWorker; OSignOut] [] [] PairPending KeptExisting) _ _).
  - apply steps_op, steps_op, steps_nil.
  - repeat constructor.
Defined.


Lemma restart_keeps_key_witness :
  let w1 := exec (finishFirstRunKeys data_dir true) fresh_world in
  exists w3, init data_dir Toy.settings w1 = (Ok tt, w3) /\ masterKey_ w3 = masterKey_ w1 /\
    hasMasterKey w3 = true.
Proof.
  cbv zeta. set (w1 := exec (finishFirstRunKeys data_dir true) fresh_world).
  assert (LocalDb.open (db w1) = (Ok true, LocalDb.MkDb true Toy.tables [])) as Hop by (vm_compute; reflexivity).
  refine (proj1 (@restart_keeps_key ascii_text toy_cng wire_json toy_dpapi toy_time data_dir toy_dpapi_laws
    fresh_world w1 _ eq_refl eq_refl _ _) w1 Toy.settings _ eq_refl Hop).
  - intros v Hv. exists (1 :: v). split; [reflexivity|]. cbn [length]. lia.
  - decide_goal.
  - vm_compute. reflexivity.
Defined.

End EngineKeySpec.
