(* ===== verification/EngineFileSpec.v ===== *)
(** * EngineFileSpec: the claim about [writeFileAtomic]

    The write to a temporary file, its verification and the move, under every
    script of disk events. *)
From S2P Require Import Prelude Text Platform FileSystem Settings EngineState EngineSync.
Import EngineSync.EngineSync.
Import FileSystem FileSystemFacts.

#[local] Open Scope monad_scope.

Module EngineFileFacts.

(** The next event of the script. *)
Definition nth_event (i : nat) (s : Fs) : io := default Works (events s !! i).

Lemma next_io_run s : next_io s = (Ok (nth_event 0 s), MkFs (disk s) (dirs s) (drop 1 (events s))).
Proof. unfold next_io, nth_event. by destruct (events s). Qed.

(** Every operation is one event; the disk afterwards, and its result. *)
Definition step (s : Fs) (d : gmap wstr Bytes) : Fs := MkFs d (dirs s) (drop 1 (events s)).

Lemma open_run p s :
  ofstream_open p s =
  match nth_event 0 s with
  | Works => (Ok true, step s (<[p := []]> (disk s)))
  | _ => (Ok false, step s (disk s))
  end.
Proof. unfold ofstream_open, bind. rewrite next_io_run. by destruct (nth_event 0 s). Qed.

Lemma write_run p d s :
  ofstream_write p d s =
  match nth_event 0 s with
  | Works => (Ok true, step s (<[p := d]> (disk s)))
  | Refused => (Ok false, step s (disk s))
  | Partial a seen => (Ok seen, step s (<[p := a]> (disk s)))
  end.
Proof. unfold ofstream_write, bind. rewrite next_io_run. by destruct (nth_event 0 s). Qed.

Lemma read_run p s :
  readFileBytes p s =
  (Ok (match nth_event 0 s, disk s !! p with
       | Works, Some c => Some c | Partial a _, Some _ => Some a | _, _ => None end), step s (disk s)).
Proof. unfold readFileBytes, read_file, bind. rewrite next_io_run. by destruct (nth_event 0 s). Qed.

Lemma move_run a b s :
  MoveFileExW a b s =
  match nth_event 0 s, disk s !! a with
  | Works, Some c => (Ok true, step s (<[b := c]> (delete a (disk s))))
  | _, _ => (Ok false, step s (disk s))
  end.
Proof.
  unfold MoveFileExW, bind. rewrite next_io_run. unfold gets, modify, ret. cbn [disk].
  destruct (nth_event 0 s), (disk s !! a); done.
Qed.

Lemma delete_false p s :
  exists s', (DeleteFileW p ;; ret false) s = (Ok false, s') /\ forall q, q <> p -> disk s' !! q = disk s !! q.
Proof.
  pose proof (touches_DeleteFileW (fun q => q = p) p eq_refl s) as Ht. unfold bind.
  destruct (DeleteFileW p s) as [[r|e] s'] eqn:E; cbn [snd] in Ht.
  - exists s'. split; [done|]. intros q Hq. by apply Ht.
  - unfold DeleteFileW, bind in E. rewrite next_io_run in E. unfold gets, modify, ret in E. cbn [disk] in E.
    destruct (nth_event 0 s), (disk s !! p); discriminate E.
Qed.

Lemma tmp_path_ne p : tmp_path p <> p.
Proof. unfold tmp_path. intros E. apply (f_equal length) in E. rewrite length_app in E. simpl in E. lia. Qed.

Lemma nth_event_step i s d : nth_event i (step s d) = nth_event (S i) s.
Proof. unfold nth_event, step. cbn [events]. by rewrite lookup_drop. Qed.

(** The reading, comparing and moving half of [writeFileAtomic]. *)
Definition verify_and_move (absPath : wstr) (data : Bytes) : M Fs bool :=
  let* verify := readFileBytes (tmp_path absPath) in
  if negb (bool_decide (length <$> verify = Some (length data))) then DeleteFileW (tmp_path absPath) ;; ret false
  else
    let* moved := MoveFileExW (tmp_path absPath) absPath in
    if negb moved then DeleteFileW (tmp_path absPath) ;; ret false else ret true.

(** It moves the content [c] of the temporary file, or leaves the target. *)
Lemma verify_and_move_run abs data c s :
  disk s !! tmp_path abs = Some c ->
  exists b s', verify_and_move abs data s = (Ok b, s') /\
    disk s' !! abs = (if b then Some c else disk s !! abs) /\
    (forall q, q <> abs -> q <> tmp_path abs -> disk s' !! q = disk s !! q) /\
    (b = true -> nth_event 0 s = Works -> length c = length data) /\
    (nth_event 0 s = Works -> nth_event 1 s = Works -> length c = length data -> b = true).
Proof.
  intros Hc. pose proof (tmp_path_ne abs) as Hne. unfold verify_and_move. unfold bind at 1. rewrite read_run, Hc.
  cbv iota beta. match goal with |- context [bool_decide (length <$> ?x = _)] => set (v := x) end.
  assert (nth_event 0 s = Works -> v = Some c) as Hv by (unfold v; by intros ->).
  destruct (bool_decide_reflect (length <$> v = Some (length data))) as [Hl|Hl]; cbn [negb].
  2:{ destruct (delete_false (tmp_path abs) (step s (disk s))) as (s'&->&Hs'). exists false, s'.
      split_and!; [done|by apply Hs'|intros q _ Hq; by apply Hs'|done|].
      intros Hw _ Hlen. rewrite (Hv Hw) in Hl. cbn in Hl. congruence. }
  unfold bind at 1. rewrite move_run, nth_event_step. cbn [disk step]. rewrite Hc.
  assert (nth_event 0 s = Works -> length c = length data) as Hlc.
  { intros Hw. rewrite (Hv Hw) in Hl. cbn in Hl. congruence. }
  destruct (nth_event 1 s) eqn:E1; cbn [negb].
  - exists true. eexists. split; [reflexivity|]. cbn [disk step]. split_and!; [by rewrite lookup_insert_eq| |auto|done].
    intros q Hq1 Hq2. by rewrite lookup_insert_ne, lookup_delete_ne.
  - destruct (delete_false (tmp_path abs) (step (step s (disk s)) (disk s))) as (s'&->&Hs'). exists false, s'.
    split_and!; [done|by apply Hs'|intros q _ Hq; by apply Hs'|done|done].
  - destruct (delete_false (tmp_path abs) (step (step s (disk s)) (disk s))) as (s'&->&Hs'). exists false, s'.
    split_and!; [done|by apply Hs'|intros q _ Hq; by apply Hs'|done|done].
Qed.

(** The whole function, by the events of the script: the first is met by the
    opening, the second by the write when there is something to write. *)
Lemma writeFileAtomic_unfold abs data s :
  writeFileAtomic abs data s =
  match nth_event 0 s with
  | Works =>
      let s1 := step s (<[tmp_path abs := []]> (disk s)) in
      if bool_decide (data = []) then verify_and_move abs data s1
      else
        let s2 := step s1 (match nth_event 1 s with
                           | Works => <[tmp_path abs := data]> (disk s1)
                           | Partial a _ => <[tmp_path abs := a]> (disk s1)
                           | Refused => disk s1
                           end) in
        match nth_event 1 s with
        | Works | Partial _ true => verify_and_move abs data s2
        | _ => (DeleteFileW (tmp_path abs) ;; ret false) s2
        end
  | _ => (Ok false, step s (disk s))
  end.
Proof.
  unfold writeFileAtomic. cbv zeta. unfold bind at 1. rewrite open_run.
  destruct (nth_event 0 s) eqn:E0; [|done|done]. cbn [negb]. unfold bind at 1.
  case_bool_decide as Hd; [done|]. rewrite write_run, nth_event_step.
  destruct (nth_event 1 s) as [| |a [|]]; done.
Qed.
(** What [m], run in [s2], makes of a write that began in [s]: a Boolean, the
    old target when it is false, the new content when it is true and the disk at
    worst cut the write short and read back what is there; nothing else but
    the temporary file; true when everything works. *)
Definition all_or_nothing (abs : wstr) (data : Bytes) (s : Fs) (m : M Fs bool) (s2 : Fs) : Prop :=
  exists b s', m s2 = (Ok b, s') /\
    (b = false -> disk s' !! abs = disk s !! abs) /\
    (forall q, q <> abs -> q <> tmp_path abs -> disk s' !! q = disk s !! q) /\
    ((forall a seen, nth_event 1 s = Partial a seen -> a `prefix_of` data) ->
     nth_event (if bool_decide (data = []) then 1 else 2) s = Works ->
     b = true -> disk s' !! abs = Some data) /\
    (events s = [] -> b = true).

Lemma works_event s i e : nth_event i s = e -> e <> Works -> events s <> [].
Proof. intros <- Hn He. apply Hn. unfold nth_event. by rewrite He. Qed.

Lemma give_up_outcome abs data s s2 :
  (forall q, q <> tmp_path abs -> disk s2 !! q = disk s !! q) -> events s <> [] ->
  all_or_nothing abs data s (DeleteFileW (tmp_path abs) ;; ret false) s2.
Proof.
  intros Hs2 He. pose proof (tmp_path_ne abs) as Hne.
  destruct (delete_false (tmp_path abs) s2) as (s'&E&Hs'). exists false, s'. split; [exact E|].
  split_and!; [intros _; by rewrite Hs', Hs2|intros q Hq1 Hq2; by rewrite Hs', Hs2|done|done].
Qed.

(** The temporary file holds [c] when the comparison starts. *)
Lemma verify_outcome abs data c s s2 :
  (forall q, q <> tmp_path abs -> disk s2 !! q = disk s !! q) -> disk s2 !! tmp_path abs = Some c ->
  ((forall a seen, nth_event 1 s = Partial a seen -> a `prefix_of` data) -> c `prefix_of` data) ->
  (events s = [] -> c = data) ->
  (forall i, nth_event i s2 = nth_event (i + if bool_decide (data = []) then 1 else 2) s) ->
  all_or_nothing abs data s (verify_and_move abs data) s2.
Proof.
  intros Hs2 Hc Hpre Hw Hev. pose proof (tmp_path_ne abs) as Hne.
  destruct (verify_and_move_run abs data c s2 Hc) as (b&s'&E&Ha&Hq&Hlen&Hok).
  exists b, s'. split; [exact E|]. split_and!.
  - intros ->. rewrite Ha. by apply Hs2.
  - intros q Hq1 Hq2. by rewrite Hq, Hs2.
  - intros Hp He ->. rewrite Ha. f_equal. apply prefix_length_eq; [by apply Hpre|].
    rewrite Hlen; [done|done|]. by rewrite Hev.
  - intros He. apply Hok; [rewrite Hev; unfold nth_event; by rewrite He..|by rewrite Hw].
Qed.

Lemma all_or_nothing_run abs data s m m' s2 s2' :
  m s2 = m' s2' -> all_or_nothing abs data s m' s2' -> all_or_nothing abs data s m s2.
Proof. unfold all_or_nothing. by intros ->. Qed.

Lemma writeFileAtomic_outcome abs data s : all_or_nothing abs data s (writeFileAtomic abs data) s.
Proof.
  pose proof (writeFileAtomic_unfold abs data s) as Hun. cbv zeta in Hun.
  destruct (nth_event 0 s) eqn:E0.
  2,3: (exists false; eexists; split; [exact Hun|]; split_and!; try done; intros He;
        by apply (works_event s) in E0).
  set (s1 := step s (<[tmp_path abs := []]> (disk s))) in Hun.
  assert (forall q, q <> tmp_path abs -> disk s1 !! q = disk s !! q) as Hs1
    by (intros q Hq; by apply lookup_insert_ne).
  destruct (decide (data = [])) as [->|Hd].
  { rewrite bool_decide_true in Hun by done. eapply all_or_nothing_run; [exact Hun|].
    apply (verify_outcome abs [] []); try done; [apply lookup_insert_eq|].
    intros i. unfold s1. rewrite nth_event_step, bool_decide_true by done. f_equal. lia. }
  rewrite bool_decide_false in Hun by done. set (s2 := step s1 _) in Hun.
  assert (forall q, q <> tmp_path abs -> disk s2 !! q = disk s !! q) as Hs2.
  { intros q Hq. rewrite <- Hs1 by done. unfold s2. cbn [disk step].
    destruct (nth_event 1 s); [by apply lookup_insert_ne|done|by apply lookup_insert_ne]. }
  assert (forall i, nth_event i s2 = nth_event (i + if bool_decide (data = []) then 1 else 2) s) as Hev.
  { intros i. unfold s2, s1. rewrite !nth_event_step, bool_decide_false by done. f_equal. lia. }
  destruct (nth_event 1 s) as [| |a [|]] eqn:E1; (eapply all_or_nothing_run; [exact Hun|]).
  - apply (verify_outcome abs data data); try done. apply lookup_insert_eq.
  - apply give_up_outcome; [done|]. by apply (works_event s) in E1.
  - apply (verify_outcome abs data a); try done; [apply lookup_insert_eq|intros Hp; by eapply Hp|].
    intros He. by apply (works_event s) in E1.
  - apply give_up_outcome; [done|]. by apply (works_event s) in E1.
Qed.

(** On a disk that works. *)
Lemma writeFileAtomic_works abs data s :
  events s = [] -> exists s', writeFileAtomic abs data s = (Ok true, s') /\ disk s' !! abs = Some data /\
    forall q, q <> abs -> q <> tmp_path abs -> disk s' !! q = disk s !! q.
Proof.
  intros He. destruct (writeFileAtomic_outcome abs data s) as (b&s'&E&_&Hq&Hd&Hb).
  rewrite (Hb He) in *. exists s'. split_and!; [done| |done]. apply Hd; [| |done]; unfold nth_event; by rewrite He.
Qed.
End EngineFileFacts.

(** * The claims *)

Module EngineFileSpec.
Import EngineFileFacts.

(** C8: [writeFileAtomic] is all or nothing. It always returns; when it
    returns false the target is what it was; when it returns true the target
    holds exactly the new content, provided the disk at worst cuts the write
    short (noticed by the stream or not) and reads back what is there. No other
    file but the temporary one changes, and on a disk that works it succeeds.
    The read-back compares sizes only: bytes that arrive wrong but complete are
    installed and reported as success. *)
Theorem writeFileAtomic_all_or_nothing (abs : wstr) (data : Bytes) (s : Fs) :
  (exists b s', writeFileAtomic abs data s = (Ok b, s') /\
     (b = false -> disk s' !! abs = disk s !! abs) /\
     (forall q, q <> abs -> q <> tmp_path abs -> disk s' !! q = disk s !! q) /\
     ((forall a seen, nth_event 1 s = Partial a seen -> a `prefix_of` data) ->
      nth_event (if bool_decide (data = []) then 1 else 2) s = Works ->
      b = true -> disk s' !! abs = Some data) /\
     (events s = [] -> b = true)) /\
  (forall wrong, data <> [] -> length wrong = length data ->
     exists s', writeFileAtomic abs data (MkFs (disk s) (dirs s) [Works; Partial wrong true]) = (Ok true, s') /\
       disk s' !! abs = Some wrong).
Proof.
  split; [exact (writeFileAtomic_outcome abs data s)|].
  intros wrong Hd Hl. rewrite writeFileAtomic_unfold. cbn [nth_event events lookup list_lookup default from_option id].
  rewrite bool_decide_false by done. cbv zeta.
  match goal with |- context [verify_and_move abs data ?x] => set (s2 := x) end.
  destruct (verify_and_move_run abs data wrong s2) as (b&s'&->&Ha&_&_&Hok); [apply lookup_insert_eq|].
  rewrite (Hok eq_refl eq_refl Hl) in *. by exists s'.
Qed.

Lemma writeFileAtomic_all_or_nothing_witness :
  let s := MkFs {[lit "C:\a.md" := lit "old"]} ∅ [Works; Partial (lit "ne") true] in
  exists s', writeFileAtomic (lit "C:\a.md") (lit "new") s = (Ok false, s') /\
    disk s' !! lit "C:\a.md" = Some (lit "old").
Proof.
  cbv zeta. set (s := MkFs {[lit "C:\a.md" := lit "old"]} ∅ [Works; Partial (lit "ne") true]).
  destruct (writeFileAtomic_all_or_nothing (lit "C:\a.md") (lit "new") s) as [(b&s'&E&Hb&_) _].
  assert (b = false) as -> by (apply (f_equal fst) in E; vm_compute in E; congruence).
  exists s'. split; [exact E|]. rewrite (Hb eq_refl). vm_compute. reflexivity.
Defined.

End EngineFileSpec.
