(* ===== verification/EngineSyncSpec.v ===== *)
(** * EngineSyncSpec: the claims about uploads, downloads and the queue

    What an attempt does to its entry in the queue, and what a receiver makes of
    the metadata of an upload. *)
From S2P Require Import Prelude Text VersionVector Merge Platform PathUtil IgnoreRules Crypto.
From S2P Require Import KeySetup LocalDb ApiClient FolderWatcher FileSystem Settings.
From S2P Require Import EngineState EngineKeys EngineSync EngineRun EngineFacts EngineFrame.
From S2P Require Import EngineSpec.
Import EngineState.Engine EngineKeys.EngineKeys EngineSync.EngineSync EngineRun.EngineRun.
Import EngineFacts.EngineFacts.
Import FileSystem FileSystemFacts.
Import PathUtil(utf8ToWide, wideToUtf8).
Import LocalDb(Db, PendingOp).

#[local] Open Scope monad_scope.

Module EngineSyncFacts.

Section engine.
Context `{Win32Text} `{CNG} `{Json} `{DPAPI} `{LocalTime}.
Context (dir : wstr).

(** The metadata of a payload: the key, encrypted under the master key. *)
Lemma buildFilePayload_meta relPath plaintext bv vv w pl w' :
  buildFilePayload relPath plaintext bv vv w = (Ok pl, w') ->
  exists text env r r', json_dump (JObj [(lit "relative_path", JStr relPath)]) = Ok text /\
    (exists pre, rand w = pre ++ r) /\ Crypto.encrypt (masterKey_ w) text (lit "metadata") r = (Ok env, r') /\
    forall d, value_str (p_json pl) (lit "encrypted_metadata") d = Ok (Crypto.base64UrlEncode env).
Proof.
  unfold buildFilePayload. intros (mk&w0&[-> ->]%gets_Ok&Hb)%bind_Ok.
  apply bind_Ok in Hb as (enc&w1&(r1&Henc&->)%zoom_Ok&Hb).
  apply bind_Ok in Hb as (text&w2&[Ht ->]%lift_Ok&Hb).
  apply bind_Ok in Hb as (env&w3&(r2&Henv&->)%zoom_Ok&Hb).
  apply bind_Ok in Hb as (st&w4&_&Hb). apply bind_Ok in Hb as (fid&w5&_&Hb).
  apply bind_Ok in Hb as (dev&w6&_&Hb). apply bind_Ok in Hb as (ch&w7&_&Hb).
  apply bind_Ok in Hb as (vj&w8&_&Hb). apply bind_Ok in Hb as (ph&w9&_&Hb).
  apply bind_Ok in Hb as (k&w10&_&Hb). apply ret_Ok in Hb as [-> _].
  exists text, env, r1, r2. split_and!; [done| |done|].
  - clear -Henc. revert Henc. unfold Crypto.encrypt. intros (n&r&Hr&Hx)%bind_Ok.
    apply CryptoFacts.random_Ok in Hr as (_&E&_). apply bind_Ok in Hx as ([ct tag]&r2'&[_ ->]%lift_Ok&Hx).
    apply ret_Ok in Hx as [_ ->]. by exists n.
  - intros d. reflexivity.
Qed.

(** Which keys the engine uses for the files of a folder. *)
Lemma locate_folder_key roots p key root :
  locate_folder roots p = Ok (Some (Some (key, root))) ->
  exists id rel norm, key = id ++ [COLON] ++ norm /\ PathUtil.normalizeRelative rel = (true, norm).
Proof.
  induction roots as [|[id r] roots IH]; [done|]. cbn [locate_folder].
  destruct (PathUtil.isInsideRoot r p); [|exact IH]. intros (rel&_&E)%obind_Ok.
  destruct (PathUtil.normalizeRelative (wideToUtf8 (trim_left is_slash rel))) as [[|] norm] eqn:En; [|done].
  assert (key = id ++ [COLON] ++ norm) as -> by congruence. eauto.
Qed.
End engine.

(** ** The queue during an attempt *)

Definition queue (w : World) : list PendingOp := LocalDb.pending_ops (LocalDb.tables (db w)).

Definition healthy (w : World) : Prop := LocalDbFacts.healthy (db w).

Definition same_queue (d d' : Db) : Prop :=
  (LocalDbFacts.healthy d -> LocalDbFacts.healthy d') /\
  LocalDb.pending_ops (LocalDb.tables d') = LocalDb.pending_ops (LocalDb.tables d).

#[local] Instance same_queue_pre : PreOrder same_queue.
Proof.
  split; [by split|]. intros a b c [A1 A2] [B1 B2]. split; [auto|congruence].
Qed.

Lemma health_stmt_opt upd d : LocalDbFacts.healthy d -> LocalDbFacts.healthy (LocalDb.stmt_opt upd d).2.
Proof.
  intros Hd. unfold LocalDb.stmt_opt. rewrite (LocalDbFacts.he_open _ Hd). cbn [negb].
  destruct (LocalDb.next_fault d), (upd (LocalDb.tables d)); by apply LocalDbFacts.healthy_step.
Qed.

Lemma health_query {A} (rows : LocalDb.Tables -> list A) d :
  LocalDbFacts.healthy d -> LocalDbFacts.healthy (LocalDb.query rows d).2.
Proof. intros Hd. rewrite LocalDbFacts.healthy_query by done. by apply LocalDbFacts.healthy_step. Qed.

Lemma db_ok_query {A} (rows : LocalDb.Tables -> list A) : EngineFrame.db_ok same_queue (LocalDb.query rows).
Proof.
  intros d. destruct (LocalDb.query rows d) as [r d'] eqn:E.
  pose proof (LocalDbFacts.query_tables _ _ _ _ E) as Et. cbn [snd]. rewrite Et. split; [done|]. split; [|by rewrite Et].
  intros Hd. apply (health_query rows) in Hd. by rewrite E in Hd.
Qed.

Lemma db_ok_stmt (f : LocalDb.Tables -> LocalDb.Tables) :
  (forall t, LocalDb.sync_roots (f t) = LocalDb.sync_roots t /\ LocalDb.pending_ops (f t) = LocalDb.pending_ops t) ->
  EngineFrame.db_ok same_queue (LocalDb.stmt f).
Proof.
  intros Hf d. unfold LocalDb.stmt. destruct (LocalDb.stmt_opt _ d) as [r d'] eqn:E.
  pose proof (LocalDbFacts.stmt_opt_cases _ _ _ _ E) as [_ Ht]. cbn [snd].
  assert (LocalDbFacts.healthy d -> LocalDbFacts.healthy d') as Hh
    by (intros Hd; eapply health_stmt_opt in Hd; by rewrite E in Hd).
  destruct (Hf (LocalDb.tables d)) as [F1 F2].
  unfold same_queue. destruct Ht as [Ht|[= Ht]]; rewrite <- ?Ht; [by rewrite Ht|]. by rewrite F1, F2.
Qed.

Section attempts.
Context `{Win32TextLaws} `{CNG} `{Json} `{DPAPI} `{LocalTime}.
Context (dir : wstr).

Definition anywhere (_ : wstr) : Prop := True.
Abbreviation attempt := (EngineFrame.spec anywhere same_queue (fun _ => True)).

Lemma attempt_kept {A} (m : M World A) w r w' :
  attempt m -> m w = (r, w') -> (healthy w -> healthy w') /\ queue w' = queue w.
Proof.
  intros Hm E. destruct (Hm w (fun _ _ => I)) as [[_ _ [Hh Hq]] _]. rewrite E in Hh, Hq. by split.
Qed.

Lemma attempt_upload p abs : attempt (uploadFile dir p abs).
Proof.
  apply EngineFrame.safe_uploadFile; try done; try apply same_queue_pre;
    try (intros; apply db_ok_query || (apply db_ok_stmt; done)).
  exists []. split; [|done]. by eexists.
Qed.

Lemma attempt_delete p : attempt (deleteRemote dir p).
Proof.
  apply EngineFrame.safe_deleteRemote; try done; try apply same_queue_pre; try (intros; apply db_ok_query || (apply db_ok_stmt; done)).
Qed.

Lemma attempt_locate p : attempt (absPathForRel p).
Proof.
  apply EngineFrame.safe_absPathForRel; try done; try apply same_queue_pre; try (intros; apply db_ok_query || (apply db_ok_stmt; done)).
Qed.

(** One more failure of an operation. *)
Definition failed (id : Z) (err : str) (q : list PendingOp) : list PendingOp :=
  map (fun o => if LocalDb.op_id o =? id
                then LocalDb.MkOp (LocalDb.op_id o) (LocalDb.op_kind o) (LocalDb.op_relPath o)
                       (LocalDb.op_newRelPath o) (LocalDb.op_queuedAt o) (LocalDb.op_retryCount o + 1)
                       (c_str err)
                else o) q.

Definition without (id : Z) (q : list PendingOp) : list PendingOp := filter (fun o => LocalDb.op_id o <> id) q.

Lemma without_failed id err q : without id (failed id err q) = without id q.
Proof.
  induction q as [|o q IH]; [done|]. unfold without, failed in *. cbn [map]. rewrite !filter_cons, IH.
  destruct (Z.eqb_spec (LocalDb.op_id o) id) as [E|E]; [|done].
  cbn [LocalDb.op_id]. rewrite !decide_False by tauto. done.
Qed.

Lemma on_db_stmt (f : LocalDb.Tables -> LocalDb.Tables) w :
  healthy w -> exists w', on_db (LocalDb.stmt f) w = (Ok true, w') /\ healthy w' /\
    LocalDb.tables (db w') = f (LocalDb.tables (db w)) /\ online_ w' = online_ w.
Proof.
  intros Hw. unfold on_db, zoom. rewrite LocalDbFacts.healthy_stmt by exact Hw. eexists. split; [reflexivity|].
  split_and!; [by apply LocalDbFacts.healthy_step|done|done].
Qed.

(** The outcome of an attempt, on a healthy database. *)
Lemma finish_op_run op ok err w :
  healthy w -> exists w', finish_op op (ok, err) w = (Ok ok, w') /\ healthy w' /\
    (if ok then queue w' = without (LocalDb.op_id op) (queue w)
     else if bool_decide (err = lit "offline") then online_ w' = false /\ queue w' = queue w
     else queue w' = (if 25 <? LocalDb.op_retryCount op then without (LocalDb.op_id op) (queue w)
                      else failed (LocalDb.op_id op) err (queue w))).
Proof.
  intros Hw. unfold finish_op. cbn [fst snd]. unfold LocalDb.removeOp, LocalDb.markOpFailed. destruct ok.
  - destruct (on_db_stmt (LocalDb.set_ops (filter (fun o => LocalDb.op_id o <> LocalDb.op_id op))) w Hw)
      as (w1&E1&H1'&Et&_). erewrite bind_run by exact E1. exists w1. split_and!; [done..|]. unfold queue. by rewrite Et.
  - case_bool_decide; [by eexists|].
    match goal with |- context [on_db (LocalDb.stmt (LocalDb.set_ops (map ?f)))] =>
      destruct (on_db_stmt (LocalDb.set_ops (map f)) w Hw) as (w1&E1&Hw1&Et&_) end.
    erewrite bind_run by exact E1. destruct (25 <? LocalDb.op_retryCount op).
    + destruct (on_db_stmt (LocalDb.set_ops (filter (fun o => LocalDb.op_id o <> LocalDb.op_id op))) w1 Hw1)
        as (w2&E2&Hw2&Et2&_). unfold bind at 1. erewrite bind_run by exact E2. exists w2. split_and!; [done..|].
      unfold queue. rewrite Et2, Et. cbn [LocalDb.set_ops LocalDb.pending_ops].
      apply (without_failed (LocalDb.op_id op) err).
    + exists w1. split_and!; [done..|]. unfold queue. by rewrite Et.
Qed.

(** What became of the operation, on a healthy database. *)
Definition attempted (op : PendingOp) (w w' : World) (r : outcome bool) : Prop :=
  match r with
  | Ok true => queue w' = without (LocalDb.op_id op) (queue w)
  | Ok false =>
      (online_ w' = false /\ queue w' = queue w) \/
      exists err, err <> lit "offline" /\
        queue w' = (if 25 <? LocalDb.op_retryCount op then without (LocalDb.op_id op) (queue w)
                    else failed (LocalDb.op_id op) err (queue w))
  | Throw _ => queue w' = queue w
  end.

Lemma attempted_finish op x w w1 w' r :
  finish_op op x w1 = (r, w') -> healthy w1 -> queue w1 = queue w -> attempted op w w' r /\ healthy w'.
Proof.
  destruct x as [ok err]. intros E Hw1 Hq. destruct (finish_op_run op ok err w1 Hw1) as (w2&E2&Hw2&Hc).
  rewrite E2 in E. injection E as <- <-. rewrite Hq in Hc. split; [|done]. destruct ok; [done|]. cbn [attempted].
  case_bool_decide; [by left|right; eauto].
Qed.

Lemma attempted_dropped op w w1 w' r :
  (on_db (LocalDb.removeOp (LocalDb.op_id op)) ;; ret true) w1 = (r, w') -> healthy w1 -> queue w1 = queue w ->
  attempted op w w' r /\ healthy w'.
Proof.
  intros E Hw1 Hq. unfold LocalDb.removeOp in E.
  destruct (on_db_stmt (LocalDb.set_ops (filter (fun o => LocalDb.op_id o <> LocalDb.op_id op))) w1 Hw1)
    as (w2&E2&Hw2&Et&_). erewrite bind_run in E by exact E2. injection E as <- <-. split; [|done].
  unfold attempted, queue in *. by rewrite Et, <- Hq.
Qed.

Lemma process_attempted op w w' r : healthy w -> processPendingOp dir op w = (r, w') ->
  attempted op w w' r /\ healthy w'.
Proof.
  unfold processPendingOp. cbv zeta. intros Hw. destruct (bool_decide (LocalDb.op_kind op = lit "upload")).
  - unfold bind at 1. destruct (absPathForRel (LocalDb.op_relPath op) w) as [[o|e] w1] eqn:E1;
      apply attempt_kept in E1 as [Hh1 Hq1]; try apply attempt_locate; [|intros [= <- <-]; auto].
    destruct o as [abs|]; [|intros E; apply (attempted_dropped op w) in E; auto].
    unfold bind at 1. destruct (uploadFile dir (LocalDb.op_relPath op) abs w1) as [[x|e] w2] eqn:E2;
      apply attempt_kept in E2 as [Hh2 Hq2]; try apply attempt_upload.
    + intros E. eapply attempted_finish; [exact E|auto|congruence].
    + intros [= <- <-]. split; [cbn; congruence|auto].
  - destruct (bool_decide (LocalDb.op_kind op = lit "delete")); [|intros E; by apply (attempted_dropped op w) in E].
    unfold bind at 1. destruct (deleteRemote dir (LocalDb.op_relPath op) w) as [[x|e] w2] eqn:E2;
      apply attempt_kept in E2 as [Hh2 Hq2]; try apply attempt_delete.
    + intros E. eapply attempted_finish; [exact E|auto|congruence].
    + intros [= <- <-]. split; [cbn; congruence|auto].
Qed.
End attempts.

End EngineSyncFacts.

Module EngineSyncSpec.
Import EngineSyncFacts.

Section engine.
Context `{Win32Text} `{CNGLaws} `{JsonLaws} `{DPAPI} `{LocalTime}.
Context (dir : wstr).

(** C31: the metadata that one device uploads for a file in a synced
    folder, of a path below it in plain ASCII, is rejected by every other device.
    The payload carries the local key, root id and colon included, where the
    receiver expects a plain relative path: whenever the receiver fetches the file with the same master key,
    [applyRemoteFile] stops with "remote path rejected", having changed nothing
    but what the request itself changes. So a new file never arrives. *)
Theorem uploaded_path_rejected (roots : list (str * wstr)) (p root : wstr) (key id : str)
    (plaintext : Bytes) (bv version : Z) (vv : VersionVector.t) (isDeleted : bool)
    (w1 w1' w2 w3 : World) (pl : Payload) (r : ApiClient.ApiResponse)
    (Hkey : locate_folder roots p = Ok (Some (Some (key, root)))) (Hascii : ascii_str key)
    (Hbuild : buildFilePayload key plaintext bv vv w1 = (Ok pl, w1')) (Hrand : bytes_ok (rand w1))
    (Hsame : masterKey_ w2 = masterKey_ w1)
    (Hfetch : on_api dir (ApiClient.getFile id) w2 = (Ok r, w3))
    (Hr : ApiClient.transportOk r = true /\ ApiClient.status r = 200)
    (Hversion : value_int64 (ApiClient.body r) (lit "version") 0 = Ok version)
    (Hdeleted : value_bool (ApiClient.body r) (lit "deleted") false = Ok isDeleted)
    (Hmeta : value_str (ApiClient.body r) (lit "encrypted_metadata") [] =
             value_str (p_json pl) (lit "encrypted_metadata") []) :
  applyRemoteFile dir id w2 = (Ok (false, lit "remote path rejected"), put_online true w3).
Proof.
  destruct (locate_folder_key _ _ _ _ Hkey) as (rid&rel&norm&Ekey&Hnorm).
  destruct (buildFilePayload_meta _ _ _ _ _ _ _ Hbuild) as (text&env&r1&r2&Ht&[pre Er]&Henv&Hm).
  assert (ascii_json (JObj [(lit "relative_path", JStr key)])) as Ha by (simpl; split_and!; [decide_goal|done|done]).
  destruct (json_round_trip (JObj [(lit "relative_path", JStr key)]) Ha) as (t&Et&Hbt&_&Hp); [done|].
  assert (t = text) as -> by congruence.
  assert (bytes_ok env) as Hbe.
  { eapply CryptoFacts.encrypt_bytes; [exact Henv|done|]. unfold bytes_ok in *. rewrite Er in Hrand.
    by apply Forall_app in Hrand as [_ ?]. }
  assert (masterKey_ w3 = masterKey_ w1) as Em.
  { rewrite <- Hsame. eapply (keeps_Ok masterKey_); [|exact Hfetch]. by apply keeps_on_api. }
  unfold applyRemoteFile. erewrite bind_run by exact Hfetch. destruct Hr as [-> ->]. cbn [negb].
  unfold set_online. unfold bind at 1, modify at 1. cbn [Z.eqb Pos.eqb negb].
  unfold bind at 1, lift at 1. rewrite Hversion. unfold bind at 1, lift at 1. rewrite Hdeleted.
  assert (remote_path (ApiClient.body r) (put_online true w3) =
    (Ok (inl (lit "remote path rejected")), put_online true w3)) as Hpath.
  { unfold remote_path. unfold bind at 1, lift at 1. rewrite Hmeta, Hm.
    rewrite CryptoFacts.base64_round_trip by done. unfold bind at 1, gets at 1. cbn [masterKey_ put_online].
    unfold bind at 1, lift at 1. rewrite Em, (CryptoFacts.decrypt_encrypt _ _ _ _ _ _ Henv), Hp.
    unfold bind at 1, lift at 1. cbn [value_str value member].
    rewrite decide_True by done. cbn [get_str].
    pose proof (PathUtilFacts.normalizeRelative_colon rid rel norm Hnorm) as Hn. rewrite <- Ekey in Hn.
    destruct (PathUtil.normalizeRelative key) as [[|] out]; [discriminate Hn|done]. }
  erewrite bind_run by exact Hpath. reflexivity.
Qed.
End engine.

Section queue.
Context `{Win32TextLaws} `{CNG} `{Json} `{DPAPI} `{LocalTime}.
Context (dir : wstr).

(** C9: what one attempt does to the offline queue. On a healthy database,
    [processPendingOp] removes the operation when it reports success, and
    leaves the rest of the queue in order. An attempt that fails because the
    server cannot be reached changes nothing in the queue and counts no retry.
    Any other failure counts one retry and records the error, until the
    operation has been tried more than 26 times: then it is dropped, which is
    silent, the error that was recorded going with it. An exception leaves the
    queue alone. *)
Theorem attempt_keeps_queue (op : PendingOp) (w w' : World) (r : outcome bool)
    (Hw : healthy w) (Hrun : processPendingOp dir op w = (r, w')) :
  match r with
  | Ok true => queue w' = without (LocalDb.op_id op) (queue w)
  | Ok false =>
      (online_ w' = false /\ queue w' = queue w) \/
      exists err, err <> lit "offline" /\
        queue w' = (if 25 <? LocalDb.op_retryCount op then without (LocalDb.op_id op) (queue w)
                    else failed (LocalDb.op_id op) err (queue w))
  | Throw _ => queue w' = queue w
  end.
Proof. by destruct (process_attempted _ _ _ _ _ Hw Hrun). Qed.
End queue.

Import Toy.

(** A file of one device, as the server hands it to another. *)
Definition upload_world : World := world [(note_path, lit "hello")] Toy.tables Toy.key [].

Definition built : Payload :=
  match (buildFilePayload note_key (lit "hello") 0 VersionVector.empty upload_world).1 with
  | Ok p => p | Throw _ => MkPayload JNull JNull [] end.

Definition receiver : World := world [] Toy.tables Toy.key [reply (p_json built)].

Lemma uploaded_path_rejected_witness :
  (applyRemoteFile data_dir (lit "f-1") receiver).1 = Ok (false, lit "remote path rejected").
Proof.
  set (b := buildFilePayload note_key (lit "hello") 0 VersionVector.empty upload_world).
  set (f := on_api data_dir (ApiClient.getFile (lit "f-1")) receiver).
  assert (f = (f.1, f.2)) as Ef by apply surjective_pairing.
  set (resp := match f.1 with Ok r => r | Throw _ => ApiClient.no_response [] end).
  assert (f.1 = Ok resp) as Er.
  { assert (match f.1 with Ok _ => true | Throw _ => false end = true) as Hok by (vm_compute; reflexivity).
    unfold resp. destruct (f.1); [reflexivity|discriminate Hok]. }
  rewrite (@uploaded_path_rejected ascii_text toy_cng toy_cng_laws wire_json wire_json_laws toy_dpapi toy_time data_dir
    [(lit "r1", lit "C:\notes")] note_path (lit "C:\notes") note_key (lit "f-1") (lit "hello") 0 0
    VersionVector.empty false upload_world b.2 receiver f.2 built resp); [reflexivity|..].
  - vm_compute. reflexivity.
  - decide_goal.
  - assert (b.1 = Ok built) as <- by (vm_compute; reflexivity). apply surjective_pairing.
  - decide_goal.
  - reflexivity.
  - rewrite <- Er. exact Ef.
  - split; vm_compute; reflexivity.
  - vm_compute. reflexivity.
  - vm_compute. reflexivity.
  - vm_compute. reflexivity.
Defined.


(** A queued save and a server that cannot be reached. *)
Definition queued_op (retries : Z) : PendingOp := LocalDb.MkOp 5 (lit "upload") note_key [] 900 retries [].

Definition queue_world (retries : Z) (replies : list ApiClient.HttpReply) : World :=
  world [(note_path, lit "hello")]
    (LocalDb.MkTables ∅ (LocalDb.sync_roots Toy.tables) [] [queued_op retries] 5 []) Toy.key replies.

Lemma attempt_keeps_queue_witness :
  let w := queue_world 3 [ApiClient.SendFailed 12029] in
  let out := processPendingOp data_dir (queued_op 3) w in
  out.1 = Ok false /\ online_ out.2 = false /\ queue out.2 = [queued_op 3] /\
  queue (processPendingOp data_dir (queued_op 26) (queue_world 26 [reply JNull])).2 = [queued_op 26] /\
  queue (processPendingOp data_dir (queued_op 26) (queue_world 26 [ApiClient.Reply 500 []
    (match json_dump (JObj []) with Ok t => t | Throw _ => [] end)])).2 = [].
Proof.
  cbv zeta. set (out := processPendingOp data_dir (queued_op 3) _).
  assert (out.1 = Ok false) as E1 by (vm_compute; reflexivity).
  split; [exact E1|].
  assert (healthy (queue_world 3 [ApiClient.SendFailed 12029])) as Hh by (split; [done|constructor]).
  pose proof (@attempt_keeps_queue ascii_text ascii_text_laws toy_cng wire_json toy_dpapi toy_time data_dir
    (queued_op 3) (queue_world 3 [ApiClient.SendFailed 12029]) out.2 out.1 Hh (surjective_pairing out)) as Hc.
  rewrite E1 in Hc. assert (online_ out.2 = false) as E2 by (vm_compute; reflexivity).
  assert (queue out.2 = [queued_op 3]) as E3.
  { destruct Hc as [[_ Hq]|(err&_&Hq)]; [rewrite Hq; reflexivity|]. exfalso.
    apply (f_equal (map LocalDb.op_retryCount)) in Hq. vm_compute in Hq. discriminate Hq. }
  split; [exact E2|]. split; [exact E3|]. split; vm_compute; reflexivity.
Defined.

End EngineSyncSpec.
