(* ===== verification/EngineEventSpec.v ===== *)
(** * EngineEventSpec: the claims about the change feed and the watcher's events

    On a database that works: where the cursor stands after a pull, and what each
    event puts into the queue. *)
From S2P Require Import Prelude Text VersionVector Merge Platform PathUtil IgnoreRules Crypto.
From S2P Require Import KeySetup LocalDb ApiClient FolderWatcher FileSystem Settings.
From S2P Require Import EngineState EngineKeys EngineSync EngineRun EngineFacts EngineFrame.
From S2P Require Import EngineSpec EngineSyncSpec.
Import EngineState.Engine EngineKeys.EngineKeys EngineSync.EngineSync EngineRun.EngineRun.
Import EngineFacts.EngineFacts EngineSyncSpec.EngineSyncFacts.
Import FileSystem FileSystemFacts.
Import PathUtil(utf8ToWide, wideToUtf8).
Import LocalDb(Db, PendingOp).
Import FolderWatcher(FsEvent).

#[local] Open Scope monad_scope.

Module EngineEventFacts.

Definition tables_of (w : World) : LocalDb.Tables := LocalDb.tables (db w).

(** A query on a healthy database: its rows, and nothing else. *)
Definition calm (w w' : World) : Prop :=
  exists d, w' = put_db d w /\ LocalDbFacts.healthy d /\ LocalDb.tables d = tables_of w.

Lemma calm_refl w : healthy w -> calm w w.
Proof. intros Hw. exists (db w). split_and!; [by destruct w|done|done]. Qed.

Lemma calm_trans w1 w2 w3 : calm w1 w2 -> calm w2 w3 -> calm w1 w3.
Proof. intros (d1&->&_&E1) (d2&->&H2&E2). exists d2. split_and!; [done|done|]. by rewrite E2. Qed.

Lemma calm_healthy w w' : calm w w' -> healthy w'.
Proof. by intros (d&->&Hd&_). Qed.

Lemma calm_tables w w' : calm w w' -> tables_of w' = tables_of w.
Proof. intros (d&->&_&E). exact E. Qed.

Lemma on_db_query {A} (rows : LocalDb.Tables -> list A) w :
  healthy w -> exists w', on_db (LocalDb.query rows) w = (Ok (rows (tables_of w)), w') /\ calm w w'.
Proof.
  intros Hw. unfold on_db, zoom. rewrite LocalDbFacts.healthy_query by exact Hw. eexists. split; [reflexivity|].
  eexists. split; [reflexivity|]. split; [by apply LocalDbFacts.healthy_step|done].
Qed.

(** A statement on a healthy database. *)
Lemma on_db_stmt_opt (upd : LocalDb.Tables -> option LocalDb.Tables) t w :
  healthy w -> upd (tables_of w) = Some t ->
  exists d, on_db (LocalDb.stmt_opt upd) w = (Ok true, put_db d w) /\ LocalDbFacts.healthy d /\ LocalDb.tables d = t.
Proof.
  intros Hw Hu. assert (LocalDb.stmt_opt upd (db w) = (Ok true, LocalDb.MkDb true t (drop 1 (LocalDb.faults (db w))))) as E.
  { apply LocalDbFacts.stmt_opt_true. split_and!; [apply Hw|by apply LocalDbFacts.healthy_next|eauto]. }
  unfold on_db, zoom. rewrite E. eexists. split; [reflexivity|]. split; [by apply LocalDbFacts.healthy_step|done].
Qed.

Section engine.
Context `{Win32Text} `{CNG} `{Json} `{DPAPI} `{LocalTime}.
Context (dir : wstr).

Definition folders (t : LocalDb.Tables) : list (str * wstr) :=
  map (fun r => (LocalDb.r_id r, utf8ToWide (LocalDb.r_abs_path r)))
    (filter (fun r => LocalDb.r_is_folder r = true) (LocalDb.sync_roots t)).

Definition single_files (t : LocalDb.Tables) : list (str * wstr) :=
  map (fun r => (LocalDb.r_id r, utf8ToWide (LocalDb.r_abs_path r)))
    (filter (fun r => LocalDb.r_is_folder r = false) (LocalDb.sync_roots t)).

(** [locateInRoots] as a function of the tables. *)
Definition located (t : LocalDb.Tables) (p : wstr) : outcome (option (str * wstr)) :=
  match locate_folder (folders t) p with
  | Ok (Some r) => Ok r
  | Ok None => Ok (locate_file (single_files t) p)
  | Throw e => Throw e
  end.

Lemma listSyncRoots_run w : healthy w -> exists w', listSyncRoots w = (Ok (folders (tables_of w)), w') /\ calm w w'.
Proof.
  intros Hw. unfold listSyncRoots, LocalDb.listSyncRoots, LocalDb.list_roots.
  match goal with |- context [LocalDb.query ?r] => destruct (on_db_query r w Hw) as (w'&E&Hc) end.
  exists w'. split; [|done]. erewrite bind_run by exact E. unfold folders, ret. by rewrite map_map.
Qed.

Lemma listSyncFiles_run w :
  healthy w -> exists w', listSyncFiles w = (Ok (single_files (tables_of w)), w') /\ calm w w'.
Proof.
  intros Hw. unfold listSyncFiles, LocalDb.listSyncFiles, LocalDb.list_roots.
  match goal with |- context [LocalDb.query ?r] => destruct (on_db_query r w Hw) as (w'&E&Hc) end.
  exists w'. split; [|done]. erewrite bind_run by exact E. unfold single_files, ret. by rewrite map_map.
Qed.

Lemma locateInRoots_run p w :
  healthy w -> exists w', locateInRoots p w = (located (tables_of w) p, w') /\ calm w w'.
Proof.
  intros Hw. unfold locateInRoots, located. destruct (listSyncRoots_run w Hw) as (w1&E1&Hc1).
  erewrite bind_run by exact E1. unfold bind at 1, lift at 1.
  destruct (locate_folder (folders (tables_of w)) p) as [[r|]|e]; [by exists w1| |by exists w1].
  destruct (listSyncFiles_run w1 (calm_healthy _ _ Hc1)) as (w2&E2&Hc2).
  erewrite bind_run by exact E2. rewrite (calm_tables _ _ Hc1). exists w2. split; [done|]. by eapply calm_trans.
Qed.

(** The queue with one more operation: it replaces those of the same kind for
    the same path. *)
Definition enqueued (kind rel : str) (now : Z) (t : LocalDb.Tables) : list PendingOp :=
  filter (fun o => ~ (LocalDb.op_relPath o = c_str rel /\ LocalDb.op_kind o = c_str kind))
    (LocalDb.pending_ops t)
  ++ [LocalDb.MkOp (LocalDb.seq t + 1) (c_str kind) (c_str rel) [] now 0 []].

Definition room (w : World) : Prop := LocalDb.seq (tables_of w) < INT64_MAX.

Lemma enqueue_run kind rel w :
  healthy w -> room w -> exists w', enqueue kind rel w = (Ok true, w') /\ healthy w' /\
    queue w' = enqueued kind rel (clock w) (tables_of w).
Proof.
  intros Hw Hr. unfold enqueue, LocalDb.enqueueOp. unfold bind at 1, gets at 1.
  cbn [LocalDb.op_relPath LocalDb.op_kind].
  unfold on_db, zoom. unfold bind. rewrite LocalDbFacts.healthy_stmt by exact Hw.
  match goal with |- context [LocalDb.stmt_opt ?u ?d] => set (upd := u); set (d1 := d) end.
  assert (LocalDbFacts.healthy d1) as Hd1 by (by apply LocalDbFacts.healthy_step).
  assert (exists t, upd (LocalDb.tables d1) = Some t /\
    LocalDb.pending_ops t = enqueued kind rel (clock w) (tables_of w)) as (t&Et&Ep).
  { unfold upd, LocalDb.insert_op. cbn [LocalDb.tables d1 LocalDb.set_ops LocalDb.seq].
    rewrite (proj2 (Z.leb_gt _ _)) by exact Hr. by eexists. }
  assert (LocalDb.stmt_opt upd d1 = (Ok true, LocalDb.MkDb true t (drop 1 (LocalDb.faults d1)))) as ->.
  { apply LocalDbFacts.stmt_opt_true. split_and!; [apply Hd1|by apply LocalDbFacts.healthy_next|eauto]. }
  eexists. split; [reflexivity|]. split; [by apply LocalDbFacts.healthy_step|exact Ep].
Qed.

Lemma status_run st text w : healthy w -> exists w', setStatus st text w = (Ok tt, w') /\ healthy w' /\ tables_of w' = tables_of w.
Proof.
  intros Hw. unfold setStatus. unfold bind at 1, gets at 1.
  assert (isOpen w = true) as -> by apply Hw. unfold LocalDb.pendingOpCount, LocalDb.conflictCount.
  assert (forall A (rows : LocalDb.Tables -> list A) (f : list A -> Z) (w0 : World), healthy w0 ->
    exists w1 z, on_db (let* r := LocalDb.query rows in ret (f r)) w0 = (Ok z, w1) /\ calm w0 w1) as Hcount.
  { intros A rows f w0 Hw0. unfold on_db, zoom, bind. rewrite LocalDbFacts.healthy_query by exact Hw0.
    eexists _, _. split; [reflexivity|]. eexists. split; [reflexivity|].
    split; [by apply LocalDbFacts.healthy_step|done]. }
  edestruct (Hcount _ (fun t => [Z.of_nat (length (LocalDb.pending_ops t))]) (fun r => default 0 (head r)) w Hw)
    as (w1&z1&E1&Hc1). erewrite bind_run by exact E1.
  edestruct (Hcount _ (fun t => [Z.of_nat (length (LocalDb.conflicts t))]) (fun r => default 0 (head r)) w1
    (calm_healthy _ _ Hc1)) as (w2&z2&E2&Hc2). erewrite bind_run by exact E2.
  unfold bind at 1, gets at 1.
  pose proof (calm_trans _ _ _ Hc1 Hc2) as Hc.
  destruct (decide (st = Conflict)).
  - edestruct (Hcount _ (fun t => [Z.of_nat (length (LocalDb.conflicts t))]) (fun r => default 0 (head r)) w2
      (calm_healthy _ _ Hc2)) as (w3&z3&E3&Hc3). erewrite bind_run by exact E3.
    eexists. split; [reflexivity|]. pose proof (calm_trans _ _ _ Hc Hc3) as Hc'. split; [exact (calm_healthy _ _ Hc')|].
    exact (calm_tables _ _ Hc').
  - unfold bind at 1, ret at 1. eexists. split; [reflexivity|]. split; [exact (calm_healthy _ _ Hc)|].
    exact (calm_tables _ _ Hc).
Qed.

Lemma queueUpload_run rel w :
  healthy w -> room w -> exists w', queueUpload rel w = (Ok tt, w') /\
    queue w' = enqueued (lit "upload") rel (clock w) (tables_of w).
Proof.
  intros Hw Hr. unfold queueUpload. destruct (enqueue_run (lit "upload") rel w Hw Hr) as (w1&E1&Hw1&Eq).
  erewrite bind_run by exact E1. destruct (status_run Syncing (lit "Queued upload") w1 Hw1) as (w2&E2&Hw2&Eq2).
  erewrite bind_run by exact E2. eexists. split; [reflexivity|].
  change (LocalDb.pending_ops (tables_of w2) = enqueued (lit "upload") rel (clock w) (tables_of w)). by rewrite Eq2.
Qed.

(** What the queue holds after an event. *)
Definition after_event (w : World) (ev : FsEvent) : list PendingOp :=
  let t := tables_of w in
  let p := FolderWatcher.absPath ev in
  match located t p, FolderWatcher.kind ev with
  | Ok (Some (rel, _)), (FolderWatcher.Created | FolderWatcher.Modified) =>
      if bool_decide (disk (fs w) !! p = None /\ p ∈ dirs (fs w)) then queue w
      else enqueued (lit "upload") rel (clock w) t
  | Ok (Some (rel, _)), FolderWatcher.Deleted => enqueued (lit "delete") rel (clock w) t
  | Ok (Some (rel, _)), FolderWatcher.RenamedTo => enqueued (lit "upload") rel (clock w) t
  | Ok None, FolderWatcher.RenamedTo =>
      if bool_decide (FolderWatcher.oldAbsPath ev = []) then queue w
      else match located t (FolderWatcher.oldAbsPath ev) with
           | Ok (Some (rel, _)) => enqueued (lit "delete") rel (clock w) t
           | _ => queue w
           end
  | _, _ => queue w
  end.

Definition receives (w : World) : Prop := paused w = false /\ isSignedIn w = true.

Lemma onFsEvent_run ev w w' :
  healthy w -> room w -> events (fs w) = [] -> receives w -> onFsEvent ev w = (Ok tt, w') ->
  queue w' = after_event w ev.
Proof.
  intros Hw Hr Hev [Hp Hs]. unfold onFsEvent. unfold bind at 1, gets at 1. rewrite Hp, Hs. cbn [negb orb].
  destruct (locateInRoots_run (FolderWatcher.absPath ev) w Hw) as (w1&E1&Hc1). unfold bind at 1. rewrite E1.
  unfold after_event. destruct (located (tables_of w) (FolderWatcher.absPath ev)) as [[[rel root]|]|e]; [| |done].
  2:{ assert (queue w1 = queue w) as Eq1 by (unfold queue; destruct Hc1 as (d&->&_&Et); cbn [db put_db]; by rewrite Et).
      destruct (FolderWatcher.kind ev); try (intros [= <-]; exact Eq1).
      rewrite bool_decide_true by done. cbn [andb]. case_bool_decide; cbn [negb]; [intros [= <-]; exact Eq1|].
      destruct (locateInRoots_run (FolderWatcher.oldAbsPath ev) w1 (calm_healthy _ _ Hc1)) as (w2&E2&Hc2).
      unfold bind at 1. rewrite E2, (calm_tables _ _ Hc1). pose proof (calm_trans _ _ _ Hc1 Hc2) as Hc.
      assert (queue w2 = queue w) as Eq2 by (unfold queue; destruct Hc as (d&->&_&Et); cbn [db put_db]; by rewrite Et).
      destruct (located (tables_of w) (FolderWatcher.oldAbsPath ev)) as [[[rel root]|]|e];
        [|intros [= <-]; exact Eq2|done].
      destruct (enqueue_run (lit "delete") rel w2 (calm_healthy _ _ Hc)) as (w3&E3&_&Eq3).
      { unfold room. by rewrite (calm_tables _ _ Hc). }
      erewrite bind_run by exact E3. intros [= <-]. rewrite Eq3, (calm_tables _ _ Hc). by destruct Hc as (d&->&_). }
  assert (room w1) as Hr1 by (unfold room; by rewrite (calm_tables _ _ Hc1)).
  assert (clock w1 = clock w /\ fs w1 = fs w /\ queue w1 = queue w) as (Ec&Ef&Eq1).
  { destruct Hc1 as (d&->&_&Et). split_and!; [done..|]. unfold queue. cbn [db put_db]. by rewrite Et. }
  pose proof (calm_healthy _ _ Hc1) as Hw1.
  assert (forall w2, queueUpload rel w1 = (Ok tt, w2) ->
    queue w2 = enqueued (lit "upload") rel (clock w) (tables_of w)) as Hup.
  { intros w2 E. destruct (queueUpload_run rel w1 Hw1 Hr1) as (w3&E3&Eq3). rewrite E3 in E. injection E as <-.
    by rewrite Eq3, Ec, (calm_tables _ _ Hc1). }
  assert (on_fs (GetFileAttributesW (FolderWatcher.absPath ev)) w1 =
    (Ok (match disk (fs w) !! FolderWatcher.absPath ev with
         | Some _ => Some false
         | None => if bool_decide (FolderWatcher.absPath ev ∈ dirs (fs w)) then Some true else None end), w1)) as Hattr.
  { unfold on_fs, zoom, GetFileAttributesW, bind, next_io, gets, ret. rewrite Ef, Hev. cbn [head default drop disk dirs from_option id].
    destruct w1 as [f ? ? ? ? ? ? ? ? ? ? ? ? ? ? ?]. cbn [fs] in Ef. subst f. cbn [put_fs].
    assert (MkFs (disk (fs w)) (dirs (fs w)) [] = fs w) as -> by (destruct (fs w); simpl in Hev; by subst). done. }
  assert (forall w2, (let* attr := on_fs (GetFileAttributesW (FolderWatcher.absPath ev)) in
     if bool_decide (attr = Some true) then ret tt else queueUpload rel) w1 = (Ok tt, w2) ->
    queue w2 = (if bool_decide (disk (fs w) !! FolderWatcher.absPath ev = None /\ FolderWatcher.absPath ev ∈ dirs (fs w))
                then queue w else enqueued (lit "upload") rel (clock w) (tables_of w))) as Hmod.
  { intros w2. unfold bind at 1. rewrite Hattr. destruct (disk (fs w) !! FolderWatcher.absPath ev) eqn:Ed.
    - rewrite !bool_decide_false by naive_solver. apply Hup.
    - destruct (bool_decide_reflect (FolderWatcher.absPath ev ∈ dirs (fs w))).
      + rewrite !bool_decide_true by done. intros [= <-]. exact Eq1.
      + rewrite !bool_decide_false by naive_solver. apply Hup. }
  destruct (FolderWatcher.kind ev).
  - apply Hmod.
  - apply Hmod.
  - destruct (enqueue_run (lit "delete") rel w1 Hw1 Hr1) as (w3&E3&_&Eq3). erewrite bind_run by exact E3.
    intros [= <-]. unfold queue in *. cbn [db put_syncRequested]. by rewrite Eq3, Ec, (calm_tables _ _ Hc1).
  - intros [= <-]. exact Eq1.
  - apply Hup.
Qed.
End engine.
End EngineEventFacts.

(** * The claims *)

Module EngineEventSpec.
Import EngineEventFacts.

Section pull.
Context `{Win32TextLaws} `{CNG} `{Json} `{DPAPI} `{LocalTime}.
Context (dir : wstr).

Lemma attempt_change c : EngineFrame.spec anywhere same_queue (fun _ => True) (apply_change dir c).
Proof.
  apply EngineFrame.safe_apply_change; try done; try apply same_queue_pre;
    try (intros; apply db_ok_query || (apply db_ok_stmt; done)).
Qed.

Lemma changes_healthy cs w u w' : for_each cs (apply_change dir) w = (Ok u, w') -> healthy w -> healthy w'.
Proof.
  revert w. induction cs as [|c cs IH]; intros w; [by intros [_ ->]%ret_Ok|].
  cbn [for_each]. intros (x&w1&E1&E2)%bind_Ok Hw. apply attempt_kept in E1 as [Hh _]; [|apply attempt_change].
  apply (IH _ E2). auto.
Qed.

Lemma value_int64_range j k z : value_int64 j k 0 = Ok z -> is_int64 z.
Proof.
  unfold value_int64, value. destruct j; try done. destruct (member k m) as [v|].
  - destruct v; try done. intros [= <-]. apply wrap_i64_range.
  - intros [= <-]. done.
Qed.

(** C32: the change feed moves on whatever becomes of the changes. A pull that
    gets its answer stores the server's latest sequence number as the new
    cursor, on a healthy database, no matter what [applyRemoteFile] returned
    for each change; a change whose download failed is therefore never asked
    for again. Without an answer, or with an answer other than 200, nothing in
    the database changes, and without an answer the engine is offline. *)
Theorem pull_moves_cursor (w w' w2 : World) (since : Z) (d1 : Db) (r : ApiClient.ApiResponse)
    (Hw : healthy w) (Hgo : has_api w = true /\ ApiClient.hasTokens (api w) = true /\ hasMasterKey w = true)
    (Hsince : LocalDb.lastChangeSeq (db w) = (Ok since, d1))
    (Hfetch : on_api dir (ApiClient.changesSince since) (put_db d1 w) = (Ok r, w2))
    (Hrun : pullChanges dir w = (Ok tt, w')) :
  (ApiClient.transportOk r = false -> online_ w' = false /\ tables_of w' = tables_of w) /\
  (ApiClient.transportOk r = true -> ApiClient.status r <> 200 -> tables_of w' = tables_of w) /\
  (forall latest, ApiClient.transportOk r = true -> ApiClient.status r = 200 ->
     value_int64 (ApiClient.body r) (lit "latest_seq") 0 = Ok latest -> 0 < latest ->
     (LocalDb.lastChangeSeq (db w')).1 = Ok latest).
Proof.
  destruct Hgo as (Ha&Ht&Hk).
  assert (LocalDbFacts.healthy d1 /\ LocalDb.tables d1 = tables_of w) as [Hd1 Et1].
  { unfold LocalDb.lastChangeSeq, LocalDb.getMeta, bind in Hsince.
    rewrite LocalDbFacts.healthy_query in Hsince by exact Hw. injection Hsince as _ <-.
    split; [by apply LocalDbFacts.healthy_step|done]. }
  assert (db w2 = d1) as Ed2.
  { change d1 with (db (put_db d1 w)). eapply (keeps_Ok db); [|exact Hfetch]. by apply keeps_on_api. }
  assert (healthy w2) as Hw2 by (unfold healthy; by rewrite Ed2).
  assert (tables_of w2 = tables_of w) as Et2 by (unfold tables_of; by rewrite Ed2).
  unfold pullChanges in Hrun. erewrite bind_run in Hrun.
  2:{ unfold on_api. rewrite Ha. cbn [negb gets]. unfold gets. rewrite Ht, drop_all.
      assert (put_api (api w) w = w) as -> by (by destruct w). reflexivity. }
  unfold bind at 1, gets at 1 in Hrun. rewrite Hk in Hrun. cbn [negb orb] in Hrun.
  erewrite bind_run in Hrun by (unfold on_db, zoom; rewrite Hsince; reflexivity).
  erewrite bind_run in Hrun by exact Hfetch.
  destruct (ApiClient.transportOk r) eqn:Er; cbn [negb] in Hrun.
  - split_and!; [done| |].
    + intros _ Hs. unfold set_online in Hrun. unfold bind at 1, modify at 1 in Hrun.
      rewrite (proj2 (Z.eqb_neq _ _) Hs) in Hrun. cbn [negb] in Hrun. by injection Hrun as <-.
    + intros latest _ Hs Hl Hpos. unfold set_online in Hrun. unfold bind at 1, modify at 1 in Hrun.
      rewrite (proj2 (Z.eqb_eq _ _) Hs) in Hrun. cbn [negb] in Hrun.
      unfold body_int in Hrun. unfold bind at 1, lift at 1 in Hrun. rewrite Hl in Hrun.
      apply bind_Ok in Hrun as (cs&w3&[_ ->]%lift_Ok&Hrun).
      apply bind_Ok in Hrun as (u&w4&Hc&Hrun). apply changes_healthy in Hc; [|exact Hw2].
      rewrite (proj2 (Z.ltb_lt 0 latest)) in Hrun by done.
      apply bind_Ok in Hrun as (b&w5&Hset&[_ ->]%ret_Ok). apply zoom_Ok in Hset as (d&Hset&->).
      cbn [db put_db]. assert (d = LocalDbFacts.after (LocalDb.setLastChangeSeq latest) (db w4)) as ->
        by (unfold LocalDbFacts.after; by rewrite Hset).
      apply LocalDbFacts.lastChangeSeq_set; [exact Hc|]. by eapply value_int64_range.
  - split_and!; [|done|done]. intros _. unfold set_online in Hrun. unfold bind at 1, modify at 1 in Hrun.
    destruct (status_run Offline (lit "Offline") (put_online false w2) Hw2) as (w3&E3&_&Et3).
    assert (online_ w3 = false) as Eo.
    { change false with (online_ (put_online false w2)). eapply (keeps_Ok online_); [|exact E3].
      unfold setStatus, on_db. keeps_steps. }
    rewrite E3 in Hrun. injection Hrun as <-. split; [exact Eo|]. by rewrite Et3.
Qed.
End pull.

Section events.
Context `{Win32Text} `{CNG} `{Json} `{DPAPI} `{LocalTime}.

(** C33: what the watcher's events put into the queue. On a healthy database,
    while the engine is signed in and not paused, every event that does not
    end in an exception has exactly the effect of [after_event]: a created or
    modified file and the new name of a rename queue an upload, a deleted file
    queues a delete, directories are ignored, and a rename out of the synced
    folders deletes the old path. A rename inside the synced folders queues the
    new path only: the old one is never queued for deletion. *)
Theorem fs_events_queue (ev : FsEvent) (w w' : World) (p q : wstr) (loc loc' : str * wstr)
    (Hw : healthy w) (Hroom : room w) (Hio : events (fs w) = []) (Hon : receives w) :
  (onFsEvent ev w = (Ok tt, w') -> queue w' = after_event w ev) /\
  (forall w1 w2, located (tables_of w) p = Ok (Some loc) -> located (tables_of w) q = Ok (Some loc') ->
     onFsEvent (FolderWatcher.MkEvent FolderWatcher.RenamedFrom p []) w = (Ok tt, w1) ->
     onFsEvent (FolderWatcher.MkEvent FolderWatcher.RenamedTo q p) w1 = (Ok tt, w2) ->
     queue w2 = enqueued (lit "upload") loc'.1 (clock w) (tables_of w)).
Proof.
  split; [by apply onFsEvent_run|].
  intros w1 w2 Hp Hq H1e H2e.
  assert (w1 = w \/ calm w w1) as Hc1.
  { right. unfold onFsEvent in H1e. unfold bind at 1, gets at 1 in H1e. destruct Hon as [Hpa Hs].
    rewrite Hpa, Hs in H1e. cbn [negb orb FolderWatcher.absPath FolderWatcher.kind] in H1e.
    destruct (locateInRoots_run p w Hw) as (w3&E3&Hc3). unfold bind at 1 in H1e. rewrite E3, Hp in H1e.
    destruct loc as [rel root]. by injection H1e as <-. }
  assert (calm w w1) as (d&->&Hd&Et) by (destruct Hc1 as [->|?]; [by apply calm_refl|done]).
  rewrite (onFsEvent_run (FolderWatcher.MkEvent FolderWatcher.RenamedTo q p) (put_db d w) w2); try done.
  - unfold after_event. change (tables_of (put_db d w)) with (LocalDb.tables d). rewrite Et.
    cbn [FolderWatcher.absPath FolderWatcher.kind]. rewrite Hq. by destruct loc'.
  - unfold room. change (tables_of (put_db d w)) with (LocalDb.tables d). by rewrite Et.
Qed.
End events.

Import Toy.

(** A feed of one change whose download fails. *)
Definition feed : json :=
  JObj [(lit "changes", JArr [JObj [(lit "file_id", JStr (lit "f-1")); (lit "origin_device_id", JStr (lit "dev-2"))]]);
        (lit "latest_seq", JInt 7)].

Definition feed_world : World :=
  world [] Toy.tables Toy.key [reply feed; ApiClient.Reply 404 [] []].

Lemma pull_moves_cursor_witness :
  let w' := (pullChanges data_dir feed_world).2 in
  applied w' = [] /\ LocalDb.files (tables_of w') = [] /\ (LocalDb.lastChangeSeq (db w')).1 = Ok 7.
Proof.
  cbv zeta. set (out := pullChanges data_dir feed_world).
  split; [vm_compute; reflexivity|]. split; [vm_compute; reflexivity|].
  set (s := LocalDb.lastChangeSeq (db feed_world)).
  set (f := on_api data_dir (ApiClient.changesSince 0) (put_db s.2 feed_world)).
  set (resp := match f.1 with Ok r => r | Throw _ => ApiClient.no_response [] end).
  assert (f.1 = Ok resp) as Er by (vm_compute; reflexivity).
  refine (proj2 (proj2 (@pull_moves_cursor ascii_text ascii_text_laws toy_cng wire_json toy_dpapi toy_time data_dir
    feed_world out.2 f.2 0 s.2 resp _ _ _ _ _)) 7 _ _ _ _).
  - split; [done|constructor].
  - split_and!; vm_compute; reflexivity.
  - vm_compute. reflexivity.
  - rewrite <- Er. apply surjective_pairing.
  - assert (out.1 = Ok tt) as <- by (vm_compute; reflexivity). apply surjective_pairing.
  - vm_compute. reflexivity.
  - vm_compute. reflexivity.
  - vm_compute. reflexivity.
  - lia.
Defined.

Definition event_world : World := world [(note_path, lit "hello")] Toy.tables Toy.key [].

Definition renamed : FsEvent :=
  FolderWatcher.MkEvent FolderWatcher.RenamedTo note_path (lit "C:\notes\old.md").

Lemma fs_events_queue_witness :
  queue (onFsEvent renamed event_world).2 =
    [LocalDb.MkOp 1 (lit "upload") note_key [] 1000 0 []].
Proof.
  set (out := onFsEvent renamed event_world).
  rewrite (proj1 (@fs_events_queue ascii_text toy_time renamed event_world out.2 note_path note_path
    ([], []) ([], []) ltac:(split; [done|constructor]) ltac:(vm_compute; reflexivity) eq_refl
    ltac:(split; vm_compute; reflexivity))).
  - vm_compute. reflexivity.
  - assert (out.1 = Ok tt) as <- by (vm_compute; reflexivity). apply surjective_pairing.
Defined.

End EngineEventSpec.
