(* ===== verification/EngineQueueSpec.v ===== *)
(** * EngineQueueSpec: the worker empties the queue

    [work_through] followed over a whole pass, and passes one after the other:
    each pass that is not cut short either finishes an operation or counts one
    more try, and the tries are bounded. *)
From S2P Require Import Prelude Text VersionVector Merge Platform PathUtil IgnoreRules Crypto.
From S2P Require Import KeySetup LocalDb ApiClient FolderWatcher FileSystem Settings.
From S2P Require Import EngineState EngineKeys EngineSync EngineRun EngineFacts EngineFrame.
From S2P Require Import EngineSpec EngineFileSpec EngineSyncSpec EngineEventSpec.
Import EngineState.Engine EngineKeys.EngineKeys EngineSync.EngineSync EngineRun.EngineRun.
Import EngineFacts.EngineFacts EngineSyncSpec.EngineSyncFacts EngineEventSpec.EngineEventFacts.
Import LocalDb(Db, PendingOp).

#[local] Open Scope monad_scope.

Module EngineQueueFacts.

(** ** One operation, tried again *)

(** [o'] is [o] after [k] more tries at least. *)
Definition retried (k : Z) (o o' : PendingOp) : Prop :=
  LocalDb.op_id o' = LocalDb.op_id o /\ LocalDb.op_kind o' = LocalDb.op_kind o /\
  LocalDb.op_relPath o' = LocalDb.op_relPath o /\ LocalDb.op_retryCount o + k <= LocalDb.op_retryCount o'.

Lemma retried_refl o : retried 0 o o.
Proof. split_and!; try done. lia. Qed.

Lemma retried_trans k k' o1 o2 o3 : retried k o1 o2 -> retried k' o2 o3 -> retried (k + k') o1 o3.
Proof. unfold retried. intuition (congruence || lia). Qed.

Lemma retried_le k k' o o' : k' <= k -> retried k o o' -> retried k' o o'.
Proof. unfold retried. intuition lia. Qed.

(** [q'] is what is left of [q], in order, after the operations of [ids] were
    tried. *)
Record tried (ids : list Z) (q q' : list PendingOp) : Prop := {
  tr_order : sublist (map LocalDb.op_id q') (map LocalDb.op_id q);
  tr_ops : forall o', o' ∈ q' -> exists o, o ∈ q /\
    retried (if decide (LocalDb.op_id o ∈ ids) then 1 else 0) o o'
}.

Lemma tried_refl q : tried [] q q.
Proof. split; [done|]. intros o Ho. exists o. split; [done|]. apply retried_refl. Qed.

Lemma tried_mono ids ids' q q' : (forall i, i ∈ ids' -> i ∈ ids) -> tried ids q q' -> tried ids' q q'.
Proof.
  intros Hi [O T]. split; [done|]. intros o' (o & Ho & Hr)%T. exists o. split; [done|].
  eapply retried_le; [|exact Hr]. repeat case_decide; naive_solver lia.
Qed.

Lemma tried_trans ids ids' q1 q2 q3 :
  tried ids q1 q2 -> tried ids' q2 q3 -> tried (ids ++ ids') q1 q3.
Proof.
  intros [O1 T1] [O2 T2]. split; [by etransitivity|].
  intros o3 (o2 & Ho2 & R2)%T2. destruct (T1 _ Ho2) as (o1 & Ho1 & R1). exists o1. split; [done|].
  eapply retried_le; [|eapply retried_trans; [exact R1|exact R2]].
  destruct R1 as (E & _). rewrite E. repeat case_decide; try lia; exfalso; set_solver.
Qed.

Lemma tried_without id q : tried [id] q (without id q).
Proof.
  split.
  - unfold without. induction q as [|o q IH]; [done|]. rewrite filter_cons. cbn [map].
    case_decide; [by apply sublist_skip|by apply sublist_cons].
  - intros o' [Hid Ho]%list_elem_of_filter. exists o'. split; [done|]. rewrite decide_False by set_solver. apply retried_refl.
Qed.

Lemma tried_failed id err q : tried [id] q (failed id err q).
Proof.
  split.
  - unfold failed. rewrite map_map. erewrite map_ext; [done|]. intros o. by destruct (_ =? _).
  - intros o' (o & -> & Ho)%list_elem_of_fmap. exists o. split; [done|]. cbv beta.
    destruct (Z.eqb_spec (LocalDb.op_id o) id) as [Hid|Hne].
    + rewrite decide_True by set_solver. by split_and!.
    + rewrite decide_False by set_solver. apply retried_refl.
Qed.

Lemma without_gone id q : id ∉ map LocalDb.op_id (without id q).
Proof. intros (o & -> & [Ho _]%list_elem_of_filter)%list_elem_of_fmap. done. Qed.

(** ** One pass of the worker *)

Section engine.
Context `{Win32TextLaws} `{CNG} `{Json} `{DPAPI} `{LocalTime}.
Context (dir : wstr).

Definition working (w : World) : bool := running_ w && online_ w.

(** The operations that have had all their tries are gone after one more. *)
Definition spent (ops q : list PendingOp) : Prop :=
  forall o, o ∈ ops -> 25 < LocalDb.op_retryCount o -> LocalDb.op_id o ∉ map LocalDb.op_id q.

Lemma attempted_tried op w w1 b : attempted op w w1 (Ok b) -> online_ w1 = true ->
  tried [LocalDb.op_id op] (queue w) (queue w1) /\ spent [op] (queue w1).
Proof.
  assert (spent [op] (without (LocalDb.op_id op) (queue w))) as Hs.
  { intros o ->%list_elem_of_singleton _. apply without_gone. }
  destruct b; cbn [attempted]; [intros -> _; split; [apply tried_without|exact Hs]|].
  intros [[-> _]|(err & _ & ->)] Hon; [done|]. destruct (Z.ltb_spec 25 (LocalDb.op_retryCount op)).
  - split; [apply tried_without|exact Hs].
  - split; [apply tried_failed|]. intros o ->%list_elem_of_singleton. lia.
Qed.

Lemma spent_tried ops ids q q' : spent ops q -> tried ids q q' -> spent ops q'.
Proof.
  intros Hs [O _] o Ho Hr Hin. apply (Hs o Ho Hr). eapply elem_of_submseteq; [exact Hin|by apply sublist_submseteq].
Qed.

Lemma work_through_tried ops b w d w' :
  healthy w -> work_through dir ops b w = (Ok d, w') -> working w' = true ->
  healthy w' /\ tried (map LocalDb.op_id ops) (queue w) (queue w') /\ spent ops (queue w') /\
  d = b || negb (bool_decide (ops = [])).
Proof.
  revert b w. induction ops as [|op ops IH]; intros b w Hw Hrun Hgo.
  { injection Hrun as <- <-. split_and!; [done|apply tried_refl| |by destruct b]. by intros o Ho%elem_of_nil. }
  cbn [work_through] in Hrun. unfold bind at 1, gets at 1 in Hrun.
  destruct (running_ w && online_ w) eqn:Eg; cbn [negb] in Hrun.
  2: { injection Hrun as _ <-. unfold working in Hgo. congruence. }
  destruct (status_run Syncing (lit "Syncing") w Hw) as (w1 & E1 & Hw1 & T1). rewrite (bind_run _ _ _ _ _ E1) in Hrun.
  apply bind_Ok in Hrun as (r & w2 & E2 & Hrun). apply process_attempted in E2 as [Ha Hw2]; [|done].
  assert (queue w1 = queue w) as Q1 by (unfold queue; by f_equal).
  destruct (online_ w2) eqn:Eon.
  2: { destruct ops as [|op' ops]; cbn [work_through] in Hrun.
       - injection Hrun as _ <-. unfold working in Hgo. by rewrite Eon, andb_false_r in Hgo.
       - unfold bind at 1, gets at 1 in Hrun. rewrite Eon, andb_false_r in Hrun. injection Hrun as _ <-.
         unfold working in Hgo. by rewrite Eon, andb_false_r in Hgo. }
  destruct (attempted_tried _ _ _ _ Ha Eon) as [Ht Hs]. rewrite Q1 in Ht.
  apply IH in Hrun as (Hw' & Ht' & Hs' & ->); [|done..]. split_and!; [done| | |by destruct b].
  - change (map LocalDb.op_id (op :: ops)) with ([LocalDb.op_id op] ++ map LocalDb.op_id ops). by eapply tried_trans.
  - intros o [->|Ho]%elem_of_cons Hr; [|by apply Hs'].
    by apply (spent_tried [op] _ _ _ Hs Ht'); [left|].
Qed.

Lemma setStatus_status st text w w' : setStatus st text w = (Ok tt, w') -> status (status_ w') = st.
Proof.
  unfold setStatus. intros (? & ? & _ & E)%bind_Ok. do 4 (apply bind_Ok in E as (? & ? & _ & E)). by injection E as <-.
Qed.

Lemma working_setStatus st text : keeps working (setStatus st text).
Proof. unfold setStatus, on_db. keeps_steps. Qed.

Lemma count_run {A} (rows : LocalDb.Tables -> list A) w : healthy w ->
  exists w', on_db (let* n := LocalDb.query (fun t => [Z.of_nat (length (rows t))]) in ret (default 0 (head n))) w =
    (Ok (Z.of_nat (length (rows (tables_of w)))), w') /\ calm w w'.
Proof.
  intros Hw. unfold on_db, zoom, bind. rewrite LocalDbFacts.healthy_query by exact Hw.
  eexists. split; [reflexivity|]. eexists. split; [reflexivity|]. split; [by apply LocalDbFacts.healthy_step|done].
Qed.

Lemma calm_working w w' : calm w w' -> working w' = working w.
Proof. by intros (d & -> & _). Qed.

Definition conflicts_of (w : World) : list LocalDb.ConflictState := LocalDb.conflicts (tables_of w).

Lemma working_finish_pass d : keeps working (finish_pass d).
Proof.
  unfold finish_pass, on_db. keeps_steps; apply working_setStatus.
Qed.

Lemma count_Ok {A} (rows : LocalDb.Tables -> list A) w n w1 : healthy w ->
  on_db (let* n := LocalDb.query (fun t => [Z.of_nat (length (rows t))]) in ret (default 0 (head n))) w = (Ok n, w1) ->
  n = Z.of_nat (length (rows (tables_of w))) /\ calm w w1.
Proof. intros Hw E. destruct (count_run rows w Hw) as (w2 & E2 & Hc). rewrite E2 in E. by injection E as <- <-. Qed.

Lemma finish_pass_run d w w' : healthy w -> finish_pass d w = (Ok tt, w') ->
  healthy w' /\ tables_of w' = tables_of w /\
  (d = true -> queue w = [] -> conflicts_of w = [] -> status (status_ w') = Synced).
Proof.
  intros Hw (idle & w1 & E1 & E)%bind_Ok.
  assert (calm w w1 /\ (d = true -> queue w = [] -> conflicts_of w = [] -> idle = true)) as [Hc Hidle].
  { destruct d; [|injection E1 as <- <-; split; [by apply calm_refl|done]].
    apply bind_Ok in E1 as (n & w2 & E2 & E1). apply (count_Ok LocalDb.pending_ops) in E2 as [-> Hc2]; [|done].
    unfold queue. change (LocalDb.tables (db w)) with (tables_of w).
    destruct (Z.eqb_spec (Z.of_nat (length (LocalDb.pending_ops (tables_of w)))) 0) as [Hn|Hn].
    - apply bind_Ok in E1 as (c & w3 & E3 & E1).
      apply (count_Ok LocalDb.conflicts) in E3 as [-> Hc3]; [|by eapply calm_healthy]. injection E1 as <- <-.
      split; [by eapply calm_trans|]. rewrite (calm_tables _ _ Hc2). intros _ _ Hz. by rewrite (Hz : LocalDb.conflicts _ = []).
    - injection E1 as <- <-. split; [done|]. intros _ Hz. by rewrite Hz in Hn. }
  assert (forall st text w2, calm w w2 -> setStatus st text w2 = (Ok tt, w') -> healthy w' /\ tables_of w' = tables_of w) as Hset.
  { intros st text w2 Hc2 E2. destruct (status_run st text w2 (calm_healthy _ _ Hc2)) as (w3 & E3 & Hw3 & T3).
    rewrite E3 in E2. injection E2 as <-. split; [done|]. by rewrite T3, (calm_tables _ _ Hc2). }
  destruct idle.
  - destruct (Hset _ _ _ Hc E) as [? ?]. split_and!; [done..|]. intros _ _ _. by eapply setStatus_status.
  - apply bind_Ok in E as (c & w2 & E2 & E). apply (count_Ok LocalDb.conflicts) in E2 as [_ Hc2]; [|by eapply calm_healthy].
    pose proof (calm_trans _ _ _ Hc Hc2) as Hc'.
    assert (healthy w' /\ tables_of w' = tables_of w) as [? ?].
    { destruct (0 <? c); [by eapply Hset|]. injection E as <-. split; [by eapply calm_healthy|by apply calm_tables]. }
    split_and!; [done..|]. intros Hd Hq Hz. by specialize (Hidle Hd Hq Hz).
Qed.

Lemma pass_tried w w' :
  healthy w -> may_sync w = true -> worker_pass dir w = (Ok tt, w') -> working w' = true ->
  healthy w' /\ tried (map LocalDb.op_id (queue w)) (queue w) (queue w') /\ spent (queue w) (queue w') /\
  (queue w <> [] -> queue w' = [] -> conflicts_of w' = [] -> status (status_ w') = Synced).
Proof.
  intros Hw Hs Hrun Hgo. unfold worker_pass in Hrun. unfold bind at 1, gets at 1 in Hrun. rewrite Hs in Hrun. cbn [negb] in Hrun.
  destruct (on_db_query LocalDb.pending_ops w Hw) as (w1 & E1 & Hc1).
  rewrite (bind_run (on_db LocalDb.pendingOps) _ _ _ _ E1) in Hrun.
  apply bind_Ok in Hrun as (d & w2 & E2 & Hrun). change (finish_pass d w2 = (Ok tt, w')) in Hrun.
  pose proof (keeps_Ok _ _ _ _ _ (working_finish_pass d) Hrun) as Ew. rewrite Hgo in Ew.
  destruct (work_through_tried _ _ _ _ _ (calm_healthy _ _ Hc1) E2 (eq_sym Ew)) as (Hw2 & Ht & Hsp & ->).
  destruct (finish_pass_run _ _ _ Hw2 Hrun) as (Hw' & T & Hst).
  assert (queue w1 = queue w) as Q1 by (unfold queue; f_equal; exact (calm_tables _ _ Hc1)).
  assert (queue w' = queue w2) as Q2 by (unfold queue; by f_equal).
  rewrite Q1, <- Q2 in Ht. rewrite <- Q2 in Hsp. split_and!; [done..|]. rewrite Q2. intros Hne Hq Hz. apply Hst; [|done|].
  - rewrite bool_decide_false; [done|exact Hne].
  - unfold conflicts_of in *. by rewrite <- T.
Qed.
End engine.
End EngineQueueFacts.

Module EngineQueueSpec.
Import EngineQueueFacts.

Section engine.
Context `{Win32TextLaws} `{CNG} `{Json} `{DPAPI} `{LocalTime}.
Context (dir : wstr).

(** A pass of the worker that is not cut short: the database works, syncing is
    on, and when the pass is over the engine still runs and still reaches the
    server. *)
Record uninterrupted (w w' : World) : Prop := {
  un_healthy : healthy w;
  un_syncs : may_sync w = true;
  un_pass : worker_pass dir w = (Ok tt, w');
  un_working : working w' = true
}.

(** [n] such passes, with whatever happens outside in between: servers that
    answer or refuse, files that come and go, time that passes. *)
Inductive passes : nat -> World -> World -> Prop :=
  | passes_done w : passes 0 w w
  | passes_env n w w1 w' : environment w w1 -> passes n w1 w' -> passes n w w'
  | passes_pass n w w1 w' : uninterrupted w w1 -> passes n w1 w' -> passes (S n) w w'.

Lemma passes_tried n w w' : passes n w w' ->
  sublist (map LocalDb.op_id (queue w')) (map LocalDb.op_id (queue w)) /\
  (forall o', o' ∈ queue w' -> exists o, o ∈ queue w /\ retried (Z.of_nat n) o o').
Proof.
  induction 1 as [w|n w w1 w' (Et & _) _ IH|n w w1 w' [Hw Hs Hrun Hgo] _ [O T]].
  - split; [done|]. intros o Ho. exists o. split; [done|apply retried_refl].
  - unfold queue in *. by rewrite <- Et.
  - destruct (pass_tried _ _ _ Hw Hs Hrun Hgo) as (_ & [O1 T1] & _). split; [by etransitivity|].
    intros o2 (o1 & Ho1 & R1)%T. destruct (T1 _ Ho1) as (o & Ho & R). exists o. split; [done|].
    eapply retried_le; [|eapply retried_trans; [exact R|exact R1]].
    rewrite decide_True by (apply list_elem_of_fmap; eauto). lia.
Qed.

Lemma tries_run_out n w w' : passes n w w' -> forall k, (1 <= n)%nat -> 27 <= k + Z.of_nat n ->
  (forall o, o ∈ queue w -> k <= LocalDb.op_retryCount o) -> queue w' = [].
Proof.
  induction 1 as [w|n w w1 w' (Et & _) _ IH|n w w1 w' [Hw Hs Hrun Hgo] Hp IH]; intros k Hn Hk Hq; [lia| |].
  - apply (IH k); [done|done|]. unfold queue in *. by rewrite Et.
  - destruct (pass_tried _ _ _ Hw Hs Hrun Hgo) as (_ & [O1 T1] & Hsp & _).
    destruct (decide (26 <= k)) as [H26|H26].
    + assert (queue w1 = []) as E1.
      { destruct (queue w1) as [|o1 l] eqn:E; [done|]. destruct (T1 o1) as (o & Ho & Ho1 & _); [left|].
        exfalso. apply (Hsp o Ho); [specialize (Hq o Ho); lia|]. rewrite <- Ho1. left. }
      apply passes_tried in Hp as [O _]. rewrite E1 in O. apply sublist_nil_r in O. by destruct (queue w').
    + apply (IH (k + 1)); [lia|lia|]. intros o1 (o & Ho & _ & _ & _ & Hr)%T1.
      rewrite decide_True in Hr by (apply list_elem_of_fmap; eauto). specialize (Hq o Ho). lia.
Qed.

(** C10: the queue drains. Over passes of the worker that are not cut short, and
    with anything happening outside between them, the queue keeps its order,
    nothing enters it, and every operation that is still in it has been tried
    once in each pass. An operation that the server, the disk or the key keeps
    refusing is given up after its twenty-seventh try, so that after
    twenty-seven passes the queue is empty, whatever was in it. And a pass that
    empties the queue while no conflict is open ends with the status Synced. *)
Theorem queue_drains n w w' (Hp : passes n w w') :
  sublist (map LocalDb.op_id (queue w')) (map LocalDb.op_id (queue w)) /\
  (forall o', o' ∈ queue w' -> exists o, o ∈ queue w /\ retried (Z.of_nat n) o o') /\
  ((forall o, o ∈ queue w -> 0 <= LocalDb.op_retryCount o) -> (27 <= n)%nat -> queue w' = []) /\
  (forall w1, uninterrupted w1 w' -> queue w1 <> [] -> queue w' = [] -> conflicts_of w' = [] ->
     status (status_ w') = Synced).
Proof.
  destruct (passes_tried _ _ _ Hp) as [O T]. split_and!; [done..| |].
  - intros Hq Hn. apply (tries_run_out _ _ _ Hp 0); [lia..|done].
  - intros w1 [Hw Hs Hrun Hgo]. by destruct (pass_tried _ _ _ Hw Hs Hrun Hgo) as (_ & _ & _ & ?).
Qed.

(** Passes one after the other, and that none of them is cut short. *)
Fixpoint drive (n : nat) (w : World) : World * bool :=
  match n with
  | O => (w, true)
  | S n =>
      let p := worker_pass dir w in
      let '(w', ok) := drive n p.2 in
      (w', may_sync w && (match p.1 with Ok _ => true | Throw _ => false end) && working p.2 && ok)
  end.

Lemma drive_passes n w : healthy w -> (drive n w).2 = true -> passes n w (drive n w).1.
Proof.
  revert w. induction n as [|n IH]; intros w Hw; cbn [drive]; [constructor|].
  destruct (worker_pass dir w) as [[[]|e] w1] eqn:E; cbn [fst snd]; destruct (drive n w1) as [w' ok] eqn:Ed; cbn [fst snd];
    rewrite ?andb_false_r; [|done].
  rewrite andb_true_r, !andb_true_iff. intros [[Hs Hgo] Hok].
  assert (uninterrupted w w1) as Hu by done. apply passes_pass with w1; [exact Hu|].
  specialize (IH w1). rewrite Ed in IH. apply IH; [|exact Hok]. by destruct (pass_tried _ _ _ Hw Hs E Hgo).
Qed.
End engine.

Import Toy.
Import EngineSyncSpec.EngineSyncSpec.

(** A queued upload of a file that is gone from the disk. *)
Definition lost_world : World :=
  world [] (LocalDb.MkTables ∅ (LocalDb.sync_roots Toy.tables) [] [queued_op 0] 5 []) Toy.key [].

Lemma queue_drains_witness :
  map LocalDb.op_retryCount (queue (drive data_dir 26 lost_world).1) = [26] /\
  queue (drive data_dir 27 lost_world).1 = [] /\
  status (status_ (drive data_dir 27 lost_world).1) = Synced.
Proof.
  assert (healthy lost_world) as Hw by (split; [done|constructor]).
  split; [vm_compute; reflexivity|]. split; [|vm_compute; reflexivity].
  apply (@queue_drains ascii_text ascii_text_laws toy_cng wire_json toy_dpapi toy_time data_dir 27 lost_world).
  - apply (@drive_passes ascii_text ascii_text_laws); [exact Hw|vm_compute; reflexivity].
  - intros o ->%list_elem_of_singleton. vm_compute. discriminate.
  - reflexivity.
Defined.

End EngineQueueSpec.
