(* ===== verification/EngineScanSpec.v ===== *)
(** * EngineScanSpec: the scanner's walk ends

    The directories still below the ones on the stack are counted; one round
    takes a directory off the stack and puts its children on, whose subtrees
    are disjoint parts of its own. *)
From S2P Require Import Prelude Text VersionVector Merge Platform PathUtil IgnoreRules Crypto.
From S2P Require Import KeySetup LocalDb ApiClient FolderWatcher FileSystem Settings.
From S2P Require Import EngineState EngineKeys EngineSync EngineRun EngineFacts EngineSpec.
Import EngineState.Engine EngineKeys.EngineKeys EngineSync.EngineSync EngineRun.EngineRun.
Import EngineFacts.EngineFacts.
Import FileSystem FileSystemFacts.

#[local] Open Scope monad_scope.

Module EngineScanFacts.

(** ** Directories below a directory *)

Definition child (d n : wstr) : wstr := d ++ [BSLASH] ++ n.

(** The directories of [D] strictly below [d]. *)
Definition below (d : wstr) (D : gset wstr) : gset wstr := filter (fun p => (d ++ [BSLASH]) `prefix_of` p) D.

(** The rounds a stack still takes. *)
Definition weight (D : gset wstr) (st : list wstr) : nat := sum_list_with (fun d => S (size (below d D))) st.

(** The first name after [d] in a path below [d]. *)
Fixpoint first_name (p : wstr) : wstr :=
  match p with [] => [] | c :: p' => if c =? BSLASH then [] else c :: first_name p' end.

Lemma first_name_app n s : BSLASH ∉ n -> first_name (n ++ s) = n ++ first_name s.
Proof.
  induction n as [|c n IH]; intros Hn; [done|]. apply not_elem_of_cons in Hn as [Hc Hn]. simpl.
  rewrite (proj2 (Z.eqb_neq c BSLASH)) by congruence. by rewrite IH.
Qed.

Lemma drop_child d n s : drop (S (length d)) (child d n ++ s) = n ++ s.
Proof.
  unfold child. rewrite <- app_assoc.
  replace (d ++ ([BSLASH] ++ n) ++ s) with ((d ++ [BSLASH]) ++ n ++ s) by (by rewrite <- !app_assoc).
  apply drop_app_length'. rewrite length_app. simpl. lia.
Qed.

(** Everything at or below the child [n] goes through the name [n]. *)
Definition subtree (d : wstr) (D : gset wstr) (n : wstr) : gset wstr := {[child d n]} ∪ below (child d n) D.

Lemma subtree_name d D n p : BSLASH ∉ n -> p ∈ subtree d D n -> first_name (drop (S (length d)) p) = n.
Proof.
  intros Hn Hp. unfold subtree, below in Hp. rewrite elem_of_union, elem_of_singleton, elem_of_filter in Hp.
  assert (exists s, p = child d n ++ s /\ (s = [] \/ head s = Some BSLASH)) as (s&->&Hs).
  { destruct Hp as [->|[[s ->] _]]; [exists []; rewrite app_nil_r; eauto|].
    exists (BSLASH :: s). rewrite <- app_assoc. eauto. }
  rewrite drop_child, first_name_app by done. destruct s as [|c s]; [by rewrite app_nil_r|].
  destruct Hs as [?|[= ->]]; [done|]. simpl. by rewrite app_nil_r.
Qed.

Lemma subtree_below d D n : child d n ∈ D -> subtree d D n ⊆ below d D.
Proof.
  intros Hn p. unfold subtree, below. rewrite elem_of_union, elem_of_singleton, !elem_of_filter.
  assert (forall s, (d ++ [BSLASH]) `prefix_of` child d n ++ s) as Hc.
  { intros s. exists (n ++ s). unfold child. by rewrite <- !app_assoc. }
  intros [->|[[s ->] Hp]]; (split; [|done]); [rewrite <- (app_nil_r (child d n)); apply Hc|].
  rewrite <- app_assoc. apply Hc.
Qed.

Lemma subtree_size d D n : size (subtree d D n) = S (size (below (child d n) D)).
Proof.
  unfold subtree. rewrite size_union, size_singleton; [lia|]. apply disjoint_singleton_l.
  unfold below. rewrite elem_of_filter. intros [[s E] _]. apply (f_equal length) in E.
  rewrite !length_app in E. simpl in E. lia.
Qed.

(** Children of one directory have disjoint subtrees below it. *)
Lemma children_weight d D ns :
  NoDup ns -> Forall (fun n => BSLASH ∉ n /\ child d n ∈ D) ns ->
  (weight D (map (child d) ns) <= size (below d D))%nat.
Proof.
  intros Hnd Hall.
  assert (weight D (map (child d) ns) = size (⋃ map (subtree d D) ns) /\ ⋃ map (subtree d D) ns ⊆ below d D)
    as [-> Hsub].
  2:{ by apply subseteq_size. }
  induction Hnd as [|n ns Hn Hnd IH]; [by split; [|set_solver]|].
  apply Forall_cons in Hall as [[Hb Hc] Hall]. destruct (IH Hall) as [E Hs].
  cbn [map union_list foldr weight sum_list_with]. fold (weight D (map (child d) ns)).
  split.
  - rewrite size_union, subtree_size.
    + by rewrite <- E.
    + intros p Hp Hu. apply elem_of_union_list in Hu as (X&HX&HpX).
      apply list_elem_of_fmap in HX as (n'&->&Hn'). rewrite Forall_forall in Hall. destruct (Hall n' Hn') as [Hb' _].
      apply subtree_name in Hp; [|done]. apply subtree_name in HpX; [|done]. congruence.
  - apply union_subseteq. split; [by apply subtree_below|done].
Qed.

(** ** What [list_dir] gives *)

Lemma name_in_Some d p n : name_in d p = Some n -> p = child d n /\ BSLASH ∉ n.
Proof.
  unfold name_in. destruct (starts_with _ p) eqn:E; [|done]. case_bool_decide as Hb; [done|].
  intros [= <-]. apply starts_with_spec in E as [s ->]. rewrite drop_app_length in *.
  split; [by unfold child; rewrite <- app_assoc|]. intros Hi. apply Hb. by right.
Qed.

Lemma names_NoDup d l : NoDup l -> NoDup (omap (name_in d) l).
Proof.
  induction 1 as [|p l Hp _ IH]; [constructor|]. simpl. destruct (name_in d p) as [n|] eqn:E; [|done].
  constructor; [|done]. intros (q&Hq&Eq)%list_elem_of_omap.
  apply name_in_Some in E as [-> _]. apply name_in_Some in Eq as [-> _]. done.
Qed.

(** The subdirectories among the entries. *)
Definition subdirs (es : list (wstr * bool)) : list wstr := map fst (filter (fun e => e.2 = true) es).

Lemma subdirs_app a b : subdirs (a ++ b) = subdirs a ++ subdirs b.
Proof. unfold subdirs. by rewrite filter_app, map_app. Qed.

Lemma list_dir_subdirs d s es s' :
  list_dir d s = (Ok es, s') ->
  dirs s' = dirs s /\ NoDup (subdirs es) /\ Forall (fun n => BSLASH ∉ n /\ child d n ∈ dirs s) (subdirs es).
Proof.
  unfold list_dir, next_io, bind, gets, ret. cbn [dirs disk]. intros [= <- <-]. split; [done|].
  destruct (default _ _); [|split; constructor..].
  assert (forall l, subdirs (map (fun n => (n, false)) l) = []) as Hf by (by induction l).
  assert (forall l, subdirs (map (fun n => (n, true)) l) = l) as Ht.
  { induction l as [|n l IH]; [done|]. unfold subdirs in *. simpl in *. by rewrite IH. }
  rewrite subdirs_app, Hf, Ht. cbn [app]. split.
  - apply (names_NoDup d), NoDup_elements.
  - apply Forall_forall. intros n Hn. apply list_elem_of_omap in Hn as (p&Hp&Hn).
    apply name_in_Some in Hn as [-> Hb]. by apply elem_of_elements in Hp.
Qed.

Section engine.
Context `{Win32Text} `{CNG} `{Json} `{DPAPI} `{LocalTime}.

(** ** The walk *)

(** Where the walk goes is not changed by what it does there. *)
Definition place (w : World) := (fs w, rootRules_ w, running_ w).
Abbreviation keeps_place := (keeps place).
Abbreviation keeps_dirs := (keeps (fun w : World => dirs (fs w))).

Lemma place_dirs {A} (m : M World A) : keeps_place m -> keeps_dirs m.
Proof. apply (keeps_image (fun p => dirs p.1.1)). Qed.

Lemma dirs_list_dir d : keeps_dirs (on_fs (list_dir d)).
Proof.
  intros w. unfold on_fs, zoom. destruct (list_dir d (fs w)) as [[es|e] s'] eqn:E.
  - by apply list_dir_subdirs in E as [? _].
  - unfold list_dir, next_io, bind, gets, ret in E. discriminate E.
Qed.

Lemma place_on_db {A} (m : M LocalDb.Db A) : keeps_place (on_db m).
Proof. by apply keeps_zoom. Qed.

Lemma place_setStatus s t : keeps_place (setStatus s t).
Proof.
  unfold setStatus.
  repeat first [ apply keeps_gets | apply keeps_ret | apply keeps_bind; [|intros ?] | apply place_on_db
               | apply keeps_modify; done | match goal with |- keeps _ (match ?x with _ => _ end) => destruct x end ].
Qed.

Lemma place_scan_entry d e : keeps_place (scan_entry d e).
Proof.
  unfold scan_entry, locateInRoots, listSyncRoots, listSyncFiles, queueUpload, enqueue, request_sync.
  repeat first [ apply keeps_gets | apply keeps_ret | apply keeps_lift | apply place_on_db | apply place_setStatus
               | apply keeps_bind; [|intros ?] | apply keeps_modify; done
               | match goal with |- keeps _ (match ?x with _ => _ end) => destruct x end ].
Qed.

Lemma place_scan_entries d es : keeps_place (scan_entries d es).
Proof.
  induction es as [|e es IH]; cbn [scan_entries]; [apply keeps_ret|].
  apply keeps_bind; [apply place_scan_entry|intros a]. apply keeps_bind; [done|intros b]. apply keeps_ret.
Qed.

Lemma dirs_scan_entries d es : keeps_dirs (scan_entries d es).
Proof. apply place_dirs, place_scan_entries. Qed.

(** The directories pushed are the subdirectories listed, in order. *)
Lemma scan_entry_pushes d e w l w' :
  scan_entry d e w = (Ok l, w') -> l = if e.2 then [child d e.1] else [].
Proof.
  unfold scan_entry. destruct e.2; [by intros [-> _]%ret_Ok|].
  intros (loc&w1&_&E)%bind_Ok. destruct loc as [[rel root]|]; [|by apply ret_Ok in E as [-> _]].
  apply bind_Ok in E as (ign&w2&_&E). destruct ign; [by apply ret_Ok in E as [-> _]|].
  apply bind_Ok in E as (st&w3&_&E). destruct st; [by apply ret_Ok in E as [-> _]|].
  apply bind_Ok in E as (u&w4&_&E). by apply ret_Ok in E as [-> _].
Qed.

Lemma scan_entries_pushes d es w l w' :
  scan_entries d es w = (Ok l, w') -> l = map (child d) (subdirs es).
Proof.
  revert w l. induction es as [|e es IH]; intros w l; cbn [scan_entries]; [by intros [-> _]%ret_Ok|].
  intros (a&w1&Ha&E)%bind_Ok. apply bind_Ok in E as (b&w2&Hb&E). apply ret_Ok in E as [-> ->].
  apply scan_entry_pushes in Ha as ->. apply IH in Hb as ->.
  unfold subdirs. rewrite filter_cons. destruct e as [n [|]]; simpl; done.
Qed.

(** One round: the directory on top gives way to its children. *)
Lemma scan_round d es w l w1 w2 :
  on_fs (list_dir d) w = (Ok es, w1) -> scan_entries d es w1 = (Ok l, w2) ->
  dirs (fs w2) = dirs (fs w) /\ (weight (dirs (fs w)) l <= size (below d (dirs (fs w))))%nat.
Proof.
  intros Hl He. pose proof (keeps_Ok _ _ _ _ _ (dirs_list_dir d) Hl) as E1. cbn beta in E1.
  pose proof (keeps_Ok _ _ _ _ _ (dirs_scan_entries d es) He) as E2. cbn beta in E2.
  apply zoom_Ok in Hl as (s&Hl&->). apply list_dir_subdirs in Hl as (_&Hnd&Hall).
  apply scan_entries_pushes in He as ->. split; [congruence|]. by apply children_weight.
Qed.

Lemma weight_app D a b : weight D (a ++ b) = (weight D a + weight D b)%nat.
Proof. apply sum_list_with_app. Qed.

Lemma last_removelast (st : list wstr) d : last st = Some d -> st = removelast st ++ [d].
Proof.
  intros Hl. apply last_Some in Hl as [l ->]. rewrite removelast_app by done. simpl. by rewrite app_nil_r.
Qed.

(** With more fuel than weight the walk does not run out of it, and any such
    fuel gives the same walk. *)
Lemma scan_stack_fuel f1 f2 st w :
  (weight (dirs (fs w)) st < f1)%nat -> (weight (dirs (fs w)) st < f2)%nat ->
  scan_stack f1 st w = scan_stack f2 st w /\ (scan_stack f1 st w).1 <> Ok false.
Proof.
  revert f2 st w. induction f1 as [|f1 IH]; intros [|f2] st w H1f H2f; [lia..|]. cbn [scan_stack].
  destruct (last st) as [d|] eqn:El; [|done]. pose proof (last_removelast st d El) as Est.
  unfold bind, gets. destruct (running_ w); cbn [negb]; [|done].
  destruct (scan_dir d w) as [[l|e] w2] eqn:Hs; [|done]. apply bind_Ok in Hs as (es&w1&Hl&He).
  destruct (scan_round d es w l w1 w2 Hl He) as [Ed Hw].
  assert (weight (dirs (fs w)) st = weight (dirs (fs w)) (removelast st) + S (size (below d (dirs (fs w)))))%nat as Ew.
  { rewrite Est at 1. rewrite weight_app. unfold weight at 2. simpl. lia. }
  apply IH; rewrite Ed, weight_app; lia.
Qed.

Lemma dirs_scan_stack f st : keeps_dirs (scan_stack f st).
Proof.
  revert st. induction f as [|f IH]; intros st; cbn [scan_stack]; [apply keeps_ret|].
  destruct (last st); [|apply keeps_ret]. apply keeps_bind; [apply keeps_gets|intros go].
  destruct (negb go); [apply keeps_ret|].
  apply keeps_bind; [|intros pushed; apply IH].
  apply keeps_bind; [apply dirs_list_dir|intros es; apply dirs_scan_entries].
Qed.

(** A root alone weighs at most one round for itself and one for every directory. *)
Lemma weight_root D root : (weight D [root] <= S (size D))%nat.
Proof.
  unfold weight. simpl. assert (below root D ⊆ D) as Hs by (unfold below; set_solver).
  apply subseteq_size in Hs. lia.
Qed.

Lemma scan_roots_fuel f1 f2 roots w :
  (S (size (dirs (fs w))) < f1)%nat -> (S (size (dirs (fs w))) < f2)%nat ->
  scan_roots f1 roots w = scan_roots f2 roots w /\ (scan_roots f1 roots w).1 <> Ok false.
Proof.
  revert w. induction roots as [|[i root] roots IH]; intros w H1f H2f; cbn [scan_roots]; [done|].
  unfold bind, gets. destruct (running_ w); cbn [negb]; [|done].
  pose proof (weight_root (dirs (fs w)) root) as Hw.
  destruct (scan_stack_fuel f1 f2 [root] w) as [Es Hne]; [lia..|].
  rewrite <- Es. destruct (scan_stack f1 [root] w) as [[a|e] w1] eqn:E; [|done].
  apply (keeps_Ok _ _ _ _ _ (dirs_scan_stack f1 [root])) in E. cbn beta in E.
  destruct a; [|by destruct Hne].
  destruct (IH w1) as [Er Hr]; [by rewrite E..|]. rewrite <- Er.
  destruct (scan_roots f1 roots w1) as [[b|e] w2]; [|done]. split; [done|]. cbn [fst andb] in *. by destruct b.
Qed.
End engine.
End EngineScanFacts.

(** * The claims *)

Module EngineScanSpec.
Import EngineScanFacts.

Section engine.
Context `{Win32Text} `{CNG} `{Json} `{DPAPI} `{LocalTime}.

(** C16: the scanner's walk terminates. On any disk, with any files in the
    folders and whatever the database and the disk refuse, a pass that may take
    two rounds more than there are directories on the disk does not run out of
    rounds, and no further round would change anything: the loop of the code,
    which has no bound, ends. No directory is listed twice, although the walk
    keeps no record of where it has been: the children a listing pushes leave at most
    as many rounds as there are directories below the listed one. *)
Theorem scan_terminates (fuel : nat) (w : World) (Hfuel : (size (dirs (fs w)) + 2 <= fuel)%nat) :
  (scanner_pass fuel w).1 <> Ok false /\
  scanner_pass fuel w = scanner_pass (size (dirs (fs w)) + 2) w /\
  (forall d es l w1 w2, on_fs (list_dir d) w = (Ok es, w1) -> scan_entries d es w1 = (Ok l, w2) ->
     NoDup l /\ (weight (dirs (fs w)) l <= size (below d (dirs (fs w))))%nat).
Proof.
  assert (scanner_pass fuel w = scanner_pass (size (dirs (fs w)) + 2) w /\ (scanner_pass fuel w).1 <> Ok false)
    as [E Hne].
  { unfold scanner_pass, bind, gets. destruct (may_sync w); cbn [negb]; [|done].
    pose proof (keeps_Ok (fun w => dirs (fs w)) listSyncRoots w) as Hk.
    destruct (listSyncRoots w) as [[roots|e] w1]; [|done].
    assert (dirs (fs w1) = dirs (fs w)) as Ed.
    { apply (Hk (Ok roots) w1); [|done]. unfold listSyncRoots. apply keeps_bind; [apply place_dirs, place_on_db|by intros]. }
    apply scan_roots_fuel; rewrite Ed; lia. }
  split_and!; [done..|]. intros d es l w1 w2 Hl He. split; [|by apply (scan_round d es w l w1 w2)].
  apply zoom_Ok in Hl as (s&Hl&->). apply list_dir_subdirs in Hl as (_&Hnd&_).
  apply scan_entries_pushes in He as ->. apply NoDup_fmap_2; [|done].
  intros a b E2. unfold child in E2. by repeat apply app_inv_head in E2.
Qed.
End engine.

Import EngineSpec.Toy.

Definition tree : gset wstr := {[lit "C:\notes"; lit "C:\notes\a"; lit "C:\notes\a\b"; lit "C:\notes\c"]}.

(** A signed-in engine over that tree. *)
Definition scan_world : World :=
  put_running true (put_fs (MkFs {[lit "C:\notes\a\b\x.md" := lit "x"]} tree [])
    (world [] tables key [])).

Lemma scan_terminates_witness :
  (scanner_pass 6 scan_world).1 <> Ok false /\
  map LocalDb.op_relPath (LocalDb.pending_ops (LocalDb.tables (db (scanner_pass 6 scan_world).2)))
    = [lit "r1:a/b/x.md"].
Proof.
  split; [|vm_compute; reflexivity].
  apply (scan_terminates 6 scan_world). vm_compute. lia.
Defined.

End EngineScanSpec.
