(* ===== verification/EngineFindSpec.v ===== *)
(** * EngineFindSpec: what the scanner finds

    The walk followed over a tree that does not change: every file below a
    folder is looked at, and exactly the new ones among them are queued. A file
    that the database knows is left alone, whether it changed or not. *)
From S2P Require Import Prelude Text VersionVector Merge Platform PathUtil IgnoreRules Crypto.
From S2P Require Import KeySetup LocalDb ApiClient FolderWatcher FileSystem Settings.
From S2P Require Import EngineState EngineKeys EngineSync EngineRun EngineFacts EngineFrame.
From S2P Require Import EngineSpec EngineSyncSpec EngineEventSpec EngineScanSpec.
Import EngineState.Engine EngineKeys.EngineKeys EngineSync.EngineSync EngineRun.EngineRun.
Import EngineFacts.EngineFacts EngineSyncSpec.EngineSyncFacts EngineEventSpec.EngineEventFacts.
Import EngineScanSpec.EngineScanFacts.
Import FileSystem FileSystemFacts.
Import LocalDb(Db, PendingOp).

#[local] Open Scope monad_scope.

Module EngineFindFacts.

(** ** Files below a directory *)

Definition entry_name (n : wstr) : Prop := n <> [] /\ BSLASH ∉ n.

(** [e] is [d] or a directory below it, with every directory between. *)
Inductive reach (D : gset wstr) (d : wstr) : wstr -> Prop :=
  | reach_here : reach D d d
  | reach_down n e : entry_name n -> child d n ∈ D -> reach D (child d n) e -> reach D d e.

Lemma name_in_child d n : entry_name n -> name_in d (child d n) = Some n.
Proof.
  intros [Hn Hb]. unfold name_in, child.
  rewrite (proj2 (starts_with_spec _ _)) by (exists n; by rewrite <- app_assoc).
  replace (d ++ [BSLASH] ++ n) with ((d ++ [BSLASH]) ++ n) by (by rewrite <- app_assoc).
  rewrite drop_app_length. rewrite bool_decide_false; [done|]. naive_solver.
Qed.

Lemma list_dir_run d s : events s = [] -> exists es, list_dir d s = (Ok es, s) /\
  (forall n, (n, false) ∈ es <-> entry_name n /\ is_Some (disk s !! child d n)) /\
  (forall n, (n, true) ∈ es <-> entry_name n /\ child d n ∈ dirs s).
Proof.
  intros He. unfold list_dir, next_io, bind, gets, ret. rewrite He. cbn [head default from_option drop disk dirs].
  assert (MkFs (disk s) (dirs s) [] = s) as -> by (destruct s; cbn in He; by subst).
  eexists. split; [reflexivity|].
  assert (forall (l : list wstr) n, n ∈ omap (name_in d) l <-> entry_name n /\ child d n ∈ l) as Hl.
  { intros l n. rewrite list_elem_of_omap. split.
    - intros (p & Hp & Hn). unfold name_in in Hn. destruct (starts_with _ p) eqn:Es; [|done].
      case_bool_decide as Hb; [done|]. injection Hn as Hn. apply starts_with_spec in Es as [r ->].
      rewrite drop_app_length in *. subst r. split; [split; naive_solver|]. unfold child. by rewrite <- app_assoc in Hp.
    - intros [Hn Hp]. exists (child d n). split; [done|]. by apply name_in_child. }
  split; intros n; rewrite elem_of_app, !list_elem_of_fmap; setoid_rewrite Hl.
  - split.
    + intros [(n' & [= <-] & Hn & ((k, v) & -> & Hp%elem_of_map_to_list)%list_elem_of_fmap)|(n' & [=] & _)].
      split; [done|]. cbn. by eexists.
    + intros [Hn [c Hc]]. left. exists n. split; [done|]. split; [done|]. apply list_elem_of_fmap.
      exists (child d n, c). split; [done|]. by apply elem_of_map_to_list.
  - split.
    + intros [(n' & [=] & _)|(n' & [= <-] & Hn & Hp%elem_of_elements)]. done.
    + intros [Hn Hp]. right. exists n. split; [done|]. split; [done|]. by apply elem_of_elements.
Qed.

(** ** What a part of the walk has done *)

Section engine.
Context `{Win32Text} `{CNG} `{Json} `{DPAPI} `{LocalTime}.

(** The path that the ignore rules see. *)
Definition normal (rel : str) : str := match find_char COLON rel with Some c => drop (S c) rel | None => rel end.

Definition recorded (w : World) (rel : str) : Prop :=
  exists r, r ∈ LocalDb.files (tables_of w) /\ LocalDb.fr_rel_path r = c_str rel.

(** A file of the user's that is not ignored and that the database does not
    know, with its key. *)
Definition new_file (w : World) (p : wstr) (rel : str) : Prop :=
  (exists root, located (tables_of w) p = Ok (Some (rel, root))) /\
  ignored w (normal rel) false = false /\ ~ recorded w rel.

Definition upload_of (rel : str) (o : PendingOp) : Prop :=
  LocalDb.op_kind o = lit "upload" /\ LocalDb.op_relPath o = c_str rel.

Definition has_upload (rel : str) (q : list PendingOp) : Prop := exists o, o ∈ q /\ upload_of rel o.

(** The files of [ps] were looked at between [w] and [w']. *)
Record scanned (ps : list wstr) (w w' : World) : Prop := {
  sc_healthy : healthy w';
  sc_place : place w' = place w;
  sc_rows : LocalDb.sync_roots (tables_of w') = LocalDb.sync_roots (tables_of w) /\
            LocalDb.files (tables_of w') = LocalDb.files (tables_of w) /\
            LocalDb.conflicts (tables_of w') = LocalDb.conflicts (tables_of w);
  sc_seq : LocalDb.seq (tables_of w) <= LocalDb.seq (tables_of w');
  sc_kept : forall rel, room w' -> has_upload rel (queue w) -> has_upload rel (queue w');
  sc_found : forall p rel, room w' -> p ∈ ps -> new_file w p rel -> has_upload rel (queue w');
  sc_only : forall o, o ∈ queue w' -> o ∈ queue w \/
              exists p rel, p ∈ ps /\ new_file w p rel /\ upload_of rel o /\ LocalDb.op_retryCount o = 0;
  sc_rest : forall o, o ∈ queue w -> LocalDb.op_kind o <> lit "upload" -> o ∈ queue w'
}.

Lemma new_file_same ps w w' p rel : scanned ps w w' -> new_file w' p rel <-> new_file w p rel.
Proof.
  intros [_ Hp (Er & Ef & _) _ _ _ _ _]. unfold new_file, recorded, located, folders, single_files, ignored.
  injection Hp as _ Hr _. by rewrite Er, Ef, Hr.
Qed.

Lemma scanned_calm w w' : calm w w' -> scanned [] w w'.
Proof.
  intros Hc. pose proof (calm_tables _ _ Hc) as T. assert (queue w' = queue w) as Q by (unfold queue; by f_equal).
  split; rewrite ?T, ?Q; try done.
  - by eapply calm_healthy.
  - by destruct Hc as (d & -> & _).
  - by intros p rel _ ?%elem_of_nil.
  - intros o Ho. by left.
Qed.

Lemma scanned_refl w : healthy w -> scanned [] w w.
Proof. intros Hw. by apply scanned_calm, calm_refl. Qed.

Lemma scanned_trans ps ps' w w1 w2 : scanned ps w w1 -> scanned ps' w1 w2 -> scanned (ps ++ ps') w w2.
Proof.
  intros S1 S2. pose proof (fun p rel => new_file_same ps w w1 p rel S1) as Hn.
  destruct S1 as [_ P1 (R1 & F1 & C1) Q1 K1 N1 O1 M1], S2 as [Hw P2 (R2 & F2 & C2) Q2 K2 N2 O2 M2].
  assert (room w2 -> room w1) as Hroom by (unfold room; lia).
  split; [done|congruence|split_and!; congruence|lia| | | |].
  - intros rel Hr Hu. auto.
  - intros p rel Hr [Hp|Hp]%elem_of_app Hnew; [by apply K2, (N1 p); auto|]. apply (N2 p); [done|done|by apply Hn].
  - intros o [Ho|(p & rel & Hp & Hnew & Hu)]%O2.
    + apply O1 in Ho as [Ho|(p & rel & Hp & Hnew & Hu)]; [by left|right]. exists p, rel. by rewrite elem_of_app; auto.
    + right. exists p, rel. rewrite elem_of_app. rewrite <- Hn. auto.
  - auto.
Qed.

(** The statement behind [queueUpload], and what the queue is then. *)
Lemma queueUpload_effect rel w u w' : healthy w -> queueUpload rel w = (Ok u, w') ->
  healthy w' /\ tables_of w' =
    (let t := LocalDb.set_ops (filter (fun o => ~ (LocalDb.op_relPath o = c_str rel /\ LocalDb.op_kind o = lit "upload")))
                (tables_of w) in
     default t (LocalDb.insert_op (LocalDb.MkOp 0 (lit "upload") rel [] 0 0 []) (clock w) t)).
Proof.
  intros Hw. unfold queueUpload. intros (b & w1 & E1 & E)%bind_Ok.
  assert (healthy w1 /\ tables_of w1 =
    (let t := LocalDb.set_ops (filter (fun o => ~ (LocalDb.op_relPath o = c_str rel /\ LocalDb.op_kind o = lit "upload")))
                (tables_of w) in
     default t (LocalDb.insert_op (LocalDb.MkOp 0 (lit "upload") rel [] 0 0 []) (clock w) t))) as [Hw1 T1].
  { unfold enqueue in E1. unfold bind at 1, gets at 1 in E1. apply zoom_Ok in E1 as (d & E1 & ->).
    unfold LocalDb.enqueueOp in E1. apply bind_Ok in E1 as (b1 & d1 & E1 & E2).
    rewrite LocalDbFacts.healthy_stmt in E1 by exact Hw. injection E1 as <- <-.
    cbn [LocalDb.op_relPath LocalDb.op_kind] in E2. change (c_str (lit "upload")) with (lit "upload") in E2.
    unfold LocalDb.stmt_opt in E2. cbn [LocalDb.opened negb] in E2.
    rewrite LocalDbFacts.healthy_next in E2 by (by apply LocalDbFacts.healthy_step).
    assert (forall t, LocalDbFacts.healthy (LocalDb.MkDb true t (drop 1 (drop 1 (LocalDb.faults (db w)))))) as Hd
      by (intros t; apply (LocalDbFacts.healthy_step (LocalDb.MkDb true (tables_of w) (drop 1 (LocalDb.faults (db w)))));
          by apply LocalDbFacts.healthy_step).
    destruct (LocalDb.insert_op _ _ _) as [t|] eqn:Ei in E2; injection E2 as _ <-;
      (split; [apply Hd|symmetry; exact (f_equal (default _) Ei)]). }
  apply bind_Ok in E as ([] & w2 & E2 & E). destruct (status_run Syncing (lit "Queued upload") w1 Hw1) as (w3 & E3 & Hw3 & T3).
  rewrite E3 in E2. injection E2 as <-. injection E as _ <-. split; [exact Hw3|]. etransitivity; [exact T3|exact T1].
Qed.

Lemma place_queueUpload rel : keeps place (queueUpload rel).
Proof.
  unfold queueUpload, enqueue, request_sync.
  repeat first [ apply keeps_gets | apply place_on_db | apply place_setStatus
               | apply keeps_bind; [|intros ?] | apply keeps_modify; done ].
Qed.

(** ** An entry, the entries, a directory *)

Lemma scanned_upload p rel w u w' :
  healthy w -> new_file w p rel -> queueUpload rel w = (Ok u, w') -> scanned [p] w w'.
Proof.
  intros Hw Hnew E. pose proof (keeps_Ok _ _ _ _ _ (place_queueUpload rel) E) as Hp.
  apply queueUpload_effect in E as [Hw' T]; [|done]. cbv zeta in T. unfold LocalDb.insert_op in T.
  set (keep := fun o => _) in T. cbn [LocalDb.set_ops LocalDb.seq] in T.
  destruct (Z.leb_spec INT64_MAX (LocalDb.seq (tables_of w))) as [Hs|Hs]; cbn [default from_option id] in T.
  - split; rewrite ?T; try done; unfold queue; fold (tables_of w'); fold (tables_of w); rewrite ?T; cbn [LocalDb.set_ops LocalDb.pending_ops].
    1-2: (intros *; unfold room; rewrite T; cbn [LocalDb.set_ops LocalDb.seq]; lia).
    + intros o [_ Ho]%list_elem_of_filter. by left.
    + intros o Ho Hk. apply list_elem_of_filter. split; [|done]. by intros [_ ?].
  - assert (queue w' = filter keep (queue w) ++
      [LocalDb.MkOp (LocalDb.seq (tables_of w) + 1) (lit "upload") (c_str rel) [] (clock w) 0 []]) as Q
      by (unfold queue; fold (tables_of w'); by rewrite T).
    split; rewrite ?T, ?Q; cbn [LocalDb.sync_roots LocalDb.files LocalDb.conflicts LocalDb.seq]; try done; [lia|..].
    + intros rel' _ (o & Ho & Hu). 
      destruct (decide (LocalDb.op_relPath o = c_str rel /\ LocalDb.op_kind o = lit "upload")) as [[Er _]|Hk].
      2: { exists o. split; [|done]. apply elem_of_app. left. by apply list_elem_of_filter. }
      eexists. split; [apply elem_of_app; right; by apply list_elem_of_singleton|].
      split; [done|]. cbn. destruct Hu as [_ Hu]. congruence.
    + intros p' rel' _ ->%list_elem_of_singleton [(root' & Hl') _]. destruct Hnew as [(root & Hl) _].
      rewrite Hl in Hl'. injection Hl' as <- _.
      eexists. split; [apply elem_of_app; right; by apply list_elem_of_singleton|done].
    + intros o [[_ Ho]%list_elem_of_filter| ->%list_elem_of_singleton]%elem_of_app; [by left|right].
      exists p, rel. split_and!; [by apply list_elem_of_singleton|done|done|done].
    + intros o Ho Hk. apply elem_of_app. left. apply list_elem_of_filter. split; [|done]. by intros [_ ?].
Qed.

(** A file that is not new is passed over. *)
Lemma scanned_skip p w w' : calm w w' -> (forall rel, ~ new_file w p rel) -> scanned [p] w w'.
Proof.
  intros Hc Hn. apply scanned_calm in Hc as [A1 A2 A3 A4 A5 A6 A7 A8]. split; try done.
  - intros p' rel _ ->%list_elem_of_singleton Hnew. by destruct (Hn rel).
  - intros o [Ho|(p' & rel & Hp & _)]%A7; [by left|by apply elem_of_nil in Hp].
Qed.

Lemma getFile_known rel w : healthy w -> exists st w', on_db (LocalDb.getFile rel) w = (Ok st, w') /\ calm w w' /\
  (st = None <-> ~ recorded w rel).
Proof.
  intros Hw. unfold LocalDb.getFile.
  match goal with |- context [LocalDb.query ?r] => destruct (on_db_query r w Hw) as (w1 & E1 & Hc) end.
  eexists _, w1. split_and!.
  - unfold on_db, zoom in E1 |- *. unfold bind. destruct (LocalDb.query _ _) as [[l|] d]; [|done].
    injection E1 as -> <-. reflexivity.
  - done.
  - unfold recorded. destruct (filter _ _) as [|r l] eqn:El; cbn [head fmap option_fmap option_map]; split; try done.
    + intros _ (r & Hr & Er). assert (r ∈ ([] : list LocalDb.FileRow)) as Hn by (rewrite <- El; by apply list_elem_of_filter).
      by apply elem_of_nil in Hn.
    + intros Hn. destruct Hn. exists r. apply and_comm.
      apply (list_elem_of_filter (fun r => LocalDb.fr_rel_path r = c_str rel)). rewrite El. by left.
Qed.

Lemma scanned_entry d n sub w l w' :
  healthy w -> scan_entry d (n, sub) w = (Ok l, w') -> scanned (if sub then [] else [child d n]) w w'.
Proof.
  intros Hw. unfold scan_entry. cbn [fst snd]. fold (child d n). destruct sub; [intros [_ ->]%ret_Ok; by apply scanned_refl|].
  destruct (locateInRoots_run (child d n) w Hw) as (w1 & E1 & C1).
  intros (loc & w1' & E & E2)%bind_Ok. rewrite E1 in E. injection E as El <-.
  pose proof (calm_tables _ _ C1) as T1. pose proof (calm_healthy _ _ C1) as Hw1.
  assert (forall rel, ignored w1 (normal rel) false = ignored w (normal rel) false) as Hi
    by (intros; by destruct C1 as (? & -> & _)).
  destruct loc as [[rel root]|].
  2:{ apply ret_Ok in E2 as [_ ->]. apply scanned_skip; [done|]. intros rel [(root & Hl) _]. congruence. }
  fold (normal rel) in E2. unfold bind at 1, gets at 1 in E2. rewrite Hi in E2.
  destruct (ignored w (normal rel) false) eqn:Ei.
  { apply ret_Ok in E2 as [_ ->]. apply scanned_skip; [done|]. intros rel' [(root' & Hl) [Hg _]]. congruence. }
  destruct (getFile_known rel w1 Hw1) as (st & w2 & E3 & C2 & Hst).
  assert (calm w w2) as C by (by eapply calm_trans).
  assert (recorded w1 rel <-> recorded w rel) as Hrec by (unfold recorded; by rewrite T1).
  apply bind_Ok in E2 as (st' & w2' & E & E2). rewrite E3 in E. injection E as <- <-. destruct st as [f|].
  - apply ret_Ok in E2 as [_ ->]. apply scanned_skip; [done|]. intros rel' [(root' & Hl) [_ Hk]].
    assert (rel' = rel) as -> by congruence. rewrite <- Hrec in Hk. by apply Hst in Hk.
  - apply bind_Ok in E2 as ([] & w3 & E4 & E2). apply ret_Ok in E2 as [_ ->].
    change [child d n] with ([] ++ [child d n]). eapply scanned_trans; [by apply scanned_calm|].
    eapply scanned_upload; [by eapply calm_healthy| |exact E4].
    apply (new_file_same [] w); [by apply scanned_calm|]. split_and!; [by exists root; congruence|done|].
    rewrite <- Hrec. by apply Hst.
Qed.

(** The files among the entries. *)
Definition files_in (d : wstr) (es : list (wstr * bool)) : list wstr :=
  map (fun e => child d e.1) (filter (fun e => e.2 = false) es).

Lemma scanned_entries d es w l w' :
  healthy w -> scan_entries d es w = (Ok l, w') -> scanned (files_in d es) w w'.
Proof.
  revert w l. induction es as [|[n sub] es IH]; intros w l Hw; cbn [scan_entries].
  { intros [_ ->]%ret_Ok. by apply scanned_refl. }
  intros (a & w1 & E1 & E)%bind_Ok. apply bind_Ok in E as (b & w2 & E2 & E). apply ret_Ok in E as [_ ->].
  apply scanned_entry in E1; [|done]. apply IH in E2; [|by eapply sc_healthy].
  pose proof (scanned_trans _ _ _ _ _ E1 E2) as S. unfold files_in in *. rewrite filter_cons. by destruct sub.
Qed.

(** The files below a directory, and below one of several. *)
Definition file_below (s : Fs) (d p : wstr) : Prop :=
  exists e n, reach (dirs s) d e /\ entry_name n /\ p = child e n /\ is_Some (disk s !! p).

Definition file_under (s : Fs) (ds : list wstr) (p : wstr) : Prop := exists d, d ∈ ds /\ file_below s d p.

Lemma file_under_app s a b p : file_under s (a ++ b) p <-> file_under s a p \/ file_under s b p.
Proof. unfold file_under. setoid_rewrite elem_of_app. naive_solver. Qed.

Lemma scanned_dir d w l w' :
  healthy w -> events (fs w) = [] -> scan_dir d w = (Ok l, w') -> exists ps, scanned ps w w' /\
    forall p, file_below (fs w) d p <-> p ∈ ps \/ file_under (fs w) l p.
Proof.
  intros Hw He. destruct (list_dir_run d (fs w) He) as (es & El & Hf & Hd). unfold scan_dir.
  intros (es' & w1 & E1 & E)%bind_Ok. unfold on_fs, zoom in E1. rewrite El in E1. injection E1 as <- <-.
  assert (put_fs (fs w) w = w) as Ew by (by destruct w). rewrite Ew in E.
  pose proof (scan_entries_pushes _ _ _ _ _ E) as ->. exists (files_in d es). split; [by eapply scanned_entries|].
  assert (forall p, p ∈ files_in d es <-> exists n, p = child d n /\ (n, false) ∈ es) as Hp.
  { intros p. unfold files_in. rewrite list_elem_of_fmap. setoid_rewrite list_elem_of_filter. split.
    - intros ([n b] & -> & [Hb Hn]). cbn in Hb. subst b. eauto.
    - intros (n & -> & Hn). exists (n, false). by split_and!. }
  assert (forall n, n ∈ subdirs es <-> (n, true) ∈ es) as Hs.
  { intros n. unfold subdirs. rewrite list_elem_of_fmap. setoid_rewrite list_elem_of_filter. split.
    - intros ([n' b] & -> & [Hb Hn]). cbn in Hb. by subst b.
    - intros Hn. exists (n, true). by split_and!. }
  intros p. rewrite Hp. split.
  - intros (e & n & Hr & Hn & -> & Hk). destruct Hr as [|m e Hm Hc Hr].
    + left. exists n. split; [done|]. by apply Hf.
    + right. exists (child d m). split; [|by exists e, n]. apply list_elem_of_fmap. exists m. split; [done|]. by apply Hs, Hd.
  - intros [(n & -> & [Hn Hk]%Hf)|(c & (m & -> & [Hm Hc]%Hs%Hd)%list_elem_of_fmap & e & n & Hr & Hn & -> & Hk)].
    + exists d, n. split_and!; [constructor|done|done|done].
    + exists e, n. split_and!; [by apply (reach_down _ d m)|done|done|done].
Qed.

(** ** The walk *)

Lemma scanned_fs ps w w' : scanned ps w w' -> fs w' = fs w /\ running_ w' = running_ w.
Proof. intros S. pose proof (sc_place _ _ _ S) as E. by injection E. Qed.

Lemma scanned_stack fuel st w w' :
  healthy w -> events (fs w) = [] -> running_ w = true -> scan_stack fuel st w = (Ok true, w') ->
  exists ps, scanned ps w w' /\ forall p, p ∈ ps <-> file_under (fs w) st p.
Proof.
  revert st w. induction fuel as [|fuel IH]; intros st w Hw He Hr; cbn [scan_stack]; [by intros [[=] _]%ret_Ok|].
  destruct (last st) as [d|] eqn:El.
  2:{ intros [_ ->]%ret_Ok. exists []. split; [by apply scanned_refl|]. apply last_None in El as ->.
      intros p. unfold file_under. split; [by intros ?%elem_of_nil|by intros (d & ?%elem_of_nil & _)]. }
  unfold bind at 1, gets at 1. rewrite Hr. cbn [negb]. intros (l & w1 & E1 & E)%bind_Ok.
  destruct (scanned_dir d w l w1 Hw He E1) as (ps & S1 & Hp). destruct (scanned_fs _ _ _ S1) as [Ef Er].
  destruct (IH _ w1 (sc_healthy _ _ _ S1) ltac:(congruence) ltac:(congruence) E) as (ps' & S2 & Hp').
  exists (ps ++ ps'). split; [by eapply scanned_trans|]. intros p.
  rewrite (last_removelast st d El) at 1. rewrite elem_of_app, Hp', Ef, !file_under_app.
  assert (file_under (fs w) [d] p <-> file_below (fs w) d p) as ->.
  { unfold file_under. setoid_rewrite list_elem_of_singleton. naive_solver. }
  rewrite Hp. tauto.
Qed.

Lemma scanned_roots fuel roots w w' :
  healthy w -> events (fs w) = [] -> running_ w = true -> scan_roots fuel roots w = (Ok true, w') ->
  exists ps, scanned ps w w' /\ forall p, p ∈ ps <-> file_under (fs w) (map snd roots) p.
Proof.
  revert w. induction roots as [|[i root] roots IH]; intros w Hw He Hr; cbn [scan_roots map].
  { intros [_ ->]%ret_Ok. exists []. split; [by apply scanned_refl|]. intros p. unfold file_under.
    split; [by intros ?%elem_of_nil|by intros (d & ?%elem_of_nil & _)]. }
  unfold bind at 1, gets at 1. rewrite Hr. cbn [negb]. intros (a & w1 & E1 & E)%bind_Ok.
  apply bind_Ok in E as (b & w2 & E2 & E). apply ret_Ok in E as [Eab ->].
  symmetry in Eab. apply andb_true_iff in Eab as [-> ->].
  destruct (scanned_stack _ _ _ _ Hw He Hr E1) as (ps & S1 & Hp). destruct (scanned_fs _ _ _ S1) as [Ef Er].
  destruct (IH w1 (sc_healthy _ _ _ S1) ltac:(congruence) ltac:(congruence) E2) as (ps' & S2 & Hp').
  exists (ps ++ ps'). split; [by eapply scanned_trans|]. intros p.
  by rewrite elem_of_app, Hp, Hp', Ef, <- file_under_app.
Qed.

(** ** The walk gets to its end *)

(** Every file of the disk can be mapped; the mapping throws for a path that is
    shorter than the root it is in. *)
Definition mappable (w : World) : Prop :=
  forall p, is_Some (disk (fs w) !! p) -> exists r, located (tables_of w) p = Ok r.

Lemma mappable_same ps w w' : scanned ps w w' -> mappable w -> mappable w'.
Proof.
  intros S Hm p. destruct (scanned_fs _ _ _ S) as [-> _]. destruct (sc_rows _ _ _ S) as (Er & _).
  unfold located, folders, single_files. rewrite Er. apply Hm.
Qed.

Lemma queueUpload_runs rel w : healthy w -> exists w', queueUpload rel w = (Ok tt, w').
Proof.
  intros Hw. assert (exists b w1, enqueue (lit "upload") rel w = (Ok b, w1) /\ healthy w1) as (b & w1 & E1 & Hw1).
  { unfold enqueue. unfold bind at 1, gets at 1. unfold on_db, zoom, LocalDb.enqueueOp, bind.
    rewrite LocalDbFacts.healthy_stmt by exact Hw. set (d := LocalDb.MkDb _ _ _).
    assert (LocalDbFacts.healthy d) as Hd by (by apply LocalDbFacts.healthy_step).
    match goal with |- context [LocalDb.stmt_opt ?u d] =>
      pose proof (health_stmt_opt u d Hd) as Hd'; unfold LocalDb.stmt_opt in *;
      rewrite (LocalDbFacts.he_open _ Hd) in *; cbn [negb] in *; rewrite (LocalDbFacts.healthy_next _ Hd) in *;
      destruct (u (LocalDb.tables d)) end; (eexists _, _; split; [reflexivity|exact Hd']). }
  unfold queueUpload. erewrite bind_run by exact E1.
  destruct (status_run Syncing (lit "Queued upload") w1 Hw1) as (w2 & E2 & _). erewrite bind_run by exact E2. by eexists.
Qed.

Lemma scan_entry_runs d e w : healthy w -> (e.2 = false -> exists r, located (tables_of w) (child d e.1) = Ok r) ->
  exists l w', scan_entry d e w = (Ok l, w').
Proof.
  intros Hw Hl. unfold scan_entry. fold (child d e.1). destruct e.2; [by do 2 eexists|]. destruct (Hl eq_refl) as [r Er].
  destruct (locateInRoots_run (child d e.1) w Hw) as (w1 & E1 & C1). rewrite Er in E1. erewrite bind_run by exact E1.
  destruct r as [[rel root]|]; [|by do 2 eexists]. unfold bind at 1, gets at 1. destruct (ignored w1 _ _); [by do 2 eexists|].
  destruct (getFile_known rel w1 (calm_healthy _ _ C1)) as (st & w2 & E2 & C2 & _). erewrite bind_run by exact E2.
  destruct st; [by do 2 eexists|]. destruct (queueUpload_runs rel w2 (calm_healthy _ _ C2)) as (w3 & E3).
  erewrite bind_run by exact E3. by do 2 eexists.
Qed.

Lemma scan_entries_runs d es w :
  healthy w -> (forall n, (n, false) ∈ es -> is_Some (disk (fs w) !! child d n)) -> mappable w ->
  exists l w', scan_entries d es w = (Ok l, w').
Proof.
  revert w. induction es as [|[n sub] es IH]; intros w Hw He Hm; cbn [scan_entries]; [by do 2 eexists|].
  destruct (scan_entry_runs d (n, sub) w Hw) as (a & w1 & E1).
  { cbn. intros ->. apply Hm, He. by left. }
  erewrite bind_run by exact E1. pose proof (scanned_entry _ _ _ _ _ _ Hw E1) as S1.
  destruct (IH w1) as (b & w2 & E2); [by eapply sc_healthy| |by eapply mappable_same|].
  { destruct (scanned_fs _ _ _ S1) as [-> _]. intros n' Hn'. apply He. by right. }
  erewrite bind_run by exact E2. by do 2 eexists.
Qed.

Lemma scan_dir_runs d w : healthy w -> events (fs w) = [] -> mappable w -> exists l w', scan_dir d w = (Ok l, w').
Proof.
  intros Hw He Hm. destruct (list_dir_run d (fs w) He) as (es & El & Hf & _). unfold scan_dir.
  assert (on_fs (list_dir d) w = (Ok es, w)) as E by (unfold on_fs, zoom; rewrite El; by destruct w).
  erewrite bind_run by exact E. apply scan_entries_runs; [done| |done]. intros n Hn. by apply Hf.
Qed.

Lemma scan_stack_runs fuel st w : (weight (dirs (fs w)) st < fuel)%nat ->
  healthy w -> events (fs w) = [] -> running_ w = true -> mappable w -> exists w', scan_stack fuel st w = (Ok true, w').
Proof.
  intros Hf Hw He Hr Hm. assert (exists b w', scan_stack fuel st w = (Ok b, w')) as (b & w' & E).
  { clear Hf. revert st w Hw He Hr Hm. induction fuel as [|fuel IH]; intros st w Hw He Hr Hm; cbn [scan_stack]; [by do 2 eexists|].
    destruct (last st) as [d|]; [|by do 2 eexists]. unfold bind at 1, gets at 1. rewrite Hr. cbn [negb].
    destruct (scan_dir_runs d w Hw He Hm) as (l & w1 & E1). erewrite bind_run by exact E1.
    destruct (scanned_dir d w l w1 Hw He E1) as (ps & S1 & _). destruct (scanned_fs _ _ _ S1) as [Ef Er].
    apply IH; [by eapply sc_healthy|congruence|congruence|by eapply mappable_same]. }
  destruct (scan_stack_fuel fuel fuel st w Hf Hf) as [_ Hne]. rewrite E in *. exists w'.
  destruct b; [done|]. by destruct Hne.
Qed.

Lemma scan_roots_runs fuel roots w : (S (size (dirs (fs w))) < fuel)%nat ->
  healthy w -> events (fs w) = [] -> running_ w = true -> mappable w -> exists w', scan_roots fuel roots w = (Ok true, w').
Proof.
  revert w. induction roots as [|[i root] roots IH]; intros w Hf Hw He Hr Hm; cbn [scan_roots]; [by eexists|].
  unfold bind at 1, gets at 1. rewrite Hr. cbn [negb]. pose proof (weight_root (dirs (fs w)) root) as Hwt.
  destruct (scan_stack_runs fuel [root] w ltac:(lia) Hw He Hr Hm) as (w1 & E1). erewrite bind_run by exact E1.
  destruct (scanned_stack _ _ _ _ Hw He Hr E1) as (ps & S1 & _). destruct (scanned_fs _ _ _ S1) as [Ef Er].
  destruct (IH w1) as (w2 & E2); [by rewrite Ef|by eapply sc_healthy|congruence|congruence|by eapply mappable_same|].
  erewrite bind_run by exact E2. by eexists.
Qed.
End engine.
End EngineFindFacts.

(** * The claims *)

Module EngineFindSpec.
Import EngineFindFacts.

Section engine.
Context `{Win32Text} `{CNG} `{Json} `{DPAPI} `{LocalTime}.

(** C15: a scan finds every new file and nothing else. On a signed-in, running
    engine with the key, over a disk that answers and a database that works, a
    pass with two rounds more than there are directories gets to its end. Then
    every file at any depth below a folder root, reached through directories of
    the disk, that is mapped, not ignored and unknown to the database has an
    upload in the queue, unless the queue has run out of row ids; everything in
    the queue was there before or is a fresh upload of such a file. So a file
    with a record is never queued by the scan, changed or not, and the disk,
    the records and the conflicts stay as they are. *)
Theorem scan_finds_new_files (fuel : nat) (w : World)
    (Hfuel : (size (dirs (fs w)) + 2 <= fuel)%nat) (Hw : healthy w) (He : events (fs w) = [])
    (Hr : may_sync w = true /\ running_ w = true) (Hm : mappable w) :
  let found p := file_under (fs w) (map snd (folders (tables_of w))) p in
  exists w', scanner_pass fuel w = (Ok true, w') /\
    (room w' -> forall p rel, found p -> new_file w p rel -> has_upload rel (queue w')) /\
    (forall o, o ∈ queue w' -> o ∈ queue w \/
       exists p rel, found p /\ new_file w p rel /\ upload_of rel o /\ LocalDb.op_retryCount o = 0) /\
    (forall rel, recorded w rel -> has_upload rel (queue w') -> has_upload rel (queue w)) /\
    fs w' = fs w /\ LocalDb.files (tables_of w') = LocalDb.files (tables_of w) /\
    LocalDb.conflicts (tables_of w') = LocalDb.conflicts (tables_of w).
Proof.
  intros found. destruct Hr as [Hs Hr]. unfold scanner_pass. unfold bind at 1, gets at 1. rewrite Hs. cbn [negb].
  destruct (listSyncRoots_run w Hw) as (w1 & E1 & C1). erewrite bind_run by exact E1.
  pose proof (scanned_calm _ _ C1) as S1. destruct (scanned_fs _ _ _ S1) as [Ef Er].
  assert (events (fs w1) = [] /\ running_ w1 = true) as [He1 Hr1] by (split; congruence).
  pose proof (calm_healthy _ _ C1) as Hw1.
  destruct (scan_roots_runs fuel (folders (tables_of w)) w1) as (w' & E2);
    [rewrite Ef; lia|done|done|done|by eapply mappable_same|].
  destruct (scanned_roots _ _ _ _ Hw1 He1 Hr1 E2) as (ps & S2 & Hp). rewrite Ef in Hp.
  pose proof (scanned_trans _ _ _ _ _ S1 S2) as S. exists w'. split; [exact E2|].
  destruct (scanned_fs _ _ _ S) as [Ef' _]. destruct (sc_rows _ _ _ S) as (_ & Efl & Ec).
  split_and!; [intros Hroom p rel Hf; apply (sc_found _ _ _ S); [done|by apply Hp]| | |done|done|done].
  - intros o [Ho|(p & rel & Hf & Hrest)]%(sc_only _ _ _ S); [by left|right]. exists p, rel. split; [by apply Hp|done].
  - intros rel (r & Hin & Erel) (o & Ho & Hk & Hu).
    apply (sc_only _ _ _ S) in Ho as [Ho|(p & rel' & _ & (_ & _ & Hn) & [_ Hu'] & _)]; [by exists o|].
    destruct Hn. exists r. split; [done|]. congruence.
Qed.
End engine.

Import EngineSpec.Toy.

(** The tree of the scanner's example with a file that the database knows,
    changed since, and a new one two directories further down. *)
Definition find_world : World :=
  put_running true (put_fs (MkFs (<[note_path := lit "changed"]> {[lit "C:\notes\a\b\x.md" := lit "x"]}) EngineScanSpec.tree [])
    (world [] (LocalDb.set_files (fun _ => [LocalDb.MkFileRow note_key (lit "f1") [] (lit "old hash") [] 1 [] 0 0]) tables) key [])).

Lemma scan_finds_new_files_witness :
  (exists w', scanner_pass 6 find_world = (Ok true, w') /\ forall rel, recorded find_world rel ->
     has_upload rel (queue w') -> has_upload rel (queue find_world)) /\
  map LocalDb.op_relPath (queue (scanner_pass 6 find_world).2) = [lit "r1:a/b/x.md"].
Proof.
  split; [|vm_compute; reflexivity].
  assert (mappable find_world) as Hm.
  { intros p [c Hc]. cbn in Hc. apply lookup_insert_Some in Hc as [[<- _]|[_ [<- _]%lookup_singleton_Some]];
      (eexists; vm_compute; reflexivity). }
  destruct (scan_finds_new_files 6 find_world) as (w' & E & _ & _ & Hrec & _); [vm_compute; lia|by split|done|done|exact Hm|].
  exists w'. split; [exact E|exact Hrec].
Defined.

End EngineFindSpec.
