(* ===== verification/EngineThreadSpec.v ===== *)
(** * EngineThreadSpec: the three threads, together and when they are stopped

    What a step of a thread does is nothing, a query, or one of the engine's
    operations; so an interleaving of the threads and their callers is a run of
    operations. Once [running_] is false each thread is a few steps from its
    end, and has at most the operations in hand that it was in the middle of. *)
From S2P Require Import Prelude Text Platform FileSystem FolderWatcher LocalDb ApiClient Settings.
From S2P Require Import EngineState EngineKeys EngineSync EngineRun EngineThreads EngineFacts EngineSpec.
From S2P Require Import EngineSyncSpec EngineQueueSpec.
Import Engine EngineRun EngineThreads EngineFacts.
Import LocalDb(PendingOp).

#[local] Open Scope monad_scope.

Module EngineThreadFacts.

(** ** What a thread has in hand, and how far it is from its end *)

Definition worker_ops (t : Worker) : list op :=
  match t with
  | WTest => [OFinishPass false]
  | WLoop _ b | WEnd b => [OFinishPass b]
  | WOne op _ => [OWorkOne op; OFinishPass true]
  | WTop | WNap _ | WDone => []
  end.

Definition poller_ops (t : Poller) : list op := match t with PBody => [OPoller] | _ => [] end.
Definition scanner_ops (t : Scanner) : list op := match t with SDir d _ _ => [OScanDir d] | _ => [] end.

Definition worker_left (t : Worker) : nat :=
  match t with WDone => 0 | WTop => 1 | WNap _ => 2 | WEnd _ => 3 | WLoop _ _ => 4 | WTest | WOne _ _ => 5 end.
Definition poller_left (t : Poller) : nat :=
  match t with PDone => 0 | PTop => 1 | PNap _ => 2 | PPause => 3 | PBody => 4 end.
Definition scanner_left (t : Scanner) : nat :=
  match t with
  | SDone => 0 | STop => 1 | SNap _ | SDelay _ => 2 | SRoots _ => 3 | STest | SStack _ _ => 4 | SDir _ _ _ => 5
  end.

(** ** A step of a thread *)

Section step.
Context `{Win32Text} `{CNG} `{Json} `{DPAPI} `{LocalTime}.
Context (dir : wstr).

(** [m] is a step from [t]: it performs operations of the threads and keeps the
    engine's core. With [running_] false it brings the thread nearer to its
    end, and uses up what it had in hand. *)
Definition thread_step {T} (ops : T -> list op) (togo : T -> nat) (t : T) (m : M World T) : Prop :=
  forall w r w', m w = (r, w') -> exists os,
    steps dir w os w' /\ Forall (fun o => thread_op o = true) os /\ core w' = core w /\
    (running_ w = false ->
       match r with Ok t' => os ++ ops t' ⊆+ ops t /\ (togo t' < togo t)%nat | Throw _ => os ⊆+ ops t end).

Section thread.
Context {T : Type} (ops : T -> list op) (togo : T -> nat) (t : T).
Abbreviation thread_step := (thread_step ops togo t).

(** A step that only looks at the state. *)
Lemma look_step {A} (f : World -> A) (k : A -> T) :
  (forall w, running_ w = false -> ops (k (f w)) ⊆+ ops t /\ (togo (k (f w)) < togo t)%nat) ->
  thread_step (let* a := gets f in ret (k a)).
Proof. intros Hk w r w' [= <- <-]. exists []. split_and!; [constructor|done|done|apply Hk]. Qed.

Lemma ret_step t' : ops t' ⊆+ ops t -> (togo t' < togo t)%nat -> thread_step (ret t').
Proof. intros Ho Hl w r w' [= <- <-]. exists []. split_and!; [constructor|done|done|done]. Qed.

Lemma nap_step n again next :
  (forall n, ops (again n) = []) -> ops next = [] -> (togo next < togo t)%nat -> thread_step (nap n again next).
Proof.
  intros Ha Hn Hl. destruct n as [|n]; [apply ret_step; [rewrite Hn; apply submseteq_nil_l|done]|].
  apply (look_step running_ (fun go : bool => if go then again n else next)).
  intros w ->. by rewrite Hn; split; [apply submseteq_nil_l|].
Qed.

Lemma while_step body done_ :
  ops done_ ⊆+ ops t -> (togo done_ < togo t)%nat -> thread_step (while_running body done_).
Proof.
  intros Ho Hl. apply (look_step running_ (fun go : bool => if go then body else done_)). by intros w ->.
Qed.

(** A query, and then the next place. *)
Lemma query_step {A} (m : M World A) (k : A -> T) :
  keeps env_of m -> keeps core m ->
  (forall a, ops (k a) ⊆+ ops t /\ (togo (k a) < togo t)%nat) -> thread_step (let* a := m in ret (k a)).
Proof.
  intros He Hc Hk w r w' E. specialize (He w). specialize (Hc w). unfold bind in E.
  destruct (m w) as [[a|e] w1]; cbn [snd] in *; injection E as <- <-; exists [];
    (split_and!; [by apply env_steps|done|done|intros _]); [apply Hk|apply submseteq_nil_l].
Qed.

(** An operation, and then the next place. *)
Lemma op_step {A} (m : M World A) (o : op) (k : A -> T) :
  (forall w, (m w).2 = run dir o w) -> thread_op o = true -> o ∈ ops t ->
  (forall a, [o] ++ ops (k a) ⊆+ ops t /\ (togo (k a) < togo t)%nat) -> thread_step (let* a := m in ret (k a)).
Proof.
  intros Hm Ho Hin Hk w r w' E. specialize (Hm w). unfold bind in E. exists [o].
  assert (core (m w).2 = core w) as Hc by (rewrite Hm; apply run_keeps_core; by destruct o).
  assert (steps dir w [o] (m w).2) as Hs by (rewrite Hm; apply steps_op; constructor).
  destruct (m w) as [[a|e] w1]; cbn [snd] in *; injection E as <- <-;
    (split_and!; [done|by constructor|done|intros _]); [apply Hk|by apply singleton_submseteq_l].
Qed.
End thread.

Ltac in_hand := intros; split; cbn; [try done; try apply submseteq_nil_l|lia].

Lemma worker_moves t : t <> WDone -> thread_step worker_ops worker_left t (worker_step dir t).
Proof.
  destruct t as [| |[|op ops] b|op ops|b|n|]; intros Ht; cbn [worker_step]; [| | | | | | |done].
  - by apply while_step; [apply submseteq_nil_l|cbn; lia].
  - intros w r w' E. unfold bind at 1, gets at 1 in E. destruct (may_sync w); cbn [negb] in E; revert E.
    + apply query_step; [apply env_query|by apply keeps_zoom|in_hand].
    + apply ret_step; [apply submseteq_nil_l|cbn; lia].
  - apply ret_step; cbn; [done|lia].
  - apply (look_step _ _ _ (fun w => running_ w && online_ w) (fun go : bool => if go then WOne op ops else WEnd b)).
    intros w ->. in_hand.
  - intros w r w' E. revert E. apply (op_step _ _ (WOne op ops) (work_one dir op) (OWorkOne op)); [done|done|left|in_hand].
  - apply (op_step _ _ (WEnd b) (finish_pass b) (OFinishPass b)); [done|done|left|in_hand].
  - by apply nap_step; [| |cbn; lia].
Qed.

Lemma poller_moves t : t <> PDone -> thread_step poller_ops poller_left t (poller_step dir t).
Proof.
  destruct t as [| | |n|]; intros Ht; cbn [poller_step]; [| | | |done].
  - by apply while_step; [apply submseteq_nil_l|cbn; lia].
  - apply (op_step _ _ PBody (poller_pass dir) OPoller); [done|done|left|in_hand].
  - apply (look_step _ _ _ (fun w => poll_naps (settings_ w)) (fun n => PNap (Z.to_nat n))). in_hand.
  - by apply nap_step; [| |cbn; lia].
Qed.

Lemma scanner_moves t : t <> SDone -> thread_step scanner_ops scanner_left t (scanner_step t).
Proof.
  destruct t as [n| | |[|[i root] roots]|st roots|d st roots|n|]; intros Ht; cbn [scanner_step]; [| | | | | | | |done].
  - by apply nap_step; [| |cbn; lia].
  - by apply while_step; [apply submseteq_nil_l|cbn; lia].
  - intros w r w' E. unfold bind at 1, gets at 1 in E. destruct (may_sync w); cbn [negb] in E; revert E.
    + apply query_step; [apply env_listSyncRoots|unfold listSyncRoots, on_db; keeps_steps|in_hand].
    + apply ret_step; [apply submseteq_nil_l|cbn; lia].
  - apply ret_step; cbn; [done|lia].
  - by apply while_step; [apply submseteq_nil_l|cbn; lia].
  - destruct (last st); [by apply while_step; [apply submseteq_nil_l|cbn; lia]|].
    apply ret_step; cbn; [done|lia].
  - apply (op_step _ _ (SDir d st roots) (scan_dir d) (OScanDir d)); [done|done|left|in_hand].
  - by apply nap_step; [| |cbn; lia].
Qed.

(** ** A thread alone *)

Definition alone {T} (step : T -> M World T) (c c' : T * World) : Prop := step c.1 c.2 = (Ok c'.1, c'.2).

Lemma alone_one {T} (step : T -> M World T) t w t1 w1 c :
  step t w = (Ok t1, w1) -> rtc (alone step) (t1, w1) c -> rtc (alone step) (t, w) c.
Proof. intros E Hr. apply rtc_l with (t1, w1); [exact E|exact Hr]. Qed.

Lemma alone_bind {T A} (step : T -> M World T) (m : M World A) (k : A -> T) t w a w1 c :
  step t = (let* a := m in ret (k a)) -> m w = (Ok a, w1) -> rtc (alone step) (k a, w1) c -> rtc (alone step) (t, w) c.
Proof. intros Es E. apply alone_one. rewrite Es. by rewrite (bind_run _ _ _ _ _ E). Qed.

Lemma work_through_alone ops b w d w' :
  work_through dir ops b w = (Ok d, w') -> rtc (alone (worker_step dir)) (WLoop ops b, w) (WEnd d, w').
Proof.
  revert b w. induction ops as [|op ops IH]; intros b w; cbn [work_through].
  { intros [-> ->]%ret_Ok. by apply rtc_once. }
  unfold bind at 1, gets at 1. destruct (running_ w && online_ w) eqn:Eg; cbn [negb].
  2: { intros [-> ->]%ret_Ok. apply rtc_once. unfold alone. cbn. unfold bind, gets. by rewrite Eg. }
  intros ([] & w1 & E1 & (r & w2 & E2 & E)%bind_Ok)%bind_Ok.
  apply (alone_one _ _ _ (WOne op ops) w); [cbn; unfold bind, gets; by rewrite Eg|].
  apply (alone_bind _ (work_one dir op) (fun _ => WLoop ops true) _ _ tt w2); [done| |by apply IH].
  unfold work_one. by rewrite (bind_run _ _ _ _ _ E1), (bind_run _ _ _ _ _ E2).
Qed.

Lemma worker_pass_alone w w' :
  worker_pass dir w = (Ok tt, w') -> rtc (alone (worker_step dir)) (WTest, w) (WNap 10, w').
Proof.
  unfold worker_pass. unfold bind at 1, gets at 1. destruct (may_sync w) eqn:Eg; cbn [negb].
  2: { intros [_ ->]%ret_Ok. apply rtc_once. unfold alone. cbn. unfold bind, gets. by rewrite Eg. }
  intros (ops & w1 & E1 & (d & w2 & E2 & E3)%bind_Ok)%bind_Ok.
  apply (alone_one _ _ _ (WLoop ops false) w1).
  { cbn [worker_step]. unfold bind at 1, gets at 1. rewrite Eg. cbn [negb]. by rewrite (bind_run _ _ _ _ _ E1). }
  etransitivity; [by apply work_through_alone|].
  by apply (alone_bind _ (finish_pass d) (fun _ => WNap 10) _ _ tt w').
Qed.

Lemma scan_stack_alone fuel st roots w w' :
  scan_stack fuel st w = (Ok true, w') -> rtc (alone scanner_step) (SStack st roots, w) (SRoots roots, w').
Proof.
  revert st w. induction fuel as [|fuel IH]; intros st w; cbn [scan_stack]; [by intros [? _]%ret_Ok|].
  destruct (last st) as [d|] eqn:El.
  2: { intros [_ ->]%ret_Ok. apply rtc_once. unfold alone. cbn. by rewrite El. }
  unfold bind at 1, gets at 1. destruct (running_ w) eqn:Eg; cbn [negb].
  2: { intros [_ ->]%ret_Ok. apply rtc_once. unfold alone. cbn. rewrite El. unfold while_running, bind, gets. by rewrite Eg. }
  intros (pushed & w1 & E1 & E)%bind_Ok. apply (alone_one _ _ _ (SDir d (removelast st) roots) w).
  { cbn. rewrite El. unfold while_running, bind, gets. by rewrite Eg. }
  apply (alone_bind _ (scan_dir d) (fun pushed => SStack (removelast st ++ pushed) roots) _ _ pushed w1); [done|done|].
  by apply IH.
Qed.

Lemma scan_roots_alone fuel roots w w' :
  scan_roots fuel roots w = (Ok true, w') -> rtc (alone scanner_step) (SRoots roots, w) (SNap 1200, w').
Proof.
  revert w. induction roots as [|[i root] roots IH]; intros w; cbn [scan_roots].
  { intros [_ ->]%ret_Ok. by apply rtc_once. }
  unfold bind at 1, gets at 1. destruct (running_ w) eqn:Eg; cbn [negb].
  2: { intros [_ ->]%ret_Ok. apply rtc_once. unfold alone. cbn. unfold while_running, bind, gets. by rewrite Eg. }
  intros (a & w1 & E1 & (b & w2 & E2 & E3)%bind_Ok)%bind_Ok. apply ret_Ok in E3 as [E3 ->].
  symmetry in E3. apply andb_true_iff in E3 as [-> ->].
  apply (alone_one _ _ _ (SStack [root] roots) w); [cbn; unfold while_running, bind, gets; by rewrite Eg|].
  etransitivity; [by eapply scan_stack_alone|by apply IH].
Qed.

Lemma scanner_pass_alone fuel w w' :
  scanner_pass fuel w = (Ok true, w') -> rtc (alone scanner_step) (STest, w) (SNap 1200, w').
Proof.
  unfold scanner_pass. unfold bind at 1, gets at 1. destruct (may_sync w) eqn:Eg; cbn [negb].
  2: { intros [_ ->]%ret_Ok. apply rtc_once. unfold alone. cbn. unfold bind, gets. by rewrite Eg. }
  intros (roots & w1 & E1 & E)%bind_Ok. apply (alone_one _ _ _ (SRoots roots) w1); [|by eapply scan_roots_alone].
  cbn [scanner_step]. unfold bind at 1, gets at 1. rewrite Eg. cbn [negb]. by rewrite (bind_run _ _ _ _ _ E1).
Qed.

(** ** A step of the system *)

Definition in_hand (s : Sys) : list op :=
  if crashed s then [] else worker_ops (workerThread_ s) ++ poller_ops (pollerThread_ s) ++ scanner_ops (scannerThread_ s).

Definition togo (s : Sys) : nat :=
  if crashed s then 0
  else worker_left (workerThread_ s) + poller_left (pollerThread_ s) + scanner_left (scannerThread_ s).

Definition by_thread (e : Event) : bool := match e with EWorker | EPoller | EScanner => true | _ => false end.

(** The operations of an event's making. *)
Definition caused (e : Event) (o : op) : Prop :=
  match e with
  | EWorker | EPoller | EScanner => thread_op o = true
  | ECall o' => o = o'
  | EStop => o = OStop
  | EOutside => False
  end.

Definition thread_ops (os : list op) : list op := filter (fun o => thread_op o = true) os.

Record progress (s : Sys) (e : Event) (os : list op) (s' : Sys) : Prop := {
  pr_steps : steps dir (engine s) os (engine s');
  pr_caused : Forall (caused e) os;
  pr_stopped : running_ (engine s) = false -> running_ (engine s') = false /\
    thread_ops os ++ in_hand s' ⊆+ in_hand s /\ ((if by_thread e then 1 else 0) + togo s' <= togo s)%nat
}.

Lemma thread_ops_all os : Forall (fun o => thread_op o = true) os -> thread_ops os = os.
Proof.
  intros Hos. unfold thread_ops. induction Hos as [|o os Ho _ IH]; [done|]. by rewrite filter_cons_True, IH.
Qed.

(** A step of one of the threads: [rest] is what the others have in hand. *)
Lemma thread_progress {T} (ops : T -> list op) (left_ : T -> nat) (t : T) (m : M World T)
    (put : T -> Sys -> Sys) (s : Sys) (e : Event) (rest : list op) (n : nat) :
  thread_step ops left_ t m -> (0 < left_ t)%nat -> crashed s = false ->
  by_thread e = true -> (forall o, thread_op o = true -> caused e o) ->
  in_hand s ≡ₚ ops t ++ rest -> togo s = (left_ t + n)%nat ->
  (forall t' w', let s' := put t' (MkSys w' (workerThread_ s) (pollerThread_ s) (scannerThread_ s) (joining s) (crashed s)) in
     engine s' = w' /\ in_hand s' ≡ₚ ops t' ++ rest /\ togo s' = (left_ t' + n)%nat) ->
  exists os, progress s e os (moved put s (m (engine s))).
Proof.
  intros Hm Hl Hc He Hcause Hin Hto Hput. destruct (m (engine s)) as [r w'] eqn:E.
  destruct (Hm _ _ _ E) as (os & Hs & Ho & Hcore & Hstop). exists os.
  assert (Forall (caused e) os) as Hcd by (eapply Forall_impl; [exact Ho|exact Hcause]).
  unfold moved. cbn [fst snd]. destruct r as [t'|ex].
  - destruct (Hput t' w') as (Ee & Eh & Et). split; [by rewrite Ee|done|]. intros Hr. rewrite Ee, He, Eh, Et, Hin, Hto.
    destruct (Hstop Hr) as [Hsub Hlt]. split_and!; [|rewrite thread_ops_all by done|lia].
    + rewrite <- Hr. exact (f_equal snd Hcore).
    + rewrite (assoc_L app). by apply submseteq_skips_r.
  - split; [done|done|]. intros Hr. cbn [engine]. rewrite He, Hin, Hto. split_and!.
    + rewrite <- Hr. exact (f_equal snd Hcore).
    + unfold in_hand. cbn [crashed]. rewrite app_nil_r, thread_ops_all by done.
      etransitivity; [exact (Hstop Hr)|]. by apply submseteq_inserts_r.
    + unfold togo. cbn [crashed]. lia.
Qed.

Lemma sys_moves s e s' : sys_step dir s e s' -> exists os, progress s e os s'.
Proof.
  intros [Hc Ht|Hc Ht|Hc Ht|o Hc Ho Hto Hj|Hc|w' Hc [He Hr]].
  - eapply (thread_progress worker_ops worker_left (workerThread_ s) (worker_step dir (workerThread_ s)) put_worker s EWorker
      (poller_ops (pollerThread_ s) ++ scanner_ops (scannerThread_ s))); try done.
    + by apply worker_moves.
    + destruct (workerThread_ s); cbn; (done || lia).
    + unfold in_hand. by rewrite Hc.
    + unfold togo. rewrite Hc. symmetry. apply Nat.add_assoc.
    + intros t' w'. cbn. unfold in_hand, togo. cbn. rewrite Hc. split_and!; [done|done|lia].
  - eapply (thread_progress poller_ops poller_left (pollerThread_ s) (poller_step dir (pollerThread_ s)) put_poller s EPoller
      (worker_ops (workerThread_ s) ++ scanner_ops (scannerThread_ s))); try done.
    + by apply poller_moves.
    + destruct (pollerThread_ s); cbn; (done || lia).
    + unfold in_hand. rewrite Hc. solve_Permutation.
    + unfold togo. rewrite Hc. rewrite (Nat.add_comm (worker_left _)), <- Nat.add_assoc. reflexivity.
    + intros t' w'. cbn. unfold in_hand, togo. cbn. rewrite Hc. split_and!; [done|solve_Permutation|lia].
  - eapply (thread_progress scanner_ops scanner_left (scannerThread_ s) (scanner_step (scannerThread_ s)) put_scanner s EScanner
      (worker_ops (workerThread_ s) ++ poller_ops (pollerThread_ s))); try done.
    + by apply scanner_moves.
    + destruct (scannerThread_ s); cbn; (done || lia).
    + unfold in_hand. rewrite Hc. solve_Permutation.
    + unfold togo. rewrite Hc. rewrite Nat.add_comm. reflexivity.
    + intros t' w'. cbn. unfold in_hand, togo. cbn. rewrite Hc. split_and!; [done|solve_Permutation|lia].
  - exists [o]. split; cbn [engine]; [apply steps_op; constructor|by constructor|]. intros Hr.
    unfold thread_ops, in_hand, togo. rewrite filter_cons_False by (by rewrite Hto). rewrite Hc.
    split_and!; [by rewrite run_keeps_running|done|done].
  - exists [OStop]. split; cbn [engine]; [apply steps_op; constructor|by constructor|]. intros _.
    unfold in_hand, togo. rewrite Hc. split_and!; done.
  - exists []. split; cbn [engine]; [eapply steps_env; [exact He|constructor]|done|]. intros Hr'.
    unfold in_hand, togo. rewrite Hc. split_and!; [congruence|done|done].
Qed.

Lemma sys_progress s l s' : sys_run dir s l s' -> exists os,
  steps dir (engine s) os (engine s') /\
  Forall (fun o => thread_op o = true \/ exists e, e ∈ l /\ caused e o) os /\
  (running_ (engine s) = false -> running_ (engine s') = false /\
     thread_ops os ++ in_hand s' ⊆+ in_hand s /\
     (length (filter (fun e => by_thread e = true) l) + togo s' <= togo s)%nat).
Proof.
  induction 1 as [s|s e s1 l s' (os & [S C T])%sys_moves _ (os' & S' & C' & T')].
  - exists []. split_and!; [constructor|done|]. intros Hr. split_and!; [done|done|cbn; lia].
  - exists (os ++ os'). split_and!; [by eapply steps_app| |].
    + apply Forall_app_2; [eapply Forall_impl; [exact C|]; intros o Ho; right; exists e; split; [left|done]|].
      eapply Forall_impl; [exact C'|]. intros o [Ho|(e' & He & Ho)]; [by left|]. right. exists e'. split; [by right|done].
    + intros Hr. destruct (T Hr) as (Hr1 & Hs & Hn). destruct (T' Hr1) as (Hr2 & Hs' & Hn'). split_and!; [done| |].
      * unfold thread_ops in *. rewrite filter_app, <- (assoc_L app). etransitivity; [|exact Hs]. by apply submseteq_skips_l.
      * rewrite filter_cons. destruct (by_thread e); [rewrite decide_True by done|rewrite decide_False by done]; cbn; lia.
Qed.
End step.
End EngineThreadFacts.

(** * The claims *)

Module EngineThreadSpec.
Import EngineThreadFacts.

Section engine.
Context `{Win32Text} `{CNG} `{Json} `{DPAPI} `{LocalTime}.
Context (dir : wstr).

(** C17: the interleaving of the threads refines the engine. The three loops are
    cut at every look at [running_] and at every call, and between any two
    steps the other threads of the process may call the engine and the world
    may move on. Whatever the order, the run is one of whole operations of the
    engine, those that were called and the pieces of the loops, so that what
    holds of every such run holds with passes that are interrupted; for one, the
    threads never change the master key. And a pass as one operation is what
    its loop does when nobody interrupts it. *)
Theorem threads_refine_engine s l s' (Hrun : sys_run dir s l s') :
  (exists os, steps dir (engine s) os (engine s') /\
     Forall (fun o => thread_op o = true \/ ECall o ∈ l \/ (o = OStop /\ EStop ∈ l)) os) /\
  ((forall o, ECall o ∈ l -> key_op o = false) -> masterKey_ (engine s') = masterKey_ (engine s)) /\
  (forall w w', worker_pass dir w = (Ok tt, w') -> rtc (alone (worker_step dir)) (WTest, w) (WNap 10, w')) /\
  (forall w w', poller_pass dir w = (Ok tt, w') -> rtc (alone (poller_step dir)) (PBody, w) (PPause, w')) /\
  (forall fuel w w', scanner_pass fuel w = (Ok true, w') -> rtc (alone scanner_step) (STest, w) (SNap 1200, w')).
Proof.
  destruct (sys_progress dir s l s' Hrun) as (os & Hs & Hos & _).
  assert (Forall (fun o => thread_op o = true \/ ECall o ∈ l \/ (o = OStop /\ EStop ∈ l)) os) as Hos'.
  { eapply Forall_impl; [exact Hos|]. intros o [Ho|([] & He & Ho)]; cbn in Ho; subst; auto. }
  split_and!; [by exists os| | | |].
  - intros Hk. eapply steps_keep_key; [exact Hs|]. eapply Forall_impl; [exact Hos'|].
    intros o [Ho|[Ho|[-> _]]]; [by destruct o|by apply Hk|done].
  - intros w w'. by apply worker_pass_alone.
  - intros w w' E. by apply (alone_bind _ (poller_pass dir) (fun _ => PPause) _ _ tt w').
  - intros fuel w w'. by eapply scanner_pass_alone.
Qed.

(** C18: [stop] returns. It clears [running_], and nothing that still happens
    sets it again: neither the threads nor the watcher and the web socket, which
    go on until they are joined. From then on the three threads take fourteen
    steps at most, whatever happens between them, and what they still do to the
    engine are at most the operations they had in hand: one queued operation and
    the status after it, one pull, one directory. A thread that has not returned
    can always take its next step, so the joins come to their end, unless an
    exception ends the process before. *)
Theorem stop_returns s l s' (Hrun : sys_run dir s l s') (Hstop : running_ (engine s) = false) :
  running_ (engine s') = false /\
  (length (filter (fun e => by_thread e = true) l) <= 14)%nat /\
  (exists os, steps dir (engine s) os (engine s') /\ thread_ops os ⊆+ in_hand s /\ (length (in_hand s) <= 4)%nat) /\
  (crashed s' = true \/ joined s' \/ exists e s'', by_thread e = true /\ sys_step dir s' e s'') /\
  (forall s1, sys_step dir s' EStop s1 -> running_ (engine s1) = false /\ joining s1 = true).
Proof.
  destruct (sys_progress dir s l s' Hrun) as (os & Hs & _ & Hr). destruct (Hr Hstop) as (Hr' & Hsub & Hn).
  split_and!; [done| | | |].
  - assert (togo s <= 14)%nat; [|lia]. unfold togo. destruct (crashed s); [lia|].
    destruct (workerThread_ s), (pollerThread_ s), (scannerThread_ s); cbn; lia.
  - exists os. split_and!; [done|etransitivity; [|exact Hsub]; by apply submseteq_inserts_r|].
    unfold in_hand. destruct (crashed s); [cbn; lia|].
    destruct (workerThread_ s), (pollerThread_ s), (scannerThread_ s); cbn; lia.
  - destruct (crashed s') eqn:Hc; [by left|right].
    destruct (decide (worker_left (workerThread_ s') = 0%nat)) as [Ew|Ew].
    2: { right. exists EWorker. eexists. split; [done|]. apply step_worker; [done|]. intros E. by rewrite E in Ew. }
    destruct (decide (poller_left (pollerThread_ s') = 0%nat)) as [Ep|Ep].
    2: { right. exists EPoller. eexists. split; [done|]. apply step_poller; [done|]. intros E. by rewrite E in Ep. }
    destruct (decide (scanner_left (scannerThread_ s') = 0%nat)) as [Es|Es].
    2: { right. exists EScanner. eexists. split; [done|]. apply step_scanner; [done|]. intros E. by rewrite E in Es. }
    left. split_and!; [by destruct (workerThread_ s')|by destruct (pollerThread_ s')|by destruct (scannerThread_ s')].
  - intros s1 E. by inversion E.
Qed.

(** C30: how often the poller asks. Left alone and running, the poller naps
    between two pulls twice as many half seconds as the interval of the
    settings has seconds, at least ten. An interval from 2^30 seconds on, which
    the settings dialog accepts, overflows the [int] that counts them: the loop
    then does not nap at all and asks the server without a pause. *)
Theorem poller_pace w (i := Settings.syncIntervalFallbackSec (settings_ w))
    (Hgo : running_ w = true) (Hint : - 2 ^ 31 <= i < 2 ^ 31) :
  nsteps (alone (poller_step dir)) (S (S (Z.to_nat (poll_naps (settings_ w))))) (PPause, w) (PTop, w) /\
  (i < 2 ^ 30 -> poll_naps (settings_ w) = 2 * Z.max 5 i) /\
  (2 ^ 30 <= i -> poll_naps (settings_ w) < 0).
Proof.
  subst i. split_and!.
  - apply nsteps_l with (PNap (Z.to_nat (poll_naps (settings_ w))), w); [done|].
    induction (Z.to_nat _) as [|n IH]; [by apply nsteps_once|].
    apply nsteps_l with (PNap n, w); [|exact IH]. unfold alone. cbn. unfold bind, gets. by rewrite Hgo.
  - intros Hi. unfold poll_naps, wrap_i32. rewrite Z.mod_small; lia.
  - intros Hi. unfold poll_naps, wrap_i32.
    replace (Z.max 5 (Settings.syncIntervalFallbackSec (settings_ w)) * 2 + 2 ^ 31)
      with (Settings.syncIntervalFallbackSec (settings_ w) * 2 - 2 ^ 31 + 1 * 2 ^ 32) by lia.
    rewrite Z_mod_plus_full, Z.mod_small; lia.
Qed.

(** A schedule played out; [None] when an event of it cannot happen. *)
Definition play (e : Event) (s : Sys) : option Sys :=
  let s' :=
    match e with
    | EWorker => moved put_worker s (worker_step dir (workerThread_ s) (engine s))
    | EPoller => moved put_poller s (poller_step dir (pollerThread_ s) (engine s))
    | EScanner => moved put_scanner s (scanner_step (scannerThread_ s) (engine s))
    | ECall o => MkSys (run dir o (engine s)) (workerThread_ s) (pollerThread_ s) (scannerThread_ s) (joining s) false
    | EStop => MkSys (run dir OStop (engine s)) (workerThread_ s) (pollerThread_ s) (scannerThread_ s) true false
    | EOutside => s
    end in
  let can :=
    match e with
    | EWorker => negb (worker_left (workerThread_ s) =? 0)%nat
    | EPoller => negb (poller_left (pollerThread_ s) =? 0)%nat
    | EScanner => negb (scanner_left (scannerThread_ s) =? 0)%nat
    | ECall o => from_within o && negb (thread_op o) && negb (joining s)
    | EStop => true
    | EOutside => false
    end in
  if can && negb (crashed s) then Some s' else None.

Lemma play_step e s s' : play e s = Some s' -> sys_step dir s e s'.
Proof.
  unfold play. destruct e as [| | |o| |]; (destruct (crashed s) eqn:Hc; [by rewrite andb_false_r|]); rewrite ?andb_true_r.
  - destruct (worker_left _) eqn:E; [done|]. intros [= <-]. apply step_worker; [done|]. intros Ed. by rewrite Ed in E.
  - destruct (poller_left _) eqn:E; [done|]. intros [= <-]. apply step_poller; [done|]. intros Ed. by rewrite Ed in E.
  - destruct (scanner_left _) eqn:E; [done|]. intros [= <-]. apply step_scanner; [done|]. intros Ed. by rewrite Ed in E.
  - destruct (from_within o) eqn:E1, (thread_op o) eqn:E2, (joining s) eqn:E3; try done. intros [= <-].
    pose proof (step_call dir s o Hc E1 E2) as Hs. rewrite E3 in Hs. by apply Hs.
  - intros [= <-]. by apply step_stop.
  - done.
Qed.

Lemma play_run l s s' : foldl (fun s e => s ≫= play e) (Some s) l = Some s' -> sys_run dir s l s'.
Proof.
  revert s. induction l as [|e l IH]; intros s; cbn [foldl]; [intros [= <-]; constructor|].
  intros E. destruct (Some s ≫= play e) as [s1|] eqn:E1; cbn in E1; [|].
  - eapply run_cons; [by apply play_step|by apply IH].
  - exfalso. clear IH E1. by induction l.
Qed.
End engine.

Import Toy.
Import EngineQueueSpec.EngineQueueSpec.

(** The worker takes a queued upload in hand; before it gets to it the user
    asks for a sync, then closes the program. *)
Definition interrupted : list Event := [EWorker; EWorker; ECall OSyncNow; EWorker; EStop].
Definition returning : list Event :=
  [EWorker; EPoller; EWorker; EScanner; EWorker; EWorker; EScanner; EWorker].

Definition after (l : list Event) (s : Sys) : Sys :=
  default s (foldl (fun s e => s ≫= @play ascii_text toy_cng wire_json toy_dpapi toy_time data_dir e) (Some s) l).

Lemma after_run l s : is_Some (foldl (fun s e => s ≫= play data_dir e) (Some s) l) ->
  sys_run data_dir s l (after l s).
Proof. intros [s' E]. apply play_run. unfold after. by rewrite E. Qed.

Lemma threads_refine_engine_witness : let s' := after interrupted (launched lost_world) in
  masterKey_ (engine s') = key /\
  match workerThread_ s' with WOne op _ => LocalDb.op_relPath op = note_key | _ => False end.
Proof.
  assert (sys_run data_dir (launched lost_world) interrupted (after interrupted (launched lost_world))) as Hrun.
  { apply after_run. vm_compute. by eexists. }
  split; [|vm_compute; reflexivity].
  transitivity (masterKey_ (engine (launched lost_world))); [|vm_compute; reflexivity].
  destruct (threads_refine_engine data_dir _ _ _ Hrun) as (_ & Hk & _). apply Hk.
  intros o Ho. unfold interrupted in Ho.
  repeat (apply elem_of_cons in Ho as [Ho|Ho]; [discriminate Ho || by injection Ho as ->|]). by apply elem_of_nil in Ho.
Defined.

Definition stopped : Sys := after interrupted (launched lost_world).

Lemma stop_returns_witness :
  in_hand stopped = [OWorkOne (EngineSyncSpec.EngineSyncSpec.queued_op 0); OFinishPass true] /\
  joined (after returning stopped) /\ running_ (engine (after returning stopped)) = false.
Proof.
  split; [vm_compute; reflexivity|]. split; [vm_compute; repeat split|].
  assert (sys_run data_dir stopped returning (after returning stopped)) as Hrun
    by (apply after_run; vm_compute; by eexists).
  assert (running_ (engine stopped) = false) as Hs by (vm_compute; reflexivity).
  exact (proj1 (stop_returns data_dir stopped returning (after returning stopped) Hrun Hs)).
Defined.

(** The interval of the toy settings, and the largest one. *)
Lemma poller_pace_witness :
  poll_naps settings = 60 /\
  poll_naps (Settings.MkSettings true false (2 ^ 31 - 1) false true [] [] [] 1000 0 false [] [] [] [] false [] 30) < 0.
Proof.
  split.
  - destruct (poller_pace data_dir lost_world) as (_ & Hn & _); [vm_compute; reflexivity|vm_compute; by split|].
    by apply Hn.
  - set (s := Settings.MkSettings _ _ _ _ _ _ _ _ _ _ _ _ _ _ _ _ _ _).
    destruct (poller_pace data_dir (put_settings s lost_world)) as (_ & _ & Hn);
      [vm_compute; reflexivity|vm_compute; by split|]. by apply Hn.
Defined.
End EngineThreadSpec.
