(* ===== verification/EngineQuiet.v ===== *)
(** * EngineQuiet: operations that only read, and write in the data directory

    The claims about what happens to the user's files follow one run of an
    operation. Most of its steps are quiet: they keep the tables, the key, the
    settings and every file outside the plugin's data directory, and a disk and
    a database that work go on working. [undisturbed] is that relation and
    [quiet] says it of an operation, whether it returns or throws. *)
From S2P Require Import Prelude Text VersionVector Merge Platform PathUtil IgnoreRules Crypto.
From S2P Require Import KeySetup LocalDb ApiClient FolderWatcher FileSystem Settings.
From S2P Require Import EngineState EngineKeys EngineSync EngineRun EngineFacts EngineFrame.
Import EngineState.Engine EngineKeys.EngineKeys EngineSync.EngineSync EngineRun.EngineRun.
Import EngineFacts.EngineFacts.
Import FileSystem FileSystemFacts.
Import PathUtil(utf8ToWide, wideToUtf8).
Import LocalDb(Db).

#[local] Open Scope monad_scope.

Module EngineQuiet.

(** ** A disk that works goes on working *)

Definition still {A} (m : M Fs A) : Prop := forall s, events s = [] -> events (m s).2 = [].

Lemma still_bind {A B} (m : M Fs A) (k : A -> M Fs B) : still m -> (forall a, still (k a)) -> still (bind m k).
Proof.
  intros Hm Hk s Hs. specialize (Hm s Hs). unfold bind. destruct (m s) as [[a|e] s1]; [by apply Hk|done].
Qed.
Lemma still_ret {A} (a : A) : still (ret a).
Proof. by intros s. Qed.
Lemma still_gets {A} (f : Fs -> A) : still (gets f).
Proof. by intros s. Qed.
Lemma still_next_io : still next_io.
Proof. intros s Hs. unfold next_io. cbn [snd events]. by rewrite Hs. Qed.
Lemma still_set_disk f : still (modify (set_disk f)).
Proof. by intros s. Qed.
Lemma still_add_dir d : still (modify (fun s => MkFs (disk s) ({[d]} ∪ dirs s) (events s))).
Proof. by intros s. Qed.
Lemma still_for_each {A} (l : list A) body : (forall x, still (body x)) -> still (for_each l body).
Proof. intros Hb. induction l as [|x l IH]; [apply still_ret|]. cbn [for_each]. by apply still_bind. Qed.

Create HintDb quiet discriminated.
#[export] Hint Resolve still_ret still_gets still_next_io still_set_disk still_add_dir : quiet.

Ltac still_steps :=
  repeat first
    [ solve [auto with quiet]
    | apply still_bind; [|intros ?]
    | apply still_for_each; intros ?
    | match goal with |- still (match ?x with _ => _ end) => destruct x end
    | match goal with |- still (match ?x with _ => _ end _) => destruct x; cbv beta end
    | match goal with |- still (match ?x with _ => _ end _ _) => destruct x; cbv beta end ].

Lemma still_read p : still (read_file p).
Proof. unfold read_file. still_steps. Qed.
Lemma still_open p : still (ofstream_open p).
Proof. unfold ofstream_open. still_steps. Qed.
Lemma still_write p d : still (ofstream_write p d).
Proof. unfold ofstream_write. still_steps. Qed.
Lemma still_move a b : still (MoveFileExW a b).
Proof. unfold MoveFileExW. still_steps. Qed.
Lemma still_delete p : still (DeleteFileW p).
Proof. unfold DeleteFileW. still_steps. Qed.
Lemma still_copy a b : still (CopyFileW a b).
Proof. unfold CopyFileW. still_steps. Qed.
Lemma still_mkdir d : still (CreateDirectoryW d).
Proof. unfold CreateDirectoryW. still_steps. Qed.
Lemma still_attributes d : still (GetFileAttributesW d).
Proof. unfold GetFileAttributesW. still_steps. Qed.
Lemma still_list_dir d : still (list_dir d).
Proof. unfold list_dir. still_steps. Qed.
#[export] Hint Resolve still_read still_open still_write still_move still_delete still_copy still_mkdir
  still_attributes still_list_dir : quiet.

Lemma still_readFileBytes p : still (readFileBytes p).
Proof. apply still_read. Qed.
Lemma still_writeFileAtomic p d : still (writeFileAtomic p d).
Proof.
  unfold writeFileAtomic. cbv zeta. still_steps; apply still_readFileBytes.
Qed.
Lemma still_backupReplaced dir p now : still (backupReplaced dir p now).
Proof. unfold backupReplaced. cbv zeta. still_steps. Qed.
#[export] Hint Resolve still_readFileBytes still_writeFileAtomic still_backupReplaced : quiet.

(** ** Database calls that only read *)

Definition reads {A} (m : M Db A) : Prop := forall d,
  LocalDb.tables (m d).2 = LocalDb.tables d /\ (LocalDbFacts.healthy d -> LocalDbFacts.healthy (m d).2).

Lemma reads_query {A} (rows : LocalDb.Tables -> list A) : reads (LocalDb.query rows).
Proof.
  intros d. split.
  - destruct (LocalDb.query rows d) as [r d'] eqn:E. by apply LocalDbFacts.query_tables in E.
  - intros Hd. rewrite LocalDbFacts.healthy_query by done. by apply LocalDbFacts.healthy_step.
Qed.
Lemma reads_ret {A} (a : A) : reads (ret a).
Proof. by intros d. Qed.
Lemma reads_bind {A B} (m : M Db A) (k : A -> M Db B) : reads m -> (forall a, reads (k a)) -> reads (bind m k).
Proof.
  intros Hm Hk d. destruct (Hm d) as [E Hh]. unfold bind. destruct (m d) as [[a|e] d1]; cbn [snd] in *; [|done].
  destruct (Hk a d1) as [E1 Hh1]. split; [congruence|auto].
Qed.
#[export] Hint Resolve @reads_query @reads_ret : quiet.

Ltac reads_steps :=
  repeat first
    [ solve [auto with quiet]
    | apply reads_bind; [|intros ?]
    | match goal with |- reads (match ?x with _ => _ end) => destruct x end ].

Lemma reads_getFile p : reads (LocalDb.getFile p).
Proof. unfold LocalDb.getFile. reads_steps. Qed.
Lemma reads_allFiles : reads LocalDb.allFiles.
Proof. unfold LocalDb.allFiles. reads_steps. Qed.
Lemma reads_list_roots b : reads (LocalDb.list_roots b).
Proof. unfold LocalDb.list_roots. reads_steps. Qed.
Lemma reads_pendingOpCount : reads LocalDb.pendingOpCount.
Proof. unfold LocalDb.pendingOpCount. reads_steps. Qed.
Lemma reads_conflictCount : reads LocalDb.conflictCount.
Proof. unfold LocalDb.conflictCount. reads_steps. Qed.
#[export] Hint Resolve reads_getFile reads_allFiles reads_list_roots reads_pendingOpCount
  reads_conflictCount : quiet.

Section engine.
Context `{Win32Text} `{CNG} `{Json} `{DPAPI} `{LocalTime}.
Context (dir : wstr).

(** ** Quiet operations *)

(** The files of the plugin itself. *)
Definition own (p : wstr) : Prop := (dir ++ [BSLASH]) `prefix_of` p.

Record undisturbed (w w' : World) : Prop := {
  u_events : events (fs w) = [] -> events (fs w') = [];
  u_disk : forall p, ~ own p -> disk (fs w') !! p = disk (fs w) !! p;
  u_tables : LocalDb.tables (db w') = LocalDb.tables (db w);
  u_healthy : LocalDbFacts.healthy (db w) -> LocalDbFacts.healthy (db w');
  u_key : masterKey_ w' = masterKey_ w;
  u_settings : settings_ w' = settings_ w;
  u_clock : clock w' = clock w;
  u_rules : rootRules_ w' = rootRules_ w
}.

#[export] Instance undisturbed_pre : PreOrder undisturbed.
Proof.
  split; [by split|]. intros a b c [A1 A2 A3 A4 A5 A6 A7 A8] [B1 B2 B3 B4 B5 B6 B7 B8].
  split; [auto|intros p Hp; rewrite B2, A2; done|congruence|auto|congruence..].
Qed.

Definition quiet {A} (m : M World A) : Prop := forall w, undisturbed w (m w).2.

Lemma quiet_run {A} (m : M World A) w r w' : quiet m -> m w = (r, w') -> undisturbed w w'.
Proof. intros Hm E. specialize (Hm w). by rewrite E in Hm. Qed.

Lemma quiet_bind {A B} (m : M World A) (k : A -> M World B) : quiet m -> (forall a, quiet (k a)) -> quiet (bind m k).
Proof.
  intros Hm Hk w. specialize (Hm w). unfold bind. destruct (m w) as [[a|e] w1]; [|done].
  cbn [snd] in Hm. etransitivity; [exact Hm|apply Hk].
Qed.
Lemma quiet_ret {A} (a : A) : quiet (ret a).
Proof. intros w. reflexivity. Qed.
Lemma quiet_lift {A} (o : outcome A) : quiet (lift o).
Proof. intros w. reflexivity. Qed.
Lemma quiet_gets {A} (f : World -> A) : quiet (gets f).
Proof. intros w. reflexivity. Qed.
Lemma quiet_for_each {A} (l : list A) body : (forall x, quiet (body x)) -> quiet (for_each l body).
Proof. intros Hb. induction l as [|x l IH]; [apply quiet_ret|]. cbn [for_each]. by apply quiet_bind. Qed.
Lemma quiet_on_fs {A} (m : M Fs A) : touches own m -> still m -> quiet (on_fs m).
Proof.
  intros Ht Hs w. unfold on_fs, zoom. specialize (Ht (fs w)). specialize (Hs (fs w)).
  destruct (m (fs w)) as [r s]. by split.
Qed.
Lemma quiet_on_db {A} (m : M Db A) : reads m -> quiet (on_db m).
Proof.
  intros Hm w. unfold on_db, zoom. destruct (Hm (db w)). destruct (m (db w)) as [r d]. by split.
Qed.
Lemma quiet_on_rand {A} (m : M rng A) : quiet (on_rand m).
Proof. intros w. unfold on_rand, zoom. destruct (m (rand w)). by split. Qed.
Lemma quiet_put_status (f : World -> StatusInfo) : quiet (modify (fun w => put_status (f w) w)).
Proof. by split. Qed.
Lemma quiet_set_online b : quiet (set_online b).
Proof. by split. Qed.
Lemma quiet_remote_applied p : quiet (remote_applied p).
Proof. by split. Qed.
#[local] Hint Resolve quiet_ret quiet_lift quiet_gets quiet_on_fs quiet_on_db quiet_on_rand quiet_put_status
  quiet_set_online quiet_remote_applied : quiet.
#[local] Hint Resolve touches_read touches_open touches_write touches_MoveFileExW touches_DeleteFileW
  touches_CopyFileW touches_CreateDirectoryW touches_GetFileAttributesW touches_list_dir : quiet.

Ltac quiet_steps :=
  repeat first
    [ solve [auto with quiet]
    | apply quiet_bind; [|intros ?]
    | apply quiet_for_each; intros ?
    | match goal with |- quiet (match ?x with _ => _ end) => destruct x end ].

Lemma own_file s : own (dir ++ [BSLASH] ++ s).
Proof. exists s. by rewrite <- app_assoc. Qed.

Lemma own_app p s : own p -> own (p ++ s).
Proof. intros [r ->]. exists (r ++ s). by rewrite <- app_assoc. Qed.

Lemma own_secret n : own (Settings.secretPath dir n).
Proof. apply own_file. Qed.

Lemma quiet_saveSecret n v : quiet (saveSecret dir n v).
Proof.
  pose proof (own_secret n) as Hs. assert (own (Settings.tmp_of (Settings.secretPath dir n))) as Ht by (by apply own_app).
  apply quiet_on_fs.
  - unfold Settings.saveSecret. cbv zeta. touches_steps.
  - unfold Settings.saveSecret. cbv zeta. still_steps.
Qed.

Lemma quiet_on_api {A} (m : M ApiClient.Client A) : quiet (on_api dir m).
Proof.
  intros w. unfold on_api. destruct (negb (has_api w)); [reflexivity|].
  destruct (m (api w)) as [r c]. transitivity (put_api c w); [by split|].
  match goal with |- undisturbed _ (?f _).2 => enough (quiet f) as Hq by apply Hq end.
  apply quiet_bind; [|intros; apply quiet_lift]. apply quiet_for_each. intros t. unfold onTokensRotated.
  apply quiet_bind; [apply quiet_saveSecret|intros _].
  apply quiet_bind; [apply quiet_saveSecret|intros _]. apply quiet_ret.
Qed.
#[local] Hint Resolve quiet_on_api : quiet.

Lemma quiet_setStatus s t : quiet (setStatus s t).
Proof. unfold setStatus. quiet_steps. Qed.
Lemma quiet_body_str r k d : quiet (body_str r k d).
Proof. apply quiet_lift. Qed.
Lemma quiet_body_int r k d : quiet (body_int r k d).
Proof. apply quiet_lift. Qed.
Lemma quiet_listSyncRoots : quiet listSyncRoots.
Proof. unfold listSyncRoots, LocalDb.listSyncRoots. quiet_steps. Qed.
Lemma quiet_listSyncFiles : quiet listSyncFiles.
Proof. unfold listSyncFiles, LocalDb.listSyncFiles. quiet_steps. Qed.
#[local] Hint Resolve quiet_setStatus quiet_body_str quiet_body_int quiet_listSyncRoots quiet_listSyncFiles : quiet.

Lemma touches_written_pair (P : wstr -> Prop) p d : P p -> P (tmp_path p) -> touches P (writeFileAtomic p d).
Proof. intros Hp Ht. unfold writeFileAtomic, readFileBytes. cbv zeta. touches_steps. Qed.

Lemma touches_own_backups p now : touches own (backupReplaced dir p now).
Proof.
  assert (forall n, own ((dir ++ lit "\backups") ++ [BSLASH] ++ n)) as Hn.
  { intros n. exists (lit "backups\" ++ n). by rewrite <- !app_assoc. }
  unfold backupReplaced. cbv zeta.
  apply touches_bind; [touches_steps|intros _]. apply touches_bind; [apply touches_CopyFileW, Hn|intros _].
  touches_steps.
  match goal with |- touches _ (for_each ?found _) => induction found as [|x xs IH] end; [apply touches_ret|].
  cbn [for_each]. apply touches_bind; [|intros _; exact IH].
  apply touches_bind; [apply touches_DeleteFileW, Hn|intros _; apply touches_ret].
Qed.

Lemma quiet_backup p : quiet (backup dir p).
Proof.
  unfold backup. apply quiet_bind; [apply quiet_gets|intros now].
  apply quiet_on_fs; [apply touches_own_backups|apply still_backupReplaced].
Qed.

Lemma shadowPath_own k p : shadowPath dir k = Ok p -> own p.
Proof. unfold shadowPath. intros (h&_&[= <-])%obind_Ok. apply own_file. Qed.

Lemma quiet_writeShadow k c : quiet (writeShadow dir k c).
Proof.
  unfold writeShadow. apply quiet_bind; [quiet_steps|intros _].
  intros w. unfold bind at 1, lift at 1. destruct (shadowPath dir k) as [p|e] eqn:E; [|reflexivity].
  apply shadowPath_own in E. revert w.
  match goal with |- forall w, undisturbed w (?f w).2 => change (quiet f) end.
  apply quiet_bind; [|intros; apply quiet_ret]. apply quiet_on_fs; [|apply still_writeFileAtomic].
  apply touches_written_pair; [done|by apply own_app].
Qed.

Lemma quiet_readFile p : quiet (on_fs (readFileBytes p)).
Proof. apply quiet_on_fs; [apply touches_read|apply still_readFileBytes]. Qed.

Lemma quiet_readShadow k : quiet (readShadow dir k).
Proof. unfold readShadow. apply quiet_bind; [apply quiet_lift|intros p]. apply quiet_readFile. Qed.

Lemma quiet_mkdirs l : quiet (on_fs (for_each l CreateDirectoryW)).
Proof.
  apply quiet_on_fs; [|apply still_for_each; intros; apply still_mkdir].
  induction l as [|d l IH]; [apply touches_ret|]. cbn [for_each].
  apply touches_bind; [apply touches_CreateDirectoryW|done].
Qed.
Lemma quiet_attributes p : quiet (on_fs (GetFileAttributesW p)).
Proof. apply quiet_on_fs; [apply touches_GetFileAttributesW|apply still_attributes]. Qed.
Lemma quiet_buildFilePayload p c v vv : quiet (buildFilePayload p c v vv).
Proof. unfold buildFilePayload. quiet_steps. Qed.
Lemma quiet_locateInRoots p : quiet (locateInRoots p).
Proof. unfold locateInRoots. quiet_steps. Qed.
Lemma quiet_absPathForRel p : quiet (absPathForRel p).
Proof. unfold absPathForRel. quiet_steps. Qed.
Lemma quiet_local_key n : quiet (local_key n).
Proof. unfold local_key. quiet_steps. Qed.
Lemma quiet_remote_path f : quiet (remote_path f).
Proof. unfold remote_path. quiet_steps. Qed.
Lemma quiet_remote_content f : quiet (remote_content f).
Proof. unfold remote_content. quiet_steps. Qed.
Lemma quiet_unsynced_edits a b : quiet (unsynced_edits a b).
Proof. unfold unsynced_edits. quiet_steps. Qed.
Lemma quiet_fetch_remote f : quiet (fetch_remote dir f).
Proof. unfold fetch_remote. quiet_steps. Qed.

(** One quiet step of a run: it returns and the run goes on, or it throws and
    the run ends there. *)
Lemma quiet_stage {A B} (m : M World A) (k : A -> M World B) w0 w r w' :
  quiet m -> undisturbed w w0 -> bind m k w0 = (r, w') ->
  (exists a w1, m w0 = (Ok a, w1) /\ undisturbed w w1 /\ k a w1 = (r, w')) \/
  (undisturbed w w' /\ exists e, r = Throw e).
Proof.
  intros Hm U. unfold bind. pose proof (quiet_run m w0) as Hq. destruct (m w0) as [[a|e] w1].
  - intros E. left. exists a, w1. split_and!; [done| |done]. etransitivity; [exact U|by eapply Hq].
  - intros [= <- <-]. right. split; [|by eexists]. etransitivity; [exact U|by eapply Hq].
Qed.

(** ** What the reading steps return on a working disk and database *)

Lemma read_works p w : events (fs w) = [] -> exists w', on_fs (readFileBytes p) w = (Ok (disk (fs w) !! p), w').
Proof.
  intros Hev. unfold on_fs, zoom, readFileBytes, read_file, bind, next_io, gets, ret. rewrite Hev. cbn.
  destruct (disk (fs w) !! p); by eexists.
Qed.
End engine.

#[export] Hint Resolve quiet_ret quiet_lift quiet_gets quiet_on_db quiet_on_rand quiet_put_status
  quiet_set_online quiet_remote_applied quiet_on_api quiet_setStatus quiet_body_str quiet_body_int
  quiet_listSyncRoots quiet_listSyncFiles quiet_backup quiet_mkdirs quiet_attributes quiet_writeShadow quiet_readFile quiet_readShadow
  quiet_buildFilePayload quiet_locateInRoots quiet_absPathForRel quiet_local_key quiet_remote_path
  quiet_remote_content quiet_unsynced_edits quiet_fetch_remote : quiet.

(** [U : undisturbed dir w w0] and [Hrun : bind m k w0 = (r, w')] with a quiet
    [m]: the run after [m], and as a second goal the run that ended there. *)
Tactic Notation "stage" ident(Hrun) ident(U) "as" simple_intropattern(a) ident(w1) ident(E) :=
  let U' := fresh "U" in let e := fresh "e" in let Er := fresh "Er" in
  match type of U with undisturbed ?dir _ _ =>
    eapply (quiet_stage dir) in Hrun; [|solve [auto with quiet]|exact U]
  end;
  destruct Hrun as [(a & w1 & E & U' & Hrun)|[U' [e Er]]]; clear U; rename U' into U.

End EngineQuiet.
