(* ===== verification/EngineContentSpec.v ===== *)
(** * EngineContentSpec: what becomes of the content of the user's files

    The claims about conflicts, downloads over local edits, and the round trip
    of a file's content, on a disk and a database that work. *)
From S2P Require Import Prelude Text VersionVector Merge Platform PathUtil IgnoreRules Crypto.
From S2P Require Import KeySetup LocalDb ApiClient FolderWatcher FileSystem Settings.
From S2P Require Import EngineState EngineKeys EngineSync EngineRun EngineFacts EngineWire EngineFrame.
From S2P Require Import EngineSpec EngineFileSpec EngineSyncSpec EngineEventSpec EngineQuiet.
Import EngineState.Engine EngineKeys.EngineKeys EngineSync.EngineSync EngineRun.EngineRun.
Import EngineFacts.EngineFacts EngineWire.EngineWire EngineSyncSpec.EngineSyncFacts EngineQuiet.EngineQuiet.
Import EngineEventSpec.EngineEventFacts.
Import FileSystem FileSystemFacts.
Import PathUtil(utf8ToWide, wideToUtf8).
Import LocalDb(Db, LocalFileState).

#[local] Open Scope monad_scope.

Module EngineContentFacts.

(** ** Writing on a disk and a database that work *)

Lemma write_works abs data w :
  events (fs w) = [] -> exists f, on_fs (writeFileAtomic abs data) w = (Ok true, put_fs f w) /\
    events f = [] /\ disk f !! abs = Some data /\
    forall q, q <> abs -> q <> tmp_path abs -> disk f !! q = disk (fs w) !! q.
Proof.
  intros Hev. destruct (EngineFileSpec.EngineFileFacts.writeFileAtomic_works abs data (fs w) Hev) as (f&E&Hd&Hq).
  exists f. unfold on_fs, zoom. pose proof (still_writeFileAtomic abs data (fs w) Hev) as Hs. rewrite E in *.
  by split_and!.
Qed.

Lemma stmt_works (upd : LocalDb.Tables -> LocalDb.Tables) w :
  healthy w -> exists d, on_db (LocalDb.stmt upd) w = (Ok true, put_db d w) /\ LocalDbFacts.healthy d /\
    LocalDb.tables d = upd (LocalDb.tables (db w)).
Proof.
  intros Hw. unfold on_db, zoom. rewrite LocalDbFacts.healthy_stmt by exact Hw. eexists. split; [reflexivity|].
  split; [by apply LocalDbFacts.healthy_step|done].
Qed.

Lemma upsert_by_in {A} (same : A -> bool) upd new rows :
  exists x, x ∈ LocalDb.upsert_by same upd new rows /\ (x = new \/ exists r, same r = true /\ x = upd r).
Proof.
  induction rows as [|r rows IH]; cbn [LocalDb.upsert_by]; [exists new; split; [left|by left]|].
  destruct (same r) eqn:E; [exists (upd r); split; [left|right; eauto]|].
  destruct IH as (x&Hx&Hc). exists x. split; [by right|done].
Qed.

Section engine.
Context `{Win32Text} `{CNG} `{Json} `{DPAPI} `{LocalTime}.
Context (dir : wstr).
Abbreviation own := (own dir).
Abbreviation undisturbed := (undisturbed dir).

(** A conflict on record for a file, with the place of the preserved copy. *)
Definition on_record (w : World) (fileId : str) (copy : wstr) : Prop :=
  exists c, c ∈ LocalDb.conflicts (LocalDb.tables (db w)) /\
    LocalDb.c_fileId c = c_str fileId /\ LocalDb.c_localCopyPath c = c_str (wideToUtf8 copy).

(** The stored state of a file says that local and remote content are [data]. *)
Definition in_sync (w : World) (rel : str) (data : Bytes) : Prop :=
  exists h row, Crypto.sha256Hex data = Ok h /\ row ∈ LocalDb.files (LocalDb.tables (db w)) /\
    LocalDb.fr_rel_path row = c_str rel /\ LocalDb.fr_local_hash row = c_str h /\
    LocalDb.fr_remote_hash row = c_str h.

Lemma addConflict_works id rel v copy h now w :
  healthy w -> exists d, on_db (LocalDb.addConflict (LocalDb.MkConflict id rel v (wideToUtf8 copy) h 0) now) w
    = (Ok true, put_db d w) /\ LocalDbFacts.healthy d /\ on_record (put_db d w) id copy /\
    LocalDb.files (LocalDb.tables d) = LocalDb.files (LocalDb.tables (db w)).
Proof.
  intros Hw. unfold LocalDb.addConflict.
  match goal with |- context [LocalDb.stmt ?u] => destruct (stmt_works u w Hw) as (d&E&Hd&Et) end.
  exists d. split_and!; [done|done| |by rewrite Et].
  unfold on_record. cbn [db put_db]. rewrite Et. cbn [LocalDb.set_conflicts LocalDb.conflicts].
  match goal with |- context [LocalDb.upsert_by ?s ?u ?n ?r] => destruct (upsert_by_in s u n r) as (x&Hx&Hc) end.
  exists x. split; [exact Hx|]. destruct Hc as [->|(r&Hr&->)]; [done|].
  by apply bool_decide_eq_true in Hr.
Qed.

Lemma upsertFile_works id root rel h v vv del m data w :
  healthy w -> Crypto.sha256Hex data = Ok h ->
  exists d, on_db (LocalDb.upsertFile (LocalDb.MkFile id root rel h h v vv del m)) w
    = (Ok true, put_db d w) /\ LocalDbFacts.healthy d /\ in_sync (put_db d w) rel data /\
    (LocalDbFacts.inv (LocalDb.tables (db w)) -> LocalDbFacts.inv (LocalDb.tables d)).
Proof.
  intros Hw Hh. unfold LocalDb.upsertFile.
  match goal with |- context [LocalDb.stmt ?u] => destruct (stmt_works u w Hw) as (d&E&Hd&Et) end.
  exists d. split_and!; [done|done| |].
  2:{ intros Hi. apply (LocalDbFacts.run_inv (LocalDbFacts.CUpsertFile (LocalDb.MkFile id root rel h h v vv del m))) in Hi.
      cbn [LocalDbFacts.run] in Hi. unfold LocalDbFacts.after, LocalDb.upsertFile in Hi.
      rewrite LocalDbFacts.healthy_stmt in Hi by exact Hw. by rewrite Et. }
  unfold in_sync. cbn [db put_db]. rewrite Et.
  cbn [LocalDb.set_files LocalDb.files].
  match goal with |- context [LocalDb.upsert_by ?s ?u ?n ?r] => destruct (upsert_by_in s u n r) as (x&Hx&Hc) end.
  exists h, x. split_and!; [done|exact Hx|..]; destruct Hc as [->|(r&_&->)]; done.
Qed.

Lemma on_record_undisturbed w w' id copy : undisturbed w w' -> on_record w id copy -> on_record w' id copy.
Proof. intros U. unfold on_record. by rewrite (u_tables _ _ _ U). Qed.

Lemma in_sync_undisturbed w w' rel data : undisturbed w w' -> in_sync w rel data -> in_sync w' rel data.
Proof. intros U. unfold in_sync. by rewrite (u_tables _ _ _ U). Qed.

(** Files a write to [p] leaves alone. *)
Definition apart (p q : wstr) : Prop := q <> p /\ q <> tmp_path p.

(** ** The two ends of [handleConflict] *)

(** Recording a conflict keeps the local text in the copy; it may throw on a
    malformed answer, with the copy already written. *)
Lemma record_conflict_run rel abs cur id text w r w' :
  events (fs w) = [] -> healthy w -> (forall s, ~ own (abs ++ s)) ->
  record_conflict rel abs cur id text w = (r, w') ->
  let copy := conflict_copy_path abs w in
  disk (fs w') !! copy = Some text /\
  (forall q, ~ own q -> apart copy q -> disk (fs w') !! q = disk (fs w) !! q) /\
  (forall x, r = Ok x -> x = (true, []) /\ on_record w' id copy).
Proof.
  intros Hev Hw Hown Hrun copy. unfold record_conflict in Hrun. unfold bind at 1, gets at 1 in Hrun. fold copy in Hrun.
  assert (~ own copy) as Hc by apply Hown.
  destruct (write_works copy text w Hev) as (f&E&Hf&Hd&Hq). erewrite bind_run in Hrun by exact E.
  assert (healthy (put_fs f w)) as Hw1 by done.
  unfold bind at 1, lift at 1 in Hrun. destruct (value_int64 cur (lit "version") 0) as [v|e].
  2:{ injection Hrun as <- <-. split_and!; [done|intros q _ [? ?]; by apply Hq|done]. }
  unfold bind at 1, lift at 1 in Hrun. destruct (value_str cur (lit "content_hash") []) as [h|e].
  2:{ injection Hrun as <- <-. split_and!; [done|intros q _ [? ?]; by apply Hq|done]. }
  unfold bind at 1, gets at 1 in Hrun.
  destruct (addConflict_works id rel v copy h (clock (put_fs f w)) _ Hw1) as (d&E2&Hd2&Hrec&_).
  erewrite bind_run in Hrun by exact E2.
  match type of Hrun with ?m ?w2 = _ => assert (undisturbed w2 w') as U end.
  { eapply quiet_run; [|exact Hrun]. apply quiet_bind; [apply quiet_setStatus|intros; apply quiet_ret]. }
  split_and!.
  - by rewrite (u_disk _ _ _ U).
  - intros q Hoq [? ?]. rewrite (u_disk _ _ _ U) by done. by apply Hq.
  - intros x ->. apply bind_Ok in Hrun as (u&w3&_&[-> ->]%ret_Ok).
    split; [done|]. by eapply on_record_undisturbed.
Qed.

(** An upload of the merged text changes no file of the user, and a success
    leaves the file recorded as synchronized. *)
Lemma upload_merged_run rel cur id text w r w' :
  healthy w -> upload_merged dir rel cur id text w = (r, w') ->
  (events (fs w) = [] -> events (fs w') = []) /\ healthy w' /\ settings_ w' = settings_ w /\
  (forall q, ~ own q -> disk (fs w') !! q = disk (fs w) !! q) /\
  (r = Ok true -> in_sync w' rel text).
Proof.
  intros Hw Hrun.
  assert (undisturbed w w' -> (r = Ok true -> False) ->
    (events (fs w) = [] -> events (fs w') = []) /\ healthy w' /\ settings_ w' = settings_ w /\
    (forall q, ~ own q -> disk (fs w') !! q = disk (fs w) !! q) /\ (r = Ok true -> in_sync w' rel text)) as Hstop.
  { intros [] Hr. unfold healthy in *. split_and!; auto. by intros ?%Hr. }
  unfold upload_merged in Hrun. assert (undisturbed w w) as U by reflexivity.
  stage Hrun U as newBase w1 E1; [|by apply Hstop; [|subst r]].
  stage Hrun U as vvj w2 E2; [|by apply Hstop; [|subst r]].
  stage Hrun U as vv w3 E3; [|by apply Hstop; [|subst r]].
  stage Hrun U as payload w4 E4; [|by apply Hstop; [|subst r]].
  stage Hrun U as resp w5 E5; [|by apply Hstop; [|subst r]].
  destruct (negb _). { injection Hrun as <- <-. by apply Hstop. }
  stage Hrun U as st w6 E6; [|by apply Hstop; [|subst r]].
  stage Hrun U as hash w7 E7; [|by apply Hstop; [|subst r]]. injection E7 as Hhash _.
  stage Hrun U as version w8 E8; [|by apply Hstop; [|subst r]].
  stage Hrun U as newVv w9 E9; [|by apply Hstop; [|subst r]].
  assert (healthy w9) as Hw9 by (by apply (u_healthy _ _ _ U)).
  match type of Hrun with context [LocalDb.MkFile ?id ?root ?p ?h ?h ?v ?vv ?del ?m] =>
    destruct (upsertFile_works id root p h v vv del m text w9 Hw9 Hhash) as (d&E10&Hd&Hin&_) end.
  erewrite bind_run in Hrun by exact E10.
  match type of Hrun with ?m ?w2 = _ => assert (undisturbed w2 w') as U2 end.
  { eapply quiet_run; [|exact Hrun]. apply quiet_bind; [apply quiet_writeShadow|intros _].
    apply quiet_bind; [apply quiet_setStatus|intros _; apply quiet_ret]. }
  split_and!.
  - intros Hev. apply (u_events _ _ _ U2), (u_events _ _ _ U), Hev.
  - by apply (u_healthy _ _ _ U2).
  - rewrite (u_settings _ _ _ U2). apply (u_settings _ _ _ U).
  - intros q Hq. rewrite (u_disk _ _ _ U2) by done. by apply (u_disk _ _ _ U).
  - intros _. by eapply in_sync_undisturbed.
Qed.

(** The server took the merged text of a success. *)
Lemma upload_merged_uploads rel cur id text w w' :
  upload_merged dir rel cur id text w = (Ok true, w') -> uploaded w w' id rel text.
Proof.
  unfold upload_merged. intros (newBase & w1 & [_ ->]%lift_Ok & E)%bind_Ok.
  apply bind_Ok in E as (vvj & w1 & [_ ->]%lift_Ok & E). apply bind_Ok in E as (vv & w1 & [_ ->]%lift_Ok & E).
  apply bind_Ok in E as (pl & w1 & E1 & E).
  assert (api w1 = api w) as A1 by (eapply keeps_Ok; [|exact E1]; unfold buildFilePayload, on_rand; keeps_steps).
  apply bind_Ok in E as (x & w2 & E2 & E). apply on_api_client in E2 as (c & E2 & A2).
  destruct (Z.eqb_spec (ApiClient.status x) 200) as [Hx|]; cbn [negb] in E; [|by apply ret_Ok in E as [[=] _]].
  exists newBase, vv, w, pl, w1, x, (api w1), c.
  split_and!; [exact E1|done|by rewrite A1|by rewrite A1|by apply request_answered|done|].
  rewrite <- A2. eapply adds_run; [|exact E]. unfold writeShadow, body_int, setStatus. adds_steps.
Qed.

(** The base of a merge is not a file that renewed tokens are written to. *)
Lemma keeps_on_fs_at {A} (P : wstr -> Prop) (m : M Fs A) p :
  touches P m -> ~ P p -> keeps (fun w => disk (fs w) !! p) (on_fs m).
Proof. intros Ht Hp w. unfold on_fs, zoom. specialize (Ht (fs w) p Hp). by destruct (m (fs w)). Qed.

Lemma on_api_shadow {A} (m : M ApiClient.Client A) rel p :
  shadowPath dir rel = Ok p -> keeps (fun w => disk (fs w) !! p) (on_api dir m).
Proof.
  unfold shadowPath. intros (h & _ & [= <-])%obind_Ok.
  set (P := fun q => (dir ++ lit "\secrets\") `prefix_of` q).
  set (p := dir ++ _).
  assert (~ P p) as Hp.
  { unfold P, p. intros [k E]. rewrite <- !app_assoc in E. apply app_inv_head in E. discriminate E. }
  assert (forall n, P (Settings.secretPath dir n) /\ P (Settings.tmp_of (Settings.secretPath dir n))) as HP.
  { intros n. unfold P, Settings.tmp_of, Settings.secretPath. rewrite <- !app_assoc. split; rewrite app_assoc; by eexists. }
  assert (forall n v, keeps (fun w => disk (fs w) !! p) (saveSecret dir n v)) as Hsave.
  { intros n v. apply (keeps_on_fs_at P); [|done]. destruct (HP n). unfold Settings.saveSecret. cbv zeta.
    apply touches_bind; [apply touches_CreateDirectoryW|intros _]. destruct (CryptProtectData _); [|apply touches_ret].
    apply touches_bind; [by apply touches_open|intros f].
    apply touches_bind; [destruct f; [by apply touches_write|apply touches_ret]|intros ok].
    destruct (negb ok); [apply touches_ret|by apply touches_MoveFileExW]. }
  intros w. unfold on_api. destruct (negb (has_api w)); [done|]. destruct (m (api w)) as [r c].
  match goal with |- context [(?f (put_api c w)).2] => assert (keeps (fun w => disk (fs w) !! p) f) as Hk end.
  { apply keeps_bind; [|by intros]. apply keeps_for_each. intros t. unfold onTokensRotated.
    apply keeps_bind; [apply Hsave|intros _]. by apply keeps_bind; [apply Hsave|intros _]. }
  by rewrite Hk.
Qed.

Lemma readShadow_run rel w base w' :
  events (fs w) = [] -> readShadow dir rel w = (Ok base, w') ->
  exists p, shadowPath dir rel = Ok p /\ base = disk (fs w) !! p.
Proof.
  unfold readShadow. intros Hev (p & w1 & [Hp ->]%lift_Ok & E)%bind_Ok. exists p. split; [done|].
  destruct (read_works p w Hev) as [w2 E2]. congruence.
Qed.

(** What the merge is made of: the content the server sent for the file, and
    its shadow. *)
Lemma conflict_sources rel abs id full enc64 enc remote w w2 local w6 base w7 :
  events (fs w) = [] -> on_api dir (ApiClient.getFile id) w = (Ok full, w2) -> ApiClient.status full = 200 ->
  value_str (ApiClient.body full) (lit "encrypted_content") [] = Ok enc64 -> Crypto.base64UrlDecode enc64 = Some enc ->
  Crypto.decrypt (masterKey_ w) enc (lit "file") = Ok (Some remote) ->
  on_fs (readFileBytes abs) w2 = (Ok local, w6) -> readShadow dir rel w6 = (Ok base, w7) ->
  fetched w w7 id remote /\ ApiClient.sent (api w) `prefix_of` ApiClient.sent (api w7) /\
  ApiClient.baseUrl (api w7) = ApiClient.baseUrl (api w) /\
  exists shadow, shadowPath dir rel = Ok shadow /\ base = disk (fs w) !! shadow.
Proof.
  intros Hev E2 H200 Henc Hdec Hplain E6 E7.
  assert (api w7 = api w2) as A7.
  { apply (keeps_Ok api) in E6; [|by apply keeps_zoom]. apply (keeps_Ok api) in E7; [congruence|]. unfold readShadow. keeps_steps. }
  pose proof E2 as E2'. apply on_api_client in E2' as (c & Ec & Ac). rewrite A7. split_and!.
  - exists full, c, enc64, enc. split_and!; [by apply request_answered|by rewrite A7, Ac|done..].
  - eapply adds_run; [|exact E2]. adds_steps.
  - rewrite Ac. by apply request_url in Ec.
  - assert (events (fs w6) = []) as Hev6.
    { apply (u_events _ _ _ (quiet_run dir _ _ _ _ (quiet_readFile dir abs) E6)),
        (u_events _ _ _ (quiet_run dir _ _ _ _ (quiet_on_api dir _) E2)), Hev. }
    destruct (readShadow_run rel w6 base w7 Hev6 E7) as (p & Hp & ->). exists p. split; [done|].
    apply (keeps_Ok (fun w => disk (fs w) !! p)) in E6; [|apply (keeps_on_fs_at (fun _ => False)); [apply touches_read|tauto]].
    apply (keeps_Ok (fun w => disk (fs w) !! p)) in E2; [congruence|by eapply on_api_shadow].
Qed.

(** [text] is the clean three-way merge of the local text with the text of the
    last synchronization, from the file's shadow in [w], and the content that
    the server sent between [w] and [w'] for the file it named in its refusal. *)
Definition clean_merge (w w' : World) (rel : str) (cur : json) (local text : str) : Prop :=
  exists id remote shadow, value_str cur (lit "file_id") [] = Ok id /\ fetched w w' id remote /\
    shadowPath dir rel = Ok shadow /\
    let m := Merge.merge (default [] (disk (fs w) !! shadow)) local remote in
    Merge.clean m = true /\ Merge.merged m = text.

Lemma copy_apart abs w : apart (conflict_copy_path abs w) abs.
Proof.
  unfold apart, tmp_path, conflict_copy_path. split; intros E; apply (f_equal length) in E;
    rewrite !length_app in E; simpl in E; lia.
Qed.

Lemma conflict_copy_settings abs w w' :
  settings_ w' = settings_ w -> conflict_copy_path abs w' = conflict_copy_path abs w.
Proof. unfold conflict_copy_path. by intros ->. Qed.

(** [handleConflict] after the merged text is in the file. *)
Lemma after_merge_run rel abs cur id local text w r w' :
  events (fs w) = [] -> healthy w -> (forall s, ~ own (abs ++ s)) ->
  (backup dir abs ;; remote_applied abs ;;
   let* ok := upload_merged dir rel cur id text in
   if ok then ret (true, []) else record_conflict rel abs cur id local) w = (r, w') ->
  let copy := conflict_copy_path abs w in
  disk (fs w') !! abs = disk (fs w) !! abs /\
  (forall x, r = Ok x -> x = (true, []) /\
     ((in_sync w' rel text /\ uploaded w w' id rel text) \/ (disk (fs w') !! copy = Some local /\ on_record w' id copy))).
Proof.
  intros Hev Hw Habs Hrun copy. assert (~ own abs) as Hown by (rewrite <- (app_nil_r abs); apply Habs).
  assert (undisturbed w w) as U by reflexivity.
  stage Hrun U as u1 w1 E1; [|by split; [apply (u_disk _ _ _ U)|subst r]].
  stage Hrun U as u2 w2 E2; [|by split; [apply (u_disk _ _ _ U)|subst r]].
  assert (api w2 = api w) as A2.
  { apply (keeps_Ok api) in E1; [|unfold backup; keeps_steps]. apply (keeps_Ok api) in E2; [congruence|by apply keeps_modify]. }
  pose proof (u_key _ _ _ U) as K2.
  pose proof (u_events _ _ _ U Hev) as Hev2. pose proof (u_healthy _ _ _ U Hw) as Hw2.
  assert (disk (fs w2) !! abs = disk (fs w) !! abs) as Hd2 by (by apply (u_disk _ _ _ U)).
  unfold bind in Hrun. destruct (upload_merged dir rel cur id text w2) as [[ok|e] w3] eqn:E3;
    destruct (upload_merged_run _ _ _ _ _ _ _ Hw2 E3) as (He3&Hw3&Hs3&Hd3&Hin).
  2:{ injection Hrun as <- <-. split; [by rewrite Hd3|done]. }
  destruct ok.
  { injection Hrun as <- <-. split; [by rewrite Hd3|]. intros x [= <-]. split; [done|]. left. split; [by apply Hin|].
    apply upload_merged_uploads in E3. eapply uploaded_from; [| |exact K2|exact E3]; by rewrite A2. }
  apply record_conflict_run in Hrun as (Hcopy&Hq&Hx); [|by apply He3|done|done].
  rewrite (conflict_copy_settings abs w w3) in * by (by rewrite Hs3, (u_settings _ _ _ U)). fold copy in Hcopy, Hq, Hx.
  split; [rewrite Hq; [by rewrite Hd3|done|apply copy_apart]|].
  intros x Ex. destruct (Hx x Ex) as [-> Hrec]. auto.
Qed.

(** ** The two ends of a download *)

Lemma keep_unsynced_run id key abs v f text w r w' :
  events (fs w) = [] -> healthy w -> (forall s, ~ own (abs ++ s)) -> ~ own (unsaved_copy_path abs) ->
  keep_unsynced id key abs v f text w = (r, w') ->
  let copy := unsaved_copy_path abs in
  (forall q, ~ own q -> apart copy q -> disk (fs w') !! q = disk (fs w) !! q) /\
  (forall x, r = Ok x -> x = (true, []) /\ disk (fs w') !! copy = Some text /\ on_record w' id copy).
Proof.
  intros Hev Hw Habs Hc Hrun copy. unfold keep_unsynced in Hrun. cbv zeta in Hrun. fold copy in Hrun, Hc.
  destruct (write_works copy text w Hev) as (g&E&Hg&Hd&Hq). erewrite bind_run in Hrun by exact E.
  unfold bind at 1, lift at 1 in Hrun. destruct (value_str f (lit "content_hash") []) as [h|e].
  2:{ injection Hrun as <- <-. split; [intros q _ [? ?]; by apply Hq|done]. }
  unfold bind at 1, gets at 1 in Hrun.
  destruct (addConflict_works id key v copy h (clock (put_fs g w)) (put_fs g w) Hw) as (d&E2&_&Hrec&_).
  erewrite bind_run in Hrun by exact E2.
  match type of Hrun with ?m ?w2 = _ => assert (undisturbed w2 w') as U end.
  { eapply quiet_run; [|exact Hrun]. apply quiet_bind; [apply quiet_setStatus|intros; apply quiet_ret]. }
  split.
  - intros q Hoq [? ?]. rewrite (u_disk _ _ _ U) by done. by apply Hq.
  - intros x ->. apply bind_Ok in Hrun as (u&w3&_&[-> ->]%ret_Ok). split_and!; [done| |].
    + by rewrite (u_disk _ _ _ U).
    + by eapply on_record_undisturbed.
Qed.

(** [install_remote] after the content is in the file. *)
Definition record_installed (id key : str) (abs : wstr) (v : Z) (f : json) (st : option LocalFileState)
    (plain : Bytes) : M World (bool * str) :=
  remote_applied abs ;;
  let* hash := lift (Crypto.sha256Hex plain) in
  let* vvj := lift (value_json f (lit "version_vector") (JObj [])) in
  let* vv := lift (vv_of_json vvj) in
  let old := default new_file st in
  on_db (LocalDb.upsertFile (LocalDb.MkFile id (LocalDb.syncRoot old) key hash hash
           v vv false (LocalDb.modifiedAtLocal old))) ;;
  writeShadow dir key plain ;;
  ret (true, []).

Lemma record_installed_run id key abs v f st plain w r w' :
  healthy w -> record_installed id key abs v f st plain w = (r, w') ->
  (forall q, ~ own q -> disk (fs w') !! q = disk (fs w) !! q) /\
  (LocalDbFacts.inv (LocalDb.tables (db w)) -> LocalDbFacts.inv (LocalDb.tables (db w'))) /\
  (forall x, r = Ok x -> x = (true, []) /\ in_sync w' key plain /\ (events (fs w) = [] -> events (fs w') = []) /\
     healthy w' /\ masterKey_ w' = masterKey_ w /\ settings_ w' = settings_ w).
Proof.
  intros Hw Hrun. unfold record_installed in Hrun.
  match goal with |- ?goal => assert (undisturbed w w' -> (forall x, r = Ok x -> False) -> goal) as Hstop end.
  { intros U Hr. split_and!; [apply (u_disk _ _ _ U)|by rewrite (u_tables _ _ _ U)|by intros x ?%Hr]. }
  assert (undisturbed w w) as U by reflexivity.
  stage Hrun U as u5 w5 E5; [|by apply Hstop; [|subst r]].
  stage Hrun U as hash w6 E6; [|by apply Hstop; [|subst r]]. injection E6 as Hhash _.
  stage Hrun U as vvj w7 E7; [|by apply Hstop; [|subst r]].
  stage Hrun U as vv w8 E8; [|by apply Hstop; [|subst r]]. clear Hstop.
  match type of Hrun with context [LocalDb.MkFile ?id ?root ?p ?h ?h ?v ?vv ?del ?m] =>
    destruct (upsertFile_works id root p h v vv del m plain w8 (u_healthy _ _ _ U Hw) Hhash)
      as (d&E10&Hdh&Hin&Hinv) end.
  erewrite bind_run in Hrun by exact E10.
  match type of Hrun with ?m ?w2 = _ => assert (undisturbed w2 w') as U9 end.
  { eapply quiet_run; [|exact Hrun]. apply quiet_bind; [apply quiet_writeShadow|intros _; apply quiet_ret]. }
  split_and!.
  - intros q Hoq. rewrite (u_disk _ _ _ U9) by done. by apply (u_disk _ _ _ U).
  - intros Hi. rewrite (u_tables _ _ _ U9). apply Hinv. by rewrite (u_tables _ _ _ U).
  - intros x ->. apply bind_Ok in Hrun as (u&w10&_&[-> ->]%ret_Ok). split_and!; [done| | | | |].
    + by eapply in_sync_undisturbed.
    + intros Hev. apply (u_events _ _ _ U9), (u_events _ _ _ U), Hev.
    + by apply (u_healthy _ _ _ U9).
    + rewrite (u_key _ _ _ U9). apply (u_key _ _ _ U).
    + rewrite (u_settings _ _ _ U9). apply (u_settings _ _ _ U).
Qed.

(** Installing a download: it touches the file, its temporary file and the
    plugin's own; and what returns has the content in the file and recorded as
    synchronized. *)
Lemma install_remote_run id key abs v f st plain w r w' :
  events (fs w) = [] -> healthy w -> ~ own abs ->
  install_remote dir id key abs v f st plain w = (r, w') ->
  (forall q, ~ own q -> apart abs q -> disk (fs w') !! q = disk (fs w) !! q) /\
  (LocalDbFacts.inv (LocalDb.tables (db w)) -> LocalDbFacts.inv (LocalDb.tables (db w'))) /\
  (forall x, r = Ok x -> x = (true, []) /\ disk (fs w') !! abs = Some plain /\ in_sync w' key plain /\
     events (fs w') = [] /\ healthy w' /\ masterKey_ w' = masterKey_ w /\ settings_ w' = settings_ w).
Proof.
  intros Hev Hw Hown Hrun. unfold install_remote in Hrun. assert (undisturbed w w) as U by reflexivity.
  match goal with |- ?goal => assert (undisturbed w w' -> (forall x, r = Ok x -> False) -> goal) as Hstop end.
  { intros U' Hr. split_and!; [intros q Hq _; by apply (u_disk _ _ _ U')| |by intros x ?%Hr].
    by rewrite (u_tables _ _ _ U'). }
  stage Hrun U as u1 w1 E1; [|by apply Hstop; [|subst r]].
  stage Hrun U as attr w2 E2; [|by apply Hstop; [|subst r]].
  assert (quiet dir (match attr with Some _ => backup dir abs | None => ret tt end)) as Hbk.
  { destruct attr; [apply quiet_backup|apply quiet_ret]. }
  stage Hrun U as u3 w3 E3; [|by apply Hstop; [|subst r]]. clear Hstop.
  destruct (write_works abs plain w3 (u_events _ _ _ U Hev)) as (g&E&Hg&Hd&Hq).
  erewrite bind_run in Hrun by exact E. cbn [negb] in Hrun.
  apply record_installed_run in Hrun as (Hdisk&Hinv&Hx); [|exact (u_healthy _ _ _ U Hw)]. split_and!.
  - intros q Hoq [? ?]. rewrite Hdisk by done. cbn [fs put_fs]. rewrite Hq by done. by apply (u_disk _ _ _ U).
  - intros Hi. apply Hinv. cbn [db put_fs]. by rewrite (u_tables _ _ _ U).
  - intros x ->. destruct (Hx x eq_refl) as (->&Hin&He&Hh&Hk&Hs). split_and!; [done| |done|auto|done| |].
    + by rewrite Hdisk.
    + rewrite Hk. apply (u_key _ _ _ U).
    + rewrite Hs. apply (u_settings _ _ _ U).
Qed.
End engine.

Section edits.
Context `{Win32Text} `{CNG} `{Json} `{DPAPI} `{LocalTime}.
Context (dir : wstr).

(** [absPathForRel] as a function of the tables. *)
Definition mapped (t : LocalDb.Tables) (key : str) : option wstr :=
  match find_char COLON key with
  | None => None
  | Some colon =>
      match root_by_id (folders t) (take colon key) with
      | Some root => PathUtil.joinInsideRoot root (drop (S colon) key)
      | None => if bool_decide (take colon key = lit "file") then file_by_name (single_files t) (drop (S colon) key)
                else None
      end
  end.

Lemma absPathForRel_run key w :
  healthy w -> exists w', absPathForRel key w = (Ok (mapped (tables_of w) key), w').
Proof.
  intros Hw. unfold absPathForRel, mapped. destruct (find_char COLON key) as [colon|]; [|by eexists].
  destruct (listSyncRoots_run w Hw) as (w1&E1&Hc1). erewrite bind_run by exact E1.
  destruct (root_by_id (folders (tables_of w)) (take colon key)); [by eexists|].
  destruct (listSyncFiles_run w1 (calm_healthy _ _ Hc1)) as (w2&E2&Hc2). erewrite bind_run by exact E2.
  rewrite (calm_tables _ _ Hc1). by eexists.
Qed.

(** The keys a download can be given: those of known files, and those of a
    normalized path in a folder. *)
Definition usable (t : LocalDb.Tables) (key : str) : Prop :=
  (exists row, row ∈ LocalDb.files t /\ LocalDb.fr_rel_path row = key) \/
  (exists rid root rel norm, (rid, root) ∈ folders t /\ PathUtil.normalizeRelative rel = (true, norm) /\
     key = rid ++ [COLON] ++ norm).

Lemma known_key_in all norm : known_key all norm <> [] -> exists f, f ∈ all /\ known_key all norm = LocalDb.f_relPath f.
Proof.
  induction all as [|f all IH]; [done|]. cbn [known_key]. case_bool_decide; [exists f; split; [left|done]|].
  intros (g&Hg&E)%IH. exists g. split; [by right|done].
Qed.

Lemma choose_root_in roots norm : choose_root roots norm <> [] -> exists root, (choose_root roots norm, root) ∈ roots.
Proof.
  induction roots as [|[id root] roots IH]; [done|]. cbn [choose_root].
  destruct (PathUtil.joinInsideRoot root norm); [exists root; left|]. intros (r&Hr)%IH. exists r. by right.
Qed.

Lemma local_key_usable rel norm key w w' :
  healthy w -> PathUtil.normalizeRelative rel = (true, norm) -> local_key norm w = (Ok (Some key), w') ->
  usable (tables_of w) key.
Proof.
  intros Hw Hn. unfold local_key. intros (all&w1&Ha&E)%bind_Ok. unfold LocalDb.allFiles in Ha.
  match type of Ha with on_db (LocalDb.query ?rows) _ = _ => destruct (on_db_query rows w Hw) as (w2&E2&Hc) end.
  rewrite E2 in Ha. injection Ha as <- <-. cbv zeta in E. case_bool_decide as Hk; cbn [negb] in E.
  - destruct (listSyncRoots_run w2 (calm_healthy _ _ Hc)) as (w3&E3&_). rewrite (calm_tables _ _ Hc) in E3.
    erewrite bind_run in E by exact E3. destruct (folders (tables_of w)) as [|[id0 root0] roots] eqn:Ef; [discriminate E|].
    set (chosen := choose_root ((id0, root0) :: roots) norm) in E.
    assert (key = (if bool_decide (chosen = []) then id0 else chosen) ++ [COLON] ++ norm) as -> by (unfold ret in E; congruence).
    right. case_bool_decide as Hch.
    + exists id0, root0, rel, norm. split_and!; [rewrite Ef; left|done|done].
    + destruct (choose_root_in _ _ Hch) as [root Hr]. exists chosen, root, rel, norm.
      split_and!; [by rewrite Ef|done|done].
  - injection E as <- _. left. destruct (known_key_in _ _ Hk) as (f&Hf&->).
    apply list_elem_of_fmap in Hf as (row&->&Hrow). by exists row.
Qed.

Lemma remote_path_normal f norm w w' :
  remote_path f w = (Ok (inr norm), w') -> exists rel, PathUtil.normalizeRelative rel = (true, norm).
Proof.
  unfold remote_path. intros (enc64&w1&_&E)%bind_Ok. destruct (Crypto.base64UrlDecode enc64); [|discriminate E].
  apply bind_Ok in E as (mk&w2&_&E). apply bind_Ok in E as (meta&w3&_&E).
  destruct meta; [|discriminate E]. destruct (json_parse _); [|discriminate E].
  apply bind_Ok in E as (rel&w4&_&E). exists rel.
  destruct (PathUtil.normalizeRelative rel) as [[|] n]; [by injection E as -> _|discriminate E].
Qed.

(** The stored state of a key. *)
Definition stored (t : LocalDb.Tables) (key : str) : option LocalFileState :=
  LocalDb.file_of_row key <$> head (filter (fun r => LocalDb.fr_rel_path r = c_str key) (LocalDb.files t)).

Lemma getFile_run key w :
  healthy w -> exists w', on_db (LocalDb.getFile key) w = (Ok (stored (tables_of w) key), w').
Proof.
  intros Hw. unfold on_db, zoom, LocalDb.getFile, bind. rewrite LocalDbFacts.healthy_query by exact Hw. by eexists.
Qed.

(** The content [c] differs from what was last synchronized under that state. *)
Definition differs (st : option LocalFileState) (c : Bytes) : Prop :=
  exists f, st = Some f /\ LocalDb.localHash f <> [] /\
    forall h, Crypto.sha256Hex c = Ok h -> h <> LocalDb.localHash f /\ h <> LocalDb.remoteHash f.

Lemma unsynced_differs st c w r w' :
  differs st c -> unsynced_edits st (Some c) w = (Ok r, w') -> r = true.
Proof.
  intros (f&->&Hne&Hh). unfold unsynced_edits. intros (h&w1&Hs&E)%bind_Ok. apply lift_Ok in Hs as [Hs ->].
  apply ret_Ok in E as [-> _]. destruct (Hh h Hs). by rewrite !bool_decide_false.
Qed.

(** Neither a temporary file nor a preserved copy. *)
Definition ordinary (p : wstr) : Prop := forall a, p <> tmp_path a /\ p <> unsaved_copy_path a.

Lemma ordinary_apart p a : ordinary p -> p <> a -> apart a p.
Proof. intros Ho Hne. split; [done|apply Ho]. Qed.

(** A content arrives for some file: an ordinary file keeps what it holds,
    unless it is that file and has no edits. *)
Lemma receive_content_run id key abs v f st plain p c w r w' :
  events (fs w) = [] -> healthy w -> (forall s, ~ own dir (abs ++ s)) -> ~ own dir (unsaved_copy_path abs) ->
  ~ own dir p -> ordinary p -> disk (fs w) !! p = Some c -> (abs = p -> differs st c) ->
  receive_content dir id key abs v f st plain w = (r, w') ->
  disk (fs w') !! p = Some c /\
  (abs = p -> forall x, r = Ok x -> x = (true, []) /\
     disk (fs w') !! unsaved_copy_path p = Some c /\ on_record w' id (unsaved_copy_path p)).
Proof.
  intros Hev Hw Habs Hcopy Hown Hord Hd Hdiff Hrun. unfold receive_content in Hrun.
  assert (undisturbed dir w w) as U by reflexivity.
  assert (undisturbed dir w w' -> disk (fs w') !! p = Some c) as Hsame.
  { intros U'. by rewrite (u_disk _ _ _ U'). }
  destruct (read_works abs w Hev) as (w0&E0).
  stage Hrun U as local w1 E1; [|split; [by apply Hsame|by subst r]].
  assert (local = disk (fs w) !! abs) as -> by congruence.
  stage Hrun U as dirty w2 E2; [|split; [by apply Hsame|by subst r]].
  pose proof (u_events _ _ _ U Hev) as Hev2. pose proof (u_healthy _ _ _ U Hw) as Hw2.
  pose proof (u_disk _ _ _ U p Hown) as Hd2. rewrite Hd in Hd2.
  destruct dirty.
  - apply (keep_unsynced_run dir) in Hrun as [Hq Hx]; [|done..]. split.
    + rewrite Hq; [done|done|]. split; apply Hord.
    + intros -> x Ex. rewrite Hd in Hx. by apply Hx.
  - assert (abs <> p) as Hne.
    { intros ->. rewrite Hd in E2. apply unsynced_differs in E2; [done|by apply Hdiff]. }
    apply install_remote_run in Hrun as [Hq _]; [|done..|rewrite <- (app_nil_r abs); apply Habs].
    split; [|done]. rewrite Hq; [done|done|]. by apply ordinary_apart.
Qed.

(** What a download comes to: nothing but quiet steps, a deletion the server
    asked for, or a content for a file that one of the usable keys maps to. *)
Lemma applyRemoteFile_cases id w r w' :
  healthy w -> applyRemoteFile dir id w = (r, w') ->
  undisturbed dir w w' \/
  (exists resp w1, on_api dir (ApiClient.getFile id) w = (Ok resp, w1) /\
     value_bool (ApiClient.body resp) (lit "deleted") false = Ok true) \/
  (exists key abs v f plain w1, usable (tables_of w) key /\ mapped (tables_of w) key = Some abs /\
     undisturbed dir w w1 /\
     receive_content dir id key abs v f (stored (tables_of w) key) plain w1 = (r, w')).
Proof.
  intros Hw Hrun. unfold applyRemoteFile in Hrun. assert (undisturbed dir w w) as U by reflexivity.
  stage Hrun U as resp w1 E1; [|by left].
  destruct (negb (ApiClient.transportOk resp)).
  { stage Hrun U as u w2 E2; [|by left]. injection Hrun as _ <-. by left. }
  stage Hrun U as u w2 E2; [|by left]. destruct (negb _). { injection Hrun as _ <-. by left. }
  stage Hrun U as version w3 E3; [|by left]. stage Hrun U as isDeleted w4 E4; [|by left].
  stage Hrun U as path w5 E5; [|by left]. destruct path as [err|norm]. { injection Hrun as _ <-. by left. }
  apply remote_path_normal in E5 as [rel Hrel].
  assert (tables_of w5 = tables_of w) as Et by apply (u_tables _ _ _ U).
  assert (healthy w5) as Hw5 by apply (u_healthy _ _ _ U Hw).
  stage Hrun U as key w6 E6; [|by left]. destruct key as [key|]. 2:{ injection Hrun as _ <-. by left. }
  pose proof (local_key_usable rel norm key w5 w6 Hw5 Hrel E6) as Huse. rewrite Et in Huse.
  destruct (absPathForRel_run key w6 (u_healthy _ _ _ U Hw)) as (w6'&Em). unfold tables_of in Em.
  rewrite (u_tables _ _ _ U) in Em. stage Hrun U as absOpt w7 E7; [|by left].
  assert (absOpt = mapped (tables_of w) key) as -> by (unfold tables_of; congruence).
  destruct (mapped (tables_of w) key) as [abs|] eqn:Hmap. 2:{ injection Hrun as _ <-. by left. }
  stage Hrun U as ign w8 E8; [|by left]. destruct ign. { injection Hrun as _ <-. by left. }
  destruct (getFile_run key w8 (u_healthy _ _ _ U Hw)) as (w8'&Es). unfold tables_of in Es.
  rewrite (u_tables _ _ _ U) in Es. stage Hrun U as st w9 E9; [|by left].
  assert (st = stored (tables_of w) key) as -> by (unfold tables_of; congruence).
  destruct (match stored (tables_of w) key with Some s => _ | None => _ end). { injection Hrun as _ <-. by left. }
  destruct isDeleted. { right; left. injection E4 as E4 _. eauto. }
  stage Hrun U as content w10 E10; [|by left].
  destruct content as [err|plain]. { injection Hrun as _ <-. by left. }
  right; right. by eexists _, _, _, _, _, _.
Qed.
End edits.

Section unchanged.
Context `{Win32Text} `{CNGLaws} `{Json} `{DPAPI} `{LocalTime}.
Context (dir : wstr).

Lemma filter_unique {A K} `{EqDecision K} (key : A -> K) rows x :
  NoDup (map key rows) -> x ∈ rows -> filter (fun r => key r = key x) rows = [x].
Proof.
  induction rows as [|r rows IH]; [by intros _ ?%elem_of_nil|]. cbn [map].
  intros [Hr Hd]%NoDup_cons [->|Hx]%elem_of_cons; rewrite filter_cons.
  - rewrite decide_True by done. f_equal. clear IH Hd. induction rows as [|y rows IH]; [done|].
    cbn [map] in Hr. apply not_elem_of_cons in Hr as [Hy Hr]. rewrite filter_cons, decide_False by congruence. by apply IH.
  - rewrite decide_False; [by apply IH|]. intros E. apply Hr. rewrite E. by apply list_elem_of_fmap_2.
Qed.

(** The state read for a file that is recorded as synchronized. *)
Lemma getFile_in_sync w rel data :
  healthy w -> LocalDbFacts.inv (LocalDb.tables (db w)) -> in_sync w rel data ->
  exists h f w', Crypto.sha256Hex data = Ok h /\ on_db (LocalDb.getFile rel) w = (Ok (Some f), w') /\
    LocalDb.localHash f = h /\ LocalDb.remoteHash f = h.
Proof.
  intros Hw Hi (h&row&Hh&Hrow&Hp&Hlh&Hrh). exists h.
  rewrite LocalDbFacts.c_str_id in Hlh, Hrh by (by eapply CryptoFacts.sha256Hex_NUL).
  unfold on_db, zoom, LocalDb.getFile, bind. rewrite LocalDbFacts.healthy_query by exact Hw.
  rewrite <- Hp, (filter_unique LocalDb.fr_rel_path) by (done || apply Hi).
  eexists _, _. split; [done|]. split; [reflexivity|]. done.
Qed.

(** Uploading a file whose content is the recorded one asks nobody. *)
Lemma upload_unchanged_run rel abs plain w :
  events (fs w) = [] -> healthy w -> LocalDbFacts.inv (LocalDb.tables (db w)) ->
  hasMasterKey w = true -> Z.of_nat (length plain) <= Settings.maxFileBytes (settings_ w) ->
  disk (fs w) !! abs = Some plain -> in_sync w rel plain ->
  exists w', uploadFile dir rel abs w = (Ok (true, []), w') /\ api w' = api w /\ undisturbed dir w w'.
Proof.
  intros Hev Hw Hi Hk Hsz Hd Hs. unfold uploadFile. unfold bind at 1, gets at 1. rewrite Hk. cbn [negb].
  destruct (read_works abs w Hev) as (w1&E1). rewrite Hd in E1.
  pose proof (quiet_run dir _ _ _ _ (quiet_readFile dir abs) E1) as U1.
  assert (api w1 = api w) as Ea1 by (by apply (keeps_Ok api) in E1; [|apply keeps_zoom]).
  erewrite bind_run by exact E1. unfold bind at 1, gets at 1. rewrite (u_settings _ _ _ U1).
  rewrite (proj2 (Z.ltb_ge _ _)) by exact Hsz.
  assert (in_sync w1 rel plain) as Hs1 by (by eapply in_sync_undisturbed).
  destruct (getFile_in_sync w1 rel plain (u_healthy _ _ _ U1 Hw)) as (h&f&w2&Hh&E2&Hlh&Hrh); [|done|].
  { by rewrite (u_tables _ _ _ U1). }
  unfold bind at 1, lift at 1. rewrite Hh. erewrite bind_run by exact E2.
  unfold upload_unchanged. rewrite Hlh, Hrh, bool_decide_true by done. cbn [andb].
  exists w2. split; [done|]. split.
  - apply (keeps_Ok api) in E2; [congruence|by apply keeps_zoom].
  - etransitivity; [exact U1|]. eapply quiet_run; [|exact E2]. apply quiet_on_db, reads_getFile.
Qed.

(** The content of a payload: encrypted under the master key, with its hash. *)
Lemma buildFilePayload_content rel plaintext bv vv w pl w' :
  buildFilePayload rel plaintext bv vv w = (Ok pl, w') ->
  exists enc r' h, Crypto.encrypt (masterKey_ w) plaintext (lit "file") (rand w) = (Ok enc, r') /\
    Crypto.sha256Hex enc = Ok h /\
    value_str (p_json pl) (lit "encrypted_content") [] = Ok (Crypto.base64UrlEncode enc) /\
    value_str (p_json pl) (lit "content_hash") [] = Ok h /\
    value_str (p_json pl) (lit "file_id") [] = Ok (p_file_id pl) /\
    value_int64 (p_json pl) (lit "size") 0 = Ok (wrap_i64 (Z.of_nat (length enc))).
Proof.
  unfold buildFilePayload. intros (mk&w0&[-> ->]%gets_Ok&Hb)%bind_Ok.
  apply bind_Ok in Hb as (enc&w1&(r1&Henc&->)%zoom_Ok&Hb).
  apply bind_Ok in Hb as (text&w2&_&Hb). apply bind_Ok in Hb as (env&w3&_&Hb).
  apply bind_Ok in Hb as (st&w4&_&Hb). apply bind_Ok in Hb as (fid&w5&_&Hb).
  apply bind_Ok in Hb as (dev&w6&_&Hb). apply bind_Ok in Hb as (ch&w7&[Hh _]%lift_Ok&Hb).
  apply bind_Ok in Hb as (vj&w8&_&Hb). apply bind_Ok in Hb as (ph&w9&_&Hb).
  apply bind_Ok in Hb as (k&w10&_&Hb). apply ret_Ok in Hb as [-> _].
  by exists enc, r1, ch.
Qed.
End unchanged.

Section opens.
Context `{Win32Text} `{CNGLaws} `{Json} `{DPAPI} `{LocalTime}.

(** A payload's content opens wherever the key is the same. *)
Lemma payload_opens rel plaintext bv vv w1 w1' w2 pl f :
  buildFilePayload rel plaintext bv vv w1 = (Ok pl, w1') -> bytes_ok plaintext -> bytes_ok (rand w1) ->
  value_str f (lit "encrypted_content") [] = value_str (p_json pl) (lit "encrypted_content") [] ->
  value_str f (lit "content_hash") [] = value_str (p_json pl) (lit "content_hash") [] ->
  masterKey_ w2 = masterKey_ w1 -> remote_content f w2 = (Ok (inr plaintext), w2).
Proof.
  intros Hbuild Hp Hr Hcontent Hhash Hk.
  destruct (buildFilePayload_content _ _ _ _ _ _ _ Hbuild) as (enc&r'&h&Henc&Hh&Ec&Eh&_).
  unfold remote_content. rewrite Hcontent, Hhash, Ec, Eh. unfold bind at 1, lift at 1.
  rewrite CryptoFacts.base64_round_trip by (by eapply CryptoFacts.encrypt_bytes).
  unfold bind at 1, lift at 1. rewrite Hh. unfold bind at 1, lift at 1.
  rewrite bool_decide_true by done. cbn [negb]. unfold bind at 1, gets at 1. unfold bind, lift.
  by rewrite Hk, (CryptoFacts.decrypt_encrypt _ _ _ _ _ _ Henc).
Qed.
End opens.
End EngineContentFacts.

(** * The claims *)

Module EngineContentSpec.
Import EngineContentFacts.

Section engine.
Context `{Win32Text} `{CNG} `{Json} `{DPAPI} `{LocalTime}.
Context (dir : wstr).


End engine.

Section downloads.
Context `{Win32Text} `{CNG} `{Json} `{DPAPI} `{LocalTime}.
Context (dir : wstr).

(** C4: a download never overwrites edits that were not synchronized. Take
    an ordinary file of the user whose content differs, under every usable key
    that maps to it, from what was last synchronized. On a disk and a database
    that work, and unless the server says that the remote file is deleted,
    [applyRemoteFile] leaves that content in place, whatever the server sends
    and however the call ends; and a content that arrives for this very file
    puts a copy next to it and a conflict on record. *)
Theorem download_keeps_edits (id : str) (p : wstr) (c : Bytes) (w w' : World) (r : outcome (bool * str))
    (Hev : events (fs w) = []) (Hw : healthy w) (Hd : disk (fs w) !! p = Some c)
    (Hown : ~ own dir p) (Hord : ordinary p)
    (Hroots : forall key a, usable (tables_of w) key -> mapped (tables_of w) key = Some a ->
       (forall s, ~ own dir (a ++ s)) /\ ~ own dir (unsaved_copy_path a))
    (Hedit : forall key, usable (tables_of w) key -> mapped (tables_of w) key = Some p ->
       differs (stored (tables_of w) key) c)
    (Hkept : forall resp w1, on_api dir (ApiClient.getFile id) w = (Ok resp, w1) ->
       value_bool (ApiClient.body resp) (lit "deleted") false <> Ok true)
    (Hrun : applyRemoteFile dir id w = (r, w')) :
  disk (fs w') !! p = Some c /\
  (forall key version f plain x w2, usable (tables_of w) key -> mapped (tables_of w) key = Some p ->
     receive_content dir id key p version f (stored (tables_of w) key) plain w = (Ok x, w2) ->
     x = (true, []) /\ disk (fs w2) !! p = Some c /\
     disk (fs w2) !! unsaved_copy_path p = Some c /\ on_record w2 id (unsaved_copy_path p)).
Proof.
  split.
  - destruct (applyRemoteFile_cases dir id w r w' Hw Hrun)
      as [U|[(resp&w1&E&Hdel)|(key&abs&v&f&plain&w1&Hu&Hm&U&Hr)]].
    + by rewrite (u_disk _ _ _ U).
    + by destruct (Hkept _ _ E).
    + destruct (Hroots key abs Hu Hm) as [Ha Hc].
      assert (disk (fs w1) !! p = Some c) as Hd1 by (by rewrite (u_disk _ _ _ U)).
      assert (abs = p -> differs (stored (tables_of w) key) c) as Hdiff by (intros ->; by apply Hedit).
      by destruct (receive_content_run dir _ _ _ _ _ _ _ _ c _ _ _ (u_events _ _ _ U Hev) (u_healthy _ _ _ U Hw)
        Ha Hc Hown Hord Hd1 Hdiff Hr) as [Hp _].
  - intros key version f plain x w2 Hu Hm Hr. destruct (Hroots key p Hu Hm) as [Ha Hc].
    destruct (receive_content_run dir _ _ _ _ _ _ _ _ c _ _ _ Hev Hw Ha Hc Hown Hord Hd
      (fun _ => Hedit key Hu Hm) Hr) as [Hp Hx].
    destruct (Hx eq_refl x eq_refl) as (->&?&?). done.
Qed.
End downloads.

Section content.
Context `{Win32Text} `{CNGLaws} `{Json} `{DPAPI} `{LocalTime}.
Context (dir : wstr).

(** C11: the content that one device uploads is the content that another
    device with the same master key reads out of the server's answer, byte for
    byte, for every content, the empty one included, and the size and the
    file id announced are those of the payload. The receiver accepts nothing else:
    what it accepts hashes to the announced hash and was opened with its key;
    a content that does not hash to it is refused before it is decrypted. *)
Theorem uploaded_content_arrives (rel : str) (plaintext : Bytes) (bv : Z) (vv : VersionVector.t)
    (w1 w1' w2 : World) (pl : Payload) (f : json)
    (Hbuild : buildFilePayload rel plaintext bv vv w1 = (Ok pl, w1'))
    (Hbytes : bytes_ok plaintext /\ bytes_ok (rand w1))
    (Hcontent : value_str f (lit "encrypted_content") [] = value_str (p_json pl) (lit "encrypted_content") [])
    (Hhash : value_str f (lit "content_hash") [] = value_str (p_json pl) (lit "content_hash") []) :
  (masterKey_ w2 = masterKey_ w1 -> remote_content f w2 = (Ok (inr plaintext), w2)) /\
  undisturbed dir w1 w1' /\
  value_str (p_json pl) (lit "file_id") [] = Ok (p_file_id pl) /\
  (forall g claimed enc64 enc plain w w',
     value_str g (lit "encrypted_content") [] = Ok enc64 -> Crypto.base64UrlDecode enc64 = Some enc ->
     value_str g (lit "content_hash") [] = Ok claimed ->
     (remote_content g w = (Ok (inr plain), w') ->
        w' = w /\ Crypto.sha256Hex enc = Ok claimed /\
        Crypto.decrypt (masterKey_ w) enc (lit "file") = Ok (Some plain)) /\
     (forall h, Crypto.sha256Hex enc = Ok h -> h <> claimed ->
        remote_content g w = (Ok (inl (lit "hash mismatch")), w))).
Proof.
  destruct (buildFilePayload_content _ _ _ _ _ _ _ Hbuild) as (enc&r'&h&Henc&Hh&Ec&Eh&Ef&_).
  destruct Hbytes as [Hp Hr]. split_and!.
  - by apply (payload_opens rel plaintext bv vv w1 w1' w2 pl f).
  - exact (quiet_run dir _ _ _ _ (quiet_buildFilePayload dir _ _ _ _) Hbuild).
  - exact Ef.
  - intros g claimed enc64 genc plain w w' E1 E2 E3. split.
    + unfold remote_content. rewrite E1, E3. unfold bind at 1, lift at 1. rewrite E2.
      unfold bind at 1, lift at 1. destruct (Crypto.sha256Hex genc) as [gh|]; [|done].
      unfold bind at 1, lift at 1. case_bool_decide as Hg; cbn [negb]; [|done].
      unfold bind at 1, gets at 1. unfold bind, lift.
      destruct (Crypto.decrypt _ _ _) as [[q|]|]; [|done..]. by intros [= <- <-]; subst.
    + intros gh Hgh Hne. unfold remote_content. rewrite E1, E3. unfold bind at 1, lift at 1. rewrite E2.
      unfold bind at 1, lift at 1. rewrite Hgh. unfold bind at 1, lift at 1. by rewrite bool_decide_false.
Qed.
End content.

Section echo.
Context `{Win32Text} `{CNGLaws} `{Json} `{DPAPI} `{LocalTime}.
Context (dir : wstr).

(** C12: a download is installed whole and is not echoed. On a disk and a
    database that work, with a master key in memory and a content of at most
    [maxFileBytes] of the settings, for a file outside the data directory,
    [install_remote] that returns has put exactly the downloaded content into the
    file; and the upload that the watcher's event for this very write queues
    then succeeds without a single exchange with the server and without changing
    a file or a table. (Above the limit, or without a key, that upload stops with
    an error before it compares anything.) *)
Theorem install_then_quiet (id key : str) (abs : wstr) (version : Z) (f : json)
    (st : option LocalFileState) (plain : Bytes) (w w' : World) (x : bool * str)
    (Hev : events (fs w) = []) (Hw : healthy w) (Hi : LocalDbFacts.inv (LocalDb.tables (db w)))
    (Hk : hasMasterKey w = true) (Hsz : Z.of_nat (length plain) <= Settings.maxFileBytes (settings_ w))
    (Habs : ~ own dir abs) (Hrun : install_remote dir id key abs version f st plain w = (Ok x, w')) :
  x = (true, []) /\ disk (fs w') !! abs = Some plain /\
  (forall q, ~ own dir q -> q <> abs -> q <> tmp_path abs -> disk (fs w') !! q = disk (fs w) !! q) /\
  exists w2, uploadFile dir key abs w' = (Ok (true, []), w2) /\
    ApiClient.sent (api w2) = ApiClient.sent (api w') /\ undisturbed dir w' w2.
Proof.
  destruct (install_remote_run dir _ _ _ _ _ _ _ _ _ _ Hev Hw Habs Hrun) as (Hq&Hinv&Hx).
  destruct (Hx x eq_refl) as (->&Hd&Hin&Hev'&Hw'&Hk'&Hs'). split_and!; [done|done|by intros; apply Hq|].
  destruct (upload_unchanged_run dir key abs plain w') as (w2&E&Ea&U); try done; [by apply Hinv| | |].
  - unfold hasMasterKey in *. by rewrite Hk'.
  - by rewrite Hs'.
  - exists w2. by rewrite Ea.
Qed.
End echo.

Import Toy.

(** The user's file is not the plugin's own. *)
Lemma note_not_own s : ~ own data_dir (note_path ++ s).
Proof. intros [k E]. discriminate E. Qed.

(** A refused upload: the server holds other text, and there is no base. *)
Definition server_current : json := JObj [(lit "file_id", JStr (lit "f-1")); (lit "version", JInt 2)].

Definition conflict_world : World :=
  world [(note_path, lit "hello")] Toy.tables Toy.key [reply (remote_file "a.md" (lit "other") 2)].


(** A download of a file for the first time. *)
Definition arriving : json := remote_file "a.md" (lit "hello") 2.

Definition empty_folder : World := world [] Toy.tables Toy.key [].

Lemma toy_inv : LocalDbFacts.inv Toy.tables.
Proof.
  split; simpl; try constructor; try apply not_elem_of_nil; try constructor; unfold INT64_MAX; try lia.
Qed.

Lemma install_then_quiet_witness :
  let out := install_remote data_dir (lit "f-1") note_key note_path 2 arriving None (lit "hello") empty_folder in
  disk (fs out.2) !! note_path = Some (lit "hello") /\
  exists w2, uploadFile data_dir note_key note_path out.2 = (Ok (true, []), w2) /\
    ApiClient.sent (api w2) = ApiClient.sent (api out.2).
Proof.
  cbv zeta. set (out := install_remote _ _ _ _ _ _ _ _ _).
  assert (out.1 = Ok (true, [])) as E by (vm_compute; reflexivity).
  assert (out = (Ok (true, []), out.2)) as Eo by (rewrite <- E; apply surjective_pairing).
  destruct (@install_then_quiet ascii_text toy_cng toy_cng_laws wire_json toy_dpapi toy_time data_dir (lit "f-1")
    note_key note_path 2 arriving None (lit "hello") empty_folder out.2 (true, [])) as (_&Hd&_&w2&Hu&Ha&_).
  - reflexivity.
  - split; [done|constructor].
  - exact toy_inv.
  - vm_compute. reflexivity.
  - vm_compute. congruence.
  - rewrite <- (app_nil_r note_path). apply note_not_own.
  - exact Eo.
  - split; [exact Hd|]. exists w2. by split.
Defined.

(** A note that was edited after it was last synchronized. *)
Definition edited_tables : LocalDb.Tables :=
  LocalDb.MkTables ∅ (LocalDb.sync_roots Toy.tables)
    [LocalDb.file_row (LocalDb.MkFile (lit "f-1") [] note_key (lit "aa") (lit "bb") 1 VersionVector.empty false 0)]
    [] 0 [].

Definition edited_world : World :=
  world [(note_path, lit "hello")] edited_tables Toy.key [reply (remote_file "a.md" (lit "other") 5)].

Lemma mapped_below key a :
  mapped edited_tables key = Some a -> exists c out, find_char COLON key = Some c /\ take c key = lit "r1" /\
    PathUtil.normalizeRelative (drop (S c) key) = (true, out) /\
    a = lit "C:\notes" ++ [BSLASH] ++ replace_char SLASH BSLASH (utf8ToWide out).
Proof.
  unfold mapped. destruct (find_char COLON key) as [c|]; [|done].
  change (folders edited_tables) with [(lit "r1", lit "C:\notes")]. cbn [root_by_id].
  case_bool_decide as Er.
  - unfold PathUtil.joinInsideRoot. destruct (PathUtil.normalizeRelative (drop (S c) key)) as [[|] out] eqn:En; [|done].
    cbn [negb]. case_match; [|done]. intros [= <-]. by exists c, out.
  - change (single_files edited_tables) with (@nil (str * wstr)). by case_bool_decide.
Qed.

Lemma replace_same s t : BSLASH ∉ t -> replace_char SLASH BSLASH s = t -> s = t.
Proof.
  revert t. induction s as [|c s IH]; intros t Ht E; [by destruct t|]. destruct t as [|d t]; [done|].
  apply not_elem_of_cons in Ht as [Hd Ht]. unfold replace_char in *. simpl in E. injection E as Ec E.
  rewrite (IH t Ht E). destruct (c =? SLASH); congruence.
Qed.

(** Only one usable key leads to the note. *)
Lemma note_key_only key :
  usable edited_tables key -> mapped edited_tables key = Some note_path -> key = note_key.
Proof.
  intros [(row&Hrow&<-)|(rid&root&rel&norm&Hin&Hn&->)] Hm.
  { apply list_elem_of_singleton in Hrow as ->. reflexivity. }
  change (folders edited_tables) with [(lit "r1", lit "C:\notes")] in Hin.
  apply list_elem_of_singleton in Hin. injection Hin as -> ->.
  apply mapped_below in Hm as (c&out&Hc&_&Hout&Ea). assert (c = 2%nat) as -> by (by injection Hc).
  assert (PathUtil.normalizeRelative norm = (true, out)) as Hout' by exact Hout. clear Hout. rename Hout' into Hout.
  destruct (PathUtilFacts.normalizeRelative_true _ _ Hn) as (segs&->&Hsafe&Hlen).
  rewrite PathUtilFacts.normalizeRelative_safe in Hout by done. injection Hout as <-.
  assert (replace_char SLASH BSLASH (utf8ToWide (join [SLASH] segs)) = lit "a.md") as Er.
  { change note_path with (lit "C:\notes" ++ [BSLASH] ++ lit "a.md") in Ea. by do 2 apply app_inv_head in Ea. }
  apply replace_same in Er; [|decide_goal]. unfold utf8ToWide in Er. case_bool_decide; [done|].
  unfold MultiByteToWideChar in Er. cbn [ascii_text] in Er.
  destruct (bool_decide (ascii_str (join [SLASH] segs))); [|done]. cbn [default from_option id] in Er. by rewrite Er.
Qed.

Lemma download_keeps_edits_witness :
  let out := applyRemoteFile data_dir (lit "f-1") edited_world in
  out.1 = Ok (true, []) /\ disk (fs out.2) !! note_path = Some (lit "hello").
Proof.
  cbv zeta. set (out := applyRemoteFile data_dir (lit "f-1") edited_world).
  split; [vm_compute; reflexivity|].
  refine (proj1 (@download_keeps_edits ascii_text toy_cng wire_json toy_dpapi toy_time data_dir (lit "f-1") note_path
    (lit "hello") edited_world out.2 out.1 eq_refl _ eq_refl _ _ _ _ _ (surjective_pairing out))).
  - split; [done|constructor].
  - rewrite <- (app_nil_r note_path). apply note_not_own.
  - intros a. split; intros E; apply (f_equal reverse) in E; unfold tmp_path, unsaved_copy_path in E;
      rewrite ?app_assoc, reverse_app in E; discriminate E.
  - intros key a _ (c&o&_&_&_&->)%mapped_below. split; [intros s [k E]; discriminate E|].
    intros [k E]. apply (f_equal PathUtil.wlower) in E.
    destruct (@EngineFrame.dir_name_prefixed ascii_text ascii_text_laws (lit "c:\notes\")
      (lit "C:\notes" ++ [BSLASH] ++ replace_char SLASH BSLASH (utf8ToWide o)) (lit " (conflict - local unsaved).bak"))
      as [rest Er].
    { exists (PathUtil.wlower (replace_char SLASH BSLASH (utf8ToWide o))).
      rewrite app_assoc, PathUtilFacts.wlower_app. reflexivity. }
    unfold unsaved_copy_path in E. rewrite Er in E. discriminate E.
  - intros key Hu Hm. rewrite (note_key_only key Hu Hm). eexists. split; [reflexivity|]. split; [discriminate|].
    intros h Hh. injection Hh as <-. split; discriminate.
  - intros resp w1 E.
    assert (match (on_api data_dir (ApiClient.getFile (lit "f-1")) edited_world).1 with
            | Ok resp => match value_bool (ApiClient.body resp) (lit "deleted") false with
                         | Ok true => false | _ => true end
            | _ => true end = true) as Hc by (vm_compute; reflexivity).
    rewrite E in Hc. cbn [fst] in Hc. intros Hv. rewrite Hv in Hc. discriminate Hc.
Defined.

(** One device uploads, another one reads the same payload. *)
Lemma uploaded_content_arrives_witness :
  let out := buildFilePayload note_key (lit "hello") 0 VersionVector.empty (world [] Toy.tables Toy.key []) in
  let f := match out.1 with Ok pl => p_json pl | Throw _ => JNull end in
  remote_content f edited_world = (Ok (inr (lit "hello")), edited_world).
Proof.
  cbv zeta. set (out := buildFilePayload _ _ _ _ _).
  assert (exists pl, out.1 = Ok pl) as [pl E].
  { assert (match out.1 with Ok _ => true | Throw _ => false end = true) as Hok by (vm_compute; reflexivity).
    destruct (out.1) as [pl|]; [by exists pl|discriminate Hok]. }
  rewrite E. assert (out = (Ok pl, out.2)) as Eo by (rewrite <- E; apply surjective_pairing).
  refine (proj1 (@uploaded_content_arrives toy_cng toy_cng_laws wire_json data_dir
    note_key (lit "hello") 0 VersionVector.empty (world [] Toy.tables Toy.key []) out.2 edited_world pl (p_json pl)
    Eo _ eq_refl eq_refl) eq_refl).
  split; decide_goal.
Defined.

End EngineContentSpec.
