(* ===== verification/EnginePairSpec.v ===== *)
(** * EnginePairSpec: a second computer

    Pairing across two engines and a server that passes on what it is given:
    the computer with the key approves the code that the other one shows, the
    other one polls, and from then on opens what the first one encrypts. *)
From S2P Require Import Prelude Text VersionVector Merge Platform PathUtil IgnoreRules Crypto.
From S2P Require Import KeySetup LocalDb ApiClient FolderWatcher FileSystem Settings.
From S2P Require Import EngineState EngineKeys EngineSync EngineRun EngineFacts EngineWire EngineSpec.
From S2P Require Import EngineKeySpec EngineContentSpec.
Import EngineState.Engine EngineKeys.EngineKeys EngineSync.EngineSync EngineRun.EngineRun.
Import EngineFacts.EngineFacts EngineWire.EngineWire EngineKeySpec.EngineKeyFacts EngineContentSpec.EngineContentFacts.
Import ApiClient.ApiClient ApiClientFacts.
Import KeySetup.KeySetup KeySetupFacts.
Import FileSystem FileSystemFacts Settings.SettingsFacts(stored_secret, deleteSecret_stored).

#[local] Open Scope monad_scope.

Module EnginePairFacts.

(** ** The two sides *)

Section engine.
Context `{Win32Text} `{CNGLaws} `{JsonLaws} `{DPAPI} `{LocalTime}.
Context (dir : wstr).

Definition approve_body (code wrapped : str) : json :=
  JObj [(lit "action", JStr (lit "approve")); (lit "pairing_code", JStr code); (lit "wrapped_master_key", JStr wrapped)].

(** [q] is a request of the pairing endpoint that was made between [w] and [w']. *)
Definition pair_request (w w' : World) (q : HttpRequest) : Prop :=
  exists new pu, sent (api w') = sent (api w) ++ new /\ q ∈ new /\
    parseUrl (baseUrl (api w)) = Ok (Some pu) /\ q_path q = basePath pu ++ lit "/devices/pair".

Lemma normalized_ascii code n : normalizePairingCode code = Some n -> ascii_str n.
Proof.
  intros (-> & _ & Hf)%normalizePairingCode_spec.
  assert (ascii_str (symbols code)) as Ha.
  { eapply Forall_impl; [exact Hf|]. intros c Hc. apply pairing_range in Hc. lia. }
  apply Forall_app. split; [by apply Forall_take|]. apply Forall_app. split; [by repeat constructor|by apply Forall_drop].
Qed.

Lemma wrapped_ascii mk code r blob r' : wrapMasterKeyForPairing mk code r = (Ok blob, r') -> ascii_str blob.
Proof.
  unfold wrapMasterKeyForPairing. destruct (normalizePairingCode code); [|by intros [-> _]%ret_Ok; constructor].
  case_bool_decide; [by intros [-> _]%ret_Ok; constructor|].
  intros (? & ? & _ & E)%bind_Ok. apply bind_Ok in E as (? & ? & _ & E). apply bind_Ok in E as (? & ? & _ & E).
  apply bind_Ok in E as (? & ? & _ & E). apply ret_Ok in E as [-> _]. by eapply tbl_ascii, CryptoFacts.encode_tbl.
Qed.

(** What the computer with the key sends opens under the code. *)
Lemma approve_sends code n e a a' :
  approvePairing dir code a = (Ok (true, e), a') -> normalizePairingCode code = Some n ->
  bytes_ok (masterKey_ a) -> bytes_ok (rand a) ->
  (exists q, pair_request a a' q) /\
  forall q, pair_request a a' q -> exists j blob, json_parse (q_payload q) = Some j /\
    value_str j (lit "wrapped_master_key") [] = Ok blob /\ installWrappedMasterKey blob n = Ok (true, Some (masterKey_ a)).
Proof.
  intros Hrun Hn Hmk Hr. unfold approvePairing in Hrun. rewrite Hn in Hrun. unfold bind at 1, gets at 1 in Hrun.
  destruct (hasMasterKey a); cbn [negb] in Hrun; [|by apply ret_Ok in Hrun as [[=] _]]. unfold bind at 1, gets at 1 in Hrun.
  apply bind_Ok in Hrun as (blob & w1 & (r1 & Ew & ->)%zoom_Ok & Hrun).
  case_bool_decide as Hb; [by apply ret_Ok in Hrun as [[=] _]|].
  apply bind_Ok in Hrun as (x & w2 & (c & Ec & Eapi)%on_api_client & Hrun). cbn [api put_rand] in Ec.
  assert (transportOk x = true /\ a' = w2) as [Ht ->].
  { destruct (transportOk x); cbn [negb] in Hrun; [|by apply ret_Ok in Hrun as [[=] _]].
    destruct (negb _); [|by apply ret_Ok in Hrun as [_ ->]].
    apply bind_Ok in Hrun as (msg & w3 & _ & Hrun). by apply ret_Ok in Hrun as [[=] _]. }
  apply request_asks in Ec as (new & Es & Hc & Hown). rewrite <- Eapi in Es. split.
  - destruct (Hown x eq_refl Ht) as (q & Hq & pu & Epu & Ep & _). by exists q, new, pu.
  - intros q (new' & pu & Es' & Hq & Epu & Ep). rewrite Es in Es'. apply app_inv_head in Es' as <-.
    unfold calls in Hc. rewrite Forall_forall in Hc. destruct (Hc q Hq) as [(pu' & Epu' & Ep' & Ed)|(body & pu' & Epu' & Ep' & _)].
    2:{ rewrite Epu in Epu'. injection Epu' as <-. rewrite Ep in Ep'. by apply app_inv_head in Ep'. }
    destruct (json_round_trip (approve_body n blob)) as (text & Et & _ & _ & Hp).
    + pose proof (normalized_ascii _ _ Hn). pose proof (wrapped_ascii _ _ _ _ _ Ew).
      cbn [approve_body ascii_json]. split_and!; try done; decide_goal.
    + by vm_compute.
    + exists (approve_body n blob), blob. split; [|split; [done|]].
      * change (json_dump (approve_body n blob) = Ok (q_payload q)) in Ed. rewrite Et in Ed. injection Ed as <-. exact Hp.
      * by eapply install_wrapped.
Qed.

Definition secret (name : string) (w : World) : option str := stored_secret dir (lit name) (fs w).

(** What the other computer does with a key that opens. *)
Lemma complete_installs `{!DPAPILaws} code n b b1 r blob mk :
  normalizePairingCode code = Some n -> on_api dir (pairPoll n) b = (Ok r, b1) ->
  transportOk r = true -> status r = 200 -> value_str (body r) (lit "status") [] = Ok (lit "approved") ->
  value_str (body r) (lit "wrapped_master_key") [] = Ok blob -> installWrappedMasterKey blob n = Ok (true, Some mk) ->
  bytes_ok mk -> protects_keys -> events (fs b1) = [] ->
  exists b', completePairing dir code b = (Ok (PairInstalled, []), b') /\ masterKey_ b' = mk /\
    length mk = Crypto.kMasterKeyLen /\ syncRequested_ b' = true /\ events (fs b') = [] /\
    secret "master_key" b' = Some (Crypto.base64UrlEncode mk) /\
    secret "recovery_wrapped" b' = None /\ secret "recovery_key_display" b' = None.
Proof.
  intros Hn Hpoll Ht Hs Hst Hw Hi Hmk Hprot Hev.
  assert (length mk = Crypto.kMasterKeyLen) as Hl by (apply install_true in Hi as (? & ? & ? & ? & ? & [= <-] & ? & _); done).
  unfold completePairing. rewrite Hn. erewrite bind_run by exact Hpoll. rewrite Ht, Hs. cbn [negb Z.eqb Pos.eqb].
  unfold body_str. unfold bind at 1, lift at 1. rewrite Hst. rewrite bool_decide_true by done. cbn [negb].
  unfold bind at 1, lift at 1. rewrite Hw. unfold bind at 1, lift at 1. rewrite Hi. cbn [negb].
  unfold bind at 1, modify at 1. cbn [default from_option id].
  destruct (save_master_key_works dir (put_masterKey mk b1) Hprot Hev Hmk Hl) as (f1 & E1 & Ev1 & S1).
  erewrite bind_run by exact E1. cbn [negb].
  destruct (deleteSecret_stored dir (lit "recovery_wrapped") f1 Ev1) as (f2 & E2 & Ev2 & N2 & O2).
  destruct (deleteSecret_stored dir (lit "recovery_key_display") f2 Ev2) as (f3 & E3 & Ev3 & N3 & O3).
  unfold deleteSecret, on_fs, zoom. unfold bind at 1. cbn [fs put_fs]. rewrite E2. unfold bind at 1. cbn [fs put_fs]. rewrite E3.
  unfold bind, request_sync, modify, ret. eexists. split; [reflexivity|].
  cbn. unfold secret. cbn. split_and!; [done|done|done|done| | |done].
  - rewrite O3, O2 by (vm_compute; congruence). exact S1.
  - rewrite O3 by (vm_compute; congruence). exact N2.
Qed.
End engine.
End EnginePairFacts.

(** * The claims *)

Module EnginePairSpec.
Import EnginePairFacts.

Section engine.
Context `{Win32Text} `{CNGLaws} `{JsonLaws} `{DPAPI} `{LocalTime}.
Context (dir : wstr).

(** C19: pairing makes the notes of one computer readable on another. The second
    computer, [b], shows a code; the user types any spelling of it on the first
    one, [a], which approves it; [b] polls, and gets from the server the field
    that [a] sent, whatever else [a] exchanged with the server (a renewed token).
    On a disk that works and with a DPAPI that accepts, [b] then reports the key
    as installed and has [a]'s key, byte for byte, in memory and, after a
    restart, from its disk; the recovery data of an older key are gone, and a
    sync is asked for. From then on, whatever either computer does that is not
    meant to change a key, every content that [a] encrypts opens on [b]. *)
Theorem pairing_hands_over_key `{!DPAPILaws} (code code2 n e : str) (a a' b b1 : World)
    (r : ApiResponse) (q : HttpRequest) (j : json)
    (Hcode : normalizePairingCode code = Some n /\ normalizePairingCode code2 = Some n)
    (Happrove : approvePairing dir code a = (Ok (true, e), a'))
    (Hbytes : bytes_ok (masterKey_ a) /\ bytes_ok (rand a))
    (Hpoll : on_api dir (pairPoll n) b = (Ok r, b1))
    (Hanswer : transportOk r = true /\ status r = 200 /\ value_str (body r) (lit "status") [] = Ok (lit "approved"))
    (Hrelay : pair_request a a' q /\ json_parse (q_payload q) = Some j /\
       value_str (body r) (lit "wrapped_master_key") [] = value_str j (lit "wrapped_master_key") [])
    (Hprot : protects_keys) (Hdisk : events (fs b1) = []) :
  exists b', completePairing dir code2 b = (Ok (PairInstalled, []), b') /\
    masterKey_ b' = masterKey_ a /\ hasMasterKey b' = true /\ syncRequested_ b' = true /\
    secret dir "recovery_wrapped" b' = None /\ secret dir "recovery_key_display" b' = None /\
    (forall w s d, fs w = fs b' -> LocalDb.open (db w) = (Ok true, d) ->
       exists w', init dir s w = (Ok tt, w') /\ masterKey_ w' = masterKey_ a) /\
    (forall os os' a1 a2 b2 rel plaintext bv vv pl f,
       steps dir a' os a1 -> steps dir b' os' b2 -> Forall (fun o => key_op o = false) (os ++ os') ->
       buildFilePayload rel plaintext bv vv a1 = (Ok pl, a2) -> bytes_ok plaintext -> bytes_ok (rand a1) ->
       value_str f (lit "encrypted_content") [] = value_str (p_json pl) (lit "encrypted_content") [] ->
       value_str f (lit "content_hash") [] = value_str (p_json pl) (lit "content_hash") [] ->
       remote_content f b2 = (Ok (inr plaintext), b2)).
Proof.
  destruct Hcode as [Hn Hn2], Hbytes as [Hmk Hr], Hanswer as (Ht & Hs & Hst), Hrelay as (Hq & Hj & Hw).
  assert (masterKey_ a' = masterKey_ a) as Ka.
  { pose proof (run_keeps_key dir (OApprovePairing code) a eq_refl) as K. cbn [run] in K.
    unfold exec in K. by rewrite Happrove in K. }
  destruct (approve_sends dir code n e a a' Happrove Hn Hmk Hr) as [_ Hsent].
  destruct (Hsent q Hq) as (j' & blob & Hj' & Hb & Hi). rewrite Hj in Hj'. injection Hj' as <-. rewrite Hb in Hw.
  destruct (complete_installs dir code2 n b b1 r blob (masterKey_ a) Hn2 Hpoll Ht Hs Hst Hw Hi Hmk Hprot Hdisk)
    as (b' & Eb & Kb & Hl & Hsync & Hev & Sk & Sw & Sd).
  exists b'. split_and!; [exact Eb|done| |done|done|done| |].
  - unfold hasMasterKey. apply bool_decide_eq_true. congruence.
  - intros w s d Hfs Hop. unfold secret in Sk. rewrite <- Hfs in Sk, Hev. by apply (init_reads_key dir s w d).
  - intros os os' a1 a2 b2 rel plaintext bv vv pl f Ha1 Hb2 [Hos Hos']%Forall_app Hbuild Hp Hr1 Hc Hh.
    eapply payload_opens; [exact Hbuild|done..|].
    by rewrite (steps_keep_key _ _ _ _ Ha1 Hos), (steps_keep_key _ _ _ _ Hb2 Hos'), Ka.
Qed.
End engine.

Import EngineSpec.Toy.

(** The first computer, whose user types the code without the dash. *)
Definition first_computer : World := world [] Toy.tables Toy.key [reply (JObj [])].
Definition approved := approvePairing data_dir (lit "ab2c defg") first_computer.
Definition request_sent : HttpRequest :=
  default (MkRequest [] (MkUrl [] 0 false []) [] None []) (last (sent (api approved.2))).
Definition json_sent : json := default JNull (json_parse (q_payload request_sent)).

(** The second one, with the server's answer to its poll. *)
Definition second_computer : World :=
  world [] Toy.tables [] [reply (JObj [(lit "status", JStr (lit "approved"));
    (lit "wrapped_master_key", JStr (match value_str json_sent (lit "wrapped_master_key") [] with Ok s => s | Throw _ => [] end))])].
Definition polled := on_api data_dir (pairPoll (lit "AB2C-DEFG")) second_computer.
Definition answer : ApiResponse := match polled.1 with Ok r => r | Throw _ => no_response [] end.

Lemma ran {A S} (p : outcome A * S) (a : A) : p.1 = Ok a -> p = (Ok a, p.2).
Proof. by destruct p as [r s]; cbn; intros ->. Qed.

Lemma pairing_hands_over_key_witness :
  exists b', completePairing data_dir (lit "AB2C-DEFG") second_computer = (Ok (PairInstalled, []), b') /\
    masterKey_ b' = Toy.key /\ secret data_dir "recovery_wrapped" b' = None.
Proof.
  assert (exists pu, parseUrl (baseUrl (api first_computer)) = Ok (Some pu) /\
    q_path request_sent = basePath pu ++ lit "/devices/pair") as (pu & Epu & Ep)
    by (eexists; split; [vm_compute; reflexivity|decide_goal]).
  destruct (@pairing_hands_over_key ascii_text toy_cng toy_cng_laws wire_json wire_json_laws toy_dpapi toy_time data_dir
    toy_dpapi_laws (lit "ab2c defg") (lit "AB2C-DEFG") (lit "AB2C-DEFG") [] first_computer approved.2
    second_computer polled.2 answer request_sent json_sent) as (b' & Eb & Kb & _ & _ & Sw & _).
  - split; vm_compute; reflexivity.
  - apply (ran approved). vm_compute. reflexivity.
  - split; decide_goal.
  - apply (ran polled). unfold answer. destruct polled.1 eqn:E; [done|].
    assert (match polled.1 with Ok _ => true | Throw _ => false end = true) as Hok by (vm_compute; reflexivity).
    by rewrite E in Hok.
  - split_and!; vm_compute; reflexivity.
  - split_and!; [| |decide_goal].
    2:{ unfold json_sent. destruct (json_parse _) eqn:E; [done|].
        assert (bool_decide (is_Some (json_parse (q_payload request_sent))) = true) as Hok by (vm_compute; reflexivity).
        by rewrite E in Hok. }
    exists [request_sent], pu. split_and!; [decide_goal|by left|exact Epu|exact Ep].
  - intros v Hv. exists (1 :: v). split; [reflexivity|]. cbn [length]. lia.
  - vm_compute. reflexivity.
  - exists b'. split; [exact Eb|split; [exact Kb|exact Sw]].
Defined.

End EnginePairSpec.
