(* ===== verification/EngineResolveSpec.v ===== *)
(** * EngineResolveSpec: what the user's choice in a conflict does

    [resolveConflict] on a disk and a database that work: the choice decides
    what is in the file, and the conflict leaves the list exactly when the
    resolution succeeds. *)
From S2P Require Import Prelude Text VersionVector Merge Platform PathUtil IgnoreRules Crypto.
From S2P Require Import KeySetup LocalDb ApiClient FolderWatcher FileSystem Settings.
From S2P Require Import EngineState EngineKeys EngineSync EngineRun EngineFacts EngineWire EngineFrame.
From S2P Require Import EngineSpec EngineFileSpec EngineSyncSpec EngineEventSpec EngineQuiet EngineContentSpec.
Import EngineState.Engine EngineKeys.EngineKeys EngineSync.EngineSync EngineRun.EngineRun.
Import EngineFacts.EngineFacts EngineWire.EngineWire EngineSyncSpec.EngineSyncFacts EngineQuiet.EngineQuiet.
Import EngineEventSpec.EngineEventFacts EngineContentSpec.EngineContentFacts.
Import FileSystem FileSystemFacts.
Import PathUtil(utf8ToWide, wideToUtf8).
Import LocalDb(Db, LocalFileState, ConflictState).

#[local] Open Scope monad_scope.

Module EngineResolveFacts.

Section engine.
Context `{Win32Text} `{CNG} `{Json} `{DPAPI} `{LocalTime}.
Context (dir : wstr).
Abbreviation own := (own dir).
Abbreviation undisturbed := (undisturbed dir).

Definition conflicts_of (w : World) : list ConflictState := LocalDb.conflicts (LocalDb.tables (db w)).

(** ** Book-keeping: steps that may change the file table besides *)

(** Files in [E] may change, and the plugin's own. *)
Record tidies (E : wstr -> Prop) (w w' : World) : Prop := {
  t_events : events (fs w) = [] -> events (fs w') = [];
  t_disk : forall q, ~ own q -> ~ E q -> disk (fs w') !! q = disk (fs w) !! q;
  t_conflicts : conflicts_of w' = conflicts_of w;
  t_healthy : healthy w -> healthy w'
}.

#[export] Instance tidies_pre E : PreOrder (tidies E).
Proof.
  split; [by split|]. intros a b c [A1 A2 A3 A4] [B1 B2 B3 B4].
  split; [auto|intros q Hq He; rewrite B2, A2; done|congruence|auto].
Qed.

Lemma tidies_mono (E E' : wstr -> Prop) w w' : (forall q, E q -> E' q) -> tidies E w w' -> tidies E' w w'.
Proof. intros HE [? Hd ? ?]. split; auto. Qed.

Lemma undisturbed_tidies E w w' : undisturbed w w' -> tidies E w w'.
Proof. intros [Ev D T Hh _ _ _ _]. split; [done|auto| |done]. unfold conflicts_of. by rewrite T. Qed.

Definition tidy {A} (m : M World A) : Prop := forall w, tidies (fun _ => False) w (m w).2.

Lemma tidy_bind {A B} (m : M World A) (k : A -> M World B) : tidy m -> (forall a, tidy (k a)) -> tidy (bind m k).
Proof.
  intros Hm Hk w. specialize (Hm w). unfold bind. destruct (m w) as [[a|e] w1]; [|done].
  cbn [snd] in Hm. etransitivity; [exact Hm|apply Hk].
Qed.
Lemma tidy_quiet {A} (m : M World A) : quiet dir m -> tidy m.
Proof. intros Hm w. apply undisturbed_tidies, Hm. Qed.
Lemma tidy_upsertFile f : tidy (on_db (LocalDb.upsertFile f)).
Proof.
  intros w. unfold on_db, zoom, LocalDb.upsertFile, LocalDb.stmt.
  match goal with |- context [LocalDb.stmt_opt ?u (db w)] => destruct (LocalDb.stmt_opt u (db w)) as [r d] eqn:E;
    pose proof (health_stmt_opt u (db w)) as Hh end.
  rewrite E in Hh. pose proof (LocalDbFacts.stmt_opt_cases _ _ _ _ E) as [_ Ht].
  split; [done|done| |exact Hh]. unfold conflicts_of. cbn [snd db put_db].
  destruct Ht as [->|[= <-]]; done.
Qed.
Lemma tidy_run {A} (m : M World A) w r w' : tidy m -> m w = (r, w') -> tidies (fun _ => False) w w'.
Proof. intros Hm E. specialize (Hm w). by rewrite E in Hm. Qed.
End engine.

Ltac tidy_steps :=
  repeat first
    [ apply tidy_upsertFile
    | apply tidy_quiet; solve [auto with quiet]
    | apply tidy_bind; [|intros ?]
    | match goal with |- tidy _ (match ?x with _ => _ end) => destruct x end ].

Section resolve.
Context `{Win32Text} `{CNG} `{Json} `{DPAPI} `{LocalTime}.
Context (dir : wstr).
Abbreviation own := (own dir).
Abbreviation undisturbed := (undisturbed dir).
Abbreviation tidies := (tidies dir).

(** A file and its temporary file. *)
Definition at_file (abs q : wstr) : Prop := ~ apart abs q.

(** A write that works, with book-keeping after it. *)
Lemma write_tidy_run {A} abs data (k : bool -> M World A) w r w' :
  events (fs w) = [] -> ~ own abs -> tidy dir (k true) ->
  bind (on_fs (writeFileAtomic abs data)) k w = (r, w') ->
  tidies (at_file abs) w w' /\ disk (fs w') !! abs = Some data.
Proof.
  intros Hev Hown Hk Hrun. destruct (write_works abs data w Hev) as (f & E & Hf & Hd & Hq).
  erewrite bind_run in Hrun by exact E. pose proof (tidy_run dir _ _ _ _ Hk Hrun) as T. split.
  - transitivity (put_fs f w); [|eapply tidies_mono; [|exact T]; done].
    split; [done| |done|done]. intros q _ Hn. cbn [fs put_fs].
    destruct (decide (q = abs)) as [->|Na]; [by destruct Hn; intros []|].
    destruct (decide (q = tmp_path abs)) as [->|Nt]; [by destruct Hn; intros []|]. by apply Hq.
  - rewrite (t_disk _ _ _ _ T); [exact Hd|done|by intros []].
Qed.

Lemma take_remote_run target abs plain full setVv w r w' :
  events (fs w) = [] -> healthy w -> ~ own abs -> take_remote dir target abs plain full setVv w = (r, w') ->
  tidies (at_file abs) w w' /\ (forall x, r = Ok x -> disk (fs w') !! abs = Some plain).
Proof.
  intros Hev Hw Hown Hrun. unfold take_remote in Hrun. assert (undisturbed w w) as U by reflexivity.
  stage Hrun U as u w1 E1; [|split; [by apply undisturbed_tidies|by subst r]].
  apply write_tidy_run in Hrun as [T Hd]; [|by apply (u_events _ _ _ U)|done|cbn [negb]; tidy_steps].
  split; [|done]. transitivity w1; [by apply undisturbed_tidies|exact T].
Qed.

Lemma keep_local_run target abs w r w' :
  events (fs w) = [] -> healthy w -> ~ own abs -> keep_local dir target abs w = (r, w') ->
  tidies (at_file abs) w w' /\
  (forall e, r = Ok (true, e) -> exists data,
     disk (fs w) !! utf8ToWide (LocalDb.c_localCopyPath target) = Some data /\ disk (fs w') !! abs = Some data).
Proof.
  intros Hev Hw Hown Hrun. unfold keep_local in Hrun. assert (undisturbed w w) as U by reflexivity.
  destruct (read_works (utf8ToWide (LocalDb.c_localCopyPath target)) w Hev) as [w0 E0].
  stage Hrun U as content w1 E1; [|split; [by apply undisturbed_tidies|by subst r]].
  assert (content = disk (fs w) !! utf8ToWide (LocalDb.c_localCopyPath target)) as Hc by congruence.
  destruct content as [data|]; [|injection Hrun as <- <-; split; [by apply undisturbed_tidies|done]].
  apply write_tidy_run in Hrun as [T Hd]; [|by apply (u_events _ _ _ U)|done|tidy_steps].
  split; [|by eauto]. transitivity w1; [by apply undisturbed_tidies|exact T].
Qed.

(** A copy that is kept is the content the server was given. *)
Lemma keep_local_uploads target abs w e w' : keep_local dir target abs w = (Ok (true, e), w') ->
  exists data w1, on_fs (readFileBytes (utf8ToWide (LocalDb.c_localCopyPath target))) w = (Ok (Some data), w1) /\
    uploaded w w' (LocalDb.c_fileId target) (LocalDb.c_relPath target) data.
Proof.
  unfold keep_local. intros (content & w1 & E1 & E)%bind_Ok. destruct content as [data|]; [|by apply ret_Ok in E as [[=] _]].
  exists data, w1. split; [done|].
  assert (forall A (m : M Fs A) w r w', on_fs m w = (r, w') -> api w' = api w /\ masterKey_ w' = masterKey_ w) as Hfs.
  { intros A m w0 r0 w0' E0. split; (eapply keeps_Ok; [|exact E0]; by apply keeps_zoom). }
  apply Hfs in E1 as [A1 K1]. apply bind_Ok in E as (b & w2 & E2 & E). apply Hfs in E2 as [A2 K2].
  apply bind_Ok in E as (st & w3 & E3 & E).
  assert (api w3 = api w2 /\ masterKey_ w3 = masterKey_ w2) as [A3 K3]
    by (split; (eapply keeps_Ok; [|exact E3]; by apply keeps_zoom)).
  apply bind_Ok in E as (pl & w4 & E4 & E).
  assert (api w4 = api w3) as A4 by (eapply keeps_Ok; [|exact E4]; unfold buildFilePayload, on_rand; keeps_steps).
  apply bind_Ok in E as (x & w5 & E5 & E). apply on_api_client in E5 as (c & E5 & A5).
  destruct (Z.eqb_spec (ApiClient.status x) 200) as [Hx|]; cbn [negb] in E.
  2:{ apply bind_Ok in E as (msg & w6 & _ & E). by apply ret_Ok in E as [[=] _]. }
  exists (LocalDb.c_remoteVersion target), (default VersionVector.empty (LocalDb.versionVector <$> st)), w3, pl, w4, x, (api w4), c.
  split_and!; [exact E4|congruence| | |by apply request_answered|done|].
  - by rewrite A4, A3, A2, A1.
  - by rewrite A4, A3, A2, A1.
  - rewrite <- A5. eapply adds_run; [|exact E]. destruct st; unfold writeShadow, body_int; adds_steps.
Qed.

Lemma adds_take_remote target abs plain full setVv : adds (take_remote dir target abs plain full setVv).
Proof. unfold take_remote, backup, remote_applied, writeShadow, body_int. cbv zeta. adds_steps. Qed.

Lemma keep_remote_run target abs w r w' :
  events (fs w) = [] -> healthy w -> ~ own abs -> keep_remote dir target abs w = (r, w') ->
  tidies (at_file abs) w w' /\
  (forall e, r = Ok (true, e) -> exists plain,
     fetched w w' (LocalDb.c_fileId target) plain /\ disk (fs w') !! abs = Some plain).
Proof.
  intros Hev Hw Hown Hrun. unfold keep_remote in Hrun. assert (undisturbed w w) as U by reflexivity.
  stage Hrun U as got w1 E1; [|split; [by apply undisturbed_tidies|by subst r]].
  destruct got as [err|[plain full]]; [injection Hrun as <- <-; split; [by apply undisturbed_tidies|done]|].
  apply fetch_remote_fetched in E1 as [E1 _]. pose proof (adds_run _ _ _ _ (adds_take_remote _ _ _ _ _) Hrun) as Hadds.
  apply take_remote_run in Hrun as [T Hd]; [|by apply (u_events _ _ _ U)|by apply (u_healthy _ _ _ U)|done].
  split; [transitivity w1; [by apply undisturbed_tidies|exact T]|]. intros e ->. exists plain.
  split; [|by eapply Hd]. by eapply fetched_later.
Qed.

(** The dated copy next to the file is another file. *)
Lemma both_apart abs w : apart abs (both_name abs w).
Proof.
  assert (length abs + 16 < length (both_name abs w))%nat as Hl.
  { unfold both_name, dirOf, fileNameOf. destruct (find_last is_slash abs) as [i|] eqn:E.
    - pose proof (f_equal length (take_drop i abs)) as El. rewrite !length_app in El.
      destruct (find_last (Z.eqb DOT) (drop (S i) abs)) as [d|];
        [pose proof (f_equal length (take_drop d (drop (S i) abs))) as Ed; rewrite !length_app in Ed|];
        rewrite !length_app, ?length_drop, ?length_take in *; cbn [length lit]; simpl; lia.
    - destruct (find_last (Z.eqb DOT) abs) as [d|];
        [pose proof (f_equal length (take_drop d abs)) as Ed; rewrite !length_app in Ed|];
        rewrite !length_app, ?length_drop, ?length_take in *; simpl; lia. }
  split; intros E; rewrite E in Hl; [lia|]. unfold tmp_path in Hl. rewrite length_app in Hl. simpl in Hl. lia.
Qed.

(** [MoveFileExW] on a disk that works. *)
Lemma move_works src dst w : events (fs w) = [] -> exists b f,
  on_fs (MoveFileExW src dst) w = (Ok b, put_fs f w) /\ events f = [] /\
  (forall q, q <> src -> q <> dst -> disk f !! q = disk (fs w) !! q) /\
  (forall data, disk (fs w) !! src = Some data -> disk f !! dst = Some data).
Proof.
  intros Hev. unfold on_fs, zoom. pose proof (still_move src dst (fs w) Hev) as Hs.
  rewrite EngineFileSpec.EngineFileFacts.move_run in *. unfold EngineFileSpec.EngineFileFacts.nth_event in *.
  rewrite Hev in *. cbn in *. destruct (disk (fs w) !! src) as [d|] eqn:Ed; eexists _, _; (split; [reflexivity|]).
  - split_and!; [exact Hs| |].
    + intros q N1 N2. cbn. by rewrite lookup_insert_ne, lookup_delete_ne by done.
    + intros data [= <-]. cbn. apply lookup_insert_eq.
  - by split_and!.
Qed.

Lemma keep_both_run target abs w r w' :
  let copy := utf8ToWide (LocalDb.c_localCopyPath target) in let both := both_name abs w in
  events (fs w) = [] -> healthy w -> ~ own abs -> ~ own copy -> ~ own both -> keep_both dir target abs w = (r, w') ->
  tidies (fun q => at_file abs q \/ q = copy \/ q = both) w w' /\
  (forall e, r = Ok (true, e) -> exists plain,
     fetched w w' (LocalDb.c_fileId target) plain /\ disk (fs w') !! abs = Some plain /\
     forall data, disk (fs w) !! copy = Some data -> disk (fs w') !! both = Some data).
Proof.
  intros copy both Hev Hw Hown Hcopy Hboth Hrun. unfold keep_both in Hrun. assert (undisturbed w w) as U by reflexivity.
  stage Hrun U as got w1 E1; [|split; [by apply undisturbed_tidies|by subst r]].
  destruct got as [err|[plain full]]; [injection Hrun as <- <-; split; [by apply undisturbed_tidies|done]|].
  apply fetch_remote_fetched in E1 as [E1 _]. unfold bind at 1, gets at 1 in Hrun.
  assert (both_name abs w1 = both) as Eb by (unfold both, both_name; by rewrite (u_settings _ _ _ U), (u_clock _ _ _ U)).
  rewrite Eb in Hrun. fold copy in Hrun.
  destruct (move_works copy both w1 (u_events _ _ _ U Hev)) as (b & f & E2 & Hf & Hq & Hm).
  erewrite bind_run in Hrun by exact E2. pose proof (adds_run _ _ _ _ (adds_take_remote _ _ _ _ _) Hrun) as Hadds.
  apply take_remote_run in Hrun as [T Hd]; [|done|by apply (u_healthy _ _ _ U)|done]. split.
  - transitivity w1; [by apply undisturbed_tidies|]. transitivity (put_fs f w1).
    + split; [done| |done|done]. intros q _ Hn. apply Hq; intros ->; apply Hn; auto.
    + eapply tidies_mono; [|exact T]. auto.
  - intros e ->. exists plain. split_and!; [by eapply fetched_later|by eapply Hd|]. intros data Hdata.
    rewrite (t_disk _ _ _ _ T); [|done|intros Hn; by destruct Hn; apply both_apart].
    apply Hm. by rewrite (u_disk _ _ _ U).
Qed.

(** The three ways of resolving. *)
Definition chosen (strategy : str) (target : ConflictState) (abs : wstr) : M World (bool * str) :=
  if bool_decide (strategy = lit "keepLocal") then keep_local dir target abs
  else if bool_decide (strategy = lit "keepRemote") then keep_remote dir target abs
  else if bool_decide (strategy = lit "keepBoth") then keep_both dir target abs
  else ret (false, lit "unknown strategy").

(** What a success leaves on the disk. *)
Definition as_chosen (strategy : str) (target : ConflictState) (abs : wstr) (w w' : World) : Prop :=
  let copy := disk (fs w) !! utf8ToWide (LocalDb.c_localCopyPath target) in
  exists data, disk (fs w') !! abs = Some data /\
    ((strategy = lit "keepLocal" /\ copy = Some data /\
      uploaded w w' (LocalDb.c_fileId target) (LocalDb.c_relPath target) data) \/
     (strategy = lit "keepRemote" /\ fetched w w' (LocalDb.c_fileId target) data) \/
     (strategy = lit "keepBoth" /\ fetched w w' (LocalDb.c_fileId target) data /\
      forall d, copy = Some d -> disk (fs w') !! both_name abs w = Some d)).

(** The files a resolution may change. *)
Definition touched (target : ConflictState) (abs : wstr) (w : World) (q : wstr) : Prop :=
  at_file abs q \/ q = utf8ToWide (LocalDb.c_localCopyPath target) \/ q = both_name abs w.

Lemma chosen_run strategy target abs w r w' :
  events (fs w) = [] -> healthy w -> ~ own abs -> ~ own (utf8ToWide (LocalDb.c_localCopyPath target)) ->
  ~ own (both_name abs w) -> chosen strategy target abs w = (r, w') ->
  tidies (touched target abs w) w w' /\ (forall e, r = Ok (true, e) -> as_chosen strategy target abs w w').
Proof.
  intros Hev Hw Hown Hcopy Hboth. unfold chosen.
  assert (forall q, at_file abs q -> touched target abs w q) as Hat by (by left).
  case_bool_decide as Es; [|clear Es; case_bool_decide as Es; [|clear Es; case_bool_decide as Es]]; intros Hrun.
  - pose proof Hrun as Hup. apply keep_local_run in Hrun as [T Hx]; [|done..]. split; [by eapply tidies_mono|].
    intros e ->. destruct (Hx e eq_refl) as (data & Hc & Hd). exists data. split; [done|]. left. split_and!; [done..|].
    apply keep_local_uploads in Hup as (data' & w1 & Er & Hu).
    destruct (read_works (utf8ToWide (LocalDb.c_localCopyPath target)) w Hev) as [w0 E0].
    assert (data' = data) as -> by congruence. done.
  - apply keep_remote_run in Hrun as [T Hx]; [|done..]. split; [by eapply tidies_mono|].
    intros e (data & Hc & Hd)%Hx. exists data. auto.
  - apply keep_both_run in Hrun as [T Hx]; [|done..]. split; [exact T|].
    intros e (data & Hc & Hd & Hb)%Hx. exists data. auto 6.
  - injection Hrun as <- <-. split; [reflexivity|done].
Qed.

Lemma as_chosen_undisturbed strategy target abs w0 w w' :
  ~ own (utf8ToWide (LocalDb.c_localCopyPath target)) -> undisturbed w0 w -> api w = api w0 ->
  as_chosen strategy target abs w w' -> as_chosen strategy target abs w0 w'.
Proof.
  intros Hcopy U Ea (data & Hd & Hc). exists data. split; [done|].
  assert (both_name abs w = both_name abs w0) as Eb by (unfold both_name; by rewrite (u_settings _ _ _ U), (u_clock _ _ _ U)).
  rewrite Eb, (u_disk _ _ _ U) in Hc by done. pose proof (u_key _ _ _ U) as Ek.
  destruct Hc as [(? & ? & Hu)|[(? & Hf)|(? & Hf & ?)]]; [left|right; left|right; right]; split_and!; try done.
  - eapply uploaded_from; [| | |exact Hu]; [by rewrite Ea..|done].
  - by eapply fetched_from.
  - by eapply fetched_from.
Qed.

Lemma as_chosen_later strategy target abs w w1 w2 :
  ~ own abs -> ~ own (both_name abs w) -> (forall q, ~ own q -> disk (fs w2) !! q = disk (fs w1) !! q) ->
  ApiClient.sent (api w1) `prefix_of` ApiClient.sent (api w2) ->
  as_chosen strategy target abs w w1 -> as_chosen strategy target abs w w2.
Proof.
  intros Ha Hb Hq Hs (data & Hd & Hc). exists data. rewrite !Hq by done. split; [done|].
  destruct Hc as [(? & ? & Hu)|[(? & Hf)|(? & Hf & ?)]]; [left|right; left|right; right]; split_and!; try done.
  - by eapply uploaded_later.
  - by eapply fetched_later.
  - by eapply fetched_later.
Qed.

(** The conflict that is looked for is one of the list. *)
Lemma listed id l w w0 target : healthy w -> on_db LocalDb.list_conflicts w = (Ok l, w0) ->
  head (filter (fun c => LocalDb.c_fileId c = id) l) = Some target ->
  target ∈ conflicts_of w /\ LocalDb.c_fileId target = id.
Proof.
  intros Hw E Eh. apply zoom_Ok in E as (d & E & _). unfold LocalDb.list_conflicts in E.
  rewrite LocalDbFacts.healthy_query in E by exact Hw. injection E as <- _.
  match type of Eh with head (filter _ ?l) = _ => assert (target ∈ filter (fun c => LocalDb.c_fileId c = id) l) as Ht end.
  { destruct (filter _ _) as [|t l']; [done|]. injection Eh as ->. by left. }
  apply list_elem_of_filter in Ht as [Hid Ht]. by rewrite merge_sort_Permutation in Ht.
Qed.

(** The end of a resolution that succeeded. *)
Lemma resolved_run id (status : Z -> SyncStatus) w r w' : healthy w ->
  (on_db (LocalDb.resolveConflict id) ;;
   let* n := on_db LocalDb.conflictCount in
   setStatus (status n) (lit "Conflict resolved") ;;
   ret (true, []) : M World (bool * str)) w = (r, w') ->
  conflicts_of w' = filter (fun c => LocalDb.c_fileId c <> c_str id) (conflicts_of w) /\
  (forall q, ~ own q -> disk (fs w') !! q = disk (fs w) !! q) /\ (forall e, r <> Ok (false, e)) /\ api w' = api w.
Proof.
  intros Hw Hrun. assert (api w' = api w) as Ea.
  { eapply keeps_Ok; [|exact Hrun]. unfold setStatus. keeps_steps. }
  destruct (stmt_works (LocalDb.set_conflicts (filter (fun c => LocalDb.c_fileId c <> c_str id))) w Hw)
    as (d & E & Hd & Et).
  erewrite bind_run in Hrun by exact E.
  match type of Hrun with ?m ?w2 = _ => assert (undisturbed w2 w') as U end.
  { eapply quiet_run; [|exact Hrun]. apply quiet_bind; [auto with quiet|intros n].
    apply quiet_bind; [auto with quiet|intros _; apply quiet_ret]. }
  split_and!.
  - unfold conflicts_of. rewrite (u_tables _ _ _ U). cbn [db put_db]. by rewrite Et.
  - intros q Hq. by rewrite (u_disk _ _ _ U).
  - intros e ->. apply bind_Ok in Hrun as (n & w3 & _ & Hrun). by apply bind_Ok in Hrun as ([] & w4 & _ & [=]).
  - exact Ea.
Qed.
End resolve.
End EngineResolveFacts.

(** * The claims *)

Module EngineResolveSpec.
Import EngineResolveFacts.

Section engine.
Context `{Win32Text} `{CNG} `{Json} `{DPAPI} `{LocalTime}.
Context (dir : wstr).

End engine.

Import Toy.

(** A conflict on a note, whose local text is preserved next to it. *)
Definition copy_path : wstr := lit "C:\notes\a (copy).md".
Definition toy_conflict : ConflictState := LocalDb.MkConflict (lit "f-1") note_key 2 copy_path [] 7.
Definition torn_tables : LocalDb.Tables :=
  LocalDb.MkTables ∅ [LocalDb.MkRoot (lit "r1") (lit "C:\notes") true] [] [] 0 [toy_conflict].
Definition torn_world (replies : list ApiClient.HttpReply) : World :=
  world [(note_path, lit "theirs"); (copy_path, lit "mine")] torn_tables Toy.key replies.


(** Keep Local does not look at whether the file was written: on a disk that
    refuses the write the server takes the local copy, the conflict leaves the
    list, and the file keeps the text of the other side. *)
Example keep_local_unwritten :
  let w := torn_world [reply (JObj [(lit "version", JInt 3)])] in
  let w1 := put_fs (MkFs (disk (fs w)) (dirs (fs w)) [Works; Refused]) w in
  let out := resolveConflict data_dir (lit "f-1") (lit "keepLocal") w1 in
  out.1 = Ok (true, []) /\ disk (fs out.2) !! note_path = Some (lit "theirs") /\ conflicts_of out.2 = [].
Proof. vm_compute. done. Qed.
End EngineResolveSpec.
