(* ===== verification/Plugin.v ===== *)
(** * Plugin: PluginDefinition.cpp, the plugin inside Notepad++

    The file-scope variables are a record: [g_engine] with the world it works
    on ([alive] is false while the pointer is null; [g_settings] is what
    [settings_] points to), [g_started], the logger, what Notepad++ shows (the
    file of the active buffer, the check mark of "Pause Sync"), the messages
    and dialogs that went out, whether [g_nppData] has the window of Notepad++,
    and [g_funcItems]. Dialogs are recorded when they open; what the user does
    in them is modelled in [Dialogs], [Managers] and [SettingsDialog] and reaches
    the engine as operations made inside. *)
From S2P Require Import Prelude Text Platform FileSystem Logger Settings FolderWatcher LocalDb ApiClient.
From S2P Require Import EngineState EngineKeys EngineSync EngineRun.
Import Engine EngineKeys EngineRun.

#[local] Open Scope monad_scope.

Module Plugin.

Inductive Dialog :=
  | FirstRunWizard | SignInDialog | StatusDialog | DevicesDialog | AllowComputerDialog
  | GetMyNotesDialog | SyncedFilesDialog | ConflictsDialog | SettingsDialog | AboutBox.

(** The menu's handlers; the user's answer to "Sign Out" is an argument. *)
Inductive Command :=
  | CmdSignIn | CmdSignOut (yes : bool) | CmdSyncNow | CmdStatus | CmdDevices | CmdSyncedFiles
  | CmdConflicts | CmdSettings | CmdPauseSync | CmdAbout | CmdAllowComputer | CmdGetMyNotes.

(** An item of the menu. No item of this plugin has a shortcut. *)
Record FuncItem := MkFuncItem {
  _itemName : wstr;
  _pFunc : option (bool -> Command);
  _cmdID : Z;
  _init2Check : bool
}.

Record Plugin := MkPlugin {
  world : World;
  alive : bool;
  g_started : bool;
  logger : Logger.State;
  current : wstr;
  checked : bool;
  reloaded : list wstr;
  shown : list Dialog;
  npp : bool;
  menu : list FuncItem
}.

Definition put_world (w : World) (p : Plugin) : Plugin :=
  MkPlugin w (alive p) (g_started p) (logger p) (current p) (checked p) (reloaded p) (shown p) (npp p) (menu p).
Definition put_alive (b : bool) (p : Plugin) : Plugin :=
  MkPlugin (world p) b (g_started p) (logger p) (current p) (checked p) (reloaded p) (shown p) (npp p) (menu p).
Definition put_started (b : bool) (p : Plugin) : Plugin :=
  MkPlugin (world p) (alive p) b (logger p) (current p) (checked p) (reloaded p) (shown p) (npp p) (menu p).
Definition put_logger (l : Logger.State) (p : Plugin) : Plugin :=
  MkPlugin (world p) (alive p) (g_started p) l (current p) (checked p) (reloaded p) (shown p) (npp p) (menu p).
Definition put_checked (b : bool) (p : Plugin) : Plugin :=
  MkPlugin (world p) (alive p) (g_started p) (logger p) (current p) b (reloaded p) (shown p) (npp p) (menu p).
Definition put_reloaded (l : list wstr) (p : Plugin) : Plugin :=
  MkPlugin (world p) (alive p) (g_started p) (logger p) (current p) (checked p) l (shown p) (npp p) (menu p).
Definition put_npp (b : bool) (p : Plugin) : Plugin :=
  MkPlugin (world p) (alive p) (g_started p) (logger p) (current p) (checked p) (reloaded p) (shown p) b (menu p).
Definition put_menu (l : list FuncItem) (p : Plugin) : Plugin :=
  MkPlugin (world p) (alive p) (g_started p) (logger p) (current p) (checked p) (reloaded p) (shown p) (npp p) l.
Definition show (d : Dialog) : M Plugin unit :=
  modify (fun p => MkPlugin (world p) (alive p) (g_started p) (logger p) (current p) (checked p)
                     (reloaded p) (shown p ++ [d]) (npp p) (menu p)).

(** The disk, for the logger and the settings store. *)
Definition on_disk {A} (m : M FileSystem.Fs A) : M Plugin A := zoom world put_world (on_fs m).

(** The path of a buffer, in the array of [MAX_PATH] characters it is read
    into; a longer one overruns the array. *)
Definition host_path (path : wstr) : outcome wstr :=
  if Nat.ltb (length path) 260 then Ok path else Throw access_violation.

(** The answer of Notepad++ to the question for a path. Without its window
    nobody answers and the array stays empty. *)
Definition ask_path (path : wstr) : M Plugin wstr :=
  let* ok := gets npp in
  if ok then lift (host_path path) else ret [].

Definition currentFilePath : M Plugin wstr :=
  let* path := gets current in ask_path path.

(** The folder of the plugin's data below the roaming application data, as the
    environment names it. *)
Definition appDataDir (roaming : option wstr) : wstr :=
  default (lit "%APPDATA%") roaming ++ lit "\Notepad++Sync".

Definition pluginSetInfo (handle : bool) : M Plugin unit := modify (put_npp handle).

Section plugin.
Context `{Win32Text} `{CNG} `{Json} `{DPAPI} `{LocalTime}.
Context (dir : wstr).

Definition log_info (msg : string) : M Plugin unit :=
  let* l := gets logger in
  let* now := gets (fun p => clock (world p)) in
  on_disk (Logger.info l now (lit msg)).

(** [onRemoteFileApplied]: reload the active buffer when it shows the file. *)
Definition file_applied (absPath : wstr) : M Plugin unit :=
  let* ok := gets npp in
  if negb ok then ret tt else
  let* open := currentFilePath in
  if bool_decide (map towlower absPath = map towlower open) && negb (bool_decide (open = []))
  then modify (fun p => put_reloaded (reloaded p ++ [open]) p)
  else ret tt.

(** A call through [g_engine]. The callback only reads the active buffer, so
    the calls of it are made after the operation; it is set when the engine is
    started. *)
Definition on_engine {A} (m : M World A) : M Plugin A :=
  let* ok := gets alive in
  if negb ok then throw access_violation
  else
    let* before := gets (fun p => length (applied (world p))) in
    let* r := (fun p => let (r, w) := m (world p) in (Ok r, put_world w p)) in
    let* set := gets g_started in
    let* files := gets (fun p => drop before (applied (world p))) in
    (if set then for_each files file_applied else ret tt) ;;
    lift r.

(** ** The menu *)

(** A dialog is given [*g_engine]. *)
Definition open_dialog (d : Dialog) : M Plugin unit :=
  let* ok := gets alive in
  if ok then show d else throw access_violation.

Definition cmdSignIn : M Plugin unit :=
  let* signedIn := on_engine (gets isSignedIn) in
  open_dialog (if signedIn then StatusDialog else SignInDialog).

(** The user's answer is an argument. *)
Definition cmdSignOut (yes : bool) : M Plugin unit :=
  if yes then on_engine (signOut dir) else ret tt.

Definition cmdSyncNow : M Plugin unit := on_engine syncNow.

Definition cmdPauseSync : M Plugin unit :=
  let* pause := on_engine (gets (fun w => negb (paused w))) in
  on_engine (setPaused dir pause) ;;
  let* ok := gets npp in
  when ok (modify (put_checked pause)).

Definition run_command (c : Command) : M Plugin unit :=
  match c with
  | CmdSignIn => cmdSignIn
  | CmdSignOut yes => cmdSignOut yes
  | CmdSyncNow => cmdSyncNow
  | CmdStatus => open_dialog StatusDialog
  | CmdDevices => open_dialog DevicesDialog
  | CmdSyncedFiles => open_dialog SyncedFilesDialog
  | CmdConflicts => open_dialog ConflictsDialog
  | CmdSettings => open_dialog SettingsDialog
  | CmdPauseSync => cmdPauseSync
  | CmdAbout => show AboutBox
  | CmdAllowComputer => open_dialog AllowComputerDialog
  | CmdGetMyNotes => open_dialog GetMyNotesDialog
  end.

(** *** Its registration *)

Definition nbChar : nat := 64.
Definition kMenuCount : nat := 12.
Definition no_items : list FuncItem := replicate kMenuCount (MkFuncItem [] None 0 false).

(** [wcscpy_s] ends the program when the name does not fit. *)
Definition setMenuItem (idx : nat) (name : string) (fn : bool -> Command) : M Plugin unit :=
  if Nat.ltb (length (lit name)) nbChar then
    modify (fun p => put_menu (<[idx := MkFuncItem (lit name) (Some fn) (Z.of_nat idx) false]> (menu p)) p)
  else throw invalid_argument.

Definition initMenu : M Plugin unit :=
  setMenuItem 0 "Sign In" (fun _ => CmdSignIn) ;;
  setMenuItem 1 "Sign Out" CmdSignOut ;;
  setMenuItem 2 "Sync Now" (fun _ => CmdSyncNow) ;;
  setMenuItem 3 "Sync Status" (fun _ => CmdStatus) ;;
  setMenuItem 4 "Manage Devices" (fun _ => CmdDevices) ;;
  setMenuItem 5 "Synced Files/Folders" (fun _ => CmdSyncedFiles) ;;
  setMenuItem 6 "Conflicts" (fun _ => CmdConflicts) ;;
  setMenuItem 7 "Settings" (fun _ => CmdSettings) ;;
  setMenuItem 8 "Pause Sync" (fun _ => CmdPauseSync) ;;
  setMenuItem 9 "About" (fun _ => CmdAbout) ;;
  setMenuItem 10 "Allow another computer" (fun _ => CmdAllowComputer) ;;
  setMenuItem 11 "Get my notes" (fun _ => CmdGetMyNotes).

Definition pluginGetFuncsArray : M Plugin (nat * list FuncItem) :=
  let* items := gets menu in ret (kMenuCount, items).

(** Notepad++ calls the function of the chosen item among those it was given. *)
Definition press (idx : nat) (yes : bool) : M Plugin unit :=
  let* r := pluginGetFuncsArray in
  match take r.1 r.2 !! idx with
  | Some item => match _pFunc item with Some f => run_command (f yes) | None => throw access_violation end
  | None => ret tt
  end.

(** ** The life of the plugin *)

(** The part of [init] that keeps its arguments: the settings are [g_settings]. *)
Definition init_engine : M Plugin unit :=
  let* s := gets (fun p => settings_ (world p)) in
  on_engine (init dir s).

Definition startEngine : M Plugin unit :=
  let* started := gets g_started in
  if started then ret tt
  else
    modify (put_started true) ;;
    let* ok := gets alive in
    if negb ok then throw access_violation
    else
      let* debug := gets (fun p => Settings.debugLogging (settings_ (world p))) in
      let* l := on_disk (Logger.init (dir ++ lit "\logs") (if debug then Logger.LDebug else Logger.LInfo)) in
      modify (put_logger l) ;;
      log_info "plugin starting" ;;
      init_engine ;;
      on_engine (start dir) ;;
      let* signedIn := on_engine (gets isSignedIn) in
      if signedIn then ret tt else show FirstRunWizard.

(** The members of a new engine. The disk, the database file, and what answers
    the engine's calls are those of the machine. *)
Definition new_engine (s : Settings.Settings) (w : World) : World :=
  MkWorld (fs w) (LocalDb.MkDb false (LocalDb.tables (db w)) (LocalDb.faults (db w))) false
    (ApiClient.MkClient [] [] [] [] (ApiClient.net (api w)) (ApiClient.sent (api w)) (ApiClient.rotations (api w)))
    (rand w) (clock w) s [] false false false true ∅ (FolderWatcher.MkWatcher [] [] false) default_status
    (applied w).

Definition pluginInit : M Plugin unit :=
  on_disk (Settings.SettingsStore dir) ;;
  let* s := on_disk (Settings.load dir) in
  modify (fun p => put_world (new_engine (default Settings.default_settings s) (world p)) p) ;;
  modify (put_alive true) ;;
  initMenu.

(** [g_engine.reset()] stops the engine once more. *)
Definition pluginCleanup : M Plugin unit :=
  log_info "plugin shutting down" ;;
  let* ok := gets alive in
  (if ok then on_engine stop ;; on_engine stop else ret tt) ;;
  modify (put_alive false).

(** ** Notifications *)

Inductive Notification :=
  | NReady | NShutdown | NFileSaved (path : wstr) | NFileOpened (path : wstr)
  | NBufferActivated (path : wstr) | NOther.

(** [settings_] of the engine is null until [init] ran. *)
Definition file_saved (path : wstr) : M Plugin unit :=
  let* path := ask_path path in
  let* ok := gets alive in
  if negb (bool_decide (path = [])) && ok then
    let* started := gets g_started in
    if negb started then throw access_violation else on_engine (onFileSaved path)
  else ret tt.

Definition file_opened (path : wstr) : M Plugin unit :=
  let* path := ask_path path in
  let* ok := gets alive in
  if negb (bool_decide (path = [])) && ok then on_engine (onFileOpened path) else ret tt.

Definition pluginBeNotified (n : Notification) : M Plugin unit :=
  match n with
  | NReady => startEngine
  | NShutdown => pluginCleanup
  | NFileSaved path => file_saved path
  | NFileOpened path | NBufferActivated path => file_opened path
  | NOther => ret tt
  end.

(** [DllMain], when the process loads or leaves the library. *)
Inductive Reason := DLL_PROCESS_ATTACH | DLL_PROCESS_DETACH | DLL_THREAD_ATTACH | DLL_THREAD_DETACH.

Definition DllMain (reasonForCall : Reason) : M Plugin bool :=
  match reasonForCall with
  | DLL_PROCESS_ATTACH => pluginInit
  | DLL_PROCESS_DETACH => pluginCleanup
  | DLL_THREAD_ATTACH | DLL_THREAD_DETACH => ret tt
  end ;; ret true.

(** ** The running program: the host's calls, and the engine's own threads and
    dialogs, which exist while the engine does *)

Inductive call :=
  | Notify (n : Notification)
  | Menu (idx : nat) (yes : bool)
  | Detach
  | Inside (o : op).

Definition perform (c : call) : M Plugin unit :=
  match c with
  | Notify n => pluginBeNotified n
  | Menu idx yes => press idx yes
  | Detach => DllMain DLL_PROCESS_DETACH ;; ret tt
  | Inside o =>
      let* ok := gets (fun p => alive p && g_started p && from_within o) in
      if ok then on_engine (fun w => (Ok tt, run dir o w)) else ret tt
  end.

Definition run_call (c : call) (p : Plugin) : Plugin := (perform c p).2.

(** Between the calls the machine moves on, and the user changes buffers. *)
Inductive calls : Plugin -> list call -> Plugin -> Prop :=
  | calls_nil p : calls p [] p
  | calls_host p w l c p' :
      environment (world p) w ->
      calls (MkPlugin w (alive p) (g_started p) (logger p) c (checked p) (reloaded p) (shown p) (npp p) (menu p)) l p' ->
      calls p l p'
  | calls_call p c l p' : calls (run_call c p) l p' -> calls p (c :: l) p'.
End plugin.

End Plugin.
