(* ===== verification/PluginSpec.v ===== *)
(** * PluginSpec: what Notepad++ and the menu can make of the engine

    Each of the plugin's calls makes exactly the operations of the engine that it
    stands for ([does], [asked]), the menu's items run their commands, each
    started engine is initialised once, the shutdown stops it, and nothing
    reaches it afterwards; the theorems about the engine's runs therefore hold of the
    plugin. *)
From S2P Require Import Prelude Text Platform FileSystem Logger Settings FolderWatcher LocalDb ApiClient.
From S2P Require Import EngineState EngineKeys EngineSync EngineRun EngineFacts EngineSpec Plugin.
Import Engine EngineKeys EngineRun EngineFacts Plugin.

#[local] Open Scope monad_scope.

Module PluginFacts.

Section plugin.
Context `{Win32Text} `{CNG} `{Json} `{DPAPI} `{LocalTime}.
Context (dir : wstr).

Definition is_init (o : op) : bool := match o with OInit _ => true | _ => false end.
Definition inits (os : list op) : nat := sum_list_with (fun o => if is_init o then 1 else 0)%nat os.

(** The operations the host's calls perform. *)
Definition from_host (o : op) : bool :=
  match o with
  | OInit _ | OStart | OStop | OSignOut | OSyncNow | OSetPaused _ | OFileSaved _ | OFileOpened _ => true
  | _ => false
  end.

(** From [p] to [p'] the engine did [os], at most [k] of them initialisations;
    a dead engine did nothing and stays dead, a started one stays started. *)
Record evolves (Q : op -> Prop) (k : nat) (p : Plugin) (os : list op) (p' : Plugin) : Prop := {
  ev_steps : steps dir (world p) os (world p');
  ev_inits : (inits os <= k)%nat;
  ev_ops : Forall Q os;
  ev_dead : alive p = false -> os = [] /\ alive p' = false;
  ev_started : g_started p = true -> g_started p' = true
}.

Lemma evolves_refl Q k p : evolves Q k p [] p.
Proof. split; try done; [constructor|simpl; lia]. Qed.

Lemma evolves_trans Q k k' p os p1 os' p2 :
  evolves Q k p os p1 -> evolves Q k' p1 os' p2 -> evolves Q (k + k') p (os ++ os') p2.
Proof.
  intros [S1 I1 O1 D1 T1] [S2 I2 O2 D2 T2]. split; [by eapply steps_app| |by apply Forall_app_2| |auto].
  - unfold inits in *. rewrite sum_list_with_app. lia.
  - intros Hp. destruct (D1 Hp) as [-> Hp1]. by destruct (D2 Hp1) as [-> ?].
Qed.

Definition moves {A} (Q : op -> Prop) (k : nat) (m : M Plugin A) : Prop :=
  forall p, exists os, evolves Q k p os (m p).2.

Lemma moves_still {A} Q k (m : M Plugin A) : (forall p, (m p).2 = p) -> moves Q k m.
Proof. intros Hm p. exists []. rewrite Hm. apply evolves_refl. Qed.

Lemma moves_le {A} Q k k' (m : M Plugin A) : (k <= k')%nat -> moves Q k m -> moves Q k' m.
Proof. intros Hk Hm p. destruct (Hm p) as (os & [? ? ? ? ?]). exists os. split; auto with lia. Qed.

Lemma moves_bind {A B} Q k k' (m : M Plugin A) (f : A -> M Plugin B) :
  moves Q k m -> (forall a, moves Q k' (f a)) -> moves Q (k + k') (bind m f).
Proof.
  intros Hm Hf p. destruct (Hm p) as (os & Hos). unfold bind.
  destruct (m p) as [[a|e] p1]; cbn [snd] in *.
  - destruct (Hf a p1) as (os' & Hos'). exists (os ++ os'). by eapply evolves_trans.
  - exists os. destruct Hos. split; auto with lia.
Qed.

(** The callback that reloads buffers touches nothing but what it reloads. *)
Lemma file_applied_frame f p : exists l, (file_applied f p).2 = put_reloaded l p.
Proof.
  assert (p = put_reloaded (reloaded p) p) as Hp by (by destruct p).
  unfold file_applied, currentFilePath, ask_path, bind, gets, lift.
  destruct (npp p) eqn:En; cbn; [|by exists (reloaded p)]. rewrite En.
  destruct (host_path (current p)); [|by exists (reloaded p)].
  destruct (_ && _); [by eexists|by exists (reloaded p)].
Qed.

Lemma files_applied_frame fs p : exists l, (for_each fs file_applied p).2 = put_reloaded l p.
Proof.
  revert p. induction fs as [|f fs IH]; intros p; [exists (reloaded p); by destruct p|]. cbn [for_each]. unfold bind at 1.
  destruct (file_applied_frame f p) as [l El]. destruct (file_applied f p) as [[[]|e] p1]; cbn [snd] in El; subst p1.
  - destruct (IH (put_reloaded l p)) as [l' ->]. by exists l'.
  - by exists l.
Qed.

(** A change of the plugin's own fields. *)
Lemma moves_modify Q k f :
  (forall p, world (f p) = world p /\ (alive p = false -> alive (f p) = false) /\
             (g_started p = true -> g_started (f p) = true)) -> moves Q k (modify f).
Proof.
  intros Hf p. destruct (Hf p) as (Hw & Ha & Hs). exists []. simpl.
  split; rewrite ?Hw; auto; [constructor|simpl; lia].
Qed.

Lemma moves_on_disk {A} Q k (m : M FileSystem.Fs A) : moves Q k (on_disk m).
Proof.
  intros p. exists []. unfold on_disk, zoom, on_fs, zoom. destruct (m (fs (world p))) as [r s]. cbn [snd].
  split; cbn; auto with lia. eapply steps_env; [|constructor]. by repeat split.
Qed.

Lemma moves_ask_path Q k path : moves Q k (ask_path path).
Proof. apply moves_still. intros p. unfold ask_path, bind, gets, lift. by destruct (npp p). Qed.

Lemma moves_currentFilePath Q k : moves Q k currentFilePath.
Proof. apply moves_still. intros p. unfold currentFilePath, ask_path, bind, gets, lift. by destruct (npp p). Qed.

Lemma moves_file_applied Q k f : moves Q k (file_applied f).
Proof.
  change k with (0 + (0 + k))%nat. apply (moves_bind _ 0); [by apply moves_still|intros ok].
  destruct ok; cbn [negb]; [|by apply moves_still].
  apply (moves_bind _ 0); [apply moves_currentFilePath|intros ?].
  destruct (_ && _); [|by apply moves_still]. by apply moves_modify.
Qed.

Lemma moves_for_each {A} Q (l : list A) body :
  (forall x, moves Q 0 (body x)) -> moves Q 0 (for_each l body).
Proof.
  intros Hb. induction l as [|x l IH]; [by apply moves_still|]. simpl.
  change 0%nat with (0 + 0)%nat. by apply moves_bind.
Qed.

Lemma moves_on_engine {A} Q k (m : M World A) :
  (forall w, exists os, steps dir w os (m w).2 /\ (inits os <= k)%nat /\ Forall Q os) ->
  moves Q k (on_engine m).
Proof.
  intros Hm p. unfold on_engine. unfold bind at 1, gets at 1.
  destruct (alive p) eqn:Ea; cbn [negb]; [|exists []; apply evolves_refl].
  unfold bind at 1, gets at 1. unfold bind at 1.
  destruct (Hm (world p)) as (os & Hs & Hi & Ho). destruct (m (world p)) as [r w]. cbn [snd] in Hs.
  assert (evolves Q k p os (put_world w p)) as Hp1 by (split; cbn; auto; congruence).
  match goal with |- context [(?rest (put_world w p)).2] => enough (moves Q 0 rest) as Hrest end.
  - destruct (Hrest (put_world w p)) as (os' & Hos'). exists (os ++ os').
    rewrite <- (Nat.add_0_r k). by eapply evolves_trans.
  - change 0%nat with (0 + (0 + (0 + 0)))%nat. apply moves_bind; [by apply moves_still|intros set].
    apply moves_bind; [by apply moves_still|intros files].
    apply moves_bind; [|intros ?; by apply moves_still].
    destruct set; [|by apply moves_still]. apply moves_for_each. apply moves_file_applied.
Qed.

Lemma moves_query {A} Q k (f : World -> A) : moves Q k (on_engine (gets f)).
Proof. apply moves_on_engine. intros w. exists []. simpl. repeat constructor. lia. Qed.

Lemma moves_op {A} Q k (m : M World A) o :
  (forall w, (m w).2 = run dir o w) -> Q o -> (inits [o] <= k)%nat -> moves Q k (on_engine m).
Proof.
  intros Hm Ho Hk. apply moves_on_engine. intros w. exists [o]. rewrite Hm.
  repeat constructor; [|done..]. lia.
Qed.
End plugin.

(** Take an operation of the plugin apart; the initialisations are counted on
    the call that makes them. *)
Ltac moves_steps :=
  repeat match goal with
  | |- moves _ _ ?k (bind _ _) => change k with (0 + k)%nat; apply moves_bind; [|intros ?]
  | |- moves _ _ _ (if ?b then _ else _) => destruct b
  | |- moves _ _ _ (on_engine (gets _)) => apply moves_query
  | |- moves _ _ _ (ask_path _) => apply moves_ask_path
  | |- moves _ _ _ (on_disk _) => apply moves_on_disk
  | |- moves _ _ _ (modify _) => apply moves_modify; by auto
  | |- moves _ _ _ (ret _) => by apply moves_still
  | |- moves _ _ _ (throw _) => by apply moves_still
  | |- moves _ _ _ (gets _) => by apply moves_still
  | |- moves _ _ _ (lift _) => by apply moves_still
  | |- moves _ _ _ (show _) => apply moves_modify; by auto
  end.

Section calls.
Context `{Win32Text} `{CNG} `{Json} `{DPAPI} `{LocalTime}.
Context (dir : wstr).

Definition hosted (o : op) : Prop := from_host o = true.

Lemma moves_log_info k msg : moves dir hosted k (log_info msg).
Proof. unfold log_info. moves_steps. Qed.

Lemma moves_open_dialog k d : moves dir hosted k (open_dialog d).
Proof. unfold open_dialog. moves_steps. Qed.

Lemma moves_command c : moves dir hosted 0 (run_command dir c).
Proof.
  destruct c as [|yes| | | | | | | | | |]; cbn [run_command]; try apply moves_open_dialog.
  - unfold cmdSignIn. moves_steps. apply moves_open_dialog.
  - unfold cmdSignOut. moves_steps. by apply moves_op with OSignOut.
  - unfold cmdSyncNow. by apply moves_op with OSyncNow.
  - unfold cmdPauseSync, when. moves_steps. by eapply (moves_op _ _ _ _ (OSetPaused _)).
  - moves_steps.
Qed.

Lemma moves_press idx yes : moves dir hosted 0 (press dir idx yes).
Proof.
  unfold press, pluginGetFuncsArray. change 0%nat with (0 + 0)%nat. apply moves_bind; [by apply moves_still|].
  intros [n items]. destruct (_ !! idx) as [item|]; [|by apply moves_still].
  destruct (_pFunc item); [apply moves_command|by apply moves_still].
Qed.

(** Starting the engine initialises it, once. *)
Lemma evolves_start p : exists os p',
  (startEngine dir p).2 = p' /\ evolves dir hosted 1 p os p' /\
  (g_started p = true -> os = []) /\ g_started p' = true.
Proof.
  unfold startEngine. unfold bind at 1, gets at 1. destruct (g_started p) eqn:Es.
  { exists [], p. split_and!; [done|apply evolves_refl|done|done]. }
  unfold bind at 1, modify at 1.
  match goal with |- context [(?rest (put_started true p)).2] => set (m := rest) end.
  assert (moves dir hosted (0 + (0 + (0 + (0 + (0 + (1 + 0)))))) m) as Hm.
  { unfold m. apply moves_bind; [by apply moves_still|intros ok].
    destruct ok; cbn [negb]; [|by apply moves_still].
    apply moves_bind; [by apply moves_still|intros debug].
    apply moves_bind; [apply moves_on_disk|intros l].
    apply moves_bind; [by apply moves_modify|intros _].
    apply moves_bind; [apply moves_log_info|intros _].
    apply moves_bind; [|intros _; moves_steps; by apply moves_op with OStart].
    unfold init_engine. change 1%nat with (0 + 1)%nat. apply moves_bind; [by apply moves_still|intros s].
    by apply (moves_op _ _ _ _ (OInit s)). }
  destruct (Hm (put_started true p)) as (os & [S I O D T]). exists os, (m (put_started true p)).2.
  split_and!; [done| |done|by apply T]. split; try done. intros _. by apply T.
Qed.

Lemma moves_cleanup : moves dir hosted 0 pluginCleanup.
Proof.
  unfold pluginCleanup. moves_steps; try by apply moves_op with OStop. apply moves_log_info.
Qed.

Lemma moves_detach : moves dir hosted 0 (DllMain dir DLL_PROCESS_DETACH).
Proof. unfold DllMain. moves_steps. apply moves_cleanup. Qed.

Lemma moves_file_saved path : moves dir hosted 0 (file_saved path).
Proof. unfold file_saved. moves_steps. by eapply (moves_op _ _ _ _ (OFileSaved _)). Qed.

Lemma moves_file_opened path : moves dir hosted 0 (file_opened path).
Proof. unfold file_opened. moves_steps. by eapply (moves_op _ _ _ _ (OFileOpened _)). Qed.

(** One call: what the engine does, and the one initialisation that the first
    start makes. *)
Lemma call_evolves c p : exists os,
  evolves dir (fun o => hosted o \/ c = Inside o) 1 p os (run_call dir c p) /\
  (inits os + (if g_started p then 1 else 0) <= (if g_started (run_call dir c p) then 1 else 0))%nat.
Proof.
  assert (forall A (m : M Plugin A), moves dir hosted 0 m -> exists os,
    evolves dir (fun o => hosted o \/ c = Inside o) 1 p os (m p).2 /\
    (inits os + (if g_started p then 1 else 0) <= (if g_started (m p).2 then 1 else 0))%nat) as Hzero.
  { intros A m Hm. destruct (Hm p) as (os & [S I O D T]). exists os. split.
    - split; auto. eapply Forall_impl; [exact O|auto].
    - destruct (g_started p); [rewrite T by done; lia|]. destruct (g_started _); lia. }
  unfold run_call. destruct c as [n|idx yes| |o]; cbn [perform]; [|by apply Hzero, moves_press| |].
  - destruct n as [| |path|path|path|]; cbn [pluginBeNotified];
      try (apply Hzero; auto using moves_cleanup, moves_file_saved, moves_file_opened; by apply moves_still).
    destruct (evolves_start p) as (os & p' & Ep & [S I O D T] & Hos & Ht). exists os. rewrite Ep.
    split; [split; auto; eapply Forall_impl; [exact O|auto]|]. rewrite Ht.
    destruct (g_started p); [rewrite Hos by done; simpl; lia|lia].
  - apply Hzero. moves_steps. apply moves_detach.
  - unfold bind at 1 2, gets. destruct (alive p && g_started p && from_within o) eqn:E.
    2: { exists []. split; [apply evolves_refl|destruct (g_started p) eqn:Es; cbn; rewrite ?Es; simpl; lia]. }
    destruct (moves_op dir (fun o' => o' = o) 0 (fun w => (Ok tt, run dir o w)) o ltac:(done) eq_refl
      ltac:(apply andb_true_iff in E as [_ Eo]; by destruct o) p) as (os & [S I O D T]).
    exists os. split; [split; auto|].
    + eapply Forall_impl; [exact O|]. intros o' ->. by right.
    + destruct (g_started p); [rewrite T by done; lia|]. destruct (g_started _); lia.
Qed.

Lemma calls_evolve p l p' : calls dir p l p' -> exists os,
  evolves dir (fun o => hosted o \/ Inside o ∈ l) (inits os) p os p' /\
  (inits os + (if g_started p then 1 else 0) <= (if g_started p' then 1 else 0))%nat.
Proof.
  induction 1 as [p|p w l c p' Henv _ (os & [S I O D T] & Hi)|p c l p' _ (os & Hos & Hi)].
  - exists []. split; [apply evolves_refl|simpl; lia].
  - exists os. split; [|exact Hi]. split; auto. by eapply steps_env.
  - destruct (call_evolves c p) as (os1 & Hos1 & Hi1). exists (os1 ++ os).
    assert (inits (os1 ++ os) = inits os1 + inits os)%nat as Ei by apply sum_list_with_app.
    split; [|lia]. rewrite Ei.
    apply evolves_trans with (run_call dir c p).
    + destruct Hos1 as [S I O D T]. split; auto. eapply Forall_impl; [exact O|].
      intros o [Ho|Ho]; [by left|]. right. subst c. by left.
    + destruct Hos as [S I O D T]. split; auto. eapply Forall_impl; [exact O|].
      intros o [Ho|Ho]; [by left|]. right. by right.
Qed.
End calls.

(** ** Exactly what a call asks of the engine *)

Section asked.
Context `{Win32Text} `{CNG} `{Json} `{DPAPI} `{LocalTime}.
Context (dir : wstr).

(** From [w] to [w'] the engine did [os], and besides only the log was opened or
    written: nothing else passes here, in contrast to [steps]. *)
Inductive does : World -> list op -> World -> Prop :=
  | does_nil w : does w [] w
  | does_log_line w l msg os w' :
      does (put_fs (Logger.info l (clock w) (lit msg) (fs w)).2 w) os w' -> does w os w'
  | does_open_log w level os w' :
      does (put_fs (Logger.init (dir ++ lit "\logs") level (fs w)).2 w) os w' -> does w os w'
  | does_op w o os w' : does (run dir o w) os w' -> does w (o :: os) w'.

Lemma does_app w os w1 os' w' : does w os w1 -> does w1 os' w' -> does w (os ++ os') w'.
Proof. induction 1; eauto using does. Qed.

Lemma does_steps w os w' : does w os w' -> steps dir w os w'.
Proof.
  induction 1; [constructor| | |by apply steps_op]; (eapply steps_env; [|eassumption]); by repeat split.
Qed.

(** What a command of the menu is there for. *)
Definition command_asks (c : Command) (p : Plugin) : list op :=
  match c with
  | CmdSignOut true => [OSignOut]
  | CmdSyncNow => [OSyncNow]
  | CmdPauseSync => [OSetPaused (negb (paused (world p)))]
  | _ => []
  end.

(** The name of the buffer as the plugin gets it. *)
Definition told (path : wstr) (p : Plugin) : bool := npp p && negb (bool_decide (path = [])).

(** What a call asks of the engine, in order. *)
Definition asked (c : call) (p : Plugin) : list op :=
  if negb (alive p) then [] else
  match c with
  | Notify NReady => if g_started p then [] else [OInit (settings_ (world p)); OStart]
  | Notify NShutdown | Detach => [OStop; OStop]
  | Notify (NFileSaved path) => if told path p && g_started p then [OFileSaved path] else []
  | Notify (NFileOpened path) | Notify (NBufferActivated path) => if told path p then [OFileOpened path] else []
  | Notify NOther => []
  | Menu idx yes =>
      match take kMenuCount (menu p) !! idx ≫= _pFunc with Some f => command_asks (f yes) p | None => [] end
  | Inside o => if g_started p && from_within o then [o] else []
  end.

(** From [p] the call does [want], all of it unless it throws. *)
Definition engages {A} (m : M Plugin A) (p : Plugin) (want : list op) (post : A -> Plugin -> Prop) : Prop :=
  exists os, does (world p) os (world (m p).2) /\ os `prefix_of` want /\
  forall a, (m p).1 = Ok a -> os = want /\ post a (m p).2.

Lemma engages_still {A} (m : M Plugin A) p (post : A -> Plugin -> Prop) :
  world (m p).2 = world p -> (forall a, (m p).1 = Ok a -> post a (m p).2) -> engages m p [] post.
Proof. intros Hw Hp. exists []. rewrite Hw. split_and!; [constructor|done|eauto]. Qed.

Lemma engages_bind {A B} (m : M Plugin A) (k : A -> M Plugin B) p w1 w2 post :
  engages m p w1 (fun a p1 => engages (k a) p1 w2 post) -> engages (bind m k) p (w1 ++ w2) post.
Proof.
  intros (os & Hd & Hp & Hr). unfold engages, bind. destruct (m p) as [[a|e] p1]; cbn [fst snd] in *.
  - destruct (Hr a eq_refl) as (-> & os' & Hd' & Hp' & Hr'). exists (w1 ++ os'). split_and!.
    + by eapply does_app.
    + by apply prefix_app.
    + intros b Hb. destruct (Hr' b Hb) as [-> ?]. done.
  - exists os. split_and!; [done|by apply prefix_app_r|done].
Qed.

(** Reading a field, and changing one. *)
Lemma engages_gets {A B} (f : Plugin -> A) (k : A -> M Plugin B) p want post :
  engages (k (f p)) p want post -> engages (bind (gets f) k) p want post.
Proof. done. Qed.

Lemma engages_modify {B} (f : Plugin -> Plugin) (k : unit -> M Plugin B) p want post :
  world (f p) = world p -> engages (k tt) (f p) want post -> engages (bind (modify f) k) p want post.
Proof. intros Hw (os & Hd & Hr). exists os. rewrite Hw in Hd. done. Qed.

(** The callback only reloads buffers: an operation of the engine is the one
    thing that a call through [g_engine] does. *)
Lemma on_engine_run {A} (m : M World A) p : alive p = true -> exists r l,
  on_engine m p = (r, put_reloaded l (put_world (m (world p)).2 p)) /\
  forall a, r = Ok a -> (m (world p)).1 = Ok a.
Proof.
  intros Ha. unfold on_engine. unfold bind at 1, gets at 1. rewrite Ha. cbn [negb].
  unfold bind at 1, gets at 1. unfold bind at 1. destruct (m (world p)) as [r w] eqn:E. cbn [fst snd].
  unfold bind at 1, gets at 1. unfold bind at 1, gets at 1. unfold bind at 1. set (files := drop _ _).
  destruct (g_started _).
  - destruct (files_applied_frame files (put_world w p)) as [l El].
    destruct (for_each files file_applied (put_world w p)) as [[[]|e] q]; cbn [snd] in El; subst q;
      [exists r, l|exists (Throw e), l]; done.
  - exists r, (reloaded p). split; [by destruct p|done].
Qed.

Lemma engages_on_engine {A} (m : M World A) p want :
  alive p = true -> does (world p) want (m (world p)).2 ->
  engages (on_engine m) p want (fun a p' =>
    (m (world p)).1 = Ok a /\ exists l, p' = put_reloaded l (put_world (m (world p)).2 p)).
Proof.
  intros Ha Hd. destruct (on_engine_run m p Ha) as (r & l & E & Hr). exists want. rewrite E.
  split_and!; [done|done|]. cbn [fst snd]. eauto.
Qed.

Lemma engages_op {A} (m : M World A) o p (post : A -> Plugin -> Prop) :
  alive p = true -> (forall w, (m w).2 = run dir o w) ->
  (forall a l, (m (world p)).1 = Ok a -> post a (put_reloaded l (put_world (run dir o (world p)) p))) ->
  engages (on_engine m) p [o] post.
Proof.
  intros Ha Hm Hp. destruct (engages_on_engine m p [o] Ha) as (os & Hd & Hpre & Hr).
  { rewrite Hm. repeat constructor. }
  exists os. split_and!; [done|done|]. intros a E. destruct (Hr a E) as (-> & E' & l & ->).
  split; [done|]. rewrite Hm. auto.
Qed.

Lemma engages_query {A} (f : World -> A) p (post : A -> Plugin -> Prop) :
  alive p = true -> (forall l, post (f (world p)) (put_reloaded l p)) -> engages (on_engine (gets f)) p [] post.
Proof.
  intros Ha Hp. destruct (engages_on_engine (gets f) p [] Ha) as (os & Hd & Hpre & Hr); [constructor|].
  exists os. split_and!; [done|done|]. intros a E. destruct (Hr a E) as (-> & [= <-] & l & ->). split; [done|].
  replace (put_world _ p) with p by (by destruct p). auto.
Qed.

(** A line of the log: the disk moves, nothing throws. *)
Lemma log_info_run msg p : exists f, log_info msg p = (Ok tt, put_world (put_fs f (world p)) p) /\
  does (world p) [] (put_fs f (world p)).
Proof.
  assert (forall l now m f, (Logger.info l now m f).1 = Ok tt) as Hok.
  { intros l now m f. unfold Logger.info, Logger.log. destruct (_ || _); [done|].
    unfold Logger.ofstream_app, bind, FileSystem.next_io, modify, ret. by repeat case_match; simplify_eq/=. }
  exists (Logger.info (logger p) (clock (world p)) (lit msg) (fs (world p))).2. split.
  - unfold log_info, on_disk, zoom, on_fs, zoom, bind, gets.
    specialize (Hok (logger p) (clock (world p)) (lit msg) (fs (world p))).
    destruct (Logger.info _ _ _ _) as [r f]. cbn in *. by subst r.
  - eapply does_log_line. constructor.
Qed.

Lemma engages_log_info msg p :
  engages (log_info msg) p [] (fun _ p1 => exists f, p1 = put_world (put_fs f (world p)) p).
Proof.
  destruct (log_info_run msg p) as (f & E & Hd). exists []. rewrite E. split_and!; [done|done|]. eauto.
Qed.

Lemma on_engine_stop p : alive p = true ->
  on_engine stop p = (Ok tt, put_world (run dir OStop (world p)) p).
Proof.
  intros Ha. unfold on_engine, bind, gets. rewrite Ha. cbn. rewrite drop_all.
  by destruct (g_started p).
Qed.

(** The shutdown goes through: a living engine is stopped, the pointer reset. *)
Lemma cleanup_run p : exists f, does (world p) [] (put_fs f (world p)) /\
  pluginCleanup p = (Ok tt, put_alive false (put_world
    (if alive p then run dir OStop (run dir OStop (put_fs f (world p))) else put_fs f (world p)) p)).
Proof.
  destruct (log_info_run "plugin shutting down" p) as (f & E & Hd). exists f. split; [done|].
  unfold pluginCleanup. rewrite (bind_run _ _ _ _ _ E). unfold bind at 1, gets at 1. cbn [alive put_world].
  destruct (alive p) eqn:Ha; [|done].
  unfold bind at 1. rewrite (bind_run _ _ _ _ _ (on_engine_stop (put_world (put_fs f (world p)) p) Ha)).
  by rewrite on_engine_stop.
Qed.

Lemma engages_cleanup p :
  engages pluginCleanup p (if alive p then [OStop; OStop] else []) (fun _ _ => True).
Proof.
  destruct (cleanup_run p) as (f & Hd & E). exists (if alive p then [OStop; OStop] else []). rewrite E.
  split_and!; [|done|done]. cbn [snd world put_alive put_world].
  apply (does_app (world p) [] (put_fs f (world p)) _ _ Hd). destruct (alive p); repeat constructor.
Qed.

Lemma engages_open_dialog d p : engages (open_dialog d) p [] (fun _ _ => True).
Proof. apply engages_still; [|done]. unfold open_dialog, bind, gets. by destruct (alive p). Qed.

Lemma engages_command c p :
  engages (run_command dir c) p (if alive p then command_asks c p else []) (fun _ _ => True).
Proof.
  destruct (alive p) eqn:Ha.
  - destruct c as [|[]| | | | | | | | | |]; cbn [run_command command_asks]; try apply engages_open_dialog;
      try (by apply engages_still).
    + unfold cmdSignIn. apply (engages_bind _ _ _ [] []). apply engages_query; [done|]. intros l. apply engages_open_dialog.
    + by apply engages_op.
    + by apply engages_op.
    + unfold cmdPauseSync. apply (engages_bind _ _ _ [] [_]). apply engages_query; [done|]. intros l.
      apply (engages_bind _ _ _ [_] []). apply (engages_op _ (OSetPaused _)); [done..|]. intros _ l' _.
      apply engages_gets. unfold when. destruct (npp _); by apply engages_still.
  - assert (forall A (m : M World A), on_engine m p = (Throw access_violation, p)) as Hdead.
    { intros A m. unfold on_engine, bind, gets. by rewrite Ha. }
    apply engages_still; [|done].
    destruct c as [|[]| | | | | | | | | |]; cbn [run_command]; unfold cmdSignIn, cmdSignOut, cmdSyncNow, cmdPauseSync;
      try done; unfold open_dialog, bind, gets; by rewrite ?Hdead, ?Ha.
Qed.

Lemma engages_startEngine p :
  engages (startEngine dir) p
    (if negb (alive p) || g_started p then [] else [OInit (settings_ (world p)); OStart]) (fun _ _ => True).
Proof.
  unfold startEngine. apply engages_gets. destruct (g_started p); [rewrite orb_true_r; by apply engages_still|].
  rewrite orb_false_r. apply engages_modify; [done|]. apply engages_gets. cbn [alive put_started].
  destruct (alive p) eqn:Ha; cbn [negb]; [|by apply engages_still]. apply engages_gets.
  apply (engages_bind _ _ _ [] [_; _]). eexists []. split_and!.
  { unfold on_disk, zoom, on_fs, zoom. destruct (Logger.init _ _ _) as [r f] eqn:E. cbn [snd world put_world put_started].
    change f with (r, f).2. rewrite <- E. eapply does_open_log. constructor. }
  { done. }
  intros l E. split; [done|]. unfold on_disk, zoom, on_fs, zoom in *. destruct (Logger.init _ _ _) as [r f].
  cbn [fst snd] in *. subst r. set (p1 := put_world _ _). apply engages_modify; [done|].
  apply (engages_bind _ _ _ [] [_; _]). destruct (engages_log_info "plugin starting" (put_logger l p1)) as (os & Hd & Hp & Hr).
  exists os. split_and!; [done..|]. intros [] E'. destruct (Hr tt E') as (-> & f' & ->). split; [done|].
  apply (engages_bind _ _ _ [_] [_]). unfold init_engine. apply engages_gets. apply engages_op; [done..|].
  intros _ l1 _. apply (engages_bind _ _ _ [_] []). apply engages_op; [done..|]. intros _ l2 _.
  apply (engages_bind _ _ _ [] []). apply engages_query; [done|]. intros l3.
  destruct (isSignedIn _); apply engages_still; done.
Qed.

Lemma engages_weaken {A} (m : M Plugin A) p want (P Q : A -> Plugin -> Prop) :
  engages m p want P -> (forall a p1, P a p1 -> Q a p1) -> engages m p want Q.
Proof. intros (os & Hd & Hp & Hr) HPQ. exists os. split_and!; [done..|]. intros a E. destruct (Hr a E); auto. Qed.

Lemma engages_ask_path {B} path (k : wstr -> M Plugin B) p want post :
  engages (k (if npp p then path else [])) p want post -> engages (bind (ask_path path) k) p want post.
Proof.
  intros Hk. unfold engages.
  assert (bind (ask_path path) k p =
    if npp p then match host_path path with Ok s => k s p | Throw e => (Throw e, p) end else k [] p) as ->
    by (unfold ask_path, bind, gets, lift; by destruct (npp p)).
  destruct (npp p); [|done]. unfold host_path. destruct (Nat.ltb _ _); [done|].
  exists []. split_and!; [constructor|apply prefix_nil|done].
Qed.

Lemma engages_file_opened path p :
  engages (file_opened path) p (if negb (alive p) then [] else if told path p then [OFileOpened path] else [])
    (fun _ _ => True).
Proof.
  unfold file_opened. apply engages_ask_path. apply engages_gets.
  destruct (alive p) eqn:Ha; [|rewrite andb_false_r; by apply engages_still]. rewrite andb_true_r. cbn [negb].
  unfold told. destruct (npp p); [|by apply engages_still]. cbn [andb].
  destruct (bool_decide _); [by apply engages_still|by apply (engages_op _ (OFileOpened path))].
Qed.

(** One call, whatever came before it. *)
Lemma call_engages c p : engages (perform dir c) p (asked c p) (fun _ _ => True).
Proof.
  unfold asked. destruct c as [n|idx yes| |o]; cbn [perform].
  - destruct n as [| |path|path|path|]; cbn [pluginBeNotified].
    + pose proof (engages_startEngine p) as He. by destruct (alive p), (g_started p).
    + pose proof (engages_cleanup p) as He. by destruct (alive p).
    + unfold file_saved. apply engages_ask_path. apply engages_gets.
      destruct (alive p) eqn:Ha; [|rewrite andb_false_r; by apply engages_still]. rewrite andb_true_r. cbn [negb].
      unfold told. destruct (npp p); [|by apply engages_still]. cbn [andb]. destruct (bool_decide _); [by apply engages_still|].
      apply engages_gets. cbn. destruct (g_started p); [by apply (engages_op _ (OFileSaved path))|by apply engages_still].
    + apply engages_file_opened.
    + apply engages_file_opened.
    + destruct (alive p); by apply engages_still.
  - unfold press. change pluginGetFuncsArray with (gets (fun p : Plugin => (kMenuCount, menu p))).
    apply engages_gets. cbn [fst snd].
    destruct (take _ _ !! idx) as [item|]; cbn; [|destruct (alive p); by apply engages_still].
    destruct (_pFunc item) as [f|]; [|destruct (alive p); by apply engages_still].
    pose proof (engages_command (f yes) p) as He. by destruct (alive p).
  - rewrite <- (app_nil_r (if negb (alive p) then _ else _)). apply engages_bind.
    pose proof (engages_cleanup p) as He. unfold DllMain.
    rewrite <- (app_nil_r (if negb (alive p) then _ else _)). apply engages_bind.
    apply (engages_weaken _ _ _ (fun _ _ => True)); [by destruct (alive p)|].
    intros [] p1 _. apply engages_still; [done|]. intros b _. by apply engages_still.
  - apply engages_gets. destruct (alive p) eqn:Ha; cbn [andb negb]; [|by apply engages_still].
    destruct (g_started p && from_within o); [by apply engages_op|by apply engages_still].
Qed.

End asked.
End PluginFacts.

Module PluginSpec.
Import PluginFacts.

Section plugin.
Context `{Win32Text} `{CNG} `{Json} `{DPAPI} `{LocalTime}.
Context (dir : wstr).

(** The calls that take the plugin down. *)
Definition closes (c : call) : Prop := c = Notify NShutdown \/ c = Detach.

Lemma calls_dead p l p' : calls dir p l p' -> alive p = false ->
  alive p' = false /\ steps dir (world p) [] (world p').
Proof. intros (os & [S I O D T] & _)%calls_evolve Ha. by destruct (D Ha) as [-> ?]. Qed.

Lemma calls_split p l1 c l2 p' : calls dir p (l1 ++ c :: l2) p' ->
  exists p1, calls dir p l1 p1 /\ calls dir (run_call dir c p1) l2 p'.
Proof.
  remember (l1 ++ c :: l2) as l eqn:El. intros Hc. revert l1 El.
  induction Hc as [p|p w l cur p' Henv _ IH|p c' l p' Hc IH]; intros l1 El.
  - by destruct l1.
  - destruct (IH l1 El) as (p1 & Hp1 & Hp2). exists p1. split; [|done]. by apply (calls_host _ _ w _ cur).
  - destruct l1 as [|c1 l1]; injection El as -> ->; [exists p; split; [constructor|done]|].
    destruct (IH l1 eq_refl) as (p1 & Hp1 & Hp2). exists p1. split; [by constructor|done].
Qed.

Lemma perform_closes c p : closes c ->
  (perform dir c p).1 = Ok tt /\ alive (run_call dir c p) = false /\
  (alive p = true -> running_ (world (run_call dir c p)) = false).
Proof.
  intros Hc. destruct (cleanup_run dir p) as (f & _ & E).
  assert (perform dir c p = pluginCleanup p) as Ep.
  { destruct Hc as [-> | ->]; [done|]. cbn [perform]. unfold DllMain, bind. by rewrite E. }
  unfold run_call. rewrite Ep, E. split_and!; [done|done|]. by intros ->.
Qed.

(** C22: the plugin refines the engine. Whatever Notepad++, the menu, the
    dialogs and the engine's threads do, in any order and with anything
    happening outside in between, is a run of the engine's operations, so that
    what holds of every run of the engine holds of the plugin; the run
    initialises the engine at most once, not at all when the plugin had already
    started it. Each single call does exactly what [asked] says: the first
    NPPN_READY initialises and starts the engine with the stored settings, each
    menu command and each notification makes the one operation it stands for,
    the others none, and besides the log nothing is touched; a call that throws
    breaks off among these operations. The shutdown, by notification or with the
    library, never throws, leaves the engine stopped and the plugin without an
    engine; from there on no notification, command or late thread does anything
    to the engine any more, and the plugin never has one again. *)
Theorem plugin_refines_engine p l p' : calls dir p l p' ->
  (exists os, steps dir (world p) os (world p') /\
     Forall (fun o => from_host o = true \/ Inside o ∈ l) os /\
     (inits os <= (if g_started p then 0 else 1))%nat /\
     (alive p = false -> os = [] /\ alive p' = false)) /\
  (forall c, exists os, does dir (world p') os (world (run_call dir c p')) /\ os `prefix_of` asked c p' /\
     ((perform dir c p').1 = Ok tt -> os = asked c p')) /\
  (forall c, closes c -> (perform dir c p').1 = Ok tt /\ alive (run_call dir c p') = false /\
     (alive p' = true -> asked c p' = [OStop; OStop] /\ running_ (world (run_call dir c p')) = false)) /\
  (forall c, alive p' = false -> asked c p' = [] /\ alive (run_call dir c p') = false) /\
  (forall l1 c l2, l = l1 ++ c :: l2 -> closes c -> exists p1,
     calls dir p l1 p1 /\ calls dir (run_call dir c p1) l2 p' /\
     alive p' = false /\ steps dir (world (run_call dir c p1)) [] (world p')).
Proof.
  intros Hc. split_and!.
  - destruct (calls_evolve dir p l p' Hc) as (os & [S I O D T] & Hi). exists os. split_and!; auto.
    destruct (g_started p), (g_started p'); lia.
  - intros c. destruct (call_engages dir c p') as (os & Hd & Hp & Hr). exists os. split_and!; [done..|].
    intros E. by apply (Hr tt).
  - intros c Hcl. destruct (perform_closes c p' Hcl) as (E & Ha & Hr). split_and!; [done..|]. intros Hl.
    split; [|auto]. unfold asked. rewrite Hl. by destruct Hcl as [-> | ->].
  - intros c Ha. split; [unfold asked; by rewrite Ha|].
    by destruct (calls_dead p' [c] _ ltac:(by repeat constructor) Ha).
  - intros l1 c l2 -> Hcl. apply calls_split in Hc as (p1 & Hp1 & Hp2). exists p1.
    destruct (perform_closes c p1 Hcl) as (_ & Ha & _). by destruct (calls_dead _ _ _ Hp2 Ha).
Qed.

(** The menu shows what the settings say. *)
Definition marked (p : Plugin) : Prop := checked p = paused (world p).

(** The functions of the menu's items, in the order of [MenuCmd]. *)
Definition commands : list (bool -> Command) :=
  [fun _ => CmdSignIn; CmdSignOut; fun _ => CmdSyncNow; fun _ => CmdStatus; fun _ => CmdDevices;
   fun _ => CmdSyncedFiles; fun _ => CmdConflicts; fun _ => CmdSettings; fun _ => CmdPauseSync;
   fun _ => CmdAbout; fun _ => CmdAllowComputer; fun _ => CmdGetMyNotes].

Lemma setMenuItem_run idx name fn l p : (length (lit name) < nbChar)%nat ->
  setMenuItem idx name fn (put_menu l p) =
    (Ok tt, put_menu (<[idx := MkFuncItem (lit name) (Some fn) (Z.of_nat idx) false]> l) p).
Proof. intros Hn. unfold setMenuItem. by apply Nat.ltb_lt in Hn as ->. Qed.

(** The registration goes through, and gives each entry of [MenuCmd] the item
    that runs its command. *)
Lemma initMenu_run p : exists l, initMenu p = (Ok tt, put_menu l p) /\
  (length (menu p) = kMenuCount -> length l = kMenuCount /\ map _pFunc l = map Some commands /\
   Forall (fun item => length (_itemName item) < nbChar)%nat l).
Proof.
  replace (initMenu p) with (initMenu (put_menu (menu p) p)) by (f_equal; by destruct p).
  generalize (menu p) as items. intros items. unfold initMenu.
  repeat (erewrite bind_run by (apply setMenuItem_run; vm_compute; lia)).
  rewrite setMenuItem_run by (vm_compute; lia). eexists. split; [reflexivity|].
  intros Hl. do 13 (destruct items as [|? items]; try discriminate Hl).
  split_and!; [reflexivity..|]. repeat constructor; vm_compute; lia.
Qed.

(** The menu Notepad++ shows runs the commands: the item at each index, among
    as many as the plugin announces, does what [MenuCmd] names there. *)
Theorem menu_runs_commands p p' idx yes : length (menu p) = kMenuCount -> initMenu p = (Ok tt, p') ->
  press dir idx yes p' = match commands !! idx with Some f => run_command dir (f yes) p' | None => (Ok tt, p') end.
Proof.
  intros Hl Hrun. destruct (initMenu_run p) as (l & E & Hmenu). rewrite E in Hrun. injection Hrun as <-.
  destruct (Hmenu Hl) as (Hlen & Hf & _). unfold press. unfold pluginGetFuncsArray, bind, gets, ret.
  cbn [fst snd menu put_menu]. rewrite <- Hlen, take_ge by lia.
  apply (f_equal (.!! idx)) in Hf. rewrite !list_lookup_fmap in Hf.
  destruct (l !! idx) as [item|], (commands !! idx) as [f|]; try done. by injection Hf as ->.
Qed.

(** A call through the engine leaves the world the operation leaves, and the
    menu alone. *)
Lemma on_engine_Ok {A} (m : M World A) p r p' : on_engine m p = (Ok r, p') ->
  m (world p) = (Ok r, world p') /\ checked p' = checked p /\ npp p' = npp p.
Proof.
  unfold on_engine. unfold bind at 1, gets at 1. destruct (alive p); [|done]. cbn [negb].
  unfold bind at 1, gets at 1. unfold bind at 1. destruct (m (world p)) as [o w] eqn:E.
  unfold bind at 1, gets at 1. unfold bind at 1, gets at 1. unfold bind at 1.
  set (files := drop _ _). intros Hr.
  destruct ((if g_started (put_world w p) then for_each files file_applied else ret tt) (put_world w p))
    as [[[]|e] q] eqn:Eq; [|done].
  assert (world q = w /\ checked q = checked p /\ npp q = npp p) as (<- & <- & <-).
  { destruct (g_started _) in Eq; [|by injection Eq as <-].
    destruct (files_applied_frame files (put_world w p)) as [l El]. rewrite Eq in El. by cbn in El; subst q. }
  injection Hr as -> <-. done.
Qed.

Lemma setPaused_paused b w w' : setPaused dir b w = (Ok tt, w') -> paused w' = b.
Proof.
  unfold setPaused. unfold bind at 1, modify at 1. intros E.
  change (paused w' = paused (set_pause b w)). eapply (keeps_Ok paused); [|exact E].
  unfold store_save, setStatus, request_sync, on_fs, on_db. keeps_steps.
Qed.

(** The check mark of "Pause Sync" and the setting it stands for. A click
    that goes through negates the setting and shows it. But "Sync Now" ends the
    pause and leaves the mark, and a plugin that starts with a stored pause
    shows none, so the next click, which negates the setting and not the mark,
    is needed to make them agree again. *)
Theorem pause_mark p p' :
  (npp p = true -> cmdPauseSync dir p = (Ok tt, p') -> paused (world p') = negb (paused (world p)) /\ marked p') /\
  (cmdSyncNow p = (Ok tt, p') -> paused (world p') = false /\ checked p' = checked p /\
     (checked p = true -> ~ marked p')) /\
  (pluginInit dir p = (Ok tt, p') -> checked p' = checked p /\
     forall s, (Settings.load dir (Settings.SettingsStore dir (fs (world p))).2).1 = Ok s ->
       paused (world p') = Settings.pauseSync (default Settings.default_settings s)).
Proof.
  split_and!.
  - unfold cmdPauseSync. intros Hn (b & p1 & E1 & Hr)%bind_Ok.
    apply on_engine_Ok in E1 as ([= Eb _] & _ & En).
    apply bind_Ok in Hr as ([] & p2 & E2 & Hr). apply on_engine_Ok in E2 as (E2%setPaused_paused & _ & En').
    unfold bind, gets, when in Hr. rewrite En', En, Hn in Hr. injection Hr as <-. unfold marked. cbn. by rewrite E2, Eb.
  - intros (E & Hc & _)%on_engine_Ok. unfold syncNow, bind, modify, request_sync in E. injection E as E.
    assert (paused (world p') = false) as Hp by (by rewrite <- E). unfold marked. rewrite Hp, Hc.
    split_and!; [done|done|]. by intros ->.
  - unfold pluginInit. intros ([] & p1 & E1 & Hr)%bind_Ok. apply bind_Ok in Hr as (s & p2 & E2 & Hr).
    apply bind_Ok in Hr as ([] & p3 & [= <-] & Hr). apply bind_Ok in Hr as ([] & p4 & [= <-] & Hr).
    destruct (initMenu_run (put_alive true (put_world (new_engine (default Settings.default_settings s) (world p2)) p2)))
      as (l & E & _). rewrite E in Hr. injection Hr as <-. apply zoom_Ok in E1 as (w1 & (s1 & E1 & ->)%zoom_Ok & ->).
    apply zoom_Ok in E2 as (w2 & (s2 & E2 & ->)%zoom_Ok & ->). split; [done|].
    intros s'. rewrite E1. cbn in E2 |- *. rewrite E2. by intros [= <-].
Qed.
End plugin.

Import Toy.

(** A started plugin whose user pauses, then asks for a sync. *)
Definition toy_plugin : Plugin :=
  MkPlugin (world [] Toy.tables Toy.key []) true true Logger.initial [] false [] [] true [].

Lemma pause_mark_witness :
  let p1 := @cmdPauseSync ascii_text wire_json toy_time data_dir toy_plugin in
  let p2 := cmdSyncNow p1.2 in
  p1.1 = Ok tt /\ paused (Plugin.world p1.2) = true /\ marked p1.2 /\ p2.1 = Ok tt /\ ~ marked p2.2.
Proof.
  set (p1 := cmdPauseSync data_dir toy_plugin). set (p2 := cmdSyncNow p1.2).
  assert (p1.1 = Ok tt) as E1 by (vm_compute; reflexivity).
  assert (p2.1 = Ok tt) as E2 by (vm_compute; reflexivity).
  destruct (proj1 (@pause_mark ascii_text wire_json toy_time data_dir toy_plugin p1.2) eq_refl) as [Hp Hm].
  { rewrite <- E1. apply surjective_pairing. }
  destruct (proj1 (proj2 (@pause_mark ascii_text wire_json toy_time data_dir p1.2 p2.2))) as (_ & _ & Hn).
  { rewrite <- E2. apply surjective_pairing. }
  split_and!; [done|vm_compute; reflexivity|done|done|]. apply Hn. vm_compute. reflexivity.
Defined.

Lemma plugin_refines_engine_witness :
  let p1 := run_call data_dir (Notify NShutdown) toy_plugin in
  let p2 := run_call data_dir (Menu 8 false) p1 in
  (exists os, steps data_dir (Plugin.world toy_plugin) os (Plugin.world p2) /\ (inits os <= 0)%nat) /\
  alive toy_plugin = true /\ alive p2 = false /\ steps data_dir (Plugin.world p1) [] (Plugin.world p2) /\
  asked (Menu 8 false) toy_plugin = [] /\ asked (Notify NShutdown) toy_plugin = [OStop; OStop].
Proof.
  intros p1 p2.
  assert (calls data_dir toy_plugin [Notify NShutdown; Menu 8 false] p2) as Hc by (by repeat constructor).
  destruct (@plugin_refines_engine ascii_text toy_cng wire_json toy_dpapi toy_time data_dir toy_plugin
    [Notify NShutdown; Menu 8 false] p2 Hc) as ((os & Hs & _ & Hi & _) & _ & _ & _ & Hafter).
  split; [exists os; split; [exact Hs|exact Hi]|]. split; [reflexivity|].
  assert (calls data_dir p1 [Menu 8 false] p2) as Hc1 by (by repeat constructor).
  destruct (@plugin_refines_engine ascii_text toy_cng wire_json toy_dpapi toy_time data_dir p1
    [Menu 8 false] p2 Hc1) as ((os1 & Hs1 & _ & _ & Hd) & _).
  destruct (Hd ltac:(vm_compute; reflexivity)) as [-> Ha].
  split_and!; [exact Ha|exact Hs1|reflexivity|reflexivity].
Defined.

End PluginSpec.
