(* ===== verification/Window.v ===== *)
(** * Window: Dialogs.cpp, controls and the modal loop

    [Ui] is what a dialog works on: the engine's world and the user. The user
    is a script: the messages that reach the topmost dialog (clicks, typing,
    timers that fire, time that passes, operations of the engine's threads in
    between), the answers to message boxes, the paths chosen in the system's
    pickers and the outcomes of starting the browser. What the user gets to see
    is recorded. A modal dialog is its window (controls with their texts and
    check marks, the rows of its list, its timers) and its context record. *)
From S2P Require Import Prelude Text Platform PathUtil Logger DialogLayout EngineState EngineRun.
Import Engine EngineRun DialogLayout.

#[local] Open Scope monad_scope.

Module Window.

(** ** The user *)

Inductive answer := Yes | No | Cancel.

#[export] Instance answer_eq_dec : EqDecision answer.
Proof. solve_decision. Defined.

Inductive Msg :=
  | Click (id : Z)
  | TimerFires (id : Z)
  | CloseBox
  | TypeIn (id : Z) (text : wstr)
  | SetCheck (id : Z) (on : bool)
  | SelectRow (row : Z)
  | SelectTab (tab : Z)
  | Wait (ms : N)
  | Meanwhile (o : op).

Record Ui := MkUi {
  world : World;
  log_ : Logger.State;
  ticks : Z;
  msgs : list Msg;
  answers : list answer;
  picks : list (option wstr);
  browser : list bool;
  said : list wstr;
  opened : list wstr
}.

Definition put_world (w : World) (u : Ui) : Ui :=
  MkUi w (log_ u) (ticks u) (msgs u) (answers u) (picks u) (browser u) (said u) (opened u).
Definition put_log (l : Logger.State) (u : Ui) : Ui :=
  MkUi (world u) l (ticks u) (msgs u) (answers u) (picks u) (browser u) (said u) (opened u).
Definition put_ticks (t : Z) (u : Ui) : Ui :=
  MkUi (world u) (log_ u) t (msgs u) (answers u) (picks u) (browser u) (said u) (opened u).
Definition put_msgs (m : list Msg) (u : Ui) : Ui :=
  MkUi (world u) (log_ u) (ticks u) m (answers u) (picks u) (browser u) (said u) (opened u).
Definition put_answers (a : list answer) (u : Ui) : Ui :=
  MkUi (world u) (log_ u) (ticks u) (msgs u) a (picks u) (browser u) (said u) (opened u).
Definition put_picks (p : list (option wstr)) (u : Ui) : Ui :=
  MkUi (world u) (log_ u) (ticks u) (msgs u) (answers u) p (browser u) (said u) (opened u).
Definition put_browser (b : list bool) (u : Ui) : Ui :=
  MkUi (world u) (log_ u) (ticks u) (msgs u) (answers u) (picks u) b (said u) (opened u).
Definition say (t : wstr) : M Ui unit :=
  modify (fun u => MkUi (world u) (log_ u) (ticks u) (msgs u) (answers u) (picks u) (browser u)
                     (said u ++ [c_str t]) (opened u)).
Definition log_open (t : wstr) : M Ui unit :=
  modify (fun u => MkUi (world u) (log_ u) (ticks u) (msgs u) (answers u) (picks u) (browser u)
                     (said u) (opened u ++ [c_str t])).

Definition on_engine {A} (m : M World A) : M Ui A := zoom world put_world m.

Definition widen (s : str) `{Win32Text} : wstr := PathUtil.utf8ToWide s.
Definition narrow (s : wstr) `{Win32Text} : str := PathUtil.wideToUtf8 s.

(** [MessageBoxW] of a [c_str()] with one button, with Yes and No, and with Cancel besides.
    The answer of a user who is not there is the last button. *)
Definition message_ok (text : wstr) : M Ui unit := say text.

Definition next_answer : M Ui answer := fun u =>
  (Ok (default Cancel (head (answers u))), put_answers (drop 1 (answers u)) u).

Definition ask_yes_no (text : wstr) : M Ui bool :=
  say text ;; let* a := next_answer in ret (bool_decide (a = Yes)).

Definition ask_cancel (text : wstr) : M Ui answer := say text ;; next_answer.

(** [SHBrowseForFolderW] with [SHGetPathFromIDListW], and [GetOpenFileNameW]:
    [None] is cancelled. The array they fill has [MAX_PATH] characters, and they
    are told so. *)
Definition pick_path : M Ui (option wstr) := fun u =>
  (Ok (default None (head (picks u)) ≫= fun p => if Nat.ltb (length p) 260 then Some p else None),
   put_picks (drop 1 (picks u)) u).

(** [ShellExecuteW] of an address; [true] is a handle above 32. *)
Definition openHttpUrl (url : str) : M Ui bool :=
  if negb (starts_with (lit "https://") url) && negb (starts_with (lit "http://") url) then ret false
  else fun u => (Ok (default false (head (browser u))), put_browser (drop 1 (browser u)) u).

Definition GetTickCount64 : M Ui Z := gets ticks.

(** ** Windows *)

Inductive Kind := Label | Edit | Button | CheckBox | Radio | ListView | TabControl.

Record Control := MkControl { kind : Kind; c_id : Z; c_x : Z; c_y : Z; c_w : Z; c_h : Z; c_text : wstr }.

Record Win := MkWin {
  frame : Z * Z;
  controls : list Control;
  texts : gmap Z wstr;
  checks : gmap Z bool;
  disabled : gset Z;
  hidden : gset Z;
  rows : list (list wstr);
  selected : Z;
  timers : gset Z;
  ended : option Z
}.

Definition IDOK : Z := 1.
Definition IDCANCEL : Z := 2.

Definition fresh_window (f : Z * Z) : Win := MkWin f [] ∅ ∅ ∅ ∅ [] (-1) ∅ None.

Record Modal (C : Type) := MkModal { ui : Ui; win : Win; ctx : C }.
Arguments MkModal {C} _ _ _.
Arguments ui {C} _.
Arguments win {C} _.
Arguments ctx {C} _.

(** What the dialog procedure is called with. *)
Inductive WMsg := WM_INITDIALOG | WM_COMMAND (id : Z) | WM_TIMER (id : Z) | WM_NOTIFY_TAB (tab : Z) | WM_CLOSE.

Section modal.
Context {C : Type}.

Definition D (A : Type) : Type := M (Modal C) A.

Definition on_ui {A} (m : M Ui A) : D A := zoom ui (fun u s => MkModal u (win s) (ctx s)) m.
Definition update (f : Win -> Win) : D unit := modify (fun s => MkModal (ui s) (f (win s)) (ctx s)).
Definition set_ctx (f : C -> C) : D unit := modify (fun s => MkModal (ui s) (win s) (f (ctx s))).
Definition engine {A} (m : M World A) : D A := on_ui (on_engine m).

(** [SetDlgItemTextW]. *)
Definition setText (id : Z) (s : wstr) : D unit := update (fun v =>
  MkWin (frame v) (controls v) (<[id := c_str s]> (texts v)) (checks v) (disabled v) (hidden v) (rows v)
    (selected v) (timers v) (ended v)).

Definition editText (id : Z) : D wstr := gets (fun s => default [] (texts (win s) !! id)).
Definition checkState (id : Z) : D bool := gets (fun s => default false (checks (win s) !! id)).

Definition set_check (id : Z) (b : bool) (v : Win) : Win :=
  MkWin (frame v) (controls v) (texts v) (<[id := b]> (checks v)) (disabled v) (hidden v) (rows v)
    (selected v) (timers v) (ended v).

Definition EnableWindow (id : Z) (on : bool) : D unit := update (fun v =>
  MkWin (frame v) (controls v) (texts v) (checks v)
    (if on then disabled v ∖ {[id]} else disabled v ∪ {[id]}) (hidden v) (rows v) (selected v) (timers v)
    (ended v)).

Definition ShowWindow (id : Z) (on : bool) : D unit := update (fun v =>
  MkWin (frame v) (controls v) (texts v) (checks v) (disabled v)
    (if on then hidden v ∖ {[id]} else hidden v ∪ {[id]}) (rows v) (selected v) (timers v) (ended v)).

(** The rows of the list view; filling it anew drops the selection. *)
Definition set_rows (l : list (list wstr)) : D unit := update (fun v =>
  MkWin (frame v) (controls v) (texts v) (checks v) (disabled v) (hidden v) l (-1) (timers v) (ended v)).

Definition set_timers (f : gset Z -> gset Z) : D unit := update (fun v =>
  MkWin (frame v) (controls v) (texts v) (checks v) (disabled v) (hidden v) (rows v) (selected v)
    (f (timers v)) (ended v)).
Definition SetTimer (id : Z) : D unit := set_timers (fun t => {[id]} ∪ t).
Definition KillTimer (id : Z) : D unit := set_timers (fun t => t ∖ {[id]}).

Definition EndDialog (r : Z) : D unit := update (fun v =>
  MkWin (frame v) (controls v) (texts v) (checks v) (disabled v) (hidden v) (rows v) (selected v)
    (timers v) (Some r)).

(** [CreateWindowExW]; the text of a control is also what [GetWindowText] reads. *)
Definition create (k : Kind) (id : Z) (text : wstr) (x y w h : Z) : D unit := update (fun v =>
  MkWin (frame v) (controls v ++ [MkControl k id x y w h text]) (<[id := text]> (texts v)) (checks v)
    (disabled v) (hidden v) (rows v) (selected v) (timers v) (ended v)).

Definition makeLabel (text : wstr) (x y w h : Z) (id : Z) : D unit := create Label id text x y w h.
Definition makeEdit (id x y w h : Z) : D unit := create Edit id [] x y w h.
Definition makeButton (id : Z) (text : wstr) (x y w h : Z) : D unit := create Button id text x y w h.
Definition makeRadio (id : Z) (text : wstr) (x y w h : Z) : D unit := create Radio id text x y w h.
Definition makeCheck (id : Z) (text : wstr) (x y w : Z) (checked : bool) : D unit :=
  create CheckBox id text x y w kCheckHeight ;; update (set_check id checked).

(** The selected row's index among [n] entries, when it is one. *)
Definition selection (n : nat) : D (option nat) := gets (fun s =>
  let sel := selected (win s) in
  if (sel <? 0) || (Z.of_nat n <=? sel) then None else Some (Z.to_nat sel)).

(** *** The loop of [DialogBoxIndirectParamW] *)

Context (proc : WMsg -> D unit).
Context (background : op -> M World unit).

(** A user who left closes the dialog. *)
Definition next_msg : D Msg := fun s =>
  match msgs (ui s) with
  | [] => (Ok CloseBox, s)
  | m :: l => (Ok m, MkModal (put_msgs l (ui s)) (win s) (ctx s))
  end.

(** A click on an automatic check box or radio button sets its mark; the radio
    buttons of a dialog are one group. *)
Definition mark (id : Z) (on : bool) (v : Win) : Win :=
  match find (fun c => c_id c =? id) (controls v) with
  | Some c =>
      match kind c with
      | CheckBox => set_check id on v
      | Radio => set_check id true
                   (foldr (fun c v => match kind c with Radio => set_check (c_id c) false v | _ => v end) v
                      (controls v))
      | _ => v
      end
  | None => v
  end.

Definition select_row (row : Z) (v : Win) : Win :=
  MkWin (frame v) (controls v) (texts v) (checks v) (disabled v) (hidden v) (rows v)
    (if (0 <=? row) && (row <? Z.of_nat (length (rows v))) then row else -1) (timers v) (ended v).

Definition type_in (id : Z) (text : wstr) (v : Win) : Win :=
  MkWin (frame v) (controls v) (<[id := text]> (texts v)) (checks v) (disabled v) (hidden v) (rows v)
    (selected v) (timers v) (ended v).

(** A disabled or hidden control gets no input. *)
Definition unless_disabled (id : Z) (m : D unit) : D unit :=
  let* off := gets (fun s => bool_decide (id ∈ disabled (win s) \/ id ∈ hidden (win s))) in
  if off then ret tt else m.

Definition dispatch (m : Msg) : D unit :=
  match m with
  | Click id => unless_disabled id (proc (WM_COMMAND id))
  | TimerFires id => proc (WM_TIMER id)
  | CloseBox => proc WM_CLOSE
  | TypeIn id text => unless_disabled id (update (type_in id text))
  | SetCheck id on => unless_disabled id (update (mark id on) ;; proc (WM_COMMAND id))
  | SelectRow row => update (select_row row)
  | SelectTab tab => proc (WM_NOTIFY_TAB tab)
  | Wait ms => on_ui (modify (fun u => put_ticks (ticks u + Z.of_N ms) u))
  | Meanwhile o => engine (background o)
  end.

Fixpoint loop (fuel : nat) : D (option Z) :=
  match fuel with
  | O => ret None
  | S fuel' =>
      let* e := gets (fun s => ended (win s)) in
      match e with
      | Some r => ret (Some r)
      | None => let* m := next_msg in dispatch m ;; loop fuel'
      end
  end.

(** [DialogMemory::begin]: the size of the frame in dialog units, cut to 16 bits.
    [wcscpy_s] ends the program when the title does not fit into 96 characters. *)
Definition begin (title : wstr) (w h : Z) : outcome (Z * Z) :=
  if Nat.ltb (length title) 96
  then Ok (wrap_i16 (toDlgX w), wrap_i16 (toDlgY h))
  else Throw invalid_argument.

(** The dialog's result and its context; the loop takes one message a round, so
    the fuel is enough ([run_modal_ends]). *)
Definition run_modal (title : wstr) (w h : Z) (c : C) : M Ui (option Z * C) := fun u =>
  match begin title w h with
  | Throw e => (Throw e, u)
  | Ok f =>
      let m := proc WM_INITDIALOG ;; loop (S (S (length (msgs u)))) in
      match m (MkModal u (fresh_window f) c) with
      | (Ok r, s) => (Ok (r, ctx s), ui s)
      | (Throw e, s) => (Throw e, ui s)
      end
  end.
End modal.
Arguments D C A : clear implicits.

End Window.
