(* ===== verification/Dialogs.v ===== *)
(** * Dialogs: Dialogs.cpp, sign-in, pairing and first run

    One procedure per dialog: what its messages do to the controls, to the
    dialog's context and to the engine. The dialogs that manage what is already
    set up are in [Managers]. *)
From S2P Require Import Prelude Text Platform PathUtil LocalDb Settings DialogLayout.
From S2P Require Import EngineState EngineKeys EngineSync EngineRun Window.
Import Engine EngineKeys EngineRun DialogLayout Window.

#[local] Open Scope monad_scope.

Module Dialogs.

(** A line break of a message box and of a multi-line edit control. *)
Definition nl : wstr := [LF].
Definition crnl : wstr := [CR; LF].

Section dialogs.
Context `{Win32Text} `{CNG} `{Json} `{DPAPI} `{LocalTime}.
Context (dir : wstr).

(** The engine's own threads and notifications, while a dialog is open. *)
Definition background (o : op) : M World unit := fun w =>
  (Ok tt, if from_within o then run dir o w else w).

(** ** The one-line prompt *)

Record PromptCtx := MkPrompt { p_label : wstr; p_initial : wstr; p_done : bool; p_result : str }.

Definition promptProc (m : WMsg) : D PromptCtx unit :=
  match m with
  | WM_INITDIALOG =>
      let* c := gets ctx in
      setText 100 (p_label c) ;;
      setText 101 (p_initial c)
  | WM_COMMAND id =>
      if id =? IDOK then
        let* t := editText 101 in
        set_ctx (fun c => MkPrompt (p_label c) (p_initial c) true (narrow t)) ;;
        EndDialog IDOK
      else if id =? IDCANCEL then EndDialog IDCANCEL
      else ret tt
  | WM_CLOSE => EndDialog IDCANCEL
  | _ => ret tt
  end.

Definition promptFrame : D PromptCtx unit :=
  makeLabel [] 16 12 (pixelW kPrompt - 32) 36 100 ;;
  makeEdit 101 16 56 (pixelW kPrompt - 32) 24 ;;
  makeButton IDOK (lit "OK") 360 96 (pushButtonPx (lit "OK")) 28 ;;
  makeButton IDCANCEL (lit "Cancel") 456 96 (pushButtonPx (lit "Cancel")) 28.

Definition promptFrameProc (m : WMsg) : D PromptCtx unit :=
  (match m with WM_INITDIALOG => promptFrame | _ => ret tt end) ;; promptProc m.

Definition prompt (title label : wstr) (initial : str) : M Ui (option str) :=
  let* (r, c) := run_modal promptFrameProc background title (pixelW kPrompt) (pixelH kPrompt)
                   (MkPrompt label (widen initial) false []) in
  ret (if bool_decide (r = Some IDOK) && p_done c then Some (p_result c) else None).

(** ** Sign in *)

Definition ID_SIGNIN_GOOGLE := 100.
Definition ID_SIGNIN_EMAIL := 101.
Definition ID_SIGNIN_PASSWORD := 102.
Definition ID_SIGNIN_CREATE := 103.
Definition ID_SIGNIN_OK := 104.
Definition ID_SIGNIN_CANCEL := 105.
Definition ID_SIGNIN_STATUS := 106.

Definition kGooglePollTimer := 1.
Definition kGooglePollLimitMs := 10 * 60 * 1000.

Record SignInCtx := MkSignIn {
  si_done : bool; googleState : str; googlePollSecret : str;
  googlePending : bool; si_polling : bool; googleStartedAt : Z
}.

Definition set_pending (b : bool) (c : SignInCtx) : SignInCtx :=
  MkSignIn (si_done c) (googleState c) (googlePollSecret c) b (si_polling c) (googleStartedAt c).
Definition set_polling (b : bool) (c : SignInCtx) : SignInCtx :=
  MkSignIn (si_done c) (googleState c) (googlePollSecret c) (googlePending c) b (googleStartedAt c).
Definition set_done (c : SignInCtx) : SignInCtx :=
  MkSignIn true (googleState c) (googlePollSecret c) (googlePending c) (si_polling c) (googleStartedAt c).
Definition set_google (state secret : str) (now : Z) (c : SignInCtx) : SignInCtx :=
  MkSignIn (si_done c) state secret true (si_polling c) now.

Definition waiting_google : wstr :=
  lit "Waiting for Google... finish in the browser, then return here.".

Definition setGoogleBusy (busy : bool) : D SignInCtx unit :=
  EnableWindow ID_SIGNIN_GOOGLE (negb busy) ;;
  EnableWindow ID_SIGNIN_OK (negb busy) ;;
  EnableWindow ID_SIGNIN_EMAIL (negb busy) ;;
  EnableWindow ID_SIGNIN_PASSWORD (negb busy).

Definition signInInit : D SignInCtx unit :=
  let inner := pixelW kSignIn - 32 in
  makeLabel kSignInLead 16 12 inner 20 0 ;;
  makeLabel (lit "encryption keys stay on this device.") 16 34 inner 20 0 ;;
  makeButton ID_SIGNIN_GOOGLE (lit "Sign in with Google") 16 60 inner 28 ;;
  makeLabel [] 16 96 inner 40 ID_SIGNIN_STATUS ;;
  makeLabel (lit "Email and password (existing accounts)") 16 144 inner 20 0 ;;
  makeLabel (lit "Email:") 16 172 100 20 0 ;;
  makeEdit ID_SIGNIN_EMAIL 124 170 (pixelW kSignIn - 140) 22 ;;
  makeLabel (lit "Password:") 16 200 100 20 0 ;;
  makeEdit ID_SIGNIN_PASSWORD 124 198 (pixelW kSignIn - 140) 22 ;;
  makeCheck ID_SIGNIN_CREATE kCreateAccount 124 228 (checkBoxPx kCreateAccount) false ;;
  makeButton ID_SIGNIN_OK (lit "Sign in with email") 124 260 (pushButtonPx (lit "Sign in with email")) 28 ;;
  makeButton ID_SIGNIN_CANCEL (lit "Cancel") 330 260 (pushButtonPx (lit "Cancel")) 28.

(** The end of the waiting for Google. *)
Definition googleOver : D SignInCtx unit :=
  KillTimer kGooglePollTimer ;;
  set_ctx (set_pending false) ;;
  setGoogleBusy false.

Definition googleTimer : D SignInCtx unit :=
  let* c := gets ctx in
  if negb (googlePending c) || si_polling c then ret tt
  else
    let* now := on_ui GetTickCount64 in
    if kGooglePollLimitMs <? now - googleStartedAt c then
      googleOver ;;
      setText ID_SIGNIN_STATUS (lit "Google sign-in timed out. Try again.")
    else
      set_ctx (set_polling true) ;;
      let* (st, err) := engine (pollGoogleSignIn dir (googleState c) (googlePollSecret c)) in
      set_ctx (set_polling false) ;;
      match st with
      | GooglePending =>
          setText ID_SIGNIN_STATUS (if bool_decide (err = []) then waiting_google else widen err)
      | GoogleSuccess => googleOver ;; set_ctx set_done ;; EndDialog IDOK
      | GoogleFailed => googleOver ;; setText ID_SIGNIN_STATUS (widen err)
      end.

Definition googleClicked : D SignInCtx unit :=
  let* c := gets ctx in
  if googlePending c then ret tt
  else
    let* (r, out) := engine (startGoogleSignIn dir) in
    let '(ok, err) := r in
    let '(url, state, secret) := out in
    if negb ok then setText ID_SIGNIN_STATUS (widen err)
    else
      let* launched := on_ui (openHttpUrl url) in
      if negb launched
      then setText ID_SIGNIN_STATUS (lit "Could not open the browser. Copy the server URL and try again.")
      else
        let* now := on_ui GetTickCount64 in
        set_ctx (set_google state secret now) ;;
        setGoogleBusy true ;;
        setText ID_SIGNIN_STATUS waiting_google ;;
        SetTimer kGooglePollTimer.

Definition emailClicked : D SignInCtx unit :=
  let* c := gets ctx in
  if googlePending c then ret tt
  else
    let* email := editText ID_SIGNIN_EMAIL in
    let* password := editText ID_SIGNIN_PASSWORD in
    let* create := checkState ID_SIGNIN_CREATE in
    if bool_decide (narrow email = []) || bool_decide (narrow password = [])
    then setText ID_SIGNIN_STATUS (lit "Email and password are required.")
    else
      let* (ok, err) := engine (signIn dir (narrow email) (narrow password) create) in
      if ok then set_ctx set_done ;; EndDialog IDOK
      else setText ID_SIGNIN_STATUS (widen err).

Definition signInProc (m : WMsg) : D SignInCtx unit :=
  match m with
  | WM_INITDIALOG => signInInit
  | WM_TIMER id => if id =? kGooglePollTimer then googleTimer else ret tt
  | WM_COMMAND id =>
      if id =? ID_SIGNIN_GOOGLE then googleClicked
      else if id =? ID_SIGNIN_OK then emailClicked
      else if id =? ID_SIGNIN_CANCEL then KillTimer kGooglePollTimer ;; EndDialog IDCANCEL
      else ret tt
  | WM_CLOSE => KillTimer kGooglePollTimer ;; EndDialog IDCANCEL
  | WM_NOTIFY_TAB _ => ret tt
  end.

Definition showSignIn : M Ui bool :=
  let* (r, c) := run_modal signInProc background kTitleSignIn (pixelW kSignIn) (pixelH kSignIn)
                   (MkSignIn false [] [] false false 0) in
  ret (bool_decide (r = Some IDOK) && si_done c).

(** ** Waiting for the other computer *)

Definition kPairPollTimer := 2.
Definition kPairPollLimitMs := 5 * 60 * 1000 + 15 * 1000.
Definition ID_PAIR_CODE := 100.
Definition ID_PAIR_STATUS := 101.

Record PairWaitCtx := MkPairWait {
  pw_done : bool; pw_code : str; installed : bool; pw_polling : bool; startedAt : Z
}.

Definition pw_set_polling (b : bool) (c : PairWaitCtx) : PairWaitCtx :=
  MkPairWait (pw_done c) (pw_code c) (installed c) b (startedAt c).
Definition pw_set_started (t : Z) (c : PairWaitCtx) : PairWaitCtx :=
  MkPairWait (pw_done c) (pw_code c) (installed c) (pw_polling c) t.
Definition pw_set_installed (c : PairWaitCtx) : PairWaitCtx :=
  MkPairWait true (pw_code c) true (pw_polling c) (startedAt c).

Definition waiting_pair : wstr := lit "Waiting for the other computer...".

Definition pairWaitInit : D PairWaitCtx unit :=
  let* c := gets ctx in
  let inner := pixelW kPair - 32 in
  makeLabel kPairLead 16 16 inner 20 0 ;;
  makeLabel kPairMenu 16 40 inner 20 0 ;;
  makeLabel (lit "Type this code there. Leave this window open.") 16 64 inner 20 0 ;;
  makeLabel [] 16 96 inner 32 ID_PAIR_CODE ;;
  setText ID_PAIR_CODE (widen (pw_code c)) ;;
  makeLabel waiting_pair 16 136 inner 40 ID_PAIR_STATUS ;;
  makeButton IDCANCEL (lit "Cancel") 496 188 (pushButtonPx (lit "Cancel")) 28 ;;
  let* now := on_ui GetTickCount64 in
  set_ctx (pw_set_started now) ;;
  SetTimer kPairPollTimer.

Definition pairTimer : D PairWaitCtx unit :=
  let* c := gets ctx in
  if pw_polling c || installed c then ret tt
  else
    let* now := on_ui GetTickCount64 in
    if kPairPollLimitMs <? now - startedAt c then
      KillTimer kPairPollTimer ;;
      setText ID_PAIR_STATUS (lit "That code expired. Close this window and choose Get my notes again.")
    else
      set_ctx (pw_set_polling true) ;;
      let* (st, err) := engine (completePairing dir (pw_code c)) in
      set_ctx (pw_set_polling false) ;;
      match st with
      | PairPending => setText ID_PAIR_STATUS (if bool_decide (err = []) then waiting_pair else widen err)
      | PairInstalled => KillTimer kPairPollTimer ;; set_ctx pw_set_installed ;; EndDialog IDOK
      | PairFailed => KillTimer kPairPollTimer ;; setText ID_PAIR_STATUS (widen err)
      end.

Definition pairWaitProc (m : WMsg) : D PairWaitCtx unit :=
  match m with
  | WM_INITDIALOG => pairWaitInit
  | WM_TIMER id => if id =? kPairPollTimer then pairTimer else ret tt
  | WM_COMMAND id => if id =? IDCANCEL then KillTimer kPairPollTimer ;; EndDialog IDCANCEL else ret tt
  | WM_CLOSE => KillTimer kPairPollTimer ;; EndDialog IDCANCEL
  | WM_NOTIFY_TAB _ => ret tt
  end.

Definition waitForOtherComputer (code : str) : M Ui bool :=
  let* (r, c) := run_modal pairWaitProc background kTitlePair (pixelW kPair) (pixelH kPair)
                   (MkPairWait false code false false 0) in
  let* has := gets (fun u => hasMasterKey (world u)) in
  ret (bool_decide (r = Some IDOK) && installed c && has).

(** ** The two menu commands of pairing *)

Definition sign_in_first : wstr :=
  lit "Sign in with Google first." ++ nl ++ nl ++ lit "Plugins -> Notepad++ Sync -> Sign In.".
Definition no_notes_here : wstr :=
  lit "This computer does not have your notes yet, so it cannot allow another one." ++ nl ++ nl ++
  lit "On this computer choose Get my notes." ++ nl ++
  lit "On the computer that already has your notes choose Allow another computer, " ++
  lit "and type the code shown here.".
Definition allowed_text : wstr :=
  lit "Allowed. If the other computer's window is still open, it finishes by itself. " ++
  lit "You do not type the code again over there.".

Definition allowAnotherComputer : M Ui unit :=
  let* signedIn := gets (fun u => isSignedIn (world u)) in
  let* has := gets (fun u => hasMasterKey (world u)) in
  if negb signedIn then message_ok sign_in_first
  else if negb has then message_ok no_notes_here
  else
    let* code := prompt (lit "Allow another computer")
                   (lit "Type the code shown on the other computer (ABCD-EFGH):") [] in
    match code with
    | None => ret tt
    | Some code =>
        let* (ok, err) := on_engine (approvePairing dir code) in
        message_ok (if ok then allowed_text else widen err)
    end.

Definition replace_question : wstr :=
  lit "This computer already has an encryption key." ++ nl ++ nl ++
  lit "Continuing replaces it with the key from the computer that already has your notes. " ++
  lit "Notes encrypted only with the key on this computer will not open." ++ nl ++ nl ++
  lit "Continue?".
Definition still_no_key : wstr :=
  lit "This computer still does not have the encryption key, so it did not create a new one." ++ nl ++ nl ++
  lit "Your notes stay unreadable until the other computer allows this one. " ++
  lit "Choose Get my notes again when that computer is on.".
Definition key_left : wstr :=
  lit "The other computer has not allowed this one yet. " ++
  lit "The encryption key already on this computer was left as it is.".
Definition can_read : wstr :=
  lit "This computer can now read your notes. They show up after the next sync, " ++
  lit "in the folders you choose.".

(** The part of [getMyNotes] after the question whether to replace a key. *)
Definition pair_here : M Ui bool :=
  let* r := on_engine (pairNewDevice dir) in
  let '(ok, code, err) := r in
  if negb ok then
    message_ok (widen (if bool_decide (err = []) then lit "Could not start. Try again." else err)) ;;
    ret false
  else
    let* arrived := waitForOtherComputer code in
    if negb arrived then
      let* has := gets (fun u => hasMasterKey (world u)) in
      message_ok (if has then key_left else still_no_key) ;;
      gets (fun u => hasMasterKey (world u))
    else message_ok can_read ;; ret true.

Definition getMyNotes : M Ui bool :=
  let* signedIn := gets (fun u => isSignedIn (world u)) in
  if negb signedIn then message_ok sign_in_first ;; ret false
  else
    let* has := gets (fun u => hasMasterKey (world u)) in
    let* go := if has then ask_yes_no replace_question else ret true in
    if negb go then gets (fun u => hasMasterKey (world u)) else pair_here.

(** ** First run *)

Definition welcome : wstr :=
  lit "Welcome to Notepad++ Sync." ++ nl ++ nl ++
  lit "Sign in with Google. If this is your first computer, an encryption key " ++
  lit "is created here and never uploaded. If your notes are already on another " ++
  lit "computer, that computer allows this one - this setup will not create a " ++
  lit "second key." ++ nl ++ nl ++
  lit "You do not type a server address." ++ nl ++ nl ++
  lit "Continue?".
Definition which_computer : wstr :=
  lit "Are your notes already on another computer?" ++ nl ++ nl ++
  lit "Yes - I will open Notepad++ there and choose Allow another computer." ++ nl ++
  lit "No - this is the first computer. Create the encryption key here.".
Definition setup_stopped : wstr :=
  lit "Setup stopped. This computer did not create an encryption key." ++ nl ++ nl ++
  lit "When you are ready, choose Plugins -> Notepad++ Sync -> Get my notes.".
Definition key_without_recovery : wstr :=
  lit "An encryption key was created on this computer, but the recovery key could not be saved.".
Definition recovery_text (rk : str) : wstr :=
  lit "Your recovery key (keep it with this computer):" ++ nl ++ nl ++ widen rk ++ nl ++ nl ++
  lit "This key only unwraps the copy stored for this Windows user. " ++
  lit "Typing it on another computer does not open your notes. " ++
  lit "On the other computer, sign in with the same Google account and choose Yes " ++
  lit "when asked if your notes are already on another computer. Then, on this " ++
  lit "computer, choose Allow another computer and type the code it shows." ++ nl ++ nl ++
  lit "If this computer is lost before another one is allowed, the notes on the " ++
  lit "server cannot be read. Google sign-in does not replace this key.".

(** The last step, with the answer to the question which computer this is. *)
Definition finish_setup (createHere : bool) : M Ui unit :=
  let* step := on_engine (finishFirstRunKeys dir createHere) in
  match step with
  | CreatedNew =>
      let* rk := on_engine (exportRecoveryKeyWrapped dir) in
      message_ok (if bool_decide (rk = []) then key_without_recovery else recovery_text rk)
  | _ => ret tt
  end.

Definition showFirstRunWizard : M Ui unit :=
  let* go := ask_yes_no welcome in
  if negb go then ret tt
  else
    let* signedIn := showSignIn in
    if negb signedIn then ret tt
    else
      let* has := gets (fun u => hasMasterKey (world u)) in
      if has then finish_setup false
      else
        let* which := ask_cancel which_computer in
        match which with
        | Cancel => message_ok setup_stopped
        | Yes => getMyNotes ;; finish_setup false
        | No => finish_setup true
        end.

(** ** About *)

Definition about_text : wstr :=
  lit "Notepad++ Sync 1.0.0" ++ nl ++ nl ++
  lit "End-to-end encrypted file sync for Notepad++." ++ nl ++
  lit "Protocol version 1. No cloud required." ++ nl ++ nl ++
  lit "https://github.com/berkkarabacak/notepadpp-sync".

Definition showAbout : M Ui unit := message_ok about_text.
End dialogs.

End Dialogs.
