(* ===== verification/Managers.v ===== *)
(** * Managers: Dialogs.cpp, status, devices, synced files, conflicts

    The dialogs that show and change what is set up. The rows of a list view are
    the texts of its cells; the entries behind them are in the context. *)
From S2P Require Import Prelude Text Platform PathUtil LocalDb Settings Logger DialogLayout.
From S2P Require Import EngineState EngineKeys EngineSync EngineRun Window Dialogs.
Import Engine EngineKeys EngineSync EngineRun DialogLayout Window Dialogs.
Import LocalDb(ConflictState).

#[local] Open Scope monad_scope.

Module Managers.

(** ** Ignore patterns as the text of an edit control *)

Section patterns.
Context `{Win32Text}.

(** The loop over the text, with [pats] and [line]. *)
Fixpoint pattern_loop (raw : wstr) (pats : list str) (line : wstr) : list str :=
  match raw with
  | [] => if bool_decide (line = []) then pats else pats ++ [narrow line]
  | ch :: raw' =>
      if ch =? CR then pattern_loop raw' pats line
      else if ch =? LF
      then pattern_loop raw' (if bool_decide (line = []) then pats else pats ++ [narrow line]) []
      else pattern_loop raw' pats (line ++ [ch])
  end.

Definition parse_patterns (raw : wstr) : list str := pattern_loop raw [] [].

Definition show_patterns (pats : list str) : wstr := mbind (fun p => widen p ++ [CR; LF]) pats.
End patterns.

Section dialogs.
Context `{Win32Text} `{CNG} `{Json} `{DPAPI} `{LocalTime}.
Context (dir : wstr).
Abbreviation background := (background dir).

(** ** Status *)

Definition ID_ST_TEXT := 100.
Definition ID_ST_REFRESH := 101.
Definition ID_ST_DEVICES := 102.

(** [wchar_t buf[640]]; [%hs] takes the bytes one by one. *)
Definition status_text (st : StatusInfo) : wstr :=
  take 639 (lit "Status: " ++ c_str (statusText st) ++ crnl ++
            lit "Last sync: " ++ (if bool_decide (lastSyncTime st = []) then lit "never" else c_str (lastSyncTime st)) ++
            crnl ++ crnl ++
            lit "Files synchronized: " ++ to_string (filesSynchronized st) ++ crnl ++
            lit "Pending uploads: " ++ to_string (pendingUploads st) ++ crnl ++
            lit "Pending downloads: " ++ to_string (pendingDownloads st) ++ crnl ++
            lit "Conflicts: " ++ to_string (n_conflicts st)).

Definition device_line (d : DeviceInfo) : wstr :=
  if revoked d then []
  else lit (if current d then "- " else "  ") ++ widen (d_name d) ++
       lit (if current d then "  (this device)" else "") ++ crnl.

Definition fillStatus : D unit unit :=
  let* st := engine get_status in
  setText ID_ST_TEXT (status_text st) ;;
  let* (devs, err) := engine (listDevices dir) in
  let lines := mbind device_line (default [] devs) in
  setText ID_ST_DEVICES (if bool_decide (lines = []) then lit "(device list unavailable offline)" else lines).

Definition statusInit : D unit unit :=
  let inner := pixelW kStatus - 32 in
  makeLabel (lit "Notepad++ Sync") 16 12 200 20 0 ;;
  makeEdit ID_ST_TEXT 16 36 inner 140 ;;
  makeLabel (lit "Devices:") 16 184 200 20 0 ;;
  makeEdit ID_ST_DEVICES 16 208 inner 100 ;;
  makeButton ID_ST_REFRESH (lit "Refresh") 233 316 (pushButtonPx (lit "Refresh")) 28 ;;
  makeButton IDOK (lit "Close") 336 316 (pushButtonPx (lit "Close")) 28.

Definition statusProc (m : WMsg) : D unit unit :=
  match m with
  | WM_INITDIALOG => statusInit ;; fillStatus
  | WM_COMMAND id =>
      if id =? ID_ST_REFRESH then fillStatus
      else if (id =? IDOK) || (id =? IDCANCEL) then EndDialog IDOK
      else ret tt
  | WM_CLOSE => EndDialog IDOK
  | _ => ret tt
  end.

Definition showStatus : M Ui unit :=
  run_modal statusProc background kTitleStatus (pixelW kStatus) (pixelH kStatus) tt ;; ret tt.

(** ** Devices *)

Definition ID_DEV_LIST := 100.
Definition ID_DEV_REFRESH := 101.
Definition ID_DEV_RENAME := 102.
Definition ID_DEV_REVOKE := 103.
Definition ID_DEV_PAIR := 104.
Definition ID_DEV_APPROVE := 105.
Definition ID_DEV_MSG := 106.

Definition devices_hint : wstr :=
  lit "New computer: Get my notes. This one, if it has the notes: Allow another computer.".

Definition device_row (d : DeviceInfo) : list wstr :=
  [c_str (widen (d_name d)); c_str (widen (d_id d)); c_str (widen (take 19 (lastSeenAt d)));
   if revoked d then lit "revoked" else if current d then lit "this device" else lit "active"].

(** The context is [devs], which a failed listing leaves as it was. *)
Definition fillDevices : D (list DeviceInfo) unit :=
  set_rows [] ;;
  let* (devs, err) := engine (listDevices dir) in
  match devs with
  | None => setText ID_DEV_MSG (widen err)
  | Some devs =>
      set_ctx (fun _ => devs) ;;
      setText ID_DEV_MSG devices_hint ;;
      set_rows (map device_row devs)
  end.

Definition devicesInit : D (list DeviceInfo) unit :=
  let inner := pixelW kDevices - 32 in
  create ListView ID_DEV_LIST [] 16 12 inner 188 ;;
  makeButton ID_DEV_REFRESH (lit "Refresh") 16 208 (pushButtonPx (lit "Refresh")) 28 ;;
  makeButton ID_DEV_RENAME (lit "Rename") 119 208 (pushButtonPx (lit "Rename")) 28 ;;
  makeButton ID_DEV_REVOKE (lit "Revoke") 215 208 (pushButtonPx (lit "Revoke")) 28 ;;
  makeButton ID_DEV_PAIR (lit "Get my notes") 311 208 (pushButtonPx (lit "Get my notes")) 28 ;;
  makeButton ID_DEV_APPROVE (lit "Allow another computer") 16 244
    (pushButtonPx (lit "Allow another computer")) 28 ;;
  makeButton IDOK (lit "Close") 496 244 (pushButtonPx (lit "Close")) 28 ;;
  makeLabel devices_hint 16 284 inner 40 ID_DEV_MSG.

(** The entry of the selected row. *)
Definition selected_entry {C A} (entries : D C (list A)) : D C (option A) :=
  let* l := entries in
  let* sel := selection (length l) in
  ret (sel ≫= fun i => l !! i).

Definition renameClicked : D (list DeviceInfo) unit :=
  let* sel := selected_entry (gets ctx) in
  match sel with
  | None => ret tt
  | Some d =>
      let* name := on_ui (prompt dir (lit "Rename device") (lit "New name:") (d_name d)) in
      match name with
      | None => ret tt
      | Some name =>
          let* (ok, err) := engine (renameDeviceById dir (d_id d) name) in
          (if ok then ret tt else setText ID_DEV_MSG (widen err)) ;;
          fillDevices
      end
  end.

Definition revoke_question (d : DeviceInfo) : wstr :=
  lit "Revoke device " ++ [QUOTE] ++ widen (d_name d) ++ [QUOTE] ++
  lit "? It will be signed out immediately.".

Definition revokeClicked : D (list DeviceInfo) unit :=
  let* sel := selected_entry (gets ctx) in
  match sel with
  | None => ret tt
  | Some d =>
      if current d then setText ID_DEV_MSG (lit "Use Sign Out to remove this device.")
      else
        let* yes := on_ui (ask_yes_no (revoke_question d)) in
        if negb yes then ret tt
        else
          let* (ok, err) := engine (revokeDeviceById dir (d_id d)) in
          (if ok then ret tt else setText ID_DEV_MSG (widen err)) ;;
          fillDevices
  end.

Definition devicesProc (m : WMsg) : D (list DeviceInfo) unit :=
  match m with
  | WM_INITDIALOG => devicesInit ;; fillDevices
  | WM_COMMAND id =>
      if id =? ID_DEV_REFRESH then fillDevices
      else if id =? ID_DEV_RENAME then renameClicked
      else if id =? ID_DEV_REVOKE then revokeClicked
      else if id =? ID_DEV_PAIR then on_ui (getMyNotes dir) ;; fillDevices
      else if id =? ID_DEV_APPROVE then on_ui (allowAnotherComputer dir)
      else if (id =? IDOK) || (id =? IDCANCEL) then EndDialog IDOK
      else ret tt
  | WM_CLOSE => EndDialog IDOK
  | _ => ret tt
  end.

Definition showDevices : M Ui unit :=
  run_modal devicesProc background kTitleDevices (pixelW kDevices) (pixelH kDevices) [] ;; ret tt.

(** ** Synced files and folders *)

Definition ID_SF_LIST := 100.
Definition ID_SF_ADDFOLDER := 101.
Definition ID_SF_ADDFILE := 102.
Definition ID_SF_REMOVE := 103.
Definition ID_SF_IGNORE := 104.
Definition ID_SF_SAVEIGNORE := 105.
Definition ID_SF_MSG := 106.

(** [rows] and [isFolder] side by side: identifier, path, whether a folder. *)
Definition SyncedFilesCtx : Type := list (str * wstr) * list bool.

(** The loop over [c.rows] with its counter [row]. *)
Fixpoint synced_rows (l : list (str * wstr)) (isFolder : list bool) (row : nat) : list (list wstr) :=
  match l with
  | [] => []
  | (id, path) :: l' =>
      [lit (if default false (isFolder !! row) then "Folder" else "File"); c_str path]
      :: synced_rows l' isFolder (S row)
  end.

Definition fillSyncedFiles : D SyncedFilesCtx unit :=
  set_rows [] ;;
  let* folders := engine listSyncRoots in
  let* files := engine listSyncFiles in
  let l := folders ++ files in
  let kinds := map (fun _ => true) folders ++ map (fun _ => false) files in
  set_ctx (fun _ => (l, kinds)) ;;
  set_rows (synced_rows l kinds 0).

Definition syncedFilesInit : D SyncedFilesCtx unit :=
  let inner := pixelW kSyncedFiles - 32 in
  create ListView ID_SF_LIST [] 16 12 inner 168 ;;
  makeButton ID_SF_ADDFOLDER kAddFolder 16 188 (pushButtonPx kAddFolder) 28 ;;
  makeButton ID_SF_ADDFILE kAddFile 173 188 (pushButtonPx kAddFile) 28 ;;
  makeButton ID_SF_REMOVE kRemoveSelected 312 188 (pushButtonPx kRemoveSelected) 28 ;;
  makeLabel (lit "Ignore patterns (one per line, .gitignore-style; a .npsyncignore file in a synced folder " ++
             lit "also applies):") 16 224 inner 40 0 ;;
  makeEdit ID_SF_IGNORE 16 272 inner 100 ;;
  makeButton ID_SF_SAVEIGNORE kSavePatterns 16 384 (pushButtonPx kSavePatterns) 28 ;;
  makeButton IDOK (lit "Close") 536 384 (pushButtonPx (lit "Close")) 28 ;;
  makeLabel [] 176 388 340 20 ID_SF_MSG ;;
  let* patterns := engine (gets (fun w => Settings.extraIgnorePatterns (settings_ w))) in
  setText ID_SF_IGNORE (show_patterns patterns).

Definition addFolderClicked : D SyncedFilesCtx unit :=
  let* path := on_ui pick_path in
  (match path with
   | Some path => engine (addSyncRootPath path true) ;; setText ID_SF_MSG (lit "Folder added.")
   | None => ret tt
   end) ;;
  fillSyncedFiles.

Definition addFileClicked : D SyncedFilesCtx unit :=
  let* path := on_ui pick_path in
  (match path with
   | Some path => engine (addSyncRootPath path false) ;; setText ID_SF_MSG (lit "File added.")
   | None => ret tt
   end) ;;
  fillSyncedFiles.

Definition remove_question (path : wstr) : wstr :=
  lit "Stop syncing" ++ crnl ++ path ++ crnl ++ crnl ++ lit "(Local files are NOT deleted.)".

Definition removeClicked : D SyncedFilesCtx unit :=
  let* sel := selected_entry (gets (fun s => (ctx s).1)) in
  match sel with
  | None => ret tt
  | Some (id, path) =>
      let* yes := on_ui (ask_yes_no (remove_question path)) in
      if yes then engine (removeSyncRootPath id) ;; fillSyncedFiles else ret tt
  end.

(** [settings_->extraIgnorePatterns = pats]. *)
Definition set_patterns (pats : list str) (s : Settings.Settings) : Settings.Settings :=
  Settings.MkSettings (Settings.startSyncAutomatically s) (Settings.pauseSync s)
    (Settings.syncIntervalFallbackSec s) (Settings.webSocketEnabled s)
    (Settings.notificationsEnabled s) (Settings.syncRoots s) (Settings.syncFiles s)
    pats (Settings.maxFileBytes s) (Settings.sessionMode s)
    (Settings.syncUnsavedNotes s) (Settings.deviceName s) (Settings.deviceId s)
    (Settings.accountId s) (Settings.backendUrl s) (Settings.debugLogging s)
    (Settings.databaseLocation s) (Settings.versionRetention s).

Definition edit_settings (f : Settings.Settings -> Settings.Settings) : M World unit :=
  modify (fun w => put_settings (f (settings_ w)) w).

Definition saveIgnoreClicked : D SyncedFilesCtx unit :=
  let* raw := editText ID_SF_IGNORE in
  engine (edit_settings (set_patterns (parse_patterns raw))) ;;
  engine (saveSettings dir) ;;
  engine reloadRoots ;;
  setText ID_SF_MSG (lit "Patterns saved.").

Definition syncedFilesProc (m : WMsg) : D SyncedFilesCtx unit :=
  match m with
  | WM_INITDIALOG => syncedFilesInit ;; fillSyncedFiles
  | WM_COMMAND id =>
      if id =? ID_SF_ADDFOLDER then addFolderClicked
      else if id =? ID_SF_ADDFILE then addFileClicked
      else if id =? ID_SF_REMOVE then removeClicked
      else if id =? ID_SF_SAVEIGNORE then saveIgnoreClicked
      else if (id =? IDOK) || (id =? IDCANCEL) then EndDialog IDOK
      else ret tt
  | WM_CLOSE => EndDialog IDOK
  | _ => ret tt
  end.

Definition showSyncedFiles : M Ui unit :=
  run_modal syncedFilesProc background kTitleSyncedFiles (pixelW kSyncedFiles) (pixelH kSyncedFiles) ([], []) ;;
  ret tt.

(** ** Conflicts *)

Definition ID_CF_LIST := 100.
Definition ID_CF_LOCAL := 101.
Definition ID_CF_REMOTE := 102.
Definition ID_CF_BOTH := 103.
Definition ID_CF_COMPARE := 104.
Definition ID_CF_REFRESH := 105.
Definition ID_CF_MSG := 106.

Definition conflict_row (c : ConflictState) : list wstr :=
  [c_str (widen (LocalDb.c_relPath c)); take 31 (lit "remote v" ++ to_string (LocalDb.c_remoteVersion c));
   to_string (LocalDb.c_detectedAt c)].

Definition fillConflicts : D (list ConflictState) unit :=
  set_rows [] ;;
  let* items := engine (on_db LocalDb.list_conflicts) in
  set_ctx (fun _ => items) ;;
  set_rows (map conflict_row items) ;;
  setText ID_CF_MSG (lit (match items with [] => "No conflicts." | _ => "" end)).

Definition conflictsInit : D (list ConflictState) unit :=
  let inner := pixelW kConflicts - 32 in
  create ListView ID_CF_LIST [] 16 12 inner 160 ;;
  makeLabel (lit "Both versions are always preserved. Choose a resolution:") 16 180 inner 20 0 ;;
  makeButton ID_CF_LOCAL (lit "Keep Local") 16 208 (pushButtonPx (lit "Keep Local")) 28 ;;
  makeButton ID_CF_REMOTE (lit "Keep Remote") 146 208 (pushButtonPx (lit "Keep Remote")) 28 ;;
  makeButton ID_CF_BOTH (lit "Keep Both") 285 208 (pushButtonPx (lit "Keep Both")) 28 ;;
  makeButton ID_CF_COMPARE (lit "Open Comparison") 406 208 (pushButtonPx (lit "Open Comparison")) 28 ;;
  makeButton ID_CF_REFRESH (lit "Refresh") 16 252 (pushButtonPx (lit "Refresh")) 28 ;;
  makeButton IDOK (lit "Close") 556 252 (pushButtonPx (lit "Close")) 28 ;;
  makeLabel [] 120 256 420 20 ID_CF_MSG.

Definition resolve (strategy : string) : D (list ConflictState) unit :=
  let* sel := selected_entry (gets ctx) in
  match sel with
  | None => ret tt
  | Some c =>
      let* (ok, err) := engine (resolveConflict dir (LocalDb.c_fileId c) (lit strategy)) in
      setText ID_CF_MSG (if ok then lit "Resolved." else widen err) ;;
      fillConflicts
  end.

Definition compareClicked : D (list ConflictState) unit :=
  let* sel := selected_entry (gets ctx) in
  match sel with
  | None => ret tt
  | Some c =>
      let localCopy := widen (LocalDb.c_localCopyPath c) in
      if bool_decide (localCopy = []) then ret tt else on_ui (log_open localCopy)
  end.

Definition conflictsProc (m : WMsg) : D (list ConflictState) unit :=
  match m with
  | WM_INITDIALOG => conflictsInit ;; fillConflicts
  | WM_COMMAND id =>
      if id =? ID_CF_LOCAL then resolve "keepLocal"
      else if id =? ID_CF_REMOTE then resolve "keepRemote"
      else if id =? ID_CF_BOTH then resolve "keepBoth"
      else if id =? ID_CF_COMPARE then compareClicked
      else if id =? ID_CF_REFRESH then fillConflicts
      else if (id =? IDOK) || (id =? IDCANCEL) then EndDialog IDOK
      else ret tt
  | WM_CLOSE => EndDialog IDOK
  | _ => ret tt
  end.

Definition showConflicts : M Ui unit :=
  run_modal conflictsProc background kTitleConflicts (pixelW kConflicts) (pixelH kConflicts) [] ;; ret tt.
End dialogs.

End Managers.
