(* ===== verification/SettingsDialog.v ===== *)
(** * SettingsDialog: Dialogs.cpp, the tabbed settings dialog

    [WM_INITDIALOG] writes the settings into the controls, Save reads them back,
    field by field. *)
From S2P Require Import Prelude Text Platform PathUtil LocalDb Settings Logger DialogLayout.
From S2P Require Import EngineState EngineKeys EngineSync EngineRun Window Dialogs Managers.
Import Engine EngineKeys EngineSync EngineRun DialogLayout Window Dialogs Managers.

#[local] Open Scope monad_scope.

Module SettingsDialog.

Definition ID_SET_TAB := 100.
Definition ID_SET_OK := 101.
Definition ID_SET_CANCEL := 102.
Definition ID_SET_MSG := 103.
Definition ID_G_AUTOSTART := 200.
Definition ID_G_PAUSE := 201.
Definition ID_G_INTERVAL := 202.
Definition ID_G_WS := 203.
Definition ID_G_NOTIFY := 204.
Definition ID_F_MAXSIZE := 205.
Definition ID_F_IGNORE := 206.
Definition ID_S_FILESONLY := 207.
Definition ID_S_TABS := 208.
Definition ID_S_CURSOR := 209.
Definition ID_S_UNSAVED := 210.
Definition ID_SEC_DEVNAME := 211.
Definition ID_SEC_RECOVERY := 212.
Definition ID_SEC_DEVICES := 213.
Definition ID_A_URL := 214.
Definition ID_A_DEBUG := 215.
Definition ID_A_DBLOC := 216.
Definition ID_A_RESET := 217.

(** The control identifiers of each tab. *)
Definition SettingsCtx : Type := list (list Z).

Definition tab_controls : SettingsCtx :=
  [[ID_G_AUTOSTART; ID_G_PAUSE; ID_G_WS; ID_G_NOTIFY; ID_G_INTERVAL; 219];
   [ID_F_MAXSIZE; ID_F_IGNORE; 237; 238; 239];
   [ID_S_FILESONLY; ID_S_TABS; ID_S_CURSOR; ID_S_UNSAVED];
   [ID_SEC_DEVNAME; ID_SEC_RECOVERY; ID_SEC_DEVICES; 279];
   [ID_A_URL; ID_A_DEBUG; ID_A_DBLOC; ID_A_RESET; 297; 298]].

Section dialog.
Context `{Win32Text} `{CNG} `{Json} `{DPAPI} `{LocalTime}.
Context (dir : wstr).
Abbreviation Dlg := (D SettingsCtx unit).

(** The outer loop with its counter [t]. *)
Fixpoint show_tabs (l : SettingsCtx) (t tab : Z) : Dlg :=
  match l with
  | [] => ret tt
  | ids :: l' => for_each ids (fun id => ShowWindow id (t =? tab)) ;; show_tabs l' (t + 1) tab
  end.

Definition settingsShowTab (tab : Z) : Dlg := let* c := gets ctx in show_tabs c 0 tab.

Definition tx := 16.
Definition ty := 48.
Definition inner := pixelW kSettings - 32.

Definition generalTab (s : Settings.Settings) : Dlg :=
  makeCheck ID_G_AUTOSTART (lit "Start sync automatically") tx ty
    (checkBoxPx (lit "Start sync automatically")) (Settings.startSyncAutomatically s) ;;
  makeCheck ID_G_PAUSE (lit "Pause sync") tx (ty + 28) (checkBoxPx (lit "Pause sync")) (Settings.pauseSync s) ;;
  makeCheck ID_G_WS (lit "Realtime connection (WebSocket)") tx (ty + 56)
    (checkBoxPx (lit "Realtime connection (WebSocket)")) (Settings.webSocketEnabled s) ;;
  makeCheck ID_G_NOTIFY (lit "Notifications") tx (ty + 84) (checkBoxPx (lit "Notifications"))
    (Settings.notificationsEnabled s) ;;
  makeLabel (lit "Sync interval fallback (sec):") tx (ty + 120) (labelPx (lit "Sync interval fallback (sec):")) 20 219 ;;
  makeEdit ID_G_INTERVAL 308 (ty + 118) 70 22 ;;
  setText ID_G_INTERVAL (widen (to_string (Settings.syncIntervalFallbackSec s))).

Definition filesTab (s : Settings.Settings) : Dlg :=
  makeLabel (lit "Max file size (MB):") tx ty (labelPx (lit "Max file size (MB):")) 20 238 ;;
  makeEdit ID_F_MAXSIZE 220 (ty - 2) 70 22 ;;
  setText ID_F_MAXSIZE (widen (to_string (Z.quot (Z.quot (Settings.maxFileBytes s) 1024) 1024))) ;;
  makeLabel (lit "Manage synced folders/files with 'Synced Files/Folders' in the plugin menu.") tx
    (ty + 32) inner 40 239 ;;
  makeLabel (lit "Ignore patterns:") tx (ty + 80) (labelPx (lit "Ignore patterns:")) 20 237 ;;
  makeEdit ID_F_IGNORE tx (ty + 104) inner 100 ;;
  setText ID_F_IGNORE (show_patterns (Settings.extraIgnorePatterns s)).

(** [CheckRadioButton(first, last, checked)]: one of the group is marked, or none
    when [checked] lies outside it. *)
Definition CheckRadioButton (ids : list Z) (id : Z) : Dlg :=
  for_each ids (fun i => update (set_check i (i =? id))).

Definition sessionTab (s : Settings.Settings) : Dlg :=
  makeRadio ID_S_FILESONLY (lit "Sync files only") tx ty 420 22 ;;
  makeRadio ID_S_TABS (lit "Sync files + open tabs") tx (ty + 30) 420 22 ;;
  makeRadio ID_S_CURSOR (lit "Sync files + tabs + cursor positions") tx (ty + 60) 420 22 ;;
  CheckRadioButton [ID_S_FILESONLY; ID_S_TABS; ID_S_CURSOR] (wrap_i32 (ID_S_FILESONLY + Settings.sessionMode s)) ;;
  makeCheck ID_S_UNSAVED (lit "Sync unsaved notes (WARNING: uploads never-saved scratch content)") tx
    (ty + 96) (checkBoxPx (lit "Sync unsaved notes (WARNING: uploads never-saved scratch content)"))
    (Settings.syncUnsavedNotes s).

Definition securityTab (s : Settings.Settings) : Dlg :=
  makeLabel (lit "This device name:") tx ty (labelPx (lit "This device name:")) 20 279 ;;
  makeEdit ID_SEC_DEVNAME 210 (ty - 2) 250 22 ;;
  setText ID_SEC_DEVNAME (widen (Settings.deviceName s)) ;;
  makeButton ID_SEC_RECOVERY (lit "Show recovery key") tx (ty + 36) (pushButtonPx (lit "Show recovery key")) 28 ;;
  makeButton ID_SEC_DEVICES (lit "Manage devices...") tx (ty + 76) (pushButtonPx (lit "Manage devices...")) 28.

Definition advancedTab (s : Settings.Settings) : Dlg :=
  makeLabel (lit "Backend URL:") tx ty (labelPx (lit "Backend URL:")) 20 298 ;;
  makeEdit ID_A_URL tx (ty + 24) inner 22 ;;
  setText ID_A_URL (widen (Settings.backendUrl s)) ;;
  makeCheck ID_A_DEBUG (lit "Debug logging") tx (ty + 60) (checkBoxPx (lit "Debug logging"))
    (Settings.debugLogging s) ;;
  makeLabel (lit "Database location (blank = default):") tx (ty + 92)
    (labelPx (lit "Database location (blank = default):")) 20 297 ;;
  makeEdit ID_A_DBLOC tx (ty + 116) inner 22 ;;
  setText ID_A_DBLOC (Settings.databaseLocation s) ;;
  makeButton ID_A_RESET (lit "Reset local sync state...") tx (ty + 152)
    (pushButtonPx (lit "Reset local sync state...")) 28.

Definition settingsInit : Dlg :=
  let* s := engine (gets settings_) in
  create TabControl ID_SET_TAB [] 8 8 (pixelW kSettings - 16) 28 ;;
  generalTab s ;; filesTab s ;; sessionTab s ;; securityTab s ;; advancedTab s ;;
  makeButton ID_SET_OK (lit "Save") 480 296 (pushButtonPx (lit "Save")) 28 ;;
  makeButton ID_SET_CANCEL (lit "Cancel") 576 296 (pushButtonPx (lit "Cancel")) 28 ;;
  makeLabel [] 16 300 450 20 ID_SET_MSG ;;
  set_ctx (fun _ => tab_controls) ;;
  settingsShowTab 0.

(** ** Save *)

(** [try { ... std::stoi(...) ... } catch (...) {}]. *)
Definition or_keep (o : outcome Z) (old : Z) (f : Z -> Z) : Z :=
  match o with Ok n => f n | Throw _ => old end.

Definition read_interval (text : wstr) (old : Z) : Z :=
  or_keep (stoi (narrow text)) old (fun n => Z.max 5 n).

Definition read_max_size (text : wstr) (old : Z) : Z :=
  or_keep (stoi (narrow text)) old (fun n => Z.max 1 n * 1024 * 1024).

(** The controls as Save finds them. *)
Definition read_controls (v : Win) (s : Settings.Settings) : Settings.Settings :=
  let text id := default [] (texts v !! id) in
  let check id := default false (checks v !! id) in
  Settings.MkSettings (check ID_G_AUTOSTART) (Settings.pauseSync s)
    (read_interval (text ID_G_INTERVAL) (Settings.syncIntervalFallbackSec s))
    (check ID_G_WS) (check ID_G_NOTIFY) (Settings.syncRoots s) (Settings.syncFiles s)
    (parse_patterns (text ID_F_IGNORE))
    (read_max_size (text ID_F_MAXSIZE) (Settings.maxFileBytes s))
    (if check ID_S_FILESONLY then 0 else if check ID_S_TABS then 1 else 2)
    (check ID_S_UNSAVED) (narrow (text ID_SEC_DEVNAME)) (Settings.deviceId s) (Settings.accountId s)
    (if bool_decide (narrow (text ID_A_URL) = []) then Settings.backendUrl s else narrow (text ID_A_URL))
    (check ID_A_DEBUG) (text ID_A_DBLOC) (Settings.versionRetention s).

Definition saveClicked : Dlg :=
  let* v := gets win in
  engine (edit_settings (read_controls v)) ;;
  let* newPause := checkState ID_G_PAUSE in
  engine (saveSettings dir) ;;
  engine (setPaused dir newPause) ;;
  engine reloadRoots ;;
  let* debug := engine (gets (fun w => Settings.debugLogging (settings_ w))) in
  on_ui (modify (fun u => put_log (Logger.setLevel (if debug then Logger.LDebug else Logger.LInfo) (log_ u)) u)) ;;
  EndDialog IDOK.

(** ** The other buttons *)

Definition no_recovery_key : wstr :=
  lit "No recovery key is stored on this device." ++ nl ++ nl ++
  lit "A recovery key on another computer does not unlock this one. " ++
  lit "This computer gets the encryption key when the other computer " ++
  lit "chooses Allow another computer.".
Definition recovery_shown (rk : str) : wstr :=
  lit "Your recovery key (keep it with this computer):" ++ nl ++ nl ++ widen rk ++ nl ++ nl ++
  lit "This key only unwraps the copy stored for this Windows user. " ++
  lit "Typing it on another computer does not open your notes. " ++
  lit "The other computer gets the key when you choose Allow another computer here.".

Definition recoveryClicked : Dlg :=
  let* rk := engine (exportRecoveryKeyWrapped dir) in
  on_ui (message_ok (if bool_decide (rk = []) then no_recovery_key else recovery_shown rk)).

Definition reset_question : wstr :=
  lit "Reset local sync state? The local database, queue, and shadow copies " ++
  lit "are cleared; files on disk are kept. The next sync reconciles with the server.".

(** [settings()->databaseLocation = L""]. *)
Definition clear_location (s : Settings.Settings) : Settings.Settings :=
  Settings.MkSettings (Settings.startSyncAutomatically s) (Settings.pauseSync s)
    (Settings.syncIntervalFallbackSec s) (Settings.webSocketEnabled s)
    (Settings.notificationsEnabled s) (Settings.syncRoots s) (Settings.syncFiles s)
    (Settings.extraIgnorePatterns s) (Settings.maxFileBytes s) (Settings.sessionMode s)
    (Settings.syncUnsavedNotes s) (Settings.deviceName s) (Settings.deviceId s)
    (Settings.accountId s) (Settings.backendUrl s) (Settings.debugLogging s) [] (Settings.versionRetention s).

Definition resetClicked : Dlg :=
  let* yes := on_ui (ask_yes_no reset_question) in
  if negb yes then ret tt
  else
    setText ID_SET_MSG (lit "Restart Notepad++ to complete the reset.") ;;
    engine (edit_settings clear_location) ;;
    engine (saveSettings dir).

Definition settingsProc (m : WMsg) : Dlg :=
  match m with
  | WM_INITDIALOG => settingsInit
  | WM_NOTIFY_TAB tab => settingsShowTab tab
  | WM_COMMAND id =>
      if id =? ID_SEC_RECOVERY then recoveryClicked
      else if id =? ID_SEC_DEVICES then on_ui (showDevices dir)
      else if id =? ID_A_RESET then resetClicked
      else if id =? ID_SET_OK then saveClicked
      else if id =? ID_SET_CANCEL then EndDialog IDCANCEL
      else ret tt
  | WM_CLOSE => EndDialog IDCANCEL
  | WM_TIMER _ => ret tt
  end.

Definition showSettings : M Ui unit :=
  run_modal settingsProc (background dir) kTitleSettings (pixelW kSettings) (pixelH kSettings) [] ;; ret tt.
End dialog.

End SettingsDialog.
