(* ===== verification/DialogFacts.v ===== *)
(** * DialogFacts: what a dialog may do to the user's side and the engine

    [Ui] is followed along a preorder [R]: [goes R m] says that [m] moves along
    it, [goesD R m] says so of a step of a dialog. The modal loop follows [R]
    when the dialog's procedure does and taking the next message does. Two
    instances: [via Q], in which the engine performs operations of [Q] and those
    of its threads and the dialog only looks in between ([asks]: all but what a
    look may move, [unread], stays, or the settings are saved the way the window
    saves them), and [same f], which keeps a component. *)
From S2P Require Import Prelude Text Platform PathUtil FileSystem LocalDb Settings Logger DialogLayout.
From S2P Require Import ApiClient EngineState EngineKeys EngineSync EngineRun EngineFacts.
From S2P Require Import Window Dialogs Managers SettingsDialog.
Import Engine EngineKeys EngineSync EngineRun EngineFacts Window Dialogs Managers SettingsDialog.

#[local] Open Scope monad_scope.

Module DialogFacts.

(** ** Steps along a preorder *)

Definition goes {A} (R : relation Ui) (m : M Ui A) : Prop := forall u, R u (m u).2.
Definition goesD {C A} (R : relation Ui) (m : D C A) : Prop := forall s, R (ui s) (ui (m s).2).

Create HintDb goes discriminated.

Section preorder.
Context (R : relation Ui) `{!PreOrder R}.

Lemma goes_bind {A B} (m : M Ui A) (k : A -> M Ui B) :
  goes R m -> (forall a, goes R (k a)) -> goes R (bind m k).
Proof.
  intros Hm Hk u. specialize (Hm u). unfold bind. destruct (m u) as [[a|e] u1]; [|done].
  etransitivity; [exact Hm|apply Hk].
Qed.

Lemma goesD_bind {C A B} (m : D C A) (k : A -> D C B) :
  goesD R m -> (forall a, goesD R (k a)) -> goesD R (bind m k).
Proof.
  intros Hm Hk s. specialize (Hm s). unfold bind. destruct (m s) as [[a|e] s1]; [|done].
  etransitivity; [exact Hm|apply Hk].
Qed.

Lemma goes_still {A} (m : M Ui A) : (forall u, (m u).2 = u) -> goes R m.
Proof. intros Hm u. by rewrite Hm. Qed.
Lemma goesD_still {C A} (m : D C A) : (forall s, ui (m s).2 = ui s) -> goesD R m.
Proof. intros Hm s. by rewrite Hm. Qed.

Lemma goesD_ui {C A} (m : M Ui A) : goes R m -> goesD (C := C) R (on_ui m).
Proof. intros Hm s. specialize (Hm (ui s)). unfold on_ui, zoom. by destruct (m (ui s)). Qed.

Lemma goesD_for_each {C A} (l : list A) (body : A -> D C unit) :
  (forall x, goesD R (body x)) -> goesD R (for_each l body).
Proof.
  intros Hb. induction l as [|x l IH]; [by apply goesD_still|]. by apply goesD_bind.
Qed.

(** *** The modal loop *)

Context (bg : op -> M World unit).
Context (Hwait : forall t, goes R (modify (fun u => put_ticks (ticks u + Z.of_N t) u))).
Context (Hpop : forall u m l, msgs u = m :: l -> R u (put_msgs l u)).
Context (Hbg : forall u o l, msgs u = Meanwhile o :: l ->
  R u (put_world (bg o (world u)).2 (put_msgs l u))).

Lemma goesD_loop {C} (proc : WMsg -> D C unit) (fuel : nat) :
  (forall m, goesD R (proc m)) -> goesD R (loop proc bg fuel).
Proof.
  intros Hp. induction fuel as [|fuel IH]; [by apply goesD_still|]. cbn [loop].
  apply goesD_bind; [by apply goesD_still|intros [r|]; [by apply goesD_still|]].
  intros s. unfold bind, next_msg.
  assert (forall id (m : D C unit), goesD R m -> goesD R (unless_disabled id m)) as Hun.
  { intros id m Hm. apply goesD_bind; [by apply goesD_still|intros []; [by apply goesD_still|done]]. }
  assert (forall (m : D C unit) s0 s1, R s0 (ui s1) -> goesD R m ->
    R s0 (ui (let (o, s') := m s1 in match o with Ok _ => loop proc bg fuel s' | Throw e => (Throw e, s') end).2))
    as Hthen.
  { intros m s0 s1 H01 Hm. specialize (Hm s1). destruct (m s1) as [[[]|e] s2]; cbn [snd] in *;
      [|by etransitivity]. etransitivity; [|apply IH]. by etransitivity. }
  destruct (msgs (ui s)) as [|m l] eqn:E; [by apply Hthen; [|apply Hp]|].
  destruct m as [id|id| |id t|id b|row|tab|ms|o]; cbn [dispatch].
  9: { unfold engine, on_ui, on_engine, zoom. cbn. specialize (Hbg _ _ _ E).
       destruct (bg o (world (ui s))) as [[[]|e] w]; cbn [snd] in *; [|exact Hbg].
       etransitivity; [exact Hbg|]. apply (IH (MkModal _ _ _)). }
  all: apply Hthen; [by eapply Hpop|].
  all: try apply Hp; try (by apply goesD_still); try apply Hun; try apply Hp; try (by apply goesD_still).
  - apply goesD_bind; [by apply goesD_still|intros _; apply Hp].
  - apply goesD_ui, Hwait.
Qed.

Lemma goes_run_modal {C} (proc : WMsg -> D C unit) title w h c :
  (forall m, goesD R (proc m)) -> goes R (run_modal proc bg title w h c).
Proof.
  intros Hp u. unfold run_modal. destruct (begin title w h) as [f|e]; [|reflexivity].
  set (m := (proc WM_INITDIALOG ;; loop proc bg _)).
  assert (goesD R m) as Hm by (apply goesD_bind; [apply Hp|intros _; by apply goesD_loop]).
  specialize (Hm (MkModal u (fresh_window f) c)). cbn [ui] in Hm.
  by destruct (m _) as [[r|e] s].
Qed.
End preorder.

#[export] Hint Resolve goesD_ui : goes.

(** Take an operation apart; what is left are the calls with lemmas of their own. *)
Ltac goes_steps :=
  repeat first
    [ solve [auto with goes]
    | match goal with
      | |- goes _ (bind _ _) => apply goes_bind; [apply _| |intros ?]
      | |- goesD _ (bind _ _) => apply goesD_bind; [apply _| |intros ?]
      | |- goesD _ (for_each _ _) => apply goesD_for_each; [apply _|intros ?]
      | |- goes _ (match ?x with _ => _ end) => destruct x
      | |- goesD _ (match ?x with _ => _ end) => destruct x
      end
    | apply goes_still; [apply _|done]
    | apply goesD_still; [apply _|done] ].

(** ** Messages *)

Lemma next_msg_Ok {C} (s s' : Modal C) m : next_msg s = (Ok m, s') ->
  (msgs (ui s) = [] /\ m = CloseBox /\ s' = s) \/
  exists l, msgs (ui s) = m :: l /\ s' = MkModal (put_msgs l (ui s)) (win s) (ctx s).
Proof.
  unfold next_msg. destruct (msgs (ui s)) as [|m0 l]; intros [= <- <-]; [by left|right]. by exists l.
Qed.

Lemma unless_disabled_Ok {C} id (m : D C unit) s s' :
  unless_disabled id m s = (Ok tt, s') -> s' = s \/ m s = (Ok tt, s').
Proof.
  unfold unless_disabled, bind, gets. destruct (bool_decide _); [intros [= <-]; by left|by right].
Qed.

(** The mark of a control leaves the rest of the window. *)
Lemma mark_frame {X} (f : Win -> X) id b v :
  (forall i c w, f (set_check i c w) = f w) -> f (mark id b v) = f v.
Proof.
  intros Hf. unfold mark. destruct (find _ _) as [c|]; [|done]. destruct (kind c); try done; [].
  rewrite Hf. induction (controls v) as [|c0 l IH]; [done|]. cbn [foldr]. destruct (kind c0); by rewrite ?Hf.
Qed.

(** ** The states of an open dialog *)

Section states.
Context {C : Type} (proc : WMsg -> D C unit) (bg : op -> M World unit) (title : wstr) (w h : Z) (c : C) (u : Ui).

(** What the user has in front of him, message after message. *)
Inductive shown : Modal C -> Prop :=
  | shown_init f s :
      begin title w h = Ok f -> proc WM_INITDIALOG (MkModal u (fresh_window f) c) = (Ok tt, s) -> shown s
  | shown_msg s m s1 s' :
      shown s -> ended (win s) = None -> next_msg s = (Ok m, s1) -> dispatch proc bg m s1 = (Ok tt, s') ->
      shown s'.

Lemma loop_shown fuel s r s' :
  shown s -> loop proc bg fuel s = (Ok (Some r), s') -> shown s' /\ ended (win s') = Some r.
Proof.
  revert s. induction fuel as [|fuel IH]; intros s Hs E; [done|]. cbn [loop] in E.
  apply bind_Ok in E as (e & s0 & [= <- <-] & E). destruct (ended (win s)) as [r'|] eqn:Ee.
  - by injection E as <- <-.
  - apply bind_Ok in E as (m & s1 & E1 & E). apply bind_Ok in E as ([] & s2 & E2 & E).
    eapply IH; [|exact E]. by eapply shown_msg.
Qed.

Lemma run_modal_shown r c' u' : run_modal proc bg title w h c u = (Ok (Some r, c'), u') ->
  exists s, shown s /\ ended (win s) = Some r /\ ctx s = c' /\ ui s = u'.
Proof.
  unfold run_modal. destruct (begin title w h) as [f|e] eqn:Ef; [|done].
  unfold bind. destruct (proc WM_INITDIALOG _) as [[[]|e] s0] eqn:E0; [|done].
  destruct (loop _ _ _ s0) as [[r0|e] s] eqn:El; [|done]. intros [= -> <- <-].
  apply loop_shown in El as [Hs He]; [|by eapply shown_init]. by exists s.
Qed.

(** An invariant of the dialog's procedure, of its messages and of the user's
    input holds of every state. *)
Lemma shown_ind_inv (I : Modal C -> Prop) :
  (forall f s, begin title w h = Ok f -> proc WM_INITDIALOG (MkModal u (fresh_window f) c) = (Ok tt, s) -> I s) ->
  (forall s m s1 s', I s -> ended (win s) = None -> next_msg s = (Ok m, s1) ->
     dispatch proc bg m s1 = (Ok tt, s') -> I s') ->
  forall s, shown s -> I s.
Proof. intros Hi Hm s. induction 1; eauto. Qed.
End states.

(** ** Components that stay as they are *)

Definition same {X} (f : Ui -> X) (u u' : Ui) : Prop := f u' = f u.

#[export] Instance same_preorder {X} (f : Ui -> X) : PreOrder (same f).
Proof. split; [done|]. intros u1 u2 u3. unfold same. congruence. Qed.

(** ** Runs of the engine *)

Section via.
Context `{Win32Text} `{CNG} `{Json} `{DPAPI} `{LocalTime}.
Context (dir : wstr).

(** What a look at the engine leaves: everything but the scripts that say
    whether the next access to the database or to a file goes wrong. *)
Definition unread (w : World) : World :=
  put_db (LocalDb.MkDb (LocalDb.opened (db w)) (LocalDb.tables (db w)) [])
    (put_fs (FileSystem.MkFs (FileSystem.disk (fs w)) (FileSystem.dirs (fs w)) []) w).

(** From [w] to [w'] the dialog had the engine do [os], and did nothing else to
    it: between the operations there are looks only, and the settings, which the
    engine reads through a pointer, change only as [E] says and only in the
    moment they are saved. In contrast to [steps], no environment moves here. *)
Inductive asks (E : relation Settings.Settings) : World -> list op -> World -> Prop :=
  | asks_nil w : asks E w [] w
  | asks_look w w1 os w' : unread w1 = unread w -> asks E w1 os w' -> asks E w os w'
  | asks_op w o os w' : asks E (run dir o w) os w' -> asks E w (o :: os) w'
  | asks_save w s os w' :
      E (settings_ w) s -> asks E (run dir OSaveSettings (put_settings s w)) os w' ->
      asks E w (OSaveSettings :: os) w'.

Lemma asks_app E w os w1 os' w' : asks E w os w1 -> asks E w1 os' w' -> asks E w (os ++ os') w'.
Proof. induction 1; cbn [app]; eauto using asks. Qed.

Lemma asks_mono (E E' : relation Settings.Settings) w os w' :
  (forall s s', E s s' -> E' s s') -> asks E w os w' -> asks E' w os w'.
Proof. intros HE. induction 1; eauto using asks. Qed.

Lemma unread_env w w' : unread w' = unread w -> environment w w'.
Proof. destruct w, w'. cbn. intros [=]. unfold environment. cbn. subst. by split_and!. Qed.

Lemma asks_steps E w os w' : asks E w os w' -> steps dir w os w'.
Proof.
  induction 1; [constructor| |by apply steps_op|].
  - eapply steps_env; [|done]. by apply unread_env.
  - apply (steps_env _ _ (put_settings s w)); [by repeat split|]. by apply steps_op.
Qed.

Lemma asks_looks E w os w' : asks E w os w' -> os = [] -> unread w' = unread w.
Proof. induction 1; intros Hos; try done. rewrite IHasks by done. done. Qed.

(** The changes of the settings that a dialog with these operations may make:
    the patterns in the window of the synced files, the values of the controls
    and the reset in the settings window. *)
Definition edits (Q : op -> Prop) (s s' : Settings.Settings) : Prop :=
  (Q (OAddRoot [] true) /\ exists l, s' = set_patterns l s) \/
  (Q (OSetPaused true) /\ ((exists v, s' = read_controls v s) \/ s' = clear_location s)).

(** The user's messages are taken from the front, and the engine goes through
    operations of [Q] and those of its threads that the messages tell of. *)
Definition via (Q : op -> Prop) (u u' : Ui) : Prop :=
  (exists k, msgs u' = drop k (msgs u)) /\
  exists os, Forall (fun o => Q o \/ (from_within o = true /\ Meanwhile o ∈ msgs u)) os /\
    asks (edits Q) (world u) os (world u').

Lemma via_steps Q u u' : via Q u u' -> exists os,
  Forall (fun o => Q o \/ (from_within o = true /\ Meanwhile o ∈ msgs u)) os /\ steps dir (world u) os (world u').
Proof. intros [_ (os & Hos & Hs)]. exists os. split; [done|]. by eapply asks_steps. Qed.

#[export] Instance via_preorder Q : PreOrder (via Q).
Proof.
  split.
  - intros u. split; [by exists 0%nat|]. exists []. split; [done|constructor].
  - intros u1 u2 u3 [[k1 E1] (os1 & F1 & S1)] [[k2 E2] (os2 & F2 & S2)]. split.
    + exists (k1 + k2)%nat. by rewrite E2, E1, drop_drop.
    + exists (os1 ++ os2). split; [|by eapply asks_app].
      apply Forall_app_2; [done|]. eapply Forall_impl; [exact F2|].
      intros o [Ho|[Ho Hin]]; [by left|right]. split; [done|]. rewrite E1 in Hin.
      rewrite <- (take_drop k1 (msgs u1)). set_solver.
Qed.

Lemma via_look {A} Q (m : M World A) : keeps unread m -> goes (via Q) (on_engine m).
Proof.
  intros Hm u. specialize (Hm (world u)). unfold on_engine, zoom. destruct (m (world u)) as [r w].
  split; [by exists 0%nat|]. exists []. split; [done|]. eapply asks_look; [exact Hm|constructor].
Qed.

(** *** The looks *)

Lemma look_query {A} (rows : LocalDb.Tables -> list A) : keeps unread (on_db (LocalDb.query rows)).
Proof.
  intros w. destruct w as [? [[] ? ?] ? ? ? ? ? ? ? ? ? ? ? ? ? ?]; reflexivity.
Qed.
Lemma look_pendingOpCount : keeps unread (on_db LocalDb.pendingOpCount).
Proof. apply keeps_on_db_bind; [apply look_query|]. intros a w. by destruct w. Qed.
Lemma look_conflictCount : keeps unread (on_db LocalDb.conflictCount).
Proof. apply keeps_on_db_bind; [apply look_query|]. intros a w. by destruct w. Qed.
Lemma look_listSyncRoots : keeps unread listSyncRoots.
Proof. unfold listSyncRoots. apply keeps_bind; [apply look_query|done]. Qed.
Lemma look_listSyncFiles : keeps unread listSyncFiles.
Proof. unfold listSyncFiles. apply keeps_bind; [apply look_query|done]. Qed.
Lemma look_get_status : keeps unread get_status.
Proof.
  unfold get_status. apply keeps_bind; [done|intros out]. apply keeps_bind; [done|intros []]; [|done].
  apply keeps_bind; [apply look_pendingOpCount|intros p]. apply keeps_bind; [apply look_conflictCount|intros c].
  apply keeps_bind; [apply look_query|done].
Qed.
Lemma look_recovery_key : keeps unread (exportRecoveryKeyWrapped dir).
Proof.
  unfold exportRecoveryKeyWrapped, loadSecret. apply keeps_bind; [|by intros]. intros w.
  unfold on_fs, zoom, Settings.loadSecret, FileSystem.read_file, FileSystem.next_io, bind, gets, ret.
  destruct w as [[] ? ? ? ? ? ? ? ? ? ? ? ? ? ? ?]. cbn. by repeat case_match; simplify_eq/=.
Qed.

Lemma via_op {A} Q (m : M World A) o :
  (forall w, (m w).2 = run dir o w) -> Q o -> goes (via Q) (on_engine m).
Proof.
  intros Hm Ho u. specialize (Hm (world u)). unfold on_engine, zoom. destruct (m (world u)) as [r w].
  cbn [snd] in *. subst w. split; [by exists 0%nat|]. exists [o]. split; [constructor; [by left|constructor]|].
  apply asks_op. constructor.
Qed.

(** The settings are edited and saved in one go. *)
Lemma via_edit_save {C} Q f (s : Modal C) :
  (forall st, edits Q st (f st)) -> Q OSaveSettings ->
  via Q (ui s) (ui ((engine (edit_settings f) ;; engine (saveSettings dir)) s).2).
Proof.
  intros Hf HQ. unfold engine, on_ui, on_engine, edit_settings, modify, bind, zoom. cbn.
  match goal with |- context [saveSettings dir ?w] => destruct (saveSettings dir w) as [r w'] eqn:E end. cbn.
  split; [by exists 0%nat|]. exists [OSaveSettings]. split; [by repeat constructor|]. cbn.
  eapply asks_save; [apply (Hf _)|]. unfold run, exec. rewrite E. constructor.
Qed.

Lemma via_save {C A B} Q f (g : Modal C -> A) (k : A -> unit -> D C B) :
  (forall st, edits Q st (f st)) -> Q OSaveSettings -> (forall a b, goesD (via Q) (k a b)) ->
  goesD (via Q) (engine (edit_settings f) ;; let* a := gets g in bind (engine (saveSettings dir)) (k a)).
Proof.
  intros Hf HQ Hk s. pose proof (via_edit_save Q f s Hf HQ) as Hv. unfold bind in *.
  destruct (engine (edit_settings f) s) as [[[]|e] s1]; [|exact Hv]. unfold gets.
  destruct (engine (saveSettings dir) s1) as [[[]|e] s2]; [|exact Hv].
  etransitivity; [exact Hv|apply Hk].
Qed.

(** A change of the user's side only. *)
Lemma via_user {A} Q (m : M Ui A) :
  (forall u, world (m u).2 = world u /\ msgs (m u).2 = msgs u) -> goes (via Q) m.
Proof.
  intros Hm u. destruct (Hm u) as [Ew Em]. split; [by exists 0%nat|]. exists []. rewrite Ew.
  split; [done|constructor].
Qed.

Lemma via_run_modal {C} Q (proc : WMsg -> D C unit) title w h c :
  (forall m, goesD (via Q) (proc m)) -> goes (via Q) (run_modal proc (background dir) title w h c).
Proof.
  apply goes_run_modal; [apply _| | |].
  - intros t. by apply via_user.
  - intros u m l E. split; [exists 1%nat; by rewrite E|]. exists []. split; [done|constructor].
  - intros u o l E. split; [exists 1%nat; by rewrite E|]. cbn.
    destruct (from_within o) eqn:Eo.
    + exists [o]. split; [|apply asks_op; constructor]. constructor; [|constructor]. right. split; [done|].
      rewrite E. by left.
    + exists []. split; [done|constructor].
Qed.

End via.

Ltac via_run o := apply (via_op _ _ _ o); [done|by auto].

(** The operation of the engine behind a call, its environment, or the user. *)
Ltac via_call :=
  match goal with
  | |- goes _ (on_engine (gets _)) => by apply via_look
  | |- goes _ (on_engine (signIn _ ?e ?p ?c)) => via_run (OSignIn e p c)
  | |- goes _ (on_engine (startGoogleSignIn _)) => via_run OStartGoogle
  | |- goes _ (on_engine (pollGoogleSignIn _ ?s ?p)) => via_run (OPollGoogle s p)
  | |- goes _ (on_engine (finishFirstRunKeys _ ?c)) => via_run (OFinishFirstRun c)
  | |- goes _ (on_engine (exportRecoveryKeyWrapped _)) =>
      apply via_look, look_recovery_key
  | |- goes _ (on_engine (pairNewDevice _)) => via_run OPairNew
  | |- goes _ (on_engine (approvePairing _ ?c)) => via_run (OApprovePairing c)
  | |- goes _ (on_engine (completePairing _ ?c)) => via_run (OCompletePairing c)
  | |- goes _ (on_engine (listDevices _)) => via_run OListDevices
  | |- goes _ (on_engine (renameDeviceById _ ?i ?n)) => via_run (ORenameDevice i n)
  | |- goes _ (on_engine (revokeDeviceById _ ?i)) => via_run (ORevokeDevice i)
  | |- goes _ (on_engine (addSyncRootPath ?p ?f)) => via_run (OAddRoot p f)
  | |- goes _ (on_engine (removeSyncRootPath ?i)) => via_run (ORemoveRoot i)
  | |- goes _ (on_engine reloadRoots) => via_run OReloadRoots
  | |- goes _ (on_engine (saveSettings _)) => via_run OSaveSettings
  | |- goes _ (on_engine (setPaused _ ?b)) => via_run (OSetPaused b)
  | |- goes _ (on_engine (resolveConflict _ ?f ?s)) => via_run (OResolveConflict f s)
  | |- goes _ (on_engine get_status) => apply via_look, look_get_status
  | |- goes _ (on_engine listSyncRoots) => apply via_look, look_listSyncRoots
  | |- goes _ (on_engine listSyncFiles) => apply via_look, look_listSyncFiles
  | |- goes _ (on_engine (on_db LocalDb.list_conflicts)) => apply via_look, look_query
  | |- goes _ (modify _) => by apply via_user
  | |- goes _ (say _) => by apply via_user
  | |- goes _ (message_ok _) => by apply via_user
  | |- goes _ (ask_yes_no _) => by apply via_user
  | |- goes _ (ask_cancel _) => by apply via_user
  | |- goes _ (log_open _) => by apply via_user
  | |- goes _ next_answer => by apply via_user
  | |- goes _ pick_path => by apply via_user
  | |- goes _ GetTickCount64 => by apply via_user
  | |- goes _ (openHttpUrl _) => apply via_user; intros u; unfold openHttpUrl; by destruct (_ && _)
  end.
#[export] Hint Extern 1 (goes (via _ _) _) => via_call : goes.
#[export] Hint Extern 2 (goesD _ (engine _)) => unfold engine : goes.

(** ** What each dialog asks of the engine *)

Definition sign_in_op (o : op) : bool :=
  match o with OSignIn _ _ _ | OStartGoogle | OPollGoogle _ _ => true | _ => false end.
Definition get_notes_op (o : op) : bool :=
  match o with OPairNew | OCompletePairing _ => true | _ => false end.
Definition allow_op (o : op) : bool := match o with OApprovePairing _ => true | _ => false end.
Definition devices_op (o : op) : bool :=
  match o with
  | OListDevices | ORenameDevice _ _ | ORevokeDevice _ => true
  | _ => get_notes_op o || allow_op o
  end.
Definition synced_op (o : op) : bool :=
  match o with OAddRoot _ _ | ORemoveRoot _ | OSaveSettings | OReloadRoots => true | _ => false end.
Definition settings_op (o : op) : bool :=
  match o with OSaveSettings | OSetPaused _ | OReloadRoots => true | _ => devices_op o end.

Section dialogs.
Context `{Win32Text} `{CNG} `{Json} `{DPAPI} `{LocalTime}.
Context (dir : wstr).

Abbreviation goesQ Q m := (goesD (via dir Q) m).

Lemma via_promptProc Q m : goesQ Q (promptFrameProc m).
Proof. unfold promptFrameProc, promptFrame, promptProc. goes_steps. Qed.

Lemma via_prompt Q title label initial : goes (via dir Q) (prompt dir title label initial).
Proof. unfold prompt. goes_steps. apply via_run_modal, via_promptProc. Qed.
#[local] Hint Resolve via_prompt : goes.

Lemma via_signInProc (Q : op -> Prop) m :
  (forall o, sign_in_op o = true -> Q o) -> goesQ Q (signInProc dir m).
Proof.
  intros HQ. unfold signInProc, signInInit, googleTimer, googleClicked, emailClicked, googleOver, setGoogleBusy,
    makeCheck. goes_steps.
Qed.

Lemma via_showSignIn (Q : op -> Prop) :
  (forall o, sign_in_op o = true -> Q o) -> goes (via dir Q) (showSignIn dir).
Proof. intros HQ. unfold showSignIn. goes_steps. apply via_run_modal. intros m. by apply via_signInProc. Qed.

Lemma via_pairWaitProc (Q : op -> Prop) m :
  (forall c, Q (OCompletePairing c)) -> goesQ Q (pairWaitProc dir m).
Proof. intros HQ. unfold pairWaitProc, pairWaitInit, pairTimer. goes_steps. Qed.

Lemma via_getMyNotes (Q : op -> Prop) :
  (forall o, get_notes_op o = true -> Q o) -> goes (via dir Q) (getMyNotes dir).
Proof.
  intros HQ. unfold getMyNotes, pair_here, waitForOtherComputer. goes_steps.
  apply via_run_modal. intros m. apply via_pairWaitProc. auto.
Qed.

Lemma via_allow (Q : op -> Prop) :
  (forall o, allow_op o = true -> Q o) -> goes (via dir Q) (allowAnotherComputer dir).
Proof. intros HQ. unfold allowAnotherComputer. goes_steps. Qed.

Lemma via_statusProc (Q : op -> Prop) m : Q OListDevices -> goesQ Q (statusProc dir m).
Proof. intros HQ. unfold statusProc, statusInit, fillStatus. goes_steps. Qed.

Lemma via_showStatus (Q : op -> Prop) : Q OListDevices -> goes (via dir Q) (showStatus dir).
Proof. intros HQ. unfold showStatus. goes_steps. apply via_run_modal. intros m. by apply via_statusProc. Qed.

Lemma via_devicesProc (Q : op -> Prop) m :
  (forall o, devices_op o = true -> Q o) -> goesQ Q (devicesProc dir m).
Proof.
  intros HQ.
  assert (goes (via dir Q) (getMyNotes dir)) as Hg.
  { apply via_getMyNotes. intros o Ho. apply HQ. by destruct o. }
  assert (goes (via dir Q) (allowAnotherComputer dir)) as Ha.
  { apply via_allow. intros o Ho. apply HQ. by destruct o. }
  unfold devicesProc, devicesInit, renameClicked, revokeClicked, selected_entry, fillDevices. goes_steps.
Qed.

Lemma via_showDevices (Q : op -> Prop) :
  (forall o, devices_op o = true -> Q o) -> goes (via dir Q) (showDevices dir).
Proof. intros HQ. unfold showDevices. goes_steps. apply via_run_modal. intros m. by apply via_devicesProc. Qed.

Lemma via_syncedFilesProc (Q : op -> Prop) m :
  (forall o, synced_op o = true -> Q o) -> goesQ Q (syncedFilesProc dir m).
Proof.
  intros HQ.
  assert (goesQ Q (saveIgnoreClicked dir)) as Hi.
  { unfold saveIgnoreClicked. apply goesD_bind; [apply _|by apply goesD_still; [apply _|]|intros raw].
    apply (via_save dir Q _ (fun _ => tt) (fun _ _ => _)); [|by apply HQ|intros _ _; goes_steps].
    intros st. left. split; [by apply HQ|]. by eexists. }
  unfold syncedFilesProc, syncedFilesInit, addFolderClicked, addFileClicked, removeClicked, fillSyncedFiles.
  goes_steps.
Qed.

Lemma via_showSyncedFiles (Q : op -> Prop) :
  (forall o, synced_op o = true -> Q o) -> goes (via dir Q) (showSyncedFiles dir).
Proof.
  intros HQ. unfold showSyncedFiles. goes_steps. apply via_run_modal. intros m. by apply via_syncedFilesProc.
Qed.

Lemma via_conflictsProc (Q : op -> Prop) m :
  (forall f s, Q (OResolveConflict f s)) -> goesQ Q (conflictsProc dir m).
Proof.
  intros HQ. unfold conflictsProc, conflictsInit, resolve, compareClicked, fillConflicts, selected_entry. goes_steps.
Qed.

Lemma via_showConflicts (Q : op -> Prop) :
  (forall f s, Q (OResolveConflict f s)) -> goes (via dir Q) (showConflicts dir).
Proof.
  intros HQ. unfold showConflicts. goes_steps. apply via_run_modal. intros m. by apply via_conflictsProc.
Qed.

Lemma via_show_tabs Q l t tab : goesQ Q (show_tabs l t tab).
Proof. revert t. induction l as [|ids l IH]; intros t; cbn [show_tabs]; goes_steps. Qed.
#[local] Hint Resolve via_show_tabs : goes.

Lemma via_settingsProc (Q : op -> Prop) m :
  (forall o, settings_op o = true -> Q o) -> goesQ Q (settingsProc dir m).
Proof.
  intros HQ.
  assert (goes (via dir Q) (showDevices dir)) as Hd.
  { apply via_showDevices. intros o Ho. apply HQ. by destruct o. }
  assert (goesQ Q (saveClicked dir)) as Hs.
  { unfold saveClicked, checkState. apply goesD_bind; [apply _|by apply goesD_still; [apply _|]|intros v].
    apply via_save; [|by apply HQ|intros b _; goes_steps].
    intros st. right. split; [by apply HQ|]. left. by eexists. }
  assert (goesQ Q (resetClicked dir)) as Hr.
  { unfold resetClicked. apply goesD_bind; [apply _|goes_steps|intros yes].
    destruct (negb yes); [by apply goesD_still; [apply _|]|].
    apply goesD_bind; [apply _|by apply goesD_still; [apply _|]|intros _].
    intros s. apply via_edit_save; [|by apply HQ]. intros st. right. split; [by apply HQ|]. by right. }
  unfold settingsProc, settingsInit, settingsShowTab, generalTab, filesTab, sessionTab, securityTab, advancedTab,
    CheckRadioButton, makeCheck, recoveryClicked. goes_steps.
Qed.

Lemma via_showSettings (Q : op -> Prop) :
  (forall o, settings_op o = true -> Q o) -> goes (via dir Q) (showSettings dir).
Proof. intros HQ. unfold showSettings. goes_steps. apply via_run_modal. intros m. by apply via_settingsProc. Qed.

(** What the wizard asks for, with the answers it gives to [finishFirstRunKeys]. *)
Definition wizard_op (create : bool -> bool) (o : op) : bool :=
  match o with
  | OFinishFirstRun c => create c
  | _ => sign_in_op o || get_notes_op o
  end.

Lemma via_finish_setup (Q : op -> Prop) c : Q (OFinishFirstRun c) -> goes (via dir Q) (finish_setup dir c).
Proof. intros HQ. unfold finish_setup. goes_steps. Qed.

Lemma via_wizard (Q : op -> Prop) :
  (forall o, wizard_op (fun _ => true) o = true -> Q o) -> goes (via dir Q) (showFirstRunWizard dir).
Proof.
  intros HQ.
  assert (goes (via dir Q) (showSignIn dir)) as Hs.
  { apply via_showSignIn. intros o Ho. apply HQ. by destruct o. }
  assert (goes (via dir Q) (getMyNotes dir)) as Hg.
  { apply via_getMyNotes. intros o Ho. apply HQ. by destruct o. }
  assert (forall c, goes (via dir Q) (finish_setup dir c)) as Hf by (intros c; apply via_finish_setup; by apply HQ).
  unfold showFirstRunWizard. goes_steps.
Qed.
End dialogs.
End DialogFacts.
