(* ===== verification/DialogSpec.v ===== *)
(** * DialogSpec: what the user's dialogs do to the engine

    Every dialog is a run of the engine's operations, in and outside the plugin,
    with nothing but looks and saved settings in between, and every dialog ends. *)
From S2P Require Import Prelude Text Platform PathUtil LocalDb Settings Logger DialogLayout.
From S2P Require Import ApiClient EngineState EngineKeys EngineSync EngineRun EngineFacts EngineSpec EngineKeySpec.
From S2P Require Import Plugin PluginSpec Window Dialogs Managers SettingsDialog DialogFacts.
Import Engine EngineKeys EngineSync EngineRun EngineFacts.
Import Window Dialogs Managers SettingsDialog DialogFacts.

#[local] Open Scope monad_scope.

(** * The modal loop ends *)

Module ModalFacts.

Definition shrinks (u u' : Ui) : Prop := (length (msgs u') <= length (msgs u))%nat.

#[export] Instance shrinks_preorder : PreOrder shrinks.
Proof. split; [intros a|intros a b c]; unfold shrinks; lia. Qed.

Section loop.
Context {C : Type} (proc : WMsg -> D C unit) (bg : op -> M World unit).

(** The close button ends the dialog. *)
Definition closes : Prop := forall s, exists s', proc WM_CLOSE s = (Ok tt, s') /\ is_Some (ended (win s')).

Context (Hclose : closes) (Hshrink : forall m, goesD shrinks (proc m)).

Lemma dispatch_shrinks m : goesD shrinks (dispatch proc bg m).
Proof.
  assert (forall id (k : D C unit), goesD shrinks k -> goesD shrinks (unless_disabled id k)) as Hun.
  { intros id k Hk. apply goesD_bind; [apply _|apply goesD_still; [apply _|done]|intros []]; [|done].
    by apply goesD_still; [apply _|]. }
  destruct m; cbn [dispatch]; try apply Hun; try apply Hshrink; try (by apply goesD_still; [apply _|]).
  - apply goesD_bind; [apply _|apply goesD_still; [apply _|done]|intros _; apply Hshrink].
  - apply goesD_ui. intros u. unfold shrinks. simpl. lia.
  - apply goesD_ui. intros u. unfold on_engine, zoom, shrinks. destruct (bg o _). simpl. lia.
Qed.

Lemma loop_ends fuel s : (length (msgs (ui s)) + 2 <= fuel)%nat \/
    (is_Some (ended (win s)) /\ (1 <= fuel)%nat) -> (loop proc bg fuel s).1 <> Ok None.
Proof.
  revert s. induction fuel as [|fuel IH]; intros s Hf; [lia|]. cbn [loop]. unfold bind at 1, gets at 1.
  destruct (ended (win s)) as [r|] eqn:Ee; [done|]. destruct Hf as [Hf|[[? ?] _]]; [|done].
  unfold bind at 1, next_msg. destruct (msgs (ui s)) as [|m l] eqn:Em.
  - unfold bind at 1. cbn [dispatch]. destruct (Hclose s) as (s' & -> & Hend). apply IH. right. split; [done|lia].
  - unfold bind at 1. set (s1 := MkModal _ _ _). pose proof (dispatch_shrinks m s1) as Hs.
    destruct (dispatch proc bg m s1) as [[[]|e] s2]; [|done]. apply IH. left.
    unfold shrinks in Hs. cbn [snd ui s1 msgs put_msgs] in Hs. cbn [length] in *. lia.
Qed.

Lemma run_modal_ends title w h c u : forall x, (run_modal proc bg title w h c u).1 <> Ok (None, x).
Proof.
  intros x. unfold run_modal. destruct (begin title w h) as [f|e]; [|done].
  unfold bind at 1. set (s0 := MkModal u (fresh_window f) c).
  pose proof (Hshrink WM_INITDIALOG s0) as Hs. destruct (proc WM_INITDIALOG s0) as [[[]|e] s1]; [|done].
  unfold shrinks in Hs. cbn [snd s0 ui] in Hs.
  pose proof (loop_ends (S (S (length (msgs u)))) s1 ltac:(left; lia)) as Hl.
  destruct (loop _ _ _ s1) as [[r|e] s2]; [|done]. cbn [fst] in *. intros [= -> _]. by apply Hl.
Qed.
End loop.

Lemma via_shrinks `{Win32Text} `{CNG} `{Json} `{DPAPI} `{LocalTime} dir Q u u' : via dir Q u u' -> shrinks u u'.
Proof. intros [[k E] _]. unfold shrinks. rewrite E, length_drop. lia. Qed.
End ModalFacts.

(** * Dialogs inside the plugin *)

Module InsideFacts.
Section plugin.
Context `{Win32Text} `{CNG} `{Json} `{DPAPI} `{LocalTime}.
Context (dir : wstr).

Definition stays (p p' : Plugin.Plugin) : Prop :=
  Plugin.world p' = Plugin.world p /\ Plugin.alive p' = Plugin.alive p /\ Plugin.g_started p' = Plugin.g_started p.

Lemma on_engine_stays {A} (m : M World A) p : Plugin.alive p = true ->
  stays (Plugin.put_world (m (Plugin.world p)).2 p) (Plugin.on_engine m p).2.
Proof.
  intros Ha. unfold Plugin.on_engine. unfold bind at 1, gets at 1. rewrite Ha. cbn [negb].
  unfold bind at 1, gets at 1. unfold bind at 1. destruct (m (Plugin.world p)) as [r w]. cbn [snd].
  unfold bind at 1, gets at 1. unfold bind at 1, gets at 1. unfold bind at 1.
  destruct (Plugin.g_started _); [|done].
  destruct (PluginSpec.PluginFacts.files_applied_frame (drop (length (applied (Plugin.world p))) (applied w)) (Plugin.put_world w p)) as [l El].
  destruct (for_each _ _ _) as [[[]|e] p2]; cbn [snd] in El |- *; by rewrite El.
Qed.

(** An operation made inside the plugin does to the world what the engine does. *)
Lemma inside_call o p : Plugin.alive p = true -> Plugin.g_started p = true -> from_within o = true ->
  let p' := Plugin.run_call dir (Plugin.Inside o) p in
  Plugin.world p' = run dir o (Plugin.world p) /\ Plugin.alive p' = true /\ Plugin.g_started p' = true.
Proof.
  intros Ha Hs Ho. unfold Plugin.run_call. cbn [Plugin.perform]. unfold bind at 1 2 3, gets. rewrite Ha, Hs, Ho. cbn [andb].
  destruct (on_engine_stays (fun w => (Ok tt, run dir o w)) p Ha) as (E1 & E2 & E3).
  split_and!; [exact E1|by rewrite E2|by rewrite E3].
Qed.

Lemma calls_inside w os w' : steps dir w os w' -> forall p,
  Plugin.alive p = true -> Plugin.g_started p = true -> Plugin.world p = w ->
  Forall (fun o => from_within o = true) os ->
  exists p', Plugin.calls dir p (map Plugin.Inside os) p' /\ Plugin.world p' = w'.
Proof.
  induction 1 as [w|w w1 os w' He _ IH|w o os w' _ IH]; intros p Ha Hs <- Hos.
  - exists p. split; [constructor|done].
  - destruct (IH (Plugin.MkPlugin w1 (Plugin.alive p) (Plugin.g_started p) (Plugin.logger p) (Plugin.current p)
      (Plugin.checked p) (Plugin.reloaded p) (Plugin.shown p) (Plugin.npp p) (Plugin.menu p)) Ha Hs eq_refl Hos) as (p' & Hc & Hw).
    exists p'. split; [|done]. by eapply Plugin.calls_host.
  - apply Forall_cons in Hos as [Ho Hos]. destruct (inside_call o p Ha Hs Ho) as (Ew & Ha' & Hs').
    destruct (IH _ Ha' Hs' Ew Hos) as (p' & Hc & Hw). exists p'. split; [|done]. by apply Plugin.calls_call.
Qed.
End plugin.
End InsideFacts.

(** * The claims *)

Module DialogSpec.
Import ModalFacts InsideFacts.

Section dialogs.
Context `{Win32Text} `{CNG} `{Json} `{DPAPI} `{LocalTime}.
Context (dir : wstr).

Lemma prompt_closes : closes promptFrameProc.
Proof. intros s. by eexists. Qed.
Lemma signIn_closes : closes (signInProc dir).
Proof. intros s. by eexists. Qed.
Lemma pairWait_closes : closes (pairWaitProc dir).
Proof. intros s. by eexists. Qed.
Lemma status_closes : closes (statusProc dir).
Proof. intros s. by eexists. Qed.
Lemma devices_closes : closes (devicesProc dir).
Proof. intros s. by eexists. Qed.
Lemma syncedFiles_closes : closes (syncedFilesProc dir).
Proof. intros s. by eexists. Qed.
Lemma conflicts_closes : closes (conflictsProc dir).
Proof. intros s. by eexists. Qed.
Lemma settings_closes : closes (settingsProc dir).
Proof. intros s. by eexists. Qed.

(** A dialog that was not ended by its script is ended by the user's leaving:
    it never runs out of fuel. *)
Definition ends {C} (proc : WMsg -> D C unit) : Prop :=
  forall bg title w h c u x, (run_modal proc bg title w h c u).1 <> Ok (None, x).

Lemma ends_via {C} (proc : WMsg -> D C unit) :
  closes proc -> (forall m, goesD (via dir (fun _ => True)) (proc m)) -> ends proc.
Proof.
  intros Hc Hv bg title w h c u x. apply run_modal_ends; [done|].
  intros m s. by eapply via_shrinks, Hv.
Qed.

(** C27: every dialog ends. Whatever the user does in it, whatever its nested
    dialogs do and whatever the engine answers, one message is taken from the
    user a round, and a user who left closes it: no dialog goes on for ever. *)
Theorem dialogs_end :
  ends promptFrameProc /\ ends (signInProc dir) /\ ends (pairWaitProc dir) /\ ends (statusProc dir) /\
  ends (devicesProc dir) /\ ends (syncedFilesProc dir) /\ ends (conflictsProc dir) /\ ends (settingsProc dir).
Proof.
  split_and!.
  - apply ends_via; [apply prompt_closes|]. intros m. apply via_promptProc.
  - apply ends_via; [apply signIn_closes|]. intros m. by apply via_signInProc.
  - apply ends_via; [apply pairWait_closes|]. intros m. by apply via_pairWaitProc.
  - apply ends_via; [apply status_closes|]. intros m. by apply via_statusProc.
  - apply ends_via; [apply devices_closes|]. intros m. by apply via_devicesProc.
  - apply ends_via; [apply syncedFiles_closes|]. intros m. by apply via_syncedFilesProc.
  - apply ends_via; [apply conflicts_closes|]. intros m. by apply via_conflictsProc.
  - apply ends_via; [apply settings_closes|]. intros m. by apply via_settingsProc.
Qed.

(** The functions of Dialogs.h by the dialogs the plugin opens. *)
Definition show_dialog (d : Plugin.Dialog) : M Ui unit :=
  match d with
  | Plugin.FirstRunWizard => showFirstRunWizard dir
  | Plugin.SignInDialog => showSignIn dir ;; ret tt
  | Plugin.StatusDialog => showStatus dir
  | Plugin.DevicesDialog => showDevices dir
  | Plugin.AllowComputerDialog => allowAnotherComputer dir
  | Plugin.GetMyNotesDialog => getMyNotes dir ;; ret tt
  | Plugin.SyncedFilesDialog => showSyncedFiles dir
  | Plugin.ConflictsDialog => showConflicts dir
  | Plugin.SettingsDialog => showSettings dir
  | Plugin.AboutBox => showAbout
  end.

(** What each of them may ask of the engine. *)
Definition dialog_op (d : Plugin.Dialog) (o : op) : bool :=
  match d with
  | Plugin.FirstRunWizard => wizard_op (fun _ => true) o
  | Plugin.SignInDialog => sign_in_op o
  | Plugin.StatusDialog => match o with OListDevices => true | _ => false end
  | Plugin.DevicesDialog => devices_op o
  | Plugin.AllowComputerDialog => allow_op o
  | Plugin.GetMyNotesDialog => get_notes_op o
  | Plugin.SyncedFilesDialog => synced_op o
  | Plugin.ConflictsDialog => match o with OResolveConflict _ _ => true | _ => false end
  | Plugin.SettingsDialog => settings_op o
  | Plugin.AboutBox => false
  end.

Lemma via_show_dialog d : goes (via dir (fun o => dialog_op d o = true)) (show_dialog d).
Proof.
  assert (forall A Q (m : M Ui A), goes (via dir Q) m -> goes (via dir Q) (m ;; ret tt)) as Hret.
  { intros A Q m Hm. apply goes_bind; [apply _|done|]. intros a. by apply goes_still; [apply _|]. }
  destruct d; cbn [show_dialog].
  - by apply via_wizard.
  - by apply Hret, via_showSignIn.
  - by apply via_showStatus.
  - by apply via_showDevices.
  - by apply via_allow.
  - by apply Hret, via_getMyNotes.
  - by apply via_showSyncedFiles.
  - by apply via_showConflicts.
  - by apply via_showSettings.
  - by apply via_user.
Qed.

Lemma dialog_op_within d o : dialog_op d o = true -> from_within o = true.
Proof. by destruct d, o. Qed.

(** The changes of the settings each dialog may make, in the moment it saves
    them: the window of the synced files sets the patterns, the settings window
    takes the values of its controls or clears the database's location. *)
Definition dialog_edit (d : Plugin.Dialog) (s s' : Settings.Settings) : Prop :=
  match d with
  | Plugin.SyncedFilesDialog => exists l, s' = set_patterns l s
  | Plugin.SettingsDialog => (exists v, s' = read_controls v s) \/ s' = clear_location s
  | _ => False
  end.

Lemma edits_dialog d s s' : edits (fun o => dialog_op d o = true) s s' -> dialog_edit d s s'.
Proof. intros [[Hd He]|[Hd He]]; by destruct d. Qed.

(** C23: a dialog moves the engine by its operations and by nothing else.
    Whatever happens in it, with nested dialogs and with the engine's threads at
    work in between, the engine goes through operations that this dialog may ask
    for ([dialog_op]; the status window asks for the list of devices only, the
    box about the plugin for nothing, and the master key can be reached from the
    wizard and from Get my notes only, directly or through Manage Devices) and
    operations of the threads. Between them the dialog only looks: the disk, the
    tables, the settings, the flags, the tokens and what was sent stay as they
    are ([unread]), and the settings change only in the window of the synced
    files and in the settings window, as these say ([dialog_edit]) and only in
    the moment they are saved. So a dialog is a run of the engine; in a started
    plugin it is one of calls made inside it, and what holds of every run of the
    engine or of the plugin holds with dialogs open. *)
Theorem dialogs_refine_engine d u : let u' := (show_dialog d u).2 in exists os,
  asks dir (dialog_edit d) (world u) os (world u') /\
  Forall (fun o => dialog_op d o = true \/ (from_within o = true /\ Meanwhile o ∈ msgs u)) os /\
  (os = [] -> unread (world u') = unread (world u)) /\
  steps dir (world u) os (world u') /\
  (forall p, Plugin.alive p = true -> Plugin.g_started p = true -> Plugin.world p = world u ->
     exists p', Plugin.calls dir p (map Plugin.Inside os) p' /\ Plugin.world p' = world u') /\
  (forall o, dialog_op d o = true -> key_op o = true ->
     match d with
     | Plugin.FirstRunWizard => (exists c, o = OFinishFirstRun c) \/ (exists s, o = OCompletePairing s)
     | Plugin.GetMyNotesDialog | Plugin.DevicesDialog | Plugin.SettingsDialog => exists s, o = OCompletePairing s
     | _ => False
     end).
Proof.
  intros u'. destruct (via_show_dialog d u) as [_ (os & Hos & Ha)]. exists os.
  pose proof (asks_steps dir _ _ _ _ Ha) as Hs. split_and!; [|done| |done| |].
  - eapply asks_mono; [|exact Ha]. apply edits_dialog.
  - intros ->. by eapply asks_looks.
  - intros p Hal Hst Hw. eapply calls_inside; [exact Hs|done..|].
    eapply Forall_impl; [exact Hos|]. intros o [Ho|[Ho _]]; [by eapply dialog_op_within|done].
  - intros o Ho Hk. by destruct o; try discriminate Hk; destruct d; try discriminate Ho; eauto.
Qed.
End dialogs.

Import Toy.

(** The status window of a started plugin. *)
Lemma dialogs_refine_engine_witness :
  let w := world [] Toy.tables Toy.key [] in
  let u := MkUi w Logger.initial 0 [Click Managers.ID_ST_REFRESH; Meanwhile OWorker] [] [] [] [] [] in
  exists os p', Plugin.calls data_dir (Plugin.MkPlugin w true true Logger.initial [] false [] [] true []) (map Plugin.Inside os) p' /\
    Plugin.world p' = Window.world (show_dialog data_dir Plugin.StatusDialog u).2.
Proof.
  cbv zeta. set (u := MkUi _ _ _ _ _ _ _ _ _).
  destruct (dialogs_refine_engine data_dir Plugin.StatusDialog u) as (os & _ & _ & _ & _ & Hc & _).
  exists os. by apply Hc.
Defined.
End DialogSpec.
