(* ===== verification/DialogKeySpec.v ===== *)
(** * DialogKeySpec: the master key and the user's answers

    The first-run wizard and "Get my notes" are the dialogs that can bring a key
    to this computer. With the engine's other threads at work, but none of the
    operations that belong to these dialogs among them, a key changes only after
    the answers that allow it. *)
From S2P Require Import Prelude Text Platform PathUtil LocalDb Settings Logger DialogLayout.
From S2P Require Import ApiClient EngineState EngineKeys EngineSync EngineRun EngineFacts EngineSpec EngineKeySpec.
From S2P Require Import Window Dialogs Managers SettingsDialog DialogFacts DialogSpec.
Import Engine EngineKeys EngineSync EngineRun EngineFacts EngineKeyFacts.
Import Window Dialogs Managers DialogFacts.

#[local] Open Scope monad_scope.

Module DialogKeyFacts.

(** The threads do not do what the key's dialogs do. *)
Definition quiet (u : Ui) : Prop := forall o, Meanwhile o ∈ msgs u -> key_op o = false.

(** ** A component of the user's side that calls of the engine keep *)

Section same.
Context {X : Type} (f : Ui -> X).
Context (Hworld : forall w u, f (put_world w u) = f u).

Lemma same_engine {A} (m : M World A) : goes (same f) (on_engine m).
Proof. intros u. unfold on_engine, zoom, same. destruct (m (world u)). apply Hworld. Qed.

Lemma same_run_modal {C} (proc : WMsg -> D C unit) bg title w h c :
  (forall t u, f (put_ticks t u) = f u) -> (forall l u, f (put_msgs l u) = f u) ->
  (forall m, goesD (same f) (proc m)) -> goes (same f) (run_modal proc bg title w h c).
Proof.
  intros Ht Hl. apply goes_run_modal; [apply _| | |].
  - intros t u. apply Ht.
  - intros u m l _. apply Hl.
  - intros u o l _. unfold same. by rewrite Hworld, Hl.
Qed.
End same.

Section dialogs.
Context `{Win32Text} `{CNG} `{Json} `{DPAPI} `{LocalTime}.
Context (dir : wstr).

(** ** The key along a run *)

(** The operations that keep a key when there is one and make none. *)
Definition modest_op (o : op) : bool :=
  match o with OFinishFirstRun c => negb c | _ => negb (key_op o) end.

Lemma first_run_still c w : hasMasterKey w = true \/ c = false -> (finishFirstRunKeys dir c w).2 = w.
Proof.
  destruct (hasMasterKey w) eqn:Hk; [by rewrite first_run_kept|].
  intros [?| ->]; [done|]. by rewrite first_run_refused.
Qed.

Lemma run_modest o w : modest_op o = true -> masterKey_ (run dir o w) = masterKey_ w.
Proof.
  destruct (key_op o) eqn:Ek; [|by intros _; apply run_keeps_key].
  intros Ho. destruct o; try discriminate Ek; try discriminate Ho. apply negb_true_iff in Ho as ->.
  unfold run, exec. by rewrite first_run_still by auto.
Qed.

Lemma steps_modest w os w' :
  steps dir w os w' -> Forall (fun o => modest_op o = true) os -> masterKey_ w' = masterKey_ w.
Proof.
  induction 1 as [w|w w1 os w' He _ IH|w o os w' _ IH]; intros Hf; [done| |].
  - rewrite IH by done. apply He.
  - apply Forall_cons in Hf as [Ho Hf]. rewrite IH by done. by apply run_modest.
Qed.

Lemma quiet_via Q u u' : via dir Q u u' -> quiet u -> quiet u'.
Proof.
  intros [[k E] _] Hq o Ho. apply Hq. rewrite E in Ho. rewrite <- (take_drop k (msgs u)). set_solver.
Qed.

Lemma quiet_modest u o : quiet u -> Meanwhile o ∈ msgs u -> modest_op o = true.
Proof. intros Hq Ho%Hq. by destruct o. Qed.

Lemma via_modest (Q : op -> Prop) u u' : (forall o, Q o -> modest_op o = true) ->
  via dir Q u u' -> quiet u -> masterKey_ (world u') = masterKey_ (world u).
Proof.
  intros HQ (os & Hos & Hs)%via_steps Hq. eapply steps_modest; [exact Hs|].
  eapply Forall_impl; [exact Hos|]. intros o [Ho|[_ Ho]]; [by apply HQ|by eapply quiet_modest].
Qed.

(** A run that changed the key has an operation that may. *)
Lemma via_immodest (Q : op -> Prop) u u' : via dir Q u u' -> quiet u ->
  masterKey_ (world u') <> masterKey_ (world u) ->
  exists os o, steps dir (world u) os (world u') /\ o ∈ os /\ Q o /\ modest_op o = false /\
    Forall (fun o => Q o \/ modest_op o = true) os.
Proof.
  intros (os & Hos & Hs)%via_steps Hq Hne.
  assert (Forall (fun o => Q o \/ modest_op o = true) os) as Hos'.
  { eapply Forall_impl; [exact Hos|]. intros o [Ho|[_ Ho]]; [by left|right; by eapply quiet_modest]. }
  destruct (decide (Forall (fun o => modest_op o = true) os)) as [Hm|Hm]; [by eapply steps_modest in Hm|].
  apply not_Forall_Exists, Exists_exists in Hm as (o & Hin & Ho); [|apply _].
  apply not_true_is_false in Ho. exists os, o. split_and!; [done..| |done|done].
  rewrite Forall_forall in Hos'. by destruct (Hos' o Hin) as [?|?]; [|congruence].
Qed.

(** ** Dialogs that ask nothing *)

Lemma same_showSignIn : goes (same answers) (showSignIn dir).
Proof.
  unfold showSignIn. goes_steps. apply same_run_modal; [done..|]. intros m.
  unfold signInProc, signInInit, googleTimer, googleClicked, emailClicked, googleOver, setGoogleBusy, makeCheck, engine.
  goes_steps; try apply goesD_ui; try (by apply same_engine); try done.
  intros u. unfold openHttpUrl. by destruct (_ && _).
Qed.

(** ** Waiting for the other computer *)

(** The key of an open waiting window: the one that was there or none, until the
    window has installed another and ended itself. *)
Definition waiting (key : Bytes) (s : Modal PairWaitCtx) : Prop :=
  quiet (ui s) /\
  if decide (ended (win s) = Some IDOK)
  then installed (ctx s) = true /\ hasMasterKey (world (ui s)) = true
  else installed (ctx s) = false /\ (masterKey_ (world (ui s)) = key \/ masterKey_ (world (ui s)) = []).

(** Steps that touch neither the engine nor the window's result. *)
Definition idle (s s' : Modal PairWaitCtx) : Prop :=
  world (ui s') = world (ui s) /\ msgs (ui s') = msgs (ui s) /\ ended (win s') = ended (win s) /\
  installed (ctx s') = installed (ctx s).

Lemma waiting_idle key s s' : idle s s' -> waiting key s -> waiting key s'.
Proof. intros (E1 & E2 & E3 & E4). unfold waiting, quiet. by rewrite E1, E2, E3, E4. Qed.

Lemma waiting_close key s : ended (win s) = None -> waiting key s ->
  waiting key ((KillTimer kPairPollTimer ;; EndDialog IDCANCEL) s).2.
Proof. intros He [Hq Hw]. split; [done|]. rewrite decide_False in Hw by by rewrite He. exact Hw. Qed.

Lemma waiting_timer key s s' : ended (win s) = None -> waiting key s ->
  pairTimer dir s = (Ok tt, s') -> waiting key s'.
Proof.
  intros He Hw. unfold pairTimer. unfold bind at 1, gets at 1.
  destruct (pw_polling _ || installed _); [by intros [= <-]|].
  intros (now & s1 & [= <- <-] & E)%bind_Ok. destruct (_ <? _).
  { injection E as <-. by eapply waiting_idle. }
  apply bind_Ok in E as ([] & s1 & [= <-] & E). apply bind_Ok in E as ([st err] & s2 & E2 & E).
  unfold engine, on_ui, on_engine in E2. apply zoom_Ok in E2 as (u2 & E2 & ->).
  apply zoom_Ok in E2 as (w2 & E2 & ->). cbn [ui win ctx world] in E2. apply pairing_key in E2.
  apply bind_Ok in E as ([] & s3 & [= <-] & E).
  destruct Hw as [Hq Hw]. rewrite decide_False in Hw by by rewrite He. destruct Hw as [Hi Hk].
  destruct st.
  - rewrite decide_False in E2 by done. injection E as <-. split; [exact Hq|]. cbn. rewrite decide_False by by rewrite He.
    split; [done|]. destruct E2 as [->|?]; auto.
  - rewrite decide_True in E2 by done. injection E as <-. split; [exact Hq|]. cbn. split; [done|].
    by apply bool_decide_eq_true.
  - rewrite decide_False in E2 by done. injection E as <-. split; [exact Hq|]. cbn. rewrite decide_False by by rewrite He.
    split; [done|]. destruct E2 as [->|?]; auto.
Qed.

Lemma waiting_command key id s s' : ended (win s) = None -> waiting key s ->
  pairWaitProc dir (WM_COMMAND id) s = (Ok tt, s') -> waiting key s'.
Proof.
  intros He Hw. cbn [pairWaitProc]. destruct (_ =? _); [|by intros [= <-]].
  intros E. replace s' with ((KillTimer kPairPollTimer ;; EndDialog IDCANCEL) s).2 by by rewrite E.
  by apply waiting_close.
Qed.

Lemma waiting_shown title w h code u s : quiet u ->
  shown (pairWaitProc dir) (background dir) title w h (MkPairWait false code false false 0) u s ->
  waiting (masterKey_ (world u)) s.
Proof.
  intros Hq. apply shown_ind_inv.
  - intros f s1 _ [= <-]. split; [done|]. cbn. split; [done|by left].
  - intros s0 m s1 s2 Hw He Hn Hd.
    assert (waiting (masterKey_ (world u)) s1 /\ ended (win s1) = None /\
      forall o, m = Meanwhile o -> modest_op o = true) as (Hw1 & He1 & Hm).
    { apply next_msg_Ok in Hn as [(E & -> & ->)|(l & E & ->)]; [done|]. destruct Hw as [Hq0 Hw].
      split_and!; [split; [|exact Hw]|done|].
      - intros o Ho. apply Hq0. rewrite E. by right.
      - intros o ->. eapply quiet_modest; [exact Hq0|]. rewrite E. by left. }
    destruct m as [id|id| |id t|id b|row|tab|ms|o]; cbn [dispatch] in Hd.
    + apply unless_disabled_Ok in Hd as [->|Hd]; [done|by eapply waiting_command].
    + cbn [pairWaitProc] in Hd. destruct (_ =? _); [by eapply waiting_timer|by injection Hd as <-].
    + cbn [pairWaitProc] in Hd. rewrite <- (f_equal snd Hd : _ = s2). by apply waiting_close.
    + apply unless_disabled_Ok in Hd as [->|[= <-]]; [done|by eapply waiting_idle].
    + apply unless_disabled_Ok in Hd as [->|([] & s3 & [= <-] & Hd)%bind_Ok]; [done|].
      eapply waiting_command; [| |exact Hd]; cbn; [by rewrite mark_frame|].
      eapply waiting_idle; [|exact Hw1]. by split_and!; [..|cbn; apply mark_frame|].
    + injection Hd as <-. by eapply waiting_idle.
    + by injection Hd as <-.
    + injection Hd as <-. by eapply waiting_idle.
    + injection Hd as <-. destruct Hw1 as [Hq1 Hw1]. split; [exact Hq1|]. cbn.
      rewrite decide_False in Hw1 |- * by by rewrite He1.
      destruct (from_within o); [|exact Hw1]. by rewrite run_modest by auto.
Qed.

Lemma same_wait code : goes (same said) (waitForOtherComputer dir code).
Proof.
  unfold waitForOtherComputer. goes_steps. apply same_run_modal; [done..|]. intros m.
  unfold pairWaitProc, pairWaitInit, pairTimer, engine.
  goes_steps; try apply goesD_ui; try (by apply same_engine); done.
Qed.

(** What became of the key when the waiting window is closed. *)
Lemma wait_over title w h code u r c u' : quiet u ->
  run_modal (pairWaitProc dir) (background dir) title w h (MkPairWait false code false false 0) u = (Ok (r, c), u') ->
  if bool_decide (r = Some IDOK)
  then installed c = true /\ hasMasterKey (world u') = true
  else masterKey_ (world u') = masterKey_ (world u) \/ masterKey_ (world u') = [].
Proof.
  intros Hq E. destruct r as [r|].
  - apply run_modal_shown in E as (s & Hs & He & <- & <-). apply waiting_shown in Hs as [_ Hw]; [|done].
    rewrite He in Hw. case_bool_decide; [by rewrite decide_True in Hw|rewrite decide_False in Hw by done; by destruct Hw].
  - exfalso. assert (ends_pair : DialogSpec.ends (pairWaitProc dir)).
    { apply (DialogSpec.ends_via dir); [apply DialogSpec.pairWait_closes|]. intros m. by apply via_pairWaitProc. }
    eapply ends_pair. by rewrite E.
Qed.

Lemma wait_key code u b u' : quiet u -> waitForOtherComputer dir code u = (Ok b, u') ->
  said u' = said u /\
  (if b then hasMasterKey (world u') = true
   else masterKey_ (world u') = masterKey_ (world u) \/ masterKey_ (world u') = []).
Proof.
  intros Hq Er. split; [pose proof (same_wait code u) as Hs; rewrite Er in Hs; exact Hs|].
  revert Er. unfold waitForOtherComputer. intros ([r c] & u1 & E & Er)%bind_Ok.
  apply wait_over in E; [|done]. injection Er as <- <-.
  case_bool_decide; [|exact E]. destruct E as [-> ->]. reflexivity.
Qed.

(** The outcomes of pairing, and the last thing the user was told. *)
Definition paired (u : Ui) (b : bool) (u' : Ui) : Prop :=
  (if b then hasMasterKey (world u') = true
   else hasMasterKey (world u') = true -> masterKey_ (world u') = masterKey_ (world u)) /\
  (masterKey_ (world u') = masterKey_ (world u) \/
   (masterKey_ (world u') = [] /\ last (said u') = Some still_no_key) \/
   (hasMasterKey (world u') = true /\ last (said u') = Some can_read)) /\
  (last (said u') = Some key_left -> masterKey_ (world u') = masterKey_ (world u)).

Lemma no_key w : masterKey_ w = [] -> hasMasterKey w = false.
Proof. unfold hasMasterKey. by intros ->. Qed.

Lemma paired_still u b u' : masterKey_ (world u') = masterKey_ (world u) ->
  (b = true -> hasMasterKey (world u') = true) -> paired u b u'.
Proof. intros E Hb. split_and!; [|by left|done]. destruct b; auto. Qed.

Lemma pair_here_key u b u' : quiet u -> pair_here dir u = (Ok b, u') -> paired u b u'.
Proof.
  intros Hq. unfold pair_here. intros ([[ok code] err] & u1 & E1 & E)%bind_Ok.
  apply zoom_Ok in E1 as (w1 & E1 & ->).
  assert (masterKey_ w1 = masterKey_ (world u)) as Ek.
  { rewrite <- (run_keeps_key dir OPairNew (world u)) by done. unfold run, exec. by rewrite E1. }
  destruct (negb ok). { injection E as <- <-. by apply paired_still. }
  apply bind_Ok in E as (b0 & u2 & E2 & E). apply wait_key in E2 as [Es E2]; [|exact Hq]. cbn [world put_world] in E2.
  rewrite Ek in E2. destruct b0; cbn [negb] in E.
  - injection E as <- <-. split_and!; [done| |].
    + right. right. split; [done|]. cbn. by rewrite last_snoc.
    + cbn. rewrite last_snoc. intros [=].
  - injection E as <- <-. cbn. destruct (hasMasterKey (world u2)) eqn:Eh.
    + destruct E2 as [E2|E2]; [|by rewrite no_key in Eh]. by apply paired_still.
    + split_and!; [cbn; congruence| |].
      * destruct E2 as [E2|E2]; [by left|]. right. left. split; [done|]. cbn. by rewrite last_snoc.
      * cbn. rewrite last_snoc. intros [=].
Qed.

(** ** The questions of the wizard *)

Definition told (t : wstr) (u : Ui) : Ui := put_answers (drop 1 (answers u)) (say t u).2.

Lemma ask_yes_no_run t u :
  ask_yes_no t u = (Ok (bool_decide (default Cancel (head (answers u)) = Yes)), told t u).
Proof. done. Qed.

Lemma ask_cancel_run t u : ask_cancel t u = (Ok (default Cancel (head (answers u))), told t u).
Proof. done. Qed.

Lemma head_answer (l : list answer) a : a <> Cancel -> default Cancel (head l) = a -> l = a :: drop 1 l.
Proof. destruct l as [|b l]; cbn; [congruence|]. by intros _ ->. Qed.

Lemma two_answers (l l2 : list answer) a b :
  l = a :: drop 1 l -> l2 = drop 1 l -> l2 = b :: drop 1 l2 -> l = a :: b :: drop 2 l.
Proof. intros E -> E2. destruct l as [|a0 [|b0 l]]; try done. by injection E as ->; injection E2 as ->. Qed.

Lemma via_told Q t u : via dir Q u (told t u).
Proof. exact (via_user dir Q (ask_cancel t) (fun _ => conj eq_refl eq_refl) u). Qed.

Lemma via_mono (Q Q' : op -> Prop) u u' : (forall o, Q o -> Q' o) -> via dir Q u u' -> via dir Q' u u'.
Proof.
  intros HQ [Hm (os & Hos & Hs)]. split; [done|]. exists os.
  split; [|eapply asks_mono; [|exact Hs]; unfold edits; naive_solver].
  eapply Forall_impl; [exact Hos|]. intros o [Ho|Ho]; auto.
Qed.

Lemma signed_in u si u1 : quiet u -> showSignIn dir u = (si, u1) ->
  via dir (fun o => sign_in_op o = true) u u1 /\ masterKey_ (world u1) = masterKey_ (world u) /\
  answers u1 = answers u /\ quiet u1.
Proof.
  intros Hq E. pose proof (via_showSignIn dir (fun o => sign_in_op o = true) ltac:(done) u) as Hv.
  pose proof (same_showSignIn u) as Ha. rewrite E in Hv, Ha. split_and!; [done| |done|by eapply quiet_via].
  eapply via_modest; [|done..]. by intros [].
Qed.

(** The key made on this computer, and the recovery key shown for it. *)
Lemma finish_here u u' : hasMasterKey (world u) = false -> finish_setup dir true u = (Ok tt, u') ->
  masterKey_ (world u') = [] \/
  exists w rk, exportRecoveryKeyWrapped dir w = (Ok rk, world u') /\
    last (said u') = Some (c_str (if bool_decide (rk = []) then key_without_recovery else recovery_text rk)).
Proof.
  intros Hk. unfold finish_setup. intros (r & u1 & E1 & E)%bind_Ok.
  apply zoom_Ok in E1 as (w1 & E1 & ->). apply first_run_minted in E1 as (mk & rest & saved & w2 & _ & _ & Hs & He); [|done].
  destruct saved; destruct He as [-> He].
  - right. apply bind_Ok in E as (rk & u2 & E2 & E). apply zoom_Ok in E2 as (w3 & E2 & ->).
    injection E as <-. exists w1, rk. split; [exact E2|]. cbn. by rewrite last_snoc.
  - left. injection E as <-. by rewrite He.
Qed.
End dialogs.
End DialogKeyFacts.

Module DialogKeySpec.
Import DialogKeyFacts.

Section dialogs.
Context `{Win32Text} `{CNG} `{Json} `{DPAPI} `{LocalTime}.
Context (dir : wstr).

(** C25: "Get my notes" does with the key what it says. Without a sign-in, and
    with a key here that the user does not let go, it does nothing to the
    engine. When it returns true this computer has a key, and when it returns
    false no new one; the key is the one that was there, or it arrived from the other computer
    (and the last message says that the notes can be read now), or it is gone,
    because the new one could not be stored (and the last message is the one
    for a computer without a key). So "the encryption key already on this
    computer was left as it is" is said only when that is so. *)
Theorem get_my_notes_consent u r u' (Hquiet : quiet u) (Hrun : getMyNotes dir u = (r, u')) :
  let w := world u in let w' := world u' in
  (isSignedIn w = false -> r = Ok false /\ w' = w /\ said u' = said u ++ [sign_in_first]) /\
  (isSignedIn w = true -> hasMasterKey w = true -> head (answers u) <> Some Yes -> r = Ok true /\ w' = w) /\
  (forall b, isSignedIn w = true -> r = Ok b ->
     (if b then hasMasterKey w' = true else hasMasterKey w' = true -> masterKey_ w' = masterKey_ w) /\
     (masterKey_ w' = masterKey_ w \/
      (masterKey_ w' = [] /\ last (said u') = Some still_no_key) \/
      (hasMasterKey w' = true /\ last (said u') = Some can_read)) /\
     (last (said u') = Some key_left -> masterKey_ w' = masterKey_ w)).
Proof.
  cbv zeta. unfold getMyNotes in Hrun. unfold bind at 1, gets at 1 in Hrun.
  destruct (isSignedIn (world u)) eqn:Es; cbn [negb] in Hrun; [|by injection Hrun as <- <-].
  split; [done|]. unfold bind at 1, gets at 1 in Hrun. unfold bind at 1 in Hrun.
  destruct (hasMasterKey (world u)) eqn:Ek; cbn in Hrun.
  - case_bool_decide as Ha; cbn [negb] in Hrun.
    + split; [intros _ _ Hn; destruct (answers u); naive_solver|]. intros b _ ->. by apply pair_here_key in Hrun.
    + injection Hrun as <- <-. cbn. rewrite Ek. split; [done|]. intros b _ [= <-].
      split_and!; [done|by left|done].
  - split; [done|]. intros b _ ->. by apply pair_here_key in Hrun.
Qed.

(** C14: the first-run wizard makes a key only for a user who said so. The key
    changes only on a computer that had none and only for one of two pairs of
    answers. After "Continue: Yes" and "Are your notes on another computer: No"
    it is made here, and unless it could not be stored the last message shows
    the recovery key as it was read back, or says that there is none. After
    "Yes" and "Yes" it comes from the other computer: the run of the engine has
    the completed pairing in it and nothing that would make a key. Closing the
    wizard, failing to sign in or any other answer leaves the key alone. *)
Theorem wizard_key u r u' (Hquiet : quiet u) (Hrun : showFirstRunWizard dir u = (r, u')) :
  let w := world u in let w' := world u' in
  masterKey_ w' = masterKey_ w \/
  (hasMasterKey w = false /\ exists l, answers u = Yes :: No :: l /\
     (r = Ok tt -> masterKey_ w' = [] \/
        exists w1 rk, exportRecoveryKeyWrapped dir w1 = (Ok rk, w') /\
          last (said u') = Some (c_str (if bool_decide (rk = []) then key_without_recovery else recovery_text rk)))) \/
  (hasMasterKey w = false /\ exists l os c, answers u = Yes :: Yes :: l /\
     steps dir w os w' /\ OCompletePairing c ∈ os /\ OFinishFirstRun true ∉ os).
Proof.
  cbv zeta. revert Hrun. unfold showFirstRunWizard. rewrite (bind_run _ _ _ _ _ (ask_yes_no_run _ _)).
  case_bool_decide as Ha; cbn [negb]; [|intros [= <- <-]; by left]. apply head_answer in Ha; [|done].
  unfold bind at 1. destruct (showSignIn dir (told welcome u)) as [si u2] eqn:Esi.
  apply signed_in in Esi as (Hv & Hk & Hans & Hq); [|exact Hquiet].
  change (world (told welcome u)) with (world u) in Hk. change (answers (told welcome u)) with (drop 1 (answers u)) in Hans.
  destruct si as [[]|e]; cbn [negb]; [|intros [= <- <-]; by left..].
  rewrite (bind_run _ _ u2 (hasMasterKey (world u2)) u2) by done.
  assert (hasMasterKey (world u2) = hasMasterKey (world u)) as Hhas by (unfold hasMasterKey; by rewrite Hk).
  destruct (hasMasterKey (world u2)) eqn:Eh.
  { intros Hrun. left. pose proof (via_finish_setup dir (fun o => modest_op o = true) false eq_refl u2) as Hf.
    rewrite Hrun in Hf. apply via_modest in Hf; [|done..]. cbn [snd] in Hf. congruence. }
  rewrite (bind_run _ _ _ _ _ (ask_cancel_run _ _)).
  set (u3 := told which_computer u2). assert (quiet u3) as Hq3 by exact Hq.
  destruct (default Cancel (head (answers u2))) eqn:Hw.
  - apply head_answer in Hw; [|done]. intros Hrun.
    destruct (decide (masterKey_ (world u') = masterKey_ (world u))) as [?|Hne]; [by left|]. right. right.
    assert (via dir (fun o => wizard_op negb o = true) u u') as Hall.
    { transitivity (told welcome u); [apply via_told|]. transitivity u2.
      { eapply via_mono; [|exact Hv]. by intros []. }
      transitivity u3; [apply via_told|].
      assert (goes (via dir (fun o => wizard_op negb o = true)) (getMyNotes dir ;; finish_setup dir false)) as Hg.
      { apply goes_bind; [apply _| |intros _; by apply via_finish_setup]. apply via_getMyNotes. by intros []. }
      specialize (Hg u3). by rewrite Hrun in Hg. }
    apply via_immodest in Hall as (os & o & Hs & Hin & Ho & Hm & Hos); [|done..].
    split; [done|]. exists (drop 2 (answers u)), os.
    destruct o as [| | | | | | |create| | | |code| | | | | | | | | | | | | | | | | | | | |];
      try discriminate Ho; try discriminate Hm; [by destruct create|].
    exists code. split_and!; [by eapply two_answers|done|done|].
    intros Hf. rewrite Forall_forall in Hos. by destruct (Hos _ Hf).
  - apply head_answer in Hw; [|done]. intros Hrun. right. left. split; [done|].
    exists (drop 2 (answers u)). split; [by eapply two_answers|].
    intros ->. by apply finish_here in Hrun.
  - intros [= <- <-]. left. exact Hk.
Qed.
End dialogs.

Import Toy.

Definition toy_user (w : World) (m : list Msg) (a : list answer) : Ui := MkUi w Logger.initial 0 m a [] [] [] [].

(** A first computer: the user signs in with email and password. *)
Definition toy_tokens : json :=
  JObj [(lit "access_token", JStr (lit "a2")); (lit "refresh_token", JStr (lit "r2"));
        (lit "account_id", JStr (lit "acc")); (lit "device_id", JStr (lit "d"))].
Definition toy_first : Ui :=
  toy_user (world [] Toy.tables [] [reply toy_tokens])
    [TypeIn ID_SIGNIN_EMAIL (lit "me@x.org"); TypeIn ID_SIGNIN_PASSWORD (lit "pw"); Click ID_SIGNIN_OK] [Yes; No].

Lemma wizard_key_witness :
  let out := showFirstRunWizard data_dir toy_first in
  hasMasterKey (Window.world out.2) = true /\
  exists w1 rk, exportRecoveryKeyWrapped data_dir w1 = (Ok rk, Window.world out.2) /\
    last (said out.2) = Some (c_str (if bool_decide (rk = []) then key_without_recovery else recovery_text rk)).
Proof.
  cbv zeta. set (out := showFirstRunWizard data_dir toy_first). split; [vm_compute; reflexivity|].
  destruct (wizard_key data_dir toy_first out.1 out.2) as [E|[(_ & l & _ & Hr)|(_ & l & os & c & E & _)]].
  - intros o Ho. exfalso. revert Ho. cbn. set_solver.
  - apply surjective_pairing.
  - exfalso. revert E. vm_compute. discriminate.
  - destruct Hr as [E|Hr]; [vm_compute; reflexivity| |exact Hr]. exfalso. revert E. vm_compute. discriminate.
  - exfalso. revert E. vm_compute. discriminate.
Defined.

(** A computer with a key, whose user goes on but closes the window that waits
    for the other one. *)
Definition toy_second : Ui :=
  toy_user (world [] Toy.tables Toy.key [reply (JObj [(lit "pairing_code", JStr (lit "ABCDEFGH"))])])
    [Click IDCANCEL] [Yes].

Lemma get_my_notes_consent_witness :
  let out := getMyNotes data_dir toy_second in
  out.1 = Ok true /\ last (said out.2) = Some key_left /\ masterKey_ (Window.world out.2) = Toy.key.
Proof.
  cbv zeta. set (out := getMyNotes data_dir toy_second).
  assert (out.1 = Ok true) as E1 by (vm_compute; reflexivity).
  assert (last (said out.2) = Some key_left) as E2 by (vm_compute; reflexivity).
  split_and!; [done|done|].
  refine (proj2 (proj2 (proj2 (proj2 (get_my_notes_consent data_dir toy_second out.1 out.2 _ _)) true _ E1)) E2).
  - intros o Ho. exfalso. revert Ho. cbn. set_solver.
  - apply surjective_pairing.
  - vm_compute. reflexivity.
Defined.
End DialogKeySpec.
