(* ===== verification/SettingsDialogSpec.v ===== *)
(** * SettingsDialogSpec: what Save and Reset do

    Save reads every field back from its control. On a dialog that was opened
    and not touched this gives the settings their normal form ([settled]); the
    button "Reset local sync state" clears one field and nothing else. *)
From S2P Require Import Prelude Text Platform PathUtil LocalDb FileSystem Settings Logger DialogLayout.
From S2P Require Import ApiClient EngineState EngineKeys EngineSync EngineRun EngineFacts EngineSpec.
From S2P Require Import Window Dialogs Managers SettingsDialog DialogFacts DialogLayout.
Import Engine EngineKeys EngineSync EngineRun EngineFacts FileSystemFacts.
Import Window Dialogs Managers SettingsDialog DialogFacts DialogLayout.

#[local] Open Scope monad_scope.

Module SettingsDialogFacts.

(** ** Texts on their way through a control *)

Section texts.
Context `{Win32TextLaws}.

(** UTF-8 without a terminator. *)
Definition tidy (t : str) : Prop := is_Some (MultiByteToWideChar t) /\ NUL ∉ t.

Lemma widen_unit t c : is_Some (MultiByteToWideChar t) -> (0 <=? c) && (c <? 128) = true -> c ∉ t -> c ∉ widen t.
Proof.
  intros [w Hw] Hc%andb_prop Hn. unfold widen, PathUtil.utf8ToWide. case_bool_decide; [set_solver|].
  rewrite Hw. cbn. intros Hin. eapply Hn, mbtowc_ascii_unit; [done|lia|done].
Qed.

Lemma narrow_widen t : is_Some (MultiByteToWideChar t) -> narrow (widen t) = t.
Proof.
  intros [w Hw]. unfold widen, narrow, PathUtil.utf8ToWide, PathUtil.wideToUtf8.
  destruct (decide (t = [])) as [->|Et]; [done|]. rewrite (bool_decide_false (t = [])), Hw by done. cbn [default from_option].
  pose proof (wctomb_mbtowc _ _ Hw) as Hb. case_bool_decide as Ew; [|unfold id in *; by rewrite Hb].
  unfold id in Ew. subst w. rewrite (wctomb_mbtowc [] []) in Hb by (apply mbtowc_ascii; constructor). by injection Hb.
Qed.

Lemma text_back t : tidy t -> narrow (c_str (widen t)) = t.
Proof.
  intros [Ht Hn]. rewrite LocalDbFacts.c_str_id; [by apply narrow_widen|]. by apply widen_unit.
Qed.

Lemma to_string_tidy n : tidy (to_string n).
Proof.
  split; [|apply LocalDbFacts.to_string_NUL]. exists (to_string n). apply mbtowc_ascii.
  assert (forall m, 0 <= m -> ascii_str (to_string m)) as Hpos.
  { intros m Hm. eapply Forall_impl; [by apply to_string_isdigit|]. unfold isdigit. intros c Hc%andb_prop. lia. }
  destruct (Z.ltb_spec n 0) as [Hn|Hn]; [|by apply Hpos].
  specialize (Hpos (- n) ltac:(lia)). unfold to_string in *.
  rewrite (proj2 (Z.ltb_ge _ _)) in Hpos by lia. rewrite (proj2 (Z.ltb_lt _ _)) by lia. by constructor.
Qed.

Lemma number_back n : - 2 ^ 31 <= n <= 2 ^ 31 - 1 -> stoi (narrow (c_str (widen (to_string n)))) = Ok n.
Proof. intros Hn. rewrite text_back by apply to_string_tidy. by apply parse_int_to_string. Qed.

(** *** Ignore patterns *)

Definition pattern_ok (p : str) : Prop := tidy p /\ p <> [] /\ CR ∉ p /\ LF ∉ p.

Lemma pattern_loop_line w raw pats line : CR ∉ w -> LF ∉ w ->
  pattern_loop (w ++ raw) pats line = pattern_loop raw pats (line ++ w).
Proof.
  revert line. induction w as [|c w IH]; intros line Hr Hl; [by rewrite app_nil_r|].
  cbn [app pattern_loop]. rewrite (proj2 (Z.eqb_neq c CR)), (proj2 (Z.eqb_neq c LF)) by set_solver.
  rewrite IH by set_solver. by rewrite <- app_assoc.
Qed.

Lemma widen_nonempty p : is_Some (MultiByteToWideChar p) -> p <> [] -> widen p <> [].
Proof. intros Hp Hne E. apply Hne. rewrite <- (narrow_widen p Hp), E. done. Qed.

Lemma patterns_loop_back l acc : Forall pattern_ok l -> pattern_loop (show_patterns l) acc [] = acc ++ l.
Proof.
  revert acc. induction l as [|p l IH]; intros acc Hl; [by rewrite app_nil_r|].
  apply Forall_cons in Hl as [([Hp _] & Hne & Hr & Hf) Hl].
  change (show_patterns (p :: l)) with ((widen p ++ [CR; LF]) ++ show_patterns l). rewrite <- app_assoc.
  rewrite pattern_loop_line by (by apply widen_unit). cbn [app pattern_loop].
  rewrite bool_decide_false by (by apply widen_nonempty). cbn.
  rewrite IH by done. rewrite narrow_widen by done. by rewrite <- app_assoc.
Qed.

Lemma patterns_back l : Forall pattern_ok l -> parse_patterns (c_str (show_patterns l)) = l.
Proof.
  intros Hl. rewrite LocalDbFacts.c_str_id; [by apply patterns_loop_back|].
  induction Hl as [|p l ([Hp Hn] & _) Hl IH]; [set_solver|].
  change (show_patterns (p :: l)) with ((widen p ++ [CR; LF]) ++ show_patterns l).
  pose proof (widen_unit p NUL Hp ltac:(done) Hn). set_solver.
Qed.
End texts.

(** ** The dialog as it opens *)

(** What Save makes of settings that were not touched: an interval of at least
    five seconds, a size in whole megabytes and at least one (when the number of
    megabytes is an [int]), and one of the three session modes. *)
Definition settled_interval (n : Z) : Z := Z.max 5 n.
Definition settled_size (n : Z) : Z :=
  let mb := Z.quot (Z.quot n 1024) 1024 in
  if (- 2 ^ 31 <=? mb) && (mb <=? 2 ^ 31 - 1) then Z.max 1 mb * 1024 * 1024 else n.
Definition settled_mode (m : Z) : Z := if m =? 0 then 0 else if m =? 1 then 1 else 2.

Definition settled (s : Settings.Settings) : Settings.Settings :=
  Settings.MkSettings (Settings.startSyncAutomatically s) (Settings.pauseSync s)
    (settled_interval (Settings.syncIntervalFallbackSec s)) (Settings.webSocketEnabled s)
    (Settings.notificationsEnabled s) (Settings.syncRoots s) (Settings.syncFiles s)
    (Settings.extraIgnorePatterns s) (settled_size (Settings.maxFileBytes s)) (settled_mode (Settings.sessionMode s))
    (Settings.syncUnsavedNotes s) (Settings.deviceName s) (Settings.deviceId s)
    (Settings.accountId s) (Settings.backendUrl s) (Settings.debugLogging s)
    (Settings.databaseLocation s) (Settings.versionRetention s).

Lemma megabytes mb : Z.quot (Z.quot (mb * 1024 * 1024) 1024) 1024 = mb.
Proof. by rewrite !Z.quot_mul by lia. Qed.

Lemma settled_size_whole mb : 1 <= mb < 2 ^ 31 -> settled_size (mb * 1024 * 1024) = mb * 1024 * 1024.
Proof.
  intros Hmb. unfold settled_size. rewrite megabytes, Z.max_r by lia. by destruct (_ && _).
Qed.

Lemma settled_size_idemp n : settled_size (settled_size n) = settled_size n.
Proof.
  unfold settled_size at 2 3. cbv zeta. set (mb := Z.quot (Z.quot n 1024) 1024).
  destruct (_ && _) eqn:E; [apply settled_size_whole; lia|]. unfold settled_size. fold mb. by rewrite E.
Qed.

Section opened.
Context `{Win32Text}.

Definition opened (u : Ui) (f : Z * Z) : Modal SettingsCtx := (settingsInit (MkModal u (fresh_window f) [])).2.

Lemma opened_run u f : settingsInit (MkModal u (fresh_window f) []) = (Ok tt, opened u f).
Proof.
  assert ((settingsInit (MkModal u (fresh_window f) [])).1 = Ok tt) as E by (vm_compute; reflexivity).
  unfold opened. rewrite <- E. apply surjective_pairing.
Qed.

Lemma opened_ui u f : ui (opened u f) = u.
Proof. destruct u. vm_compute. reflexivity. Qed.

Lemma opened_texts u f : let s := settings_ (world u) in let v := texts (win (opened u f)) in
  v !! ID_G_INTERVAL = Some (c_str (widen (to_string (Settings.syncIntervalFallbackSec s)))) /\
  v !! ID_F_IGNORE = Some (c_str (show_patterns (Settings.extraIgnorePatterns s))) /\
  v !! ID_F_MAXSIZE = Some (c_str (widen (to_string (Z.quot (Z.quot (Settings.maxFileBytes s) 1024) 1024)))) /\
  v !! ID_SEC_DEVNAME = Some (c_str (widen (Settings.deviceName s))) /\
  v !! ID_A_URL = Some (c_str (widen (Settings.backendUrl s))) /\
  v !! ID_A_DBLOC = Some (c_str (Settings.databaseLocation s)).
Proof. cbv zeta. split_and!; vm_compute; reflexivity. Qed.

Lemma opened_checks u f : let s := settings_ (world u) in let v := checks (win (opened u f)) in
  let checked := wrap_i32 (ID_S_FILESONLY + Settings.sessionMode s) in
  v !! ID_G_AUTOSTART = Some (Settings.startSyncAutomatically s) /\ v !! ID_G_PAUSE = Some (Settings.pauseSync s) /\
  v !! ID_G_WS = Some (Settings.webSocketEnabled s) /\ v !! ID_G_NOTIFY = Some (Settings.notificationsEnabled s) /\
  v !! ID_S_FILESONLY = Some (ID_S_FILESONLY =? checked) /\ v !! ID_S_TABS = Some (ID_S_TABS =? checked) /\
  v !! ID_S_UNSAVED = Some (Settings.syncUnsavedNotes s) /\ v !! ID_A_DEBUG = Some (Settings.debugLogging s).
Proof.
  cbv zeta. unfold opened, settingsInit, sessionTab. generalize wrap_i32. intros wrap.
  split_and!; vm_compute; reflexivity.
Qed.
End opened.

(** Settings whose texts a control can hold and whose numbers are [int]s. *)
Definition presentable `{Win32Text} (s : Settings.Settings) : Prop :=
  - 2 ^ 31 <= Settings.syncIntervalFallbackSec s < 2 ^ 31 /\
  - 2 ^ 31 <= Settings.sessionMode s < 2 ^ 31 /\
  Forall pattern_ok (Settings.extraIgnorePatterns s) /\
  tidy (Settings.deviceName s) /\ tidy (Settings.backendUrl s) /\ NUL ∉ Settings.databaseLocation s.

Lemma mode_back m : - 2 ^ 31 <= m < 2 ^ 31 ->
  (if ID_S_FILESONLY =? wrap_i32 (ID_S_FILESONLY + m) then 0
   else if ID_S_TABS =? wrap_i32 (ID_S_FILESONLY + m) then 1 else 2) = settled_mode m.
Proof.
  intros Hm. assert (forall k, 207 <= k < 209 -> (k =? wrap_i32 (ID_S_FILESONLY + m)) = (m =? k - 207)) as Hk.
  { intros k Hk. apply Bool.eq_iff_eq_true. rewrite !Z.eqb_eq. unfold ID_S_FILESONLY.
    destruct (Z.ltb_spec (207 + m) (2 ^ 31)); [rewrite wrap_i32_id; lia|].
    unfold wrap_i32. rewrite <- (Z.mod_add _ (-1)), Z.mod_small by lia. lia. }
  unfold settled_mode. by rewrite !Hk.
Qed.

Section opened.
Context `{Win32TextLaws}.

Lemma size_back n : read_max_size (c_str (widen (to_string (Z.quot (Z.quot n 1024) 1024)))) n = settled_size n.
Proof.
  unfold read_max_size, settled_size. rewrite text_back by apply to_string_tidy. unfold stoi.
  rewrite parse_int_printed. rewrite !Z.leb_antisym, <- negb_orb. by destruct (_ || _).
Qed.

Lemma opened_read u f : presentable (settings_ (world u)) ->
  read_controls (win (opened u f)) (settings_ (world u)) = settled (settings_ (world u)).
Proof.
  intros (Hi & Hm & Hp & Hn & Hu & Hd). unfold read_controls.
  destruct (opened_texts u f) as (-> & -> & -> & -> & -> & ->).
  destruct (opened_checks u f) as (-> & _ & -> & -> & -> & -> & -> & ->). cbn [default from_option].
  unfold settled, id. rewrite mode_back, patterns_back, size_back, !text_back by done.
  unfold read_interval. rewrite number_back by lia. cbn [or_keep]. rewrite LocalDbFacts.c_str_id by done.
  destruct (settings_ (world u)) as [? ? ? ? ? ? ? ? ? ? ? ? ? ? url ? ? ?]. cbn. by case_bool_decide.
Qed.
End opened.

(** ** The click on Save *)

Section save.
Context `{Win32TextLaws} `{CNG} `{Json} `{DPAPI} `{LocalTime}.
Context (dir : wstr).

Lemma settings_saveSettings : keeps settings_ (saveSettings dir).
Proof. unfold saveSettings, store_save, on_fs. keeps_steps. Qed.
Lemma settings_reloadRoots : keeps settings_ reloadRoots.
Proof.
  unfold reloadRoots, refreshIgnoreRules, add_watches, request_sync, listSyncRoots, on_db, on_fs. keeps_steps.
Qed.

(** [setPaused] writes the field and leaves the others. *)
Lemma settings_setPaused b w : Settings.pauseSync (settings_ w) = b -> settings_ (setPaused dir b w).2 = settings_ w.
Proof.
  intros Hb. transitivity (settings_ (set_pause b w)).
  - unfold setPaused. unfold bind at 1, modify at 1.
    assert (forall m : M World unit, keeps settings_ m -> settings_ (m (set_pause b w)).2 = settings_ (set_pause b w)) as Hm by auto.
    apply Hm. unfold store_save, setStatus, request_sync, on_fs, on_db. keeps_steps.
  - unfold set_pause. cbn. rewrite <- Hb. by destruct (settings_ w).
Qed.

(** A call of the engine from the dialog. *)
Lemma engine_run {A} (m : M World A) (s : Modal SettingsCtx) :
  engine m s = ((m (world (ui s))).1, MkModal (put_world (m (world (ui s))).2 (ui s)) (win s) (ctx s)).
Proof. unfold engine, on_ui, on_engine, zoom. by destruct (m (world (ui s))). Qed.

Lemma saveClicked_settings s r s' :
  let st := settings_ (world (ui s)) in checks (win s) !! ID_G_PAUSE = Some (Settings.pauseSync st) ->
  saveClicked dir s = (r, s') ->
  settings_ (world (ui s')) = read_controls (win s) st /\ (r = Ok tt -> ended (win s') = Some IDOK).
Proof.
  intros st Hp. unfold saveClicked. unfold bind at 1, gets at 1. unfold bind at 1. rewrite engine_run.
  set (w1 := (edit_settings (read_controls (win s)) (world (ui s))).2).
  assert (settings_ w1 = read_controls (win s) st) as E1 by done. cbn [fst edit_settings modify].
  unfold bind at 1, checkState at 1, gets at 1. cbn [win]. rewrite Hp. cbn [default from_option].
  unfold bind at 1. rewrite engine_run. cbn [ui win ctx world put_world].
  pose proof (settings_saveSettings w1) as E2. rewrite E1 in E2.
  destruct (saveSettings dir w1) as [[[]|e] w2]; cbn [fst snd] in *; [|by intros [= <- <-]].
  unfold bind at 1. rewrite engine_run. cbn [ui win ctx world put_world].
  pose proof (settings_setPaused (Settings.pauseSync st) w2 ltac:(by rewrite E2)) as E3. rewrite E2 in E3.
  unfold id in *. destruct (setPaused dir _ w2) as [[[]|e] w3]; cbn [fst snd] in *; [|by intros [= <- <-]].
  unfold bind at 1. rewrite engine_run. cbn [ui win ctx world put_world].
  pose proof (settings_reloadRoots w3) as E4. rewrite E3 in E4.
  destruct (reloadRoots w3) as [[[]|e] w4]; cbn [fst snd] in *; by intros [= <- <-].
Qed.

Lemma opened_live u f : ended (win (opened u f)) = None /\
  ID_SET_OK ∉ disabled (win (opened u f)) /\ ID_SET_OK ∉ hidden (win (opened u f)).
Proof. split; [vm_compute; reflexivity|]. split; intros Hin; vm_compute in Hin; discriminate Hin. Qed.

Lemma click_enabled {C} (proc : WMsg -> D C unit) bg id s :
  id ∉ disabled (win s) -> id ∉ hidden (win s) ->
  dispatch proc bg (Click id) s = proc (WM_COMMAND id) s.
Proof. intros Hd Hh. cbn [dispatch]. unfold unless_disabled, bind, gets. rewrite bool_decide_false by tauto. done. Qed.

Lemma save_command s : settingsProc dir (WM_COMMAND ID_SET_OK) s = saveClicked dir s.
Proof. reflexivity. Qed.

(** The first click of the user, on Save. *)
Lemma loop_save u v c l fuel : msgs u = Click ID_SET_OK :: l -> ended v = None ->
  ID_SET_OK ∉ disabled v -> ID_SET_OK ∉ hidden v ->
  checks v !! ID_G_PAUSE = Some (Settings.pauseSync (settings_ (world u))) ->
  settings_ (world (ui (loop (settingsProc dir) (background dir) (S (S fuel)) (MkModal u v c)).2)) =
  read_controls v (settings_ (world u)).
Proof.
  intros Hmsgs He Hd Hh Hp. cbn [loop]. unfold bind at 1, gets at 1. cbn [win]. rewrite He.
  unfold bind at 1, next_msg. cbn [ui win ctx]. rewrite Hmsgs. unfold bind at 1.
  rewrite click_enabled, save_command by done. set (s1 := MkModal _ _ _).
  destruct (saveClicked dir s1) as [r s2] eqn:E. apply saveClicked_settings in E as [E Hr]; [|exact Hp].
  destruct r as [[]|e]; [|exact E]. unfold bind at 1, gets at 1. by rewrite Hr.
Qed.

(** [saveSettings] leaves the engine and writes the settings file only. *)
Lemma saveSettings_frame w : exists f, (saveSettings dir w).2 = put_fs f w /\
  forall p, p <> Settings.settingsPath dir -> p <> Settings.tmp_of (Settings.settingsPath dir) ->
    FileSystem.disk f !! p = FileSystem.disk (fs w) !! p.
Proof.
  exists (Settings.save dir (settings_ w) (fs w)).2. split.
  - unfold saveSettings, store_save, bind, gets, on_fs, zoom. by destruct (Settings.save _ _ _) as [[b|e] f].
  - intros p Hp Ht. apply (Settings.SettingsFacts.touches_save dir (settings_ w)). by intros [?|?].
Qed.

Lemma reset_world s : let w := world (ui s) in
  world (ui (resetClicked dir s).2) = w \/
  world (ui (resetClicked dir s).2) = (saveSettings dir (put_settings (clear_location (settings_ w)) w)).2.
Proof.
  cbv zeta. destruct (resetClicked dir s) as [r s'] eqn:Er. cbn [snd]. revert Er.
  unfold resetClicked. unfold bind at 1.
  destruct (on_ui (ask_yes_no reset_question) s) as [[b|e] s1] eqn:E; [|by intros [= <- <-]; left].
  assert (world (ui s1) = world (ui s)) as <- by (injection E as _ <-; done).
  destruct b; [|by intros [= <- <-]; left]. cbn [negb]. unfold bind at 1. cbn [setText update modify].
  unfold bind at 1. rewrite engine_run. cbn [edit_settings modify fst]. rewrite engine_run.
  intros [= <- <-]. by right.
Qed.
End save.
End SettingsDialogFacts.

Module SettingsDialogSpec.
Import SettingsDialogFacts.

Section dialogs.
Context `{Win32TextLaws} `{CNG} `{Json} `{DPAPI} `{LocalTime}.
Context (dir : wstr).

(** C26: the settings dialog shows the settings and Save reads back what it
    shows. Opening the dialog and clicking Save at once leaves, whatever the
    disk, the database and the server do, the settings in their normal form:
    nothing is lost or changed on the way through the controls, neither the
    ignore patterns, one a line, nor the texts, the numbers and the marks. Only
    what the dialog would not have accepted is put right: an interval below
    five seconds, a size that is not a number of whole megabytes, and a session
    mode the program does not have, which becomes the third one. Saving
    again changes nothing any more. *)
Theorem settings_save_untouched u l
    (Hmsgs : msgs u = Click ID_SET_OK :: l) (Hs : presentable (settings_ (world u))) :
  let s := settings_ (world u) in
  settings_ (world (showSettings dir u).2) = settled s /\ settled (settled s) = settled s /\
  (5 <= Settings.syncIntervalFallbackSec s -> 0 <= Settings.sessionMode s <= 2 ->
   (exists mb, 1 <= mb < 2 ^ 31 /\ Settings.maxFileBytes s = mb * 1024 * 1024) -> settled s = s).
Proof.
  intros s. split_and!.
  - unfold showSettings. unfold bind at 1.
    assert (settings_ (world (run_modal (settingsProc dir) (background dir) kTitleSettings (pixelW kSettings)
      (pixelH kSettings) [] u).2) = settled s) as E.
    { unfold run_modal. assert (exists f, begin kTitleSettings (pixelW kSettings) (pixelH kSettings) = Ok f) as [f ->]
        by (eexists; vm_compute; reflexivity).
      unfold bind at 1. change (settingsProc dir WM_INITDIALOG) with settingsInit. rewrite opened_run, Hmsgs.
      destruct (opened_live u f) as (He & Hd & Hh). destruct (opened_checks u f) as (_ & Hp & _).
      pose proof (opened_ui u f) as Hu. pose proof (opened_read u f Hs) as Hr. destruct (opened u f) as [u0 v c].
      cbn [ui win] in *. subst u0. cbn [length].
      pose proof (loop_save dir u v c l (S (length l)) Hmsgs He Hd Hh Hp) as E. rewrite Hr in E.
      by destruct (loop _ _ _ _) as [[r|e] s2]. }
    by destruct (run_modal _ _ _ _ _ _ u) as [[r|e] u'].
  - unfold settled. cbn. f_equal; [unfold settled_interval; lia|apply settled_size_idemp|].
    unfold settled_mode. repeat case_match; try done; lia.
  - intros Hi Hm (mb & Hmb & Hsize). destruct s as [? ? i ? ? ? ? ? size mode]. cbn in *. unfold settled. cbn. f_equal.
    + unfold settled_interval. lia.
    + rewrite Hsize. apply settled_size_whole; lia.
    + unfold settled_mode. destruct (Z.eqb_spec mode 0); [lia|]. destruct (Z.eqb_spec mode 1); lia.
Qed.

(** "Reset local sync state" resets nothing. The question says that the
    local database, the queue and the shadow copies are cleared, and the comment
    that they are deleted on the next start "if the flag is set". There is no
    flag: whatever the user answers, the engine stays as it is, with its tables,
    its key and its session, and no file changes but the settings file; what
    changes in the settings is the location of the database, and with the
    default location not even that. *)
Theorem reset_resets_nothing (s : Modal SettingsCtx) :
  let w := world (ui s) in let w' := world (ui (resetClicked dir s).2) in
  exists f st, w' = put_settings st (put_fs f w) /\
    (st = settings_ w \/ st = clear_location (settings_ w)) /\
    (Settings.databaseLocation (settings_ w) = [] -> st = settings_ w) /\
    (forall p, p <> Settings.settingsPath dir -> p <> Settings.tmp_of (Settings.settingsPath dir) ->
       FileSystem.disk (fs w') !! p = FileSystem.disk (fs w) !! p).
Proof.
  cbv zeta. set (w := world (ui s)). destruct (reset_world dir s) as [E|E]; fold w in E; rewrite E.
  - exists (fs w), (settings_ w). split_and!; [by destruct w|by left|done|done].
  - destruct (saveSettings_frame dir (put_settings (clear_location (settings_ w)) w)) as (f & -> & Hf).
    exists f, (clear_location (settings_ w)). split_and!; [done|by right| |exact Hf].
    unfold clear_location. intros <-. by destruct (settings_ w).
Qed.
End dialogs.

Import Toy.

(** A user who opens the settings and saves them: 1000 bytes become a megabyte,
    the rest stays. *)
Definition toy_saver : Ui := MkUi (world [] Toy.tables Toy.key []) Logger.initial 0 [Click ID_SET_OK] [] [] [] [] [].

Lemma settings_save_untouched_witness :
  let s := settings_ (Window.world (showSettings data_dir toy_saver).2) in
  s = settled Toy.settings /\ Settings.maxFileBytes s = 1024 * 1024 /\
  Settings.backendUrl s = Settings.backendUrl Toy.settings.
Proof.
  assert (forall t, NUL ∉ t -> ascii_str t -> tidy t) as Ht.
  { intros t Hn Ha. split; [|done]. exists t. by apply (@mbtowc_ascii ascii_text ascii_text_laws). }
  assert (presentable Toy.settings) as Hp.
  { split_and!; cbn; try lia; [by constructor|apply Ht; decide_goal|apply Ht; decide_goal|decide_goal]. }
  cbv zeta. rewrite (proj1 (@settings_save_untouched ascii_text ascii_text_laws toy_cng wire_json toy_dpapi toy_time
    data_dir toy_saver [] eq_refl Hp)).
  split_and!; vm_compute; reflexivity.
Defined.

(** With the default location of the database, and the answer Yes. *)
Lemma reset_resets_nothing_witness :
  let w := world [] Toy.tables Toy.key [] in
  let s := MkModal (MkUi w Logger.initial 0 [] [Yes] [] [] [] []) (fresh_window (0, 0)) tab_controls in
  let w' := Window.world (ui (resetClicked data_dir s).2) in
  settings_ w' = settings_ w /\ db w' = db w /\ masterKey_ w' = masterKey_ w.
Proof.
  cbv zeta. set (s := MkModal _ _ _).
  destruct (@reset_resets_nothing ascii_text wire_json data_dir s) as (f & st & -> & _ & Hst & _).
  cbn. rewrite Hst by (vm_compute; reflexivity). done.
Defined.
End SettingsDialogSpec.
