(* ===== verification/DialogViewSpec.v ===== *)
(** * DialogViewSpec: what the windows show

    The lists show the entries their buttons act on, and the buttons act on the
    entry that is highlighted; what a list's buttons have
    to say about a failure is not seen; every control lies inside its window
    and covers no other. *)
From S2P Require Import Prelude Text Platform PathUtil LocalDb Settings Logger DialogLayout.
From S2P Require Import ApiClient EngineState EngineKeys EngineSync EngineRun EngineFacts EngineSpec.
From S2P Require Import Window Dialogs Managers SettingsDialog DialogFacts.
Import Engine EngineKeys EngineSync EngineRun EngineFacts DialogLayout.
Import Window Dialogs Managers SettingsDialog DialogFacts.
Import LocalDb(ConflictState).

#[local] Open Scope monad_scope.

Module DialogViewFacts.

Create HintDb view discriminated.

(** ** Steps that leave a part of the dialog *)

Section leaves.
Context {C X : Type} (f : Modal C -> X).

Definition leaves {A} (m : D C A) : Prop := forall s, f (m s).2 = f s.

Lemma leaves_bind {A B} (m : D C A) (k : A -> D C B) : leaves m -> (forall a, leaves (k a)) -> leaves (bind m k).
Proof.
  intros Hm Hk s. specialize (Hm s). unfold bind. destruct (m s) as [[a|e] s1]; cbn [snd] in *; [|done].
  by rewrite Hk.
Qed.

(** What the user and the engine do is not part of the window. *)
Lemma leaves_ui {A} (m : M Ui A) : (forall u u' v c, f (MkModal u v c) = f (MkModal u' v c)) -> leaves (on_ui m).
Proof. intros Hf [u v c]. unfold on_ui, zoom. cbn. destruct (m u) as [r u']. apply Hf. Qed.

Lemma leaves_still {A} (m : D C A) : (forall s, f (m s).2 = f s) -> leaves m.
Proof. done. Qed.

Lemma leaves_for_each {A} (l : list A) (body : A -> D C unit) :
  (forall x, leaves (body x)) -> leaves (for_each l body).
Proof. intros Hb. induction l as [|x l IH]; [done|]. by apply leaves_bind. Qed.
End leaves.

(** ** The controls of a window *)

Definition frame_part {C} (s : Modal C) : Z * Z * list Control := (frame (win s), controls (win s)).

Section builds.
Context {C : Type}.

(** The controls a step creates. *)
Definition builds (L : list Control) {A} (m : D C A) : Prop := forall s a s', m s = (Ok a, s') ->
  frame (win s') = frame (win s) /\ controls (win s') = controls (win s) ++ L.

Lemma builds_leaves {A} (m : D C A) : leaves frame_part m -> builds [] m.
Proof.
  intros Hm s a s' E. specialize (Hm s). rewrite E in Hm. injection Hm as E1 E2. by rewrite app_nil_r.
Qed.
Lemma builds_bind {A B} L1 L2 (m : D C A) (k : A -> D C B) :
  builds L1 m -> (forall a, builds L2 (k a)) -> builds (L1 ++ L2) (bind m k).
Proof.
  intros Hm Hk s b s' (a & s1 & E1 & E2)%bind_Ok. apply Hm in E1 as [F1 C1]. apply Hk in E2 as [F2 C2].
  split; [congruence|]. by rewrite C2, C1, <- app_assoc.
Qed.
Lemma builds_create k id t x y w h : builds [MkControl k id x y w h t] (create (C := C) k id t x y w h).
Proof. by intros s [] s' [= <-]. Qed.

(** Once built, they stay. *)
Context (proc : WMsg -> D C unit) (bg : op -> M World unit).
Context (L : list Control) (Hinit : builds L (proc WM_INITDIALOG)).
Context (Hproc : forall m, m <> WM_INITDIALOG -> leaves frame_part (proc m)).

Lemma dispatch_frame m : leaves frame_part (dispatch proc bg m).
Proof.
  assert (forall id (k : D C unit), leaves frame_part k -> leaves frame_part (unless_disabled id k)) as Hun.
  { intros id k Hk s. unfold unless_disabled, bind, gets. by destruct (bool_decide _). }
  destruct m as [id|id| |id t|id b|row|tab|ms|o]; cbn [dispatch]; try apply Hun; try (by apply Hproc);
    try (by apply leaves_still).
  - apply leaves_bind; [|intros _; by apply Hproc]. intros s. unfold frame_part. cbn.
    by rewrite (mark_frame frame), (mark_frame controls).
  - by apply leaves_ui.
Qed.

Lemma built_shown title w h c u s : shown proc bg title w h c u s ->
  begin title w h = Ok (frame (win s)) /\ controls (win s) = L.
Proof.
  apply (shown_ind_inv proc bg title w h c u (fun s => begin title w h = Ok (frame (win s)) /\ controls (win s) = L)).
  - intros f s0 Hf E. apply Hinit in E as [-> ->]. done.
  - intros s0 m s1 s2 Hs _ Hn Hd. pose proof (dispatch_frame m s1) as E. rewrite Hd in E. injection E as -> ->.
    by apply next_msg_Ok in Hn as [(_ & _ & ->)|(l & _ & ->)].
Qed.
End builds.

(** What a list dialog shows, and which row is highlighted. *)
Definition list_part {C} (s : Modal C) : list (list wstr) * Z * C := (rows (win s), selected (win s), ctx s).
Definition selection_ok {C} (s : Modal C) : Prop :=
  selected (win s) = -1 \/ 0 <= selected (win s) < Z.of_nat (length (rows (win s))).

Section view.
Context {C : Type} (view : list (list wstr) -> C -> Prop).

Definition viewed (s : Modal C) : Prop := view (rows (win s)) (ctx s) /\ selection_ok s.

(** A step after which the list is in order, if it was before. *)
Definition shows {A} (m : D C A) : Prop := forall s a s', viewed s -> m s = (Ok a, s') -> viewed s'.
(** A step after which it is, in any case. *)
Definition fills {A} (m : D C A) : Prop := forall s a s', m s = (Ok a, s') -> viewed s'.

Lemma shows_leaves {A} (m : D C A) : leaves list_part m -> shows m.
Proof.
  intros Hm s a s' Hv E. specialize (Hm s). rewrite E in Hm. injection Hm as E1 E2 E3.
  unfold viewed, selection_ok. by rewrite E1, E2, E3.
Qed.
Lemma shows_fills {A} (m : D C A) : fills m -> shows m.
Proof. intros Hm s a s' _. apply Hm. Qed.
Lemma shows_bind {A B} (m : D C A) (k : A -> D C B) : shows m -> (forall a, shows (k a)) -> shows (bind m k).
Proof. intros Hm Hk s b s' Hv (a & s1 & E1 & E2)%bind_Ok. eapply Hk; [|exact E2]. by eapply Hm. Qed.
Lemma fills_bind {A B} (m : D C A) (k : A -> D C B) : (forall a, fills (k a)) -> fills (bind m k).
Proof. intros Hk s b s' (a & s1 & E1 & E2)%bind_Ok. by eapply Hk. Qed.
Lemma fills_then {A B} (m : D C A) (k : A -> D C B) : fills m -> (forall a, shows (k a)) -> fills (bind m k).
Proof. intros Hm Hk s b s' (a & s1 & E1 & E2)%bind_Ok. eapply Hk; [|exact E2]. by eapply Hm. Qed.

(** The user's input keeps it, so that it holds as long as the dialog is open. *)
Context (proc : WMsg -> D C unit) (bg : op -> M World unit).
Context (Hinit : fills (proc WM_INITDIALOG)).
Context (Hproc : forall m, shows (proc m)).

Lemma shows_dispatch m : shows (dispatch proc bg m).
Proof.
  assert (forall id (k : D C unit), shows k -> shows (unless_disabled id k)) as Hun.
  { intros id k Hk s [] s' Hv [->|E]%unless_disabled_Ok; [done|by eapply Hk]. }
  destruct m as [id|id| |id t|id b|row|tab|ms|o]; cbn [dispatch]; try apply Hun; try apply Hproc.
  - by apply shows_leaves.
  - apply shows_bind; [|intros _; apply Hproc]. apply shows_leaves. intros s.
    unfold list_part. cbn. by rewrite (mark_frame rows), (mark_frame selected).
  - intros s [] s' [Hv _] [= <-]. split; [exact Hv|]. unfold selection_ok. cbn.
    destruct (_ && _) eqn:E; [right|by left]. to_prop. cbn. lia.
  - by apply shows_leaves.
  - apply shows_leaves. intros s. unfold engine, on_ui, on_engine, zoom. by destruct (bg o _).
Qed.

Lemma viewed_shown title w h c u s : shown proc bg title w h c u s -> viewed s.
Proof.
  apply shown_ind_inv.
  - intros f s0 _. apply Hinit.
  - intros s0 m s1 s2 Hv _ Hn Hd. eapply shows_dispatch; [|exact Hd].
    by apply next_msg_Ok in Hn as [(_ & _ & ->)|(l & _ & ->)].
Qed.
End view.

Ltac leaves_steps :=
  lazymatch goal with
  | |- leaves _ (bind _ _) => apply leaves_bind; [leaves_steps|intros ?; leaves_steps]
  | |- leaves _ (for_each _ _) => apply leaves_for_each; intros ?; leaves_steps
  | |- leaves _ (on_ui _) => by apply leaves_ui
  | |- leaves _ (engine _) => by apply leaves_ui
  | |- leaves _ (match ?x with _ => _ end) => destruct x; leaves_steps
  | |- _ => first [solve [auto with view] | by apply leaves_still]
  end.

(** The controls a procedure creates, one after the other. *)
Ltac builds_steps :=
  lazymatch goal with
  | |- builds _ (bind _ _) => eapply builds_bind; [builds_steps|intros ?; builds_steps]
  | |- builds _ (create _ _ _ _ _ _ _) => apply builds_create
  | |- builds _ (makeLabel _ _ _ _ _ _) => apply builds_create
  | |- builds _ (makeEdit _ _ _ _ _) => apply builds_create
  | |- builds _ (makeButton _ _ _ _ _ _) => apply builds_create
  | |- builds _ (makeRadio _ _ _ _ _ _) => apply builds_create
  | |- _ => apply builds_leaves; leaves_steps
  end.

(** A procedure's branches: those that fill the list and those that leave it. *)
Ltac shows_steps :=
  repeat first
    [ solve [auto with view]
    | apply shows_leaves; solve [leaves_steps]
    | apply shows_bind; [|intros ?]
    | match goal with |- shows _ (match ?x with _ => _ end) => destruct x end ].

(** ** The three lists *)

Section dialogs.
Context `{Win32Text} `{CNG} `{Json} `{DPAPI} `{LocalTime}.
Context (dir : wstr).

(** A failed listing empties the list of devices and keeps the old entries. *)
Definition devices_view (l : list (list wstr)) (devs : list DeviceInfo) : Prop :=
  l = [] \/ l = map device_row devs.
Definition conflicts_view (l : list (list wstr)) (items : list ConflictState) : Prop := l = map conflict_row items.
Definition synced_view (l : list (list wstr)) (c : SyncedFilesCtx) : Prop :=
  l = zip_with (fun e k => [lit (if k : bool then "Folder" else "File"); c_str e.2]) c.1 c.2 /\
  length c.1 = length c.2.

Lemma fills_devices : fills devices_view (fillDevices dir).
Proof.
  intros s [] s'. unfold fillDevices. intros ([] & s1 & [= <-] & E)%bind_Ok.
  apply bind_Ok in E as ([devs err] & s2 & E2 & E). apply zoom_Ok in E2 as (u & _ & ->).
  destruct devs as [devs|]; injection E as <-; split; [by right|by left|by left|by left].
Qed.

Lemma fills_conflicts : fills conflicts_view fillConflicts.
Proof.
  intros s [] s'. unfold fillConflicts. intros ([] & s1 & [= <-] & E)%bind_Ok.
  apply bind_Ok in E as (items & s2 & E2 & E). apply zoom_Ok in E2 as (u & _ & ->).
  injection E as <-. split; [done|by left].
Qed.

Lemma synced_rows_zip l kinds before : length l = length kinds ->
  synced_rows l (before ++ kinds) (length before) =
  zip_with (fun e k => [lit (if k : bool then "Folder" else "File"); c_str e.2]) l kinds.
Proof.
  revert before kinds. induction l as [|[id path] l IH]; intros before [|k kinds] Hl; try done.
  cbn [synced_rows zip_with]. rewrite list_lookup_middle by done. f_equal.
  specialize (IH (before ++ [k]) kinds ltac:(by injection Hl)). rewrite <- app_assoc, length_app, Nat.add_1_r in IH.
  exact IH.
Qed.

Lemma fills_synced : fills synced_view fillSyncedFiles.
Proof.
  intros s [] s'. unfold fillSyncedFiles. intros ([] & s1 & [= <-] & E)%bind_Ok.
  apply bind_Ok in E as (folders & s2 & E2 & E). apply zoom_Ok in E2 as (u & _ & ->).
  apply bind_Ok in E as (files & s3 & E3 & E). apply zoom_Ok in E3 as (u' & _ & ->).
  injection E as <-. split; [|by left]. split.
  - cbn. apply (synced_rows_zip _ _ []). by rewrite !length_app, !length_map.
  - cbn. by rewrite !length_app, !length_map.
Qed.
#[local] Hint Resolve fills_devices fills_conflicts fills_synced shows_fills : view.

Lemma shows_devicesProc m : shows devices_view (devicesProc dir m).
Proof. unfold devicesProc, renameClicked, revokeClicked, devicesInit. shows_steps. Qed.
Lemma shows_conflictsProc m : shows conflicts_view (conflictsProc dir m).
Proof. unfold conflictsProc, resolve, compareClicked, conflictsInit. shows_steps. Qed.
Lemma shows_syncedFilesProc m : shows synced_view (syncedFilesProc dir m).
Proof.
  unfold syncedFilesProc, syncedFilesInit, addFolderClicked, addFileClicked, removeClicked, saveIgnoreClicked.
  shows_steps.
Qed.

(** ** Where the controls are *)

Lemma frame_show_tabs l t tab : leaves frame_part (show_tabs l t tab).
Proof. revert t. induction l as [|ids l IH]; intros t; cbn [show_tabs]; [by apply leaves_still|]. leaves_steps. Qed.
Lemma frame_settingsShowTab tab : leaves frame_part (settingsShowTab tab).
Proof. apply leaves_bind; [by apply leaves_still|]. intros c. apply frame_show_tabs. Qed.

(** Inside the area the header gives the dialog. *)
Definition inside (d : DialogSize) (c : Control) : bool :=
  (0 <=? c_x c) && (0 <=? c_y c) && (0 <? c_w c) && (0 <? c_h c) &&
  (c_x c + c_w c <=? contentRight d) && (c_y c + c_h c <=? contentBottom d).

Definition apart (a b : Control) : bool :=
  (c_x a + c_w a <=? c_x b) || (c_x b + c_w b <=? c_x a) || (c_y a + c_h a <=? c_y b) || (c_y b + c_h b <=? c_y a).

(** Controls of different tabs are never shown together. *)
Definition tab_of (tabs : list (list Z)) (c : Control) : option nat :=
  fst <$> list_find (fun ids => c_id c ∈ ids) tabs.
Definition together (tabs : list (list Z)) (a b : Control) : bool :=
  match tab_of tabs a, tab_of tabs b with Some i, Some j => Nat.eqb i j | _, _ => true end.

Fixpoint all_apart (tabs : list (list Z)) (L : list Control) : bool :=
  match L with
  | [] => true
  | c :: L' => forallb (fun c' => negb (together tabs c c') || apart c c') L' && all_apart tabs L'
  end.

(** The caption of a button, by the header's estimate of its width. *)
Definition caption_fits (c : Control) : bool :=
  match kind c with
  | Button => pushButtonPx (c_text c) <=? c_w c
  | CheckBox | Radio => checkBoxPx (c_text c) <=? c_w c
  | _ => true
  end.

Definition well_laid (d : DialogSize) (tabs : list (list Z)) (L : list Control) : bool :=
  forallb (inside d) L && all_apart tabs L && forallb caption_fits L &&
  (contentRight d <=? fromDlgX (wrap_i16 (toDlgX (pixelW d)))) &&
  (contentBottom d <=? fromDlgY (wrap_i16 (toDlgY (pixelH d)))).

(** The window in every state, with any texts, settings and entries. *)
Definition laid_out {C} (proc : WMsg -> D C unit) (d : DialogSize) (tabs : list (list Z)) : Prop :=
  exists L, well_laid d tabs L = true /\
    forall bg title c u s, shown proc bg title (pixelW d) (pixelH d) c u s ->
      controls (win s) = L /\ contentRight d <= fromDlgX (frame (win s)).1 /\
      contentBottom d <= fromDlgY (frame (win s)).2.

Lemma laid_out_built {C} (proc : WMsg -> D C unit) d tabs L :
  builds L (proc WM_INITDIALOG) -> (forall m, m <> WM_INITDIALOG -> leaves frame_part (proc m)) ->
  well_laid d tabs L = true -> laid_out proc d tabs.
Proof.
  intros Hb Hp Hl. exists L. split; [done|]. intros bg title c u s Hs.
  eapply built_shown in Hs as [Hf Hc]; [|done..]. split; [done|]. unfold begin in Hf.
  destruct (Nat.ltb _ _); [|done]. injection Hf as <-. unfold well_laid in Hl. to_prop. cbn. lia.
Qed.

(** ** What the buttons of a list have to say *)

(** A call of the engine from a dialog. *)
Lemma engine_bind {C A B} (m : M World A) (k : A -> D C B) s :
  bind (engine m) k s =
    let s1 := MkModal (put_world (m (world (ui s))).2 (ui s)) (win s) (ctx s) in
    match (m (world (ui s))).1 with Ok a => k a s1 | Throw e => (Throw e, s1) end.
Proof. unfold bind, engine, on_ui, on_engine, zoom. by destruct (m (world (ui s))) as [[a|e] w]. Qed.

Lemma on_ui_bind {C A B} (m : M Ui A) (k : A -> D C B) s :
  bind (on_ui m) k s =
    let s1 := MkModal (m (ui s)).2 (win s) (ctx s) in
    match (m (ui s)).1 with Ok a => k a s1 | Throw e => (Throw e, s1) end.
Proof. unfold bind, on_ui, zoom. by destruct (m (ui s)) as [[a|e] u]. Qed.

(** The entry of the highlighted row. *)
Definition entry {C A} (entries : C -> list A) (s : Modal C) : option A :=
  if 0 <=? selected (win s) then entries (ctx s) !! Z.to_nat (selected (win s)) else None.

Lemma selected_entry_bind {C A B} (entries : C -> list A) (k : option A -> D C B) s :
  bind (selected_entry (gets (fun s => entries (ctx s)))) k s = k (entry entries s) s.
Proof.
  unfold selected_entry, bind, gets, selection, ret, entry. f_equal.
  destruct (Z.leb_spec 0 (selected (win s))), (Z.ltb_spec (selected (win s)) 0); try lia; [|done]. cbn.
  destruct (Z.leb_spec (Z.of_nat (length (entries (ctx s)))) (selected (win s))); [|done].
  cbn. symmetry. apply lookup_ge_None. lia.
Qed.

(** Filling the list of devices: the listing asked for in the state it starts
    from decides the message under the list. *)
Definition devices_message (devs : option (list DeviceInfo)) (err : str) : wstr :=
  match devs with Some _ => devices_hint | None => widen err end.

Definition relisted (w : World) (s' : Modal (list DeviceInfo)) : Prop :=
  exists devs err, listDevices dir w = (Ok (devs, err), world (ui s')) /\
    texts (win s') !! ID_DEV_MSG = Some (c_str (devices_message devs err)).

Lemma rows_bind {C A} l (k : unit -> D C A) s :
  bind (set_rows l) k s = k tt (set_rows l s).2.
Proof. done. Qed.

Lemma fillDevices_run s :
  world (ui (fillDevices dir s).2) = run dir OListDevices (world (ui s)) /\
  ((fillDevices dir s).1 = Ok tt -> relisted (world (ui s)) (fillDevices dir s).2).
Proof.
  unfold fillDevices. rewrite rows_bind, engine_bind. cbn [ui set_rows update modify snd].
  change (run dir OListDevices (world (ui s))) with (listDevices dir (world (ui s))).2. unfold relisted.
  destruct (listDevices dir (world (ui s))) as [[[devs err]|e] w]; cbn [fst snd]; [|done].
  destruct devs as [devs|]; (split; [reflexivity|]); intros _.
  - exists (Some devs), err. split; [reflexivity|apply lookup_insert_eq].
  - exists None, err. split; [reflexivity|apply lookup_insert_eq].
Qed.

(** Filling the list of conflicts looks only. *)
Definition conflicts_message (items : list ConflictState) : wstr :=
  lit (match items with [] => "No conflicts." | _ => "" end).

Lemma fillConflicts_run s : exists items,
  on_db LocalDb.list_conflicts (world (ui s)) = (Ok items, world (ui (fillConflicts s).2)) /\
  ctx (fillConflicts s).2 = items /\
  texts (win (fillConflicts s).2) !! ID_CF_MSG = Some (conflicts_message items).
Proof.
  unfold fillConflicts. rewrite rows_bind, engine_bind. cbn [ui set_rows update modify snd].
  assert (exists items d, on_db LocalDb.list_conflicts (world (ui s)) = (Ok items, d)) as (items & d & ->).
  { unfold on_db, zoom, LocalDb.list_conflicts, LocalDb.query. destruct (negb _); eauto. }
  exists items. cbn [fst snd]. split_and!; [reflexivity|reflexivity|].
  etransitivity; [apply lookup_insert_eq|]. by destruct items.
Qed.

Lemma fillSyncedFiles_looks s : unread (world (ui (fillSyncedFiles s).2)) = unread (world (ui s)).
Proof.
  unfold fillSyncedFiles, SyncedFilesCtx in *. rewrite rows_bind, engine_bind. cbn [ui set_rows update modify snd].
  pose proof (look_listSyncRoots (world (ui s))) as Hr.
  destruct (listSyncRoots (world (ui s))) as [[folders|e] w1]; cbn [fst snd] in *; [|exact Hr].
  rewrite engine_bind. cbn [ui world put_world]. pose proof (look_listSyncFiles w1) as Hf.
  destruct (listSyncFiles w1) as [[files|e] w2]; cbn [fst snd] in *; (etransitivity; [exact Hf|exact Hr]).
Qed.

(** *** The buttons of the lists *)

(** The engine did these operations, and the dialog only looked besides. *)
Definition acted {C} (s : Modal C) (os : list op) (s' : Modal C) : Prop :=
  asks dir (fun _ _ => False) (world (ui s)) os (world (ui s')).

(** [o], and then the listing, which does not happen when [o] throws. *)
Definition then_listed (o : op) (w : World) (r : outcome unit) (s' : Modal (list DeviceInfo)) : Prop :=
  exists more, asks dir (fun _ _ => False) w (o :: more) (world (ui s')) /\
    more `prefix_of` [OListDevices] /\
    (r = Ok tt -> more = [OListDevices] /\ relisted (run dir o w) s').

Lemma then_listed_run o (m : M World (bool * str)) (k : bool -> str -> D (list DeviceInfo) unit) s :
  (m (world (ui s))).2 = run dir o (world (ui s)) ->
  (forall ok err s1, exists t, k ok err s1 = (Ok tt, MkModal (ui s1) t (ctx s1))) ->
  let out := bind (engine m) (fun '(ok, err) => k ok err ;; fillDevices dir) s in
  then_listed o (world (ui s)) out.1 out.2.
Proof.
  intros Hm Hk out. unfold out. rewrite engine_bind. unfold then_listed. rewrite Hm.
  destruct (m (world (ui s))).1 as [[ok err]|e]; cbn [fst snd].
  - destruct (Hk ok err (MkModal (put_world (run dir o (world (ui s))) (ui s)) (win s) (ctx s))) as [t Et].
    rewrite (bind_run _ _ _ _ _ Et).
    destruct (fillDevices_run (MkModal (put_world (run dir o (world (ui s))) (ui s)) t (ctx s))) as [Ew Hr].
    cbn [ui win ctx world put_world] in *. exists [OListDevices]. split_and!; [|done|auto].
    rewrite Ew. repeat constructor.
  - exists []. split_and!; [repeat constructor|apply prefix_nil|done].
Qed.

Lemma ask_run t u : exists u1,
  ask_yes_no t u = (Ok (bool_decide (head (answers u) = Some Yes)), u1) /\ world u1 = world u.
Proof.
  assert (bool_decide (head (answers u) = Some Yes) = bool_decide (default Cancel (head (answers u)) = Yes)) as ->
    by (apply bool_decide_ext; destruct (head (answers u)); naive_solver).
  eexists. split; reflexivity.
Qed.

(** Revoke. *)
Lemma revoke_run s : let out := revokeClicked dir s in
  match entry (fun devs => devs) s with
  | None => out = (Ok tt, s)
  | Some d =>
      if current d then ui out.2 = ui s /\
        texts (win out.2) !! ID_DEV_MSG = Some (lit "Use Sign Out to remove this device.")
      else if negb (bool_decide (head (answers (ui s)) = Some Yes))
      then world (ui out.2) = world (ui s) /\ win out.2 = win s
      else then_listed (ORevokeDevice (d_id d)) (world (ui s)) out.1 out.2
  end.
Proof.
  intros out. unfold out, revokeClicked. rewrite (selected_entry_bind (fun devs => devs)).
  destruct (entry _ s) as [d|]; [|done]. destruct (current d); [split; [done|apply lookup_insert_eq]|].
  rewrite on_ui_bind. destruct (ask_run (revoke_question d) (ui s)) as (u1 & -> & <-). cbn [fst snd].
  case_bool_decide; cbn [negb]; [|done].
  apply (then_listed_run (ORevokeDevice (d_id d)) (revokeDeviceById dir (d_id d))
    (fun ok err => if ok then ret tt else setText ID_DEV_MSG (widen err)) (MkModal u1 (win s) (ctx s))); [done|].
  intros [] err s1; [exists (win s1); by destruct s1|by eexists].
Qed.

(** Rename; the user's side after the prompt is [u1]. *)
Lemma rename_run s : let out := renameClicked dir s in
  match entry (fun devs => devs) s with
  | None => out = (Ok tt, s)
  | Some d =>
      match prompt dir (lit "Rename device") (lit "New name:") (d_name d) (ui s) with
      | (Ok (Some name), u1) => then_listed (ORenameDevice (d_id d) name) (world u1) out.1 out.2
      | (_, u1) => ui out.2 = u1 /\ win out.2 = win s
      end
  end.
Proof.
  intros out. unfold out, renameClicked. rewrite (selected_entry_bind (fun devs => devs)).
  destruct (entry _ s) as [d|]; [|done]. rewrite on_ui_bind.
  destruct (prompt dir _ _ _ (ui s)) as [[[name|]|e] u1]; cbn [fst snd]; try done.
  apply (then_listed_run (ORenameDevice (d_id d) name) (renameDeviceById dir (d_id d) name)
    (fun ok err => if ok then ret tt else setText ID_DEV_MSG (widen err))
    (MkModal u1 (win s) (ctx s))); [done|].
  intros [] err s1; [exists (win s1); by destruct s1|by eexists].
Qed.

(** Keep Local, Keep Remote, Keep Both. *)
Lemma resolve_run strategy s : let out := resolve dir strategy s in
  match entry (fun items => items) s with
  | None => out = (Ok tt, s)
  | Some c =>
      let o := OResolveConflict (LocalDb.c_fileId c) (lit strategy) in
      acted s [o] out.2 /\
      (out.1 = Ok tt -> exists items,
         on_db LocalDb.list_conflicts (run dir o (world (ui s))) = (Ok items, world (ui out.2)) /\
         texts (win out.2) !! ID_CF_MSG = Some (conflicts_message items))
  end.
Proof.
  intros out. unfold out, resolve. rewrite (selected_entry_bind (fun items => items)).
  destruct (entry _ s) as [c|]; [|done]. cbv zeta. rewrite engine_bind.
  set (m := resolveConflict dir (LocalDb.c_fileId c) (lit strategy)).
  change (run dir (OResolveConflict _ _) (world (ui s))) with (m (world (ui s))).2.
  unfold acted. destruct (m (world (ui s))) as [r w] eqn:E. cbn [fst snd].
  assert (run dir (OResolveConflict (LocalDb.c_fileId c) (lit strategy)) (world (ui s)) = w) as Ew by exact (f_equal snd E).
  destruct r as [[ok err]|e].
  - unfold bind at 1 2, setText at 1 2, update, modify. set (s1 := MkModal _ _ _).
    destruct (fillConflicts_run s1) as (items & Hl & Hc & Ht). split; [|intros _; by exists items].
    apply asks_op. rewrite Ew. eapply asks_look; [|constructor].
    assert (keeps unread (on_db LocalDb.list_conflicts)) as Hq by apply look_query. specialize (Hq w).
    change (world (ui s1)) with w in Hl. by rewrite Hl in Hq.
  - split; [|done]. apply asks_op. rewrite Ew. constructor.
Qed.

(** Remove Selected. *)
Lemma remove_run s : let out := removeClicked s in
  match entry fst s with
  | None => out = (Ok tt, s)
  | Some (id, path) =>
      if bool_decide (head (answers (ui s)) = Some Yes) then acted s [ORemoveRoot id] out.2
      else world (ui out.2) = world (ui s) /\ win out.2 = win s
  end.
Proof.
  intros out. unfold out, removeClicked. rewrite (selected_entry_bind fst).
  destruct (entry fst s) as [[id path]|]; [|done]. rewrite on_ui_bind.
  unfold acted. destruct (ask_run (remove_question path) (ui s)) as (u1 & -> & <-). cbn [fst snd].
  case_bool_decide; [|done].
  unfold SyncedFilesCtx in *. rewrite engine_bind. cbn [ui world].
  assert (run dir (ORemoveRoot id) (world u1) = (removeSyncRootPath id (world u1)).2) as Ew by done.
  destruct (removeSyncRootPath id (world u1)) as [[?|e] w]; cbn [fst snd] in *;
    apply asks_op; rewrite Ew; [|constructor].
  eapply asks_look; [|constructor]. apply fillSyncedFiles_looks.
Qed.
End dialogs.
End DialogViewFacts.

Module DialogViewSpec.
Import DialogViewFacts.

Section dialogs.
Context `{Win32Text} `{CNG} `{Json} `{DPAPI} `{LocalTime}.
Context (dir : wstr).
#[local] Hint Resolve frame_settingsShowTab : view.

(** The highlighted row shows the entry; no row is highlighted exactly when
    there is none. *)
Definition highlights {C A} (entries : C -> list A) (row : A -> nat -> list wstr) (s : Modal C) : Prop :=
  match entry entries s with
  | Some e => exists i, selected (win s) = Z.of_nat i /\ rows (win s) !! i = Some (row e i)
  | None => selected (win s) = -1
  end.

Lemma highlights_view {C A} (entries : C -> list A) row (s : Modal C) :
  selection_ok s -> (rows (win s) = [] \/ rows (win s) = imap (fun i e => row e i) (entries (ctx s))) ->
  highlights entries row s.
Proof.
  intros Hsel Hrows. unfold highlights, entry.
  destruct Hsel as [E|Hs]; [rewrite E; cbn; done|].
  destruct Hrows as [E|E]; [rewrite E in Hs; cbn in Hs; lia|].
  rewrite E in Hs. rewrite length_imap in Hs. rewrite (proj2 (Z.leb_le _ _)) by lia.
  destruct (lookup_lt_is_Some_2 (entries (ctx s)) (Z.to_nat (selected (win s)))) as [e He]; [lia|].
  rewrite He. exists (Z.to_nat (selected (win s))). split; [lia|]. by rewrite E, list_lookup_imap, He.
Qed.

(** The user says yes to the question he is asked next. *)
Definition says_yes {C} (s : Modal C) : Prop := head (answers (ui s)) = Some Yes.

#[export] Instance says_yes_dec {C} (s : Modal C) : Decision (says_yes s).
Proof. unfold says_yes. apply _. Defined.

(** What the buttons of the three lists do in [s]: with no row highlighted
    nothing at all; else the operation, on the entry of the highlighted row. *)
Definition revoke_acts (s : Modal (list DeviceInfo)) : Prop :=
  let out := devicesProc dir (WM_COMMAND ID_DEV_REVOKE) s in
  match entry (fun devs => devs) s with
  | None => out = (Ok tt, s)
  | Some d =>
      if current d then world (ui out.2) = world (ui s)
      else if decide (says_yes s) then then_listed dir (ORevokeDevice (d_id d)) (world (ui s)) out.1 out.2
      else world (ui out.2) = world (ui s)
  end.

Definition rename_acts (s : Modal (list DeviceInfo)) : Prop :=
  let out := devicesProc dir (WM_COMMAND ID_DEV_RENAME) s in
  match entry (fun devs => devs) s with
  | None => out = (Ok tt, s)
  | Some d =>
      match prompt dir (lit "Rename device") (lit "New name:") (d_name d) (ui s) with
      | (Ok (Some name), u1) => then_listed dir (ORenameDevice (d_id d) name) (world u1) out.1 out.2
      | (_, u1) => ui out.2 = u1
      end
  end.

Definition resolve_acts (id : Z) (strategy : string) (s : Modal (list ConflictState)) : Prop :=
  let out := conflictsProc dir (WM_COMMAND id) s in
  match entry (fun items => items) s with
  | None => out = (Ok tt, s)
  | Some c => acted dir s [OResolveConflict (LocalDb.c_fileId c) (lit strategy)] out.2
  end.

Definition remove_acts (s : Modal SyncedFilesCtx) : Prop :=
  let out := syncedFilesProc dir (WM_COMMAND ID_SF_REMOVE) s in
  match entry fst s with
  | None => out = (Ok tt, s)
  | Some (id, _) => if decide (says_yes s) then acted dir s [ORemoveRoot id] out.2 else world (ui out.2) = world (ui s)
  end.

Lemma revoke_acts_all s : revoke_acts s.
Proof.
  unfold revoke_acts. pose proof (revoke_run dir s) as Hr. change (devicesProc _ _ s) with (revokeClicked dir s).
  cbv zeta in *. destruct (entry _ s) as [d|]; [|done]. destruct (current d); [by destruct Hr as [-> _]|].
  destruct (decide (says_yes s)) as [E|E].
  - rewrite bool_decide_true in Hr by done. exact Hr.
  - rewrite bool_decide_false in Hr by done. by destruct Hr.
Qed.

Lemma rename_acts_all s : rename_acts s.
Proof.
  unfold rename_acts. pose proof (rename_run dir s) as Hr. change (devicesProc _ _ s) with (renameClicked dir s).
  cbv zeta in *. destruct (entry _ s) as [d|]; [|done].
  destruct (prompt _ _ _ _ _) as [[[name|]|e] u1]; [done|by destruct Hr..].
Qed.

Lemma resolve_acts_all id strategy s :
  (id, strategy) ∈ [(ID_CF_LOCAL, "keepLocal"%string); (ID_CF_REMOTE, "keepRemote"%string); (ID_CF_BOTH, "keepBoth"%string)] ->
  resolve_acts id strategy s.
Proof.
  intros Hin. unfold resolve_acts. pose proof (resolve_run dir strategy s) as Hr.
  assert (conflictsProc dir (WM_COMMAND id) s = resolve dir strategy s) as ->.
  { rewrite !elem_of_cons in Hin. by destruct Hin as [[= -> ->]|[[= -> ->]|[[= -> ->]|[]%not_elem_of_nil]]]. }
  cbv zeta in *. destruct (entry _ s) as [c|]; [|done]. by destruct Hr.
Qed.

Lemma remove_acts_all s : remove_acts s.
Proof.
  unfold remove_acts. pose proof (remove_run dir s) as Hr. change (syncedFilesProc _ _ s) with (removeClicked s).
  cbv zeta in *. destruct (entry fst s) as [[id path]|]; [|done]. destruct (decide (says_yes s)) as [E|E].
  - rewrite bool_decide_true in Hr by done. exact Hr.
  - rewrite bool_decide_false in Hr by done. by destruct Hr.
Qed.

Lemma imap_map {A B} (f : A -> B) (l : list A) : imap (fun _ e => f e) l = map f l.
Proof. apply list_eq. intros i. by rewrite list_lookup_imap, list_lookup_fmap. Qed.

Lemma zip_with_imap {A B K} (f : K -> A -> B) (l : list A) (kinds : list K) (d : K) : length l = length kinds ->
  zip_with (fun e k => f k e) l kinds = imap (fun i e => f (default d (kinds !! i)) e) l.
Proof.
  intros Hl. apply list_eq. intros i. rewrite lookup_zip_with, list_lookup_imap.
  destruct (l !! i) as [e|] eqn:El; [|done]. apply lookup_lt_Some in El. rewrite Hl in El.
  apply lookup_lt_is_Some_2 in El as [k ->]. done.
Qed.


(** C39: every control is inside its window. For each of the eight dialogs there
    is one list of controls that the dialog has in every state, whatever the
    settings, the texts and the entries: they lie inside the content area that
    the header gives for the dialog, which the frame that Windows makes of the
    16-bit size in dialog units covers; no two that are shown together overlap;
    and by the header's estimate each button, check box and radio button is wide
    enough for its caption. *)
Theorem dialog_controls_fit :
  laid_out promptFrameProc kPrompt [] /\ laid_out (signInProc dir) kSignIn [] /\
  laid_out (pairWaitProc dir) kPair [] /\ laid_out (statusProc dir) kStatus [] /\
  laid_out (devicesProc dir) kDevices [] /\ laid_out (syncedFilesProc dir) kSyncedFiles [] /\
  laid_out (conflictsProc dir) kConflicts [] /\ laid_out (settingsProc dir) kSettings tab_controls.
Proof.
  split_and!.
  - eapply laid_out_built.
    + unfold promptFrameProc, promptFrame, promptProc. builds_steps.
    + intros [] Hm; try done; unfold promptFrameProc, promptProc; leaves_steps.
    + vm_compute. reflexivity.
  - eapply laid_out_built.
    + unfold signInProc, signInInit, makeCheck. builds_steps.
    + intros [] Hm; try done; unfold signInProc, googleTimer, googleClicked, emailClicked, googleOver, setGoogleBusy;
        leaves_steps.
    + vm_compute. reflexivity.
  - eapply laid_out_built.
    + unfold pairWaitProc, pairWaitInit. builds_steps.
    + intros [] Hm; try done; unfold pairWaitProc, pairTimer; leaves_steps.
    + vm_compute. reflexivity.
  - eapply laid_out_built.
    + unfold statusProc, statusInit, fillStatus. builds_steps.
    + intros [] Hm; try done; unfold statusProc, fillStatus; leaves_steps.
    + vm_compute. reflexivity.
  - eapply laid_out_built.
    + unfold devicesProc, devicesInit, fillDevices. builds_steps.
    + intros [] Hm; try done; unfold devicesProc, renameClicked, revokeClicked, fillDevices; leaves_steps.
    + vm_compute. reflexivity.
  - eapply laid_out_built.
    + unfold syncedFilesProc, syncedFilesInit, fillSyncedFiles. builds_steps.
    + intros [] Hm; try done; unfold syncedFilesProc, addFolderClicked, addFileClicked, removeClicked,
        saveIgnoreClicked, fillSyncedFiles; leaves_steps.
    + vm_compute. reflexivity.
  - eapply laid_out_built.
    + unfold conflictsProc, conflictsInit, fillConflicts. builds_steps.
    + intros [] Hm; try done; unfold conflictsProc, resolve, compareClicked, fillConflicts; leaves_steps.
    + vm_compute. reflexivity.
  - eapply laid_out_built.
    + unfold settingsProc, settingsInit, generalTab, filesTab, sessionTab, securityTab, advancedTab, makeCheck,
        CheckRadioButton. builds_steps.
    + intros [] Hm; try done; unfold settingsProc, recoveryClicked, resetClicked, saveClicked; leaves_steps.
    + vm_compute. reflexivity.
Qed.

(** C40: what a list's buttons report is not seen. "Resolved." and the reason why
    a conflict could not be resolved, and the reasons why a device could not be
    renamed or revoked, are written into the message under the list, and filling
    the list again overwrites them before the user sees them. After Keep Local,
    Keep Remote or Keep Both with a row highlighted the message is "No
    conflicts." or empty, by the conflicts that the database has after the
    operation. After a Rename or a Revoke that was confirmed it is, by the answer
    of the listing made in the very state the operation left, the standing hint
    or the failure of that listing. The operation's own outcome does not show,
    whatever it was. *)
Theorem failures_overwritten :
  (forall strategy s s', resolve dir strategy s = (Ok tt, s') ->
     match entry (fun items => items) s with
     | None => s' = s
     | Some c => exists w1 items,
         (resolveConflict dir (LocalDb.c_fileId c) (lit strategy) (world (ui s))).2 = w1 /\
         on_db LocalDb.list_conflicts w1 = (Ok items, world (ui s')) /\
         texts (win s') !! ID_CF_MSG = Some (lit (match items with [] => "No conflicts." | _ => "" end))
     end) /\
  (forall s s', renameClicked dir s = (Ok tt, s') ->
     match entry (fun devs => devs) s with
     | None => s' = s
     | Some d =>
         match prompt dir (lit "Rename device") (lit "New name:") (d_name d) (ui s) with
         | (Ok (Some name), u1) => relisted dir (renameDeviceById dir (d_id d) name (world u1)).2 s'
         | (_, u1) => win s' = win s
         end
     end) /\
  (forall s s', revokeClicked dir s = (Ok tt, s') ->
     match entry (fun devs => devs) s with
     | None => s' = s
     | Some d =>
         if current d then texts (win s') !! ID_DEV_MSG = Some (lit "Use Sign Out to remove this device.")
         else if decide (says_yes s) then relisted dir (revokeDeviceById dir (d_id d) (world (ui s))).2 s'
         else win s' = win s
     end).
Proof.
  split_and!.
  - intros strategy s s' E. pose proof (resolve_run dir strategy s) as Hr. cbv zeta in Hr. rewrite E in Hr.
    cbn [fst snd] in Hr. destruct (entry _ s) as [c|]; [|by injection Hr].
    destruct Hr as [_ Hr]. destruct (Hr eq_refl) as (items & Hl & Ht). by eexists _, items.
  - intros s s' E. pose proof (rename_run dir s) as Hr. cbv zeta in Hr. rewrite E in Hr. cbn [fst snd] in Hr.
    destruct (entry _ s) as [d|]; [|by injection Hr].
    destruct (prompt _ _ _ _ _) as [[[name|]|e] u1]; [|by destruct Hr..].
    destruct Hr as (more & _ & _ & Hr). by destruct (Hr eq_refl).
  - intros s s' E. pose proof (revoke_run dir s) as Hr. cbv zeta in Hr. rewrite E in Hr. cbn [fst snd] in Hr.
    destruct (entry _ s) as [d|]; [|by injection Hr]. destruct (current d); [by destruct Hr|].
    destruct (decide (says_yes s)) as [Ey|Ey].
    + rewrite bool_decide_true in Hr by done. destruct Hr as (more & _ & _ & Hr). by destruct (Hr eq_refl).
    + rewrite bool_decide_false in Hr by done. by destruct Hr.
Qed.
End dialogs.

Import Toy.

Definition toy_ui (t : LocalDb.Tables) (replies : list ApiClient.HttpReply) (m : list Msg) : Ui :=
  MkUi (world [] t Toy.key replies) Logger.initial 0 m [] [] [] [] [].


(** A conflict that the server cannot be asked about: the user sees no reason. *)
Definition toy_conflict : ConflictState := LocalDb.MkConflict (lit "f-1") note_key 2 (lit "C:\notes\a.md") [] 7.
Definition toy_conflicts : Modal (list ConflictState) :=
  MkModal (toy_ui (LocalDb.MkTables ∅ [LocalDb.MkRoot (lit "r1") (lit "C:\notes") true] [] [] 0 [toy_conflict])
             [ApiClient.SendFailed 12029] [])
    (MkWin (0, 0) [] ∅ ∅ ∅ ∅ [conflict_row toy_conflict] 0 ∅ None) [toy_conflict].

Lemma failures_overwritten_witness :
  let out := resolve data_dir "keepRemote" toy_conflicts in
  (exists err, (resolveConflict data_dir (lit "f-1") (lit "keepRemote") (Window.world (ui toy_conflicts))).1
     = Ok (false, err) /\ err <> []) /\
  texts (win out.2) !! ID_CF_MSG = Some [].
Proof.
  cbv zeta. set (out := resolve data_dir "keepRemote" toy_conflicts). split.
  - eexists. split; [vm_compute; reflexivity|discriminate].
  - assert (out.1 = Ok tt) as E by (vm_compute; reflexivity).
    assert (resolve data_dir "keepRemote" toy_conflicts = (Ok tt, out.2)) as Hout
      by (rewrite <- E; apply surjective_pairing).
    pose proof (proj1 (@failures_overwritten ascii_text toy_cng wire_json toy_dpapi toy_time data_dir) "keepRemote"%string
      toy_conflicts out.2 Hout) as Hs.
    change (entry (fun items : list ConflictState => items) toy_conflicts) with (Some toy_conflict) in Hs.
    destruct Hs as (w1 & items & Ew & El & Ht). rewrite Ht. apply (f_equal fst) in El. rewrite <- Ew in El.
    assert ((on_db LocalDb.list_conflicts (resolveConflict data_dir (LocalDb.c_fileId toy_conflict) (lit "keepRemote")
      (Window.world (ui toy_conflicts))).2).1 = Ok [toy_conflict]) as Hl by (vm_compute; reflexivity).
    rewrite Hl in El. injection El as <-. reflexivity.
Defined.
End DialogViewSpec.
